(** * mruby-pack: [Array#pack], [String#unpack] and [String#unpack1]

    A shallow embedding of [pack.c].  Byte strings are lists of integers in
    [0, 256); C integers are mathematical integers whose wrap-around is
    written out where the source relies on it; a call that raises returns
    [Raise], so that every codec and both engines are executable functions. *)

From Stdlib Require Import ZArith List String Ascii Bool Lia.
From Stdlib Require Import Floats.SpecFloat DecimalString.
Import ListNotations.
Local Open Scope Z_scope.

(** ** Outcomes of a call *)

Inductive exc : Type :=
| E_RANGE_ERROR
| E_ARGUMENT_ERROR
| E_TYPE_ERROR
| E_RUNTIME_ERROR.

(** [Undefined] is an access outside the bounds of an object; [OutOfFuel] is a
    loop of the source that had not finished when the iteration bound of the
    embedding ran out. *)
Inductive res (A : Type) : Type :=
| Ok (a : A)
| Raise (e : exc) (msg : string)
| Undefined
| OutOfFuel.

Arguments Ok {A} a.
Arguments Raise {A} e msg.
Arguments Undefined {A}.
Arguments OutOfFuel {A}.

Definition bind {A B : Type} (m : res A) (k : A -> res B) : res B :=
  match m with
  | Ok a => k a
  | Raise e msg => Raise e msg
  | Undefined => Undefined
  | OutOfFuel => OutOfFuel
  end.

Notation "x <- m ;; k" := (bind m (fun x => k))
  (at level 61, m at next level, right associativity).
Notation "' pat <- m ;; k" := (bind m (fun x => match x with pat => k end))
  (at level 61, pat pattern, m at next level, right associativity).

(** ** C integer conversions *)

(** Conversion to an unsigned, respectively signed, integer type of [w] bits. *)
Definition uint (w x : Z) : Z := x mod 2 ^ w.
Definition sint (w x : Z) : Z := (x + 2 ^ (w - 1)) mod 2 ^ w - 2 ^ (w - 1).

(** The byte that a store of [x] through a [char *] leaves in memory. *)
Definition char_byte (x : Z) : Z := x mod 256.

(** ** Build configuration

    The constants that [pack.c] takes from the platform and from mruby's
    configuration headers. *)
Record config : Type := {
  littleendian : bool;     (* the static [littleendian], set by [check_little_endian] *)
  MRB_ENDIAN_BIG : bool;   (* whether the macro is defined *)
  MRB_INT64 : bool;        (* whether the macro is defined *)
  MRB_INT_BIT : Z;         (* width of [_int] *)
  MRB_INT_MIN : Z;
  MRB_INT_MAX : Z;
  sizeof_int : Z           (* [sizeof(int)] in bytes *)
}.

Definition int_cast (cfg : config) (x : Z) : Z := sint (8 * sizeof_int cfg) x.
Definition mrb_int_cast (cfg : config) (x : Z) : Z := sint (MRB_INT_BIT cfg) x.

(** Modelled from the spec: the macros [FIXABLE] and [POSFIXABLE] come from
    mruby's numeric header, which is not part of the sources; section 4.4 says
    that a decoded integer which the native integer representation cannot hold
    is a range error. *)
Definition POSFIXABLE (cfg : config) (f : Z) : bool := f <=? MRB_INT_MAX cfg.
Definition NEGFIXABLE (cfg : config) (f : Z) : bool := MRB_INT_MIN cfg <=? f.
Definition FIXABLE (cfg : config) (f : Z) : bool := POSFIXABLE cfg f && NEGFIXABLE cfg f.

(** A 32-bit [int] with a 64-bit [_int], and the all-32-bit build. *)
Definition cfg64 : config :=
  {| littleendian := true; MRB_ENDIAN_BIG := false; MRB_INT64 := true;
     MRB_INT_BIT := 64; MRB_INT_MIN := - 2 ^ 63; MRB_INT_MAX := 2 ^ 63 - 1;
     sizeof_int := 4 |}.

Definition cfg32 : config :=
  {| littleendian := true; MRB_ENDIAN_BIG := false; MRB_INT64 := false;
     MRB_INT_BIT := 32; MRB_INT_MIN := - 2 ^ 31; MRB_INT_MAX := 2 ^ 31 - 1;
     sizeof_int := 4 |}.

(** The builds the theorems below speak about: [int] has 32 or 64 bits, [_int]
    has 32 or 64 bits and the Fixnum range lies inside it. *)
Definition supported (cfg : config) : Prop :=
  (sizeof_int cfg = 4 \/ sizeof_int cfg = 8) /\
  (MRB_INT_BIT cfg = 32 \/ MRB_INT_BIT cfg = 64) /\
  - 2 ^ (MRB_INT_BIT cfg - 1) <= MRB_INT_MIN cfg /\
  MRB_INT_MIN cfg <= 0 /\ 0 <= MRB_INT_MAX cfg /\
  MRB_INT_MAX cfg < 2 ^ (MRB_INT_BIT cfg - 1).

(** ** Values *)

Definition bstr : Type := list Z.

(** The values an array handed to [pack] holds and [unpack] produces.  A
    [fixnum_value] carries the integer of a Fixnum, which on a build lies
    between [MRB_INT_MIN] and [MRB_INT_MAX]; a [float_value] carries the
    double it denotes; [obj_value] is an object of any other class, of which
    the codec only uses the class path. *)
Inductive value : Type :=
| nil_value
| fixnum_value (n : Z)
| float_value (d : spec_float)
| str_value (s : bstr)
| obj_value (cls : string).

Definition bytes_of_string (s : string) : bstr :=
  map (fun c => Z.of_nat (nat_of_ascii c)) (list_ascii_of_string s).

Definition string_of_Z (z : Z) : string := NilZero.string_of_int (Z.to_int z).

Definition class_path (o : value) : string :=
  match o with
  | nil_value => "NilClass"
  | fixnum_value _ => "Fixnum"
  | float_value _ => "Float"
  | str_value _ => "String"
  | obj_value cls => cls
  end.

(** ** Flags, directive kinds and element types *)

Definition PACK_FLAG_s : Z := 0x00000001.
Definition PACK_FLAG_a : Z := 0x00000002.
Definition PACK_FLAG_Z : Z := 0x00000004.
Definition PACK_FLAG_SIGNED : Z := 0x00000008.
Definition PACK_FLAG_GT : Z := 0x00000010.
Definition PACK_FLAG_LT : Z := 0x00000020.
Definition PACK_FLAG_WIDTH : Z := 0x00000040.
Definition PACK_FLAG_LSB : Z := 0x00000080.
Definition PACK_FLAG_COUNT2 : Z := 0x00000100.
Definition PACK_FLAG_LITTLEENDIAN : Z := 0x00000200.

(** [flags & f] read as a C condition. *)
Definition has_flag (flags f : Z) : bool := negb (Z.land flags f =? 0).

Inductive pack_dir : Type :=
| PACK_DIR_CHAR
| PACK_DIR_SHORT
| PACK_DIR_LONG
| PACK_DIR_QUAD
| PACK_DIR_UTF8
| PACK_DIR_DOUBLE
| PACK_DIR_FLOAT
| PACK_DIR_STR
| PACK_DIR_HEX
| PACK_DIR_BASE64
| PACK_DIR_NUL
| PACK_DIR_INVALID.

Inductive pack_type : Type :=
| PACK_TYPE_INTEGER
| PACK_TYPE_FLOAT
| PACK_TYPE_STRING
| PACK_TYPE_NONE.

Definition PACK_BASE64_IGNORE : Z := 0xff.
Definition PACK_BASE64_PADDING : Z := 0xfe.

(** ** The output string of [pack] *)

Definition RSTRING_LEN (s : bstr) : Z := Z.of_nat (List.length s).

(** [_str_resize] keeps the bytes below the new length; the bytes it adds are
    indeterminate in C and zero here. *)
Definition _str_resize (s : bstr) (n : Z) : bstr :=
  firstn (Z.to_nat n) s ++ repeat 0 (Z.to_nat n - List.length s).

(** [do { n *= 2; } while (len > n);], at most [fuel] times.  [n] is an
    [_int]: the product wraps around at the width of that type, so that a
    doubling that passes [MRB_INT_MAX] leaves a negative number or zero. *)
Fixpoint double_until (cfg : config) (fuel : nat) (n len : Z) : option Z :=
  match fuel with
  | O => None
  | S fuel' =>
      let n' := mrb_int_cast cfg (n * 2) in
      if len >? n' then double_until cfg fuel' n' len else Some n'
  end.

(** After as many doublings as [_int] has bits, [n] is zero and stays zero:
    a loop that has not ended by then never ends. *)
Definition doubling_fuel (cfg : config) : nat := S (Z.to_nat (MRB_INT_BIT cfg)).

Definition str_len_ensure (cfg : config) (str : bstr) (len : Z) : res bstr :=
  let n := RSTRING_LEN str in
  if len <? 0 then Raise E_RANGE_ERROR "negative (or overflowed) integer"
  else if len >? n then
    match double_until cfg (doubling_fuel cfg) n len with
    | Some n' => Ok (_str_resize str n')
    | None => OutOfFuel
    end
  else Ok str.

(** [RSTRING_PTR(str)[i] = b]: a store outside the string is undefined. *)
Fixpoint poke (str : bstr) (i : nat) (b : Z) : res bstr :=
  match str, i with
  | [], _ => Undefined
  | _ :: tl, O => Ok (b :: tl)
  | hd :: tl, S i' => tl' <- poke tl i' b ;; Ok (hd :: tl')
  end.

(** The stores [ptr[idx] = b0; ptr[idx+1] = b1; ...] of a codec, in order. *)
Fixpoint poke_all (str : bstr) (idx : Z) (bs : list Z) : res bstr :=
  match bs with
  | [] => Ok str
  | b :: bs' =>
      if idx <? 0 then Undefined
      else str' <- poke str (Z.to_nat idx) b ;; poke_all str' (idx + 1) bs'
  end.

(** The shape shared by the encoders: make room for [need] bytes after
    [sidx], store [bs] from [sidx] on and return the number of bytes stored. *)
Definition emit (cfg : config) (str : bstr) (sidx need : Z) (bs : list Z)
  : res (bstr * Z) :=
  str1 <- str_len_ensure cfg str (mrb_int_cast cfg (sidx + need)) ;;
  str2 <- poke_all str1 sidx bs ;;
  Ok (str2, Z.of_nat (List.length bs)).

(** ** Numeric coercions of the host *)

(** Modelled from the spec: [_to_int] and [_to_flo] belong to mruby's core,
    which is not part of the sources; section 4.2 names them a standard
    numeric-conversion collaborator whose failure raises a type error.  A
    Fixnum converts to itself and a Float to the integer it truncates to,
    provided that is a Fixnum. *)
Definition float_trunc (d : spec_float) : option Z :=
  match d with
  | S754_zero _ => Some 0
  | S754_finite s m e =>
      let a := match e with
               | Zneg p => Zpos m / 2 ^ Zpos p
               | _ => Zpos m * 2 ^ e
               end in
      Some (if s then - a else a)
  | _ => None
  end.

Definition _to_int (cfg : config) (o : value) : res value :=
  match o with
  | fixnum_value n => Ok (fixnum_value n)
  | float_value d =>
      match float_trunc d with
      | Some n =>
          if FIXABLE cfg n then Ok (fixnum_value n)
          else Raise E_RANGE_ERROR "number too big for integer"
      | None => Raise E_RANGE_ERROR "float is not finite"
      end
  | _ => Raise E_TYPE_ERROR ("can't convert " ++ class_path o ++ " to Integer")
  end.

Definition _to_flo (o : value) : res spec_float :=
  match o with
  | fixnum_value n => Ok (binary_normalize 53 1024 n 0 false)
  | float_value d => Ok d
  | _ => Raise E_TYPE_ERROR "non float value"
  end.

Definition _fixnum (o : value) : Z :=
  match o with fixnum_value n => n | _ => 0 end.

Definition _float (o : value) : spec_float :=
  match o with float_value d => d | _ => S754_zero false end.

Definition _float_p (o : value) : bool :=
  match o with float_value _ => true | _ => false end.

Definition _string_p (o : value) : bool :=
  match o with str_value _ => true | _ => false end.

Definition RSTRING (o : value) : bstr :=
  match o with str_value s => s | _ => [] end.

(** ** IEEE-754 images of [float] and [double]

    [ieee_bits mw ew] is the bit pattern of a number of the format with [mw]
    mantissa and [ew] exponent bits, [ieee_value] its inverse.  The numbers,
    the zeros and the infinities have the bit pattern that the source copies.
    A NaN keeps neither sign nor payload: the one value [S754_nan] stands for
    every NaN and is given the pattern of the quiet NaN without sign and
    payload, whereas the source copies the sign and the payload of a NaN with
    its other bits.  The statements that name the bytes of a double leave the
    NaN out. *)
Definition ieee_bits (mw ew : Z) (f : spec_float) : Z :=
  let top := 2 ^ ew - 1 in
  let bias := 2 ^ (ew - 1) - 1 in
  let sign (s : bool) := if s then 2 ^ (mw + ew) else 0 in
  match f with
  | S754_zero s => sign s
  | S754_infinity s => sign s + top * 2 ^ mw
  | S754_nan => top * 2 ^ mw + 2 ^ (mw - 1)
  | S754_finite s m e =>
      if Zpos m <? 2 ^ mw then sign s + Zpos m
      else sign s + (e + bias + mw) * 2 ^ mw + (Zpos m - 2 ^ mw)
  end.

Definition ieee_value (mw ew : Z) (bits : Z) : spec_float :=
  let s := Z.testbit bits (mw + ew) in
  let e := (bits / 2 ^ mw) mod 2 ^ ew in
  let m := bits mod 2 ^ mw in
  let bias := 2 ^ (ew - 1) - 1 in
  if e =? 0 then
    match m with
    | Zpos p => S754_finite s p (1 - bias - mw)
    | _ => S754_zero s
    end
  else if e =? 2 ^ ew - 1 then
    if m =? 0 then S754_infinity s else S754_nan
  else
    match m + 2 ^ mw with
    | Zpos p => S754_finite s p (e - bias - mw)
    | _ => S754_nan
    end.

(** [(float)d] and [(double)f]. *)
Definition float_of_double (d : spec_float) : spec_float :=
  match d with
  | S754_finite s m e => binary_round 24 128 s m e
  | _ => d
  end.

Definition double_of_float (f : spec_float) : spec_float :=
  match f with
  | S754_finite s m e => binary_round 53 1024 s m e
  | _ => f
  end.

(** The [n] bytes of [x], least significant first. *)
Fixpoint le_bytes (n : nat) (x : Z) : list Z :=
  match n with
  | O => []
  | S n' => x mod 256 :: le_bytes n' (x / 256)
  end.

Fixpoint le_value (bs : list Z) : Z :=
  match bs with
  | [] => 0
  | b :: bs' => b + 256 * le_value bs'
  end.

(** The object representation [(uint8_t * )&d] on this host. *)
Definition host_bytes (cfg : config) (n : nat) (bits : Z) : list Z :=
  if littleendian cfg then le_bytes n bits else rev (le_bytes n bits).

Definition host_value (cfg : config) (bs : list Z) : Z :=
  if littleendian cfg then le_value bs else le_value (rev bs).

(** ** 8-bit integers *)

Definition src_at (src : bstr) (i : nat) : Z := nth i src 0.

Definition pack_c (cfg : config) (o : value) (str : bstr) (sidx flags : Z)
  : res (bstr * Z) :=
  emit cfg str sidx 1 [char_byte (_fixnum o)].

Definition unpack_c (src : bstr) (srclen : Z) (ary : list value) (flags : Z)
  : res (list value * Z) :=
  if has_flag flags PACK_FLAG_SIGNED
  then Ok (ary ++ [fixnum_value (sint 8 (src_at src 0))], 1)
  else Ok (ary ++ [fixnum_value (src_at src 0)], 1).

(** ** 16-bit integers *)

Definition pack_s (cfg : config) (o : value) (str : bstr) (sidx flags : Z)
  : res (bstr * Z) :=
  let n := uint 16 (_fixnum o) in
  if has_flag flags PACK_FLAG_LITTLEENDIAN
  then emit cfg str sidx 2 [char_byte (n mod 256); char_byte (n / 256)]
  else emit cfg str sidx 2 [char_byte (n / 256); char_byte (n mod 256)].

Definition unpack_s (cfg : config) (src : bstr) (srclen : Z) (ary : list value)
  (flags : Z) : res (list value * Z) :=
  let n :=
    if has_flag flags PACK_FLAG_LITTLEENDIAN
    then int_cast cfg (src_at src 1 * 256 + src_at src 0)
    else int_cast cfg (src_at src 0 * 256 + src_at src 1) in
  let n :=
    if has_flag flags PACK_FLAG_SIGNED && (n >=? 0x8000)
    then int_cast cfg (n - 0x10000) else n in
  Ok (ary ++ [fixnum_value n], 2).

(** ** 32-bit integers *)

Definition pack_l (cfg : config) (o : value) (str : bstr) (sidx flags : Z)
  : res (bstr * Z) :=
  let n := uint 32 (_fixnum o) in
  if has_flag flags PACK_FLAG_LITTLEENDIAN
  then emit cfg str sidx 4
         [char_byte (Z.land n 0xff); char_byte (Z.shiftr n 8);
          char_byte (Z.shiftr n 16); char_byte (Z.shiftr n 24)]
  else emit cfg str sidx 4
         [char_byte (Z.shiftr n 24); char_byte (Z.shiftr n 16);
          char_byte (Z.shiftr n 8); char_byte (Z.land n 0xff)].

Definition unpack_l (cfg : config) (src : bstr) (srclen : Z) (ary : list value)
  (flags : Z) : res (list value * Z) :=
  let ul :=
    if has_flag flags PACK_FLAG_LITTLEENDIAN then
      let ul := uint 32 (src_at src 3 * 256 * 256 * 256) in
      let ul := uint 32 (ul + uint 32 (src_at src 2 * 256 * 256)) in
      let ul := uint 32 (ul + uint 32 (src_at src 1 * 256)) in
      uint 32 (ul + src_at src 0)
    else
      let ul := uint 32 (src_at src 0 * 256 * 256 * 256) in
      let ul := uint 32 (ul + uint 32 (src_at src 1 * 256 * 256)) in
      let ul := uint 32 (ul + uint 32 (src_at src 2 * 256)) in
      uint 32 (ul + src_at src 3) in
  if has_flag flags PACK_FLAG_SIGNED then
    let sl := sint 32 ul in
    if negb (MRB_INT64 cfg) && negb (FIXABLE cfg sl)
    then Raise E_RANGE_ERROR ("cannot unpack to Fixnum: " ++ string_of_Z sl)
    else Ok (ary ++ [fixnum_value (mrb_int_cast cfg sl)], 4)
  else
    if negb (MRB_INT64 cfg) && negb (POSFIXABLE cfg ul)
    then Raise E_RANGE_ERROR ("cannot unpack to Fixnum: " ++ string_of_Z ul)
    else Ok (ary ++ [fixnum_value (mrb_int_cast cfg ul)], 4).

(** ** 64-bit integers *)

Definition pack_q (cfg : config) (o : value) (str : bstr) (sidx flags : Z)
  : res (bstr * Z) :=
  let n := uint 64 (_fixnum o) in
  if has_flag flags PACK_FLAG_LITTLEENDIAN
  then emit cfg str sidx 8
         [char_byte (Z.land n 0xff); char_byte (Z.shiftr n 8);
          char_byte (Z.shiftr n 16); char_byte (Z.shiftr n 24);
          char_byte (Z.shiftr n 32); char_byte (Z.shiftr n 40);
          char_byte (Z.shiftr n 48); char_byte (Z.shiftr n 56)]
  else emit cfg str sidx 8
         [char_byte (Z.shiftr n 56); char_byte (Z.shiftr n 48);
          char_byte (Z.shiftr n 40); char_byte (Z.shiftr n 32);
          char_byte (Z.shiftr n 24); char_byte (Z.shiftr n 16);
          char_byte (Z.shiftr n 8); char_byte (Z.land n 0xff)].

(** [for (i = 0; i < 8; i++) { ull = ull * 256 + src[pos]; pos += step; }] *)
Fixpoint unpack_q_loop (i : nat) (src : bstr) (pos step ull : Z) : Z :=
  match i with
  | O => ull
  | S i' =>
      unpack_q_loop i' src (pos + step) step
        (uint 64 (uint 64 (ull * 256) + src_at src (Z.to_nat pos)))
  end.

Definition unpack_q (cfg : config) (src : bstr) (srclen : Z) (ary : list value)
  (flags : Z) : res (list value * Z) :=
  let '(pos, step) :=
    if has_flag flags PACK_FLAG_LITTLEENDIAN then (7, -1) else (0, 1) in
  let ull := unpack_q_loop 8 src pos step 0 in
  if has_flag flags PACK_FLAG_SIGNED then
    let sll := sint 64 ull in
    if negb (FIXABLE cfg sll)
    then Raise E_RANGE_ERROR ("cannot unpack to Fixnum: " ++ string_of_Z sll)
    else Ok (ary ++ [fixnum_value (mrb_int_cast cfg sll)], 8)
  else
    if negb (POSFIXABLE cfg ull)
    then Raise E_RANGE_ERROR ("cannot unpack to Fixnum: " ++ string_of_Z ull)
    else Ok (ary ++ [fixnum_value (mrb_int_cast cfg ull)], 8).

(** ** Floating point *)

(** The branch that the source takes when it copies between the object
    representation and the string: a plain [memcpy], or the byte-reversing
    loop. *)
Definition float_order (cfg : config) (flags : Z) (buffer : list Z) : list Z :=
  if has_flag flags PACK_FLAG_LITTLEENDIAN
  then (if MRB_ENDIAN_BIG cfg then rev buffer else buffer)
  else (if MRB_ENDIAN_BIG cfg then buffer else rev buffer).

Definition pack_double (cfg : config) (o : value) (str : bstr) (sidx flags : Z)
  : res (bstr * Z) :=
  let buffer := host_bytes cfg 8 (ieee_bits 52 11 (_float o)) in
  emit cfg str sidx 8 (float_order cfg flags buffer).

Definition unpack_double (cfg : config) (src : bstr) (srclen : Z)
  (ary : list value) (flags : Z) : res (list value * Z) :=
  let buffer := float_order cfg flags (firstn 8 (src ++ repeat 0 8)) in
  let d := ieee_value 52 11 (host_value cfg buffer) in
  Ok (ary ++ [float_value d], 8).

Definition pack_float (cfg : config) (o : value) (str : bstr) (sidx flags : Z)
  : res (bstr * Z) :=
  let f := float_of_double (_float o) in
  let buffer := host_bytes cfg 4 (ieee_bits 23 8 f) in
  emit cfg str sidx 4 (float_order cfg flags buffer).

Definition unpack_float (cfg : config) (src : bstr) (srclen : Z)
  (ary : list value) (flags : Z) : res (list value * Z) :=
  let buffer := float_order cfg flags (firstn 4 (src ++ repeat 0 4)) in
  let f := ieee_value 23 8 (host_value cfg buffer) in
  Ok (ary ++ [float_value (double_of_float f)], 4).

(** ** UTF-8 *)

Definition pack_utf8 (cfg : config) (o : value) (str : bstr)
  (sidx count flags : Z) : res (bstr * Z) :=
  if _float_p o then Raise E_RANGE_ERROR "pack(U): value out of range"
  else
    let c := uint 32 (_fixnum o) in
    if c <? 0x80 then
      emit cfg str sidx 1 [char_byte c]
    else if c <? 0x800 then
      emit cfg str sidx 2
        [char_byte (Z.lor 0xC0 (Z.shiftr c 6));
         char_byte (Z.lor 0x80 (Z.land c 0x3F))]
    else if c <? 0x10000 then
      emit cfg str sidx 3
        [char_byte (Z.lor 0xE0 (Z.shiftr c 12));
         char_byte (Z.lor 0x80 (Z.land (Z.shiftr c 6) 0x3F));
         char_byte (Z.lor 0x80 (Z.land c 0x3F))]
    else if c <? 0x200000 then
      emit cfg str sidx 4
        [char_byte (Z.lor 0xF0 (Z.shiftr c 18));
         char_byte (Z.lor 0x80 (Z.land (Z.shiftr c 12) 0x3F));
         char_byte (Z.lor 0x80 (Z.land (Z.shiftr c 6) 0x3F));
         char_byte (Z.lor 0x80 (Z.land c 0x3F))]
    else Raise E_RANGE_ERROR "pack(U): value out of range".

Definition utf8_limits : list Z :=
  [0x0; 0x80; 0x800; 0x10000; 0x200000; 0x4000000; 0x80000000].

(** [while (n--) { c = *p++ & 0xff; ... }] over the continuation bytes. *)
Fixpoint utf8_tail (n : nat) (p : bstr) (uv : Z) : res Z :=
  match n with
  | O => Ok uv
  | S n' =>
      let c := Z.land (hd 0 p) 0xff in
      if negb (Z.land c 0xc0 =? 0x80)
      then Raise E_ARGUMENT_ERROR "malformed UTF-8 character"
      else utf8_tail n' (tl p) (Z.lor (Z.shiftl uv 6) (Z.land c 0x3f))
  end.

(** Returns the code point together with the final value of [*lenp]. *)
Definition utf8_to_uv (p : bstr) (lenp : Z) : res (Z * Z) :=
  let uv := Z.land (hd 0 p) 0xff in
  if Z.land uv 0x80 =? 0 then Ok (uv, 1)
  else if Z.land uv 0x40 =? 0
  then Raise E_ARGUMENT_ERROR "malformed UTF-8 character"
  else
    let lead :=
      if Z.land uv 0x20 =? 0 then Some (2, Z.land uv 0x1f)
      else if Z.land uv 0x10 =? 0 then Some (3, Z.land uv 0x0f)
      else if Z.land uv 0x08 =? 0 then Some (4, Z.land uv 0x07)
      else if Z.land uv 0x04 =? 0 then Some (5, Z.land uv 0x03)
      else if Z.land uv 0x02 =? 0 then Some (6, Z.land uv 0x01)
      else None in
    match lead with
    | None => Raise E_ARGUMENT_ERROR "malformed UTF-8 character"
    | Some (n, uv) =>
        if n >? lenp then
          Raise E_ARGUMENT_ERROR
            ("malformed UTF-8 character (expected " ++ string_of_Z n
             ++ " bytes, given " ++ string_of_Z lenp ++ " bytes)")
        else
          uv <- utf8_tail (Z.to_nat (n - 1)) (tl p) uv ;;
          if uv <? nth (Z.to_nat (n - 1)) utf8_limits 0
          then Raise E_ARGUMENT_ERROR "redundant UTF-8 sequence"
          else Ok (uv, n)
    end.

Definition unpack_utf8 (cfg : config) (src : bstr) (srclen : Z)
  (ary : list value) (flags : Z) : res (list value * Z) :=
  if srclen =? 0 then Ok (ary, 1)
  else
    '(uv, lenp) <- utf8_to_uv src srclen ;;
    Ok (ary ++ [fixnum_value (mrb_int_cast cfg uv)], int_cast cfg lenp).

(** ** Strings: [A], [a] and [Z] *)

Definition chr (c : ascii) : Z := Z.of_nat (nat_of_ascii c).

Definition isspace (c : Z) : bool := ((9 <=? c) && (c <=? 13)) || (c =? 32).

Definition pack_a (cfg : config) (src : value) (dst : bstr)
  (didx count flags : Z) : res (bstr * Z) :=
  let sptr := RSTRING src in
  let slen := RSTRING_LEN sptr in
  let pad :=
    if has_flag flags PACK_FLAG_a || has_flag flags PACK_FLAG_Z
    then 0 else chr " " in
  if count =? 0 then Ok (dst, 0)
  else
    let '(copylen, padlen) :=
      if count =? -1 then (slen, if has_flag flags PACK_FLAG_Z then 1 else 0)
      else if count <? slen then (count, 0)
      else (slen, count - slen) in
    emit cfg dst didx (copylen + padlen)
      (firstn (Z.to_nat copylen) sptr ++ repeat pad (Z.to_nat padlen)).

(** [memchr(sptr, '\0', slen)], as an offset. *)
Fixpoint memchr0 (sptr : bstr) (slen : nat) : option Z :=
  match slen, sptr with
  | S slen', c :: rest =>
      if c =? 0 then Some 0
      else match memchr0 rest slen' with
           | Some i => Some (i + 1)
           | None => None
           end
  | _, _ => None
  end.

(** [while (copylen > 0 && (sptr[copylen-1] == '\0' || isspace(...))) copylen--;] *)
Fixpoint rtrim (sptr : bstr) (copylen : nat) : nat :=
  match copylen with
  | O => O
  | S k =>
      if (src_at sptr k =? 0) || isspace (src_at sptr k)
      then rtrim sptr k else copylen
  end.

Definition unpack_a (src : bstr) (slen : Z) (ary : list value)
  (count flags : Z) : res (list value * Z) :=
  let slen := if negb (count =? -1) && (count <? slen) then count else slen in
  let copylen := slen in
  let '(copylen, slen) :=
    if (slen >=? 0) && has_flag flags PACK_FLAG_Z then
      match memchr0 src (Z.to_nat slen) with
      | Some cp => (cp, if count =? -1 then cp + 1 else slen)
      | None => (copylen, slen)
      end
    else if negb (has_flag flags PACK_FLAG_a) then
      (if copylen >? 0 then Z.of_nat (rtrim src (Z.to_nat copylen)) else copylen,
       slen)
    else (copylen, slen) in
  let copylen := if copylen <? 0 then 0 else copylen in
  Ok (ary ++ [str_value (firstn (Z.to_nat copylen) src)], slen).

(** ** Hexadecimal strings: [H] and [h] *)

Definition hex2int (ch : Z) : Z :=
  if (chr "0" <=? ch) && (ch <=? chr "9") then ch - chr "0"
  else if (chr "A" <=? ch) && (ch <=? chr "F") then 10 + (ch - chr "A")
  else if (chr "a" <=? ch) && (ch <=? chr "f") then 10 + (ch - chr "a")
  else 0.

Definition nibble_shifts (flags : Z) : Z * Z :=
  if has_flag flags PACK_FLAG_LSB then (0, 4) else (4, 0).

(** [for (; count > 0; count -= 2) { ... }] *)
Fixpoint pack_h_loop (fuel : nat) (sptr : bstr) (slen count ashift bshift : Z)
  : list Z :=
  match fuel with
  | O => []
  | S fuel' =>
      if count >? 0 then
        let '(a, sptr, slen) :=
          if slen >? 0 then (hex2int (hd 0 sptr), tl sptr, slen - 1)
          else (0, sptr, slen) in
        let '(b, sptr, slen) :=
          if slen >? 0 then (hex2int (hd 0 sptr), tl sptr, slen - 1)
          else (0, sptr, slen) in
        char_byte (Z.shiftl a ashift + Z.shiftl b bshift)
          :: pack_h_loop fuel' sptr slen (count - 2) ashift bshift
      else []
  end.

Definition pack_h (cfg : config) (src : value) (dst : bstr)
  (didx count flags : Z) : res (bstr * Z) :=
  let sptr := RSTRING src in
  let slen := RSTRING_LEN sptr in
  let '(ashift, bshift) := nibble_shifts flags in
  let '(count, slen) :=
    if count =? -1 then (slen, slen)
    else if slen >? count then (count, count)
    else (count, slen) in
  emit cfg dst didx count
    (pack_h_loop (Z.to_nat count) sptr slen count ashift bshift).

(** Modelled from the spec: [_str_new] belongs to mruby's string
    implementation, the growable byte-buffer collaborator of section 6, which
    is not part of the sources; a request for a negative size is refused with
    an argument error. *)
Definition _str_new_size (len : Z) : res unit :=
  if len <? 0 then Raise E_ARGUMENT_ERROR "negative (or overflowed) string size"
  else Ok tt.

Definition hexadecimal : bstr := bytes_of_string "0123456789abcdef".

(** [while (slen > 0 && count > 0) { ... }]; returns the digits written and
    the number of source bytes read. *)
Fixpoint unpack_h_loop (sptr : bstr) (slen count ashift bshift : Z)
  : list Z * Z :=
  match sptr with
  | [] => ([], 0)
  | c :: sptr' =>
      if (slen >? 0) && (count >? 0) then
        let a := Z.land (Z.shiftr c ashift) 0x0f in
        let b := Z.land (Z.shiftr c bshift) 0x0f in
        let count := count - 1 in
        let hi := nth (Z.to_nat a) hexadecimal 0 in
        if count >? 0 then
          let '(ds, n) := unpack_h_loop sptr' (slen - 1) (count - 1) ashift bshift in
          (hi :: nth (Z.to_nat b) hexadecimal 0 :: ds, n + 1)
        else
          let '(ds, n) := unpack_h_loop sptr' (slen - 1) count ashift bshift in
          (hi :: ds, n + 1)
      else ([], 0)
  end.

Definition unpack_h (cfg : config) (src : bstr) (slen : Z) (ary : list value)
  (count flags : Z) : res (list value * Z) :=
  let '(ashift, bshift) := nibble_shifts flags in
  let count := if count =? -1 then int_cast cfg (slen * 2) else count in
  _ <- _str_new_size count ;;
  let '(ds, n) := unpack_h_loop src slen count ashift bshift in
  Ok (ary ++ [str_value ds], n).

(** ** Base64: [m] *)

Definition base64chars : bstr :=
  bytes_of_string "ABCDEFGHIJKLMNOPQRSTUVWXYZabcdefghijklmnopqrstuvwxyz0123456789+/".

Definition b64 (i : Z) : Z := nth (Z.to_nat i) base64chars 0.

Fixpoint set_nth (l : list Z) (i : nat) (v : Z) : list Z :=
  match l, i with
  | [], _ => []
  | _ :: tl, O => v :: tl
  | hd :: tl, S i' => hd :: set_nth tl i' v
  end.

(** [for (i = 0; i < n; i++) tab[base + i] = i + off;] *)
Fixpoint fill_run (tab : list Z) (base off : Z) (n : nat) : list Z :=
  match n with
  | O => tab
  | S n' =>
      set_nth (fill_run tab base off n') (Z.to_nat (base + Z.of_nat n'))
              (Z.of_nat n' + off)
  end.

Definition make_base64_dec_tab : list Z :=
  let tab := repeat PACK_BASE64_IGNORE 128 in
  let tab := fill_run tab (chr "A") 0 26 in
  let tab := fill_run tab (chr "a") 26 26 in
  let tab := fill_run tab (chr "0") 52 10 in
  let tab := set_nth tab (Z.to_nat (chr "+")) 62 in
  let tab := set_nth tab (Z.to_nat (chr "/")) 63 in
  set_nth tab (Z.to_nat (chr "=")) PACK_BASE64_PADDING.

(** The static table after [_mruby_pack_gem_init]. *)
Definition base64_dec_tab : list Z := Eval cbv in make_base64_dec_tab.

(** The line length that [pack_m] derives from the directive's count. *)
Definition pack_m_count (count : Z) : Z :=
  if negb (count =? 0) && (count <? 3) then 45
  else if count >=? 3 then count - Z.rem count 3
  else count.

Definition pack_m_newline (column count : Z) : list Z :=
  if (column >? 0) && (count >? 0) then [chr "010"] else [].

(** The encoding loop of [pack_m], the two partial groups and the closing
    newline; [column] and [count] are the variables of the source. *)
Fixpoint pack_m_loop (src : bstr) (column count : Z) : list Z :=
  match src with
  | c0 :: c1 :: c2 :: rest =>
      let l := Z.shiftl c0 16 + Z.shiftl c1 8 + c2 in
      b64 (Z.land (Z.shiftr l 18) 0x3f) :: b64 (Z.land (Z.shiftr l 12) 0x3f)
      :: b64 (Z.land (Z.shiftr l 6) 0x3f) :: b64 (Z.land l 0x3f)
      :: (if column =? count
          then chr "010" :: pack_m_loop rest (0 + 3) count
          else pack_m_loop rest (column + 3) count)
  | [c0] =>
      let l := Z.shiftl c0 16 in
      [b64 (Z.land (Z.shiftr l 18) 0x3f); b64 (Z.land (Z.shiftr l 12) 0x3f);
       chr "="; chr "="] ++ pack_m_newline (column + 3) count
  | [c0; c1] =>
      let l := Z.shiftl c0 16 + Z.shiftl c1 8 in
      [b64 (Z.land (Z.shiftr l 18) 0x3f); b64 (Z.land (Z.shiftr l 12) 0x3f);
       b64 (Z.land (Z.shiftr l 6) 0x3f); chr "="]
      ++ pack_m_newline (column + 3) count
  | [] => pack_m_newline column count
  end.

(** The bytes that [pack_m] stores for a source string and a directive
    count. *)
Definition pack_m_bytes (src : bstr) (count : Z) : list Z :=
  match src with
  | [] => []
  | _ => pack_m_loop src 3 (pack_m_count count)
  end.

Definition pack_m (cfg : config) (src : value) (dst : bstr)
  (didx count flags : Z) : res (bstr * Z) :=
  let srcptr := RSTRING src in
  let srclen := RSTRING_LEN srcptr in
  if srclen =? 0 then Ok (dst, 0)
  else
    let count' := pack_m_count count in
    let dstlen := Z.quot (srclen + 2) 3 * 4 in
    let dstlen :=
      if count' >? 0
      then dstlen + Z.quot srclen count'
           + (if Z.rem srclen count' =? 0 then 0 else 1)
      else dstlen in
    emit cfg dst didx dstlen (pack_m_bytes srcptr count).

(** One pass of the [do ... while] that fetches a symbol: [None] is the jump
    to [done]; otherwise the symbol, the rest of the source, [slen], the
    padding seen and the bytes read so far. *)
Fixpoint unpack_m_sym (sptr : bstr) (slen padding n : Z)
  : option Z * bstr * Z * Z * Z :=
  match sptr with
  | [] => (None, sptr, slen, padding, n)
  | c :: sptr' =>
      if slen =? 0 then (None, sptr, slen, padding, n)
      else if c >=? 128 then unpack_m_sym sptr' (slen - 1) padding (n + 1)
      else
        let ch := nth (Z.to_nat c) base64_dec_tab 0 in
        if ch =? PACK_BASE64_PADDING
        then (Some 0, sptr', slen - 1, padding + 1, n + 1)
        else if ch =? PACK_BASE64_IGNORE
        then unpack_m_sym sptr' (slen - 1) padding (n + 1)
        else (Some ch, sptr', slen - 1, padding, n + 1)
  end.

(** [while (slen >= 4) { ... }]; returns the bytes decoded and the number of
    source bytes read. *)
Fixpoint unpack_m_loop (fuel : nat) (sptr : bstr) (slen padding n : Z)
  (dst : list Z) : list Z * Z :=
  match fuel with
  | O => (dst, n)
  | S fuel' =>
      if slen >=? 4 then
        match unpack_m_sym sptr slen padding n with
        | (None, _, _, _, n) => (dst, n)
        | (Some ch0, sptr, slen, padding, n) =>
        match unpack_m_sym sptr slen padding n with
        | (None, _, _, _, n) => (dst, n)
        | (Some ch1, sptr, slen, padding, n) =>
        match unpack_m_sym sptr slen padding n with
        | (None, _, _, _, n) => (dst, n)
        | (Some ch2, sptr, slen, padding, n) =>
        match unpack_m_sym sptr slen padding n with
        | (None, _, _, _, n) => (dst, n)
        | (Some ch3, sptr, slen, padding, n) =>
            let l := Z.shiftl ch0 18 + Z.shiftl ch1 12 + Z.shiftl ch2 6 + ch3 in
            if padding =? 0 then
              unpack_m_loop fuel' sptr slen padding n
                (dst ++ [Z.land (Z.shiftr l 16) 0xff;
                         Z.land (Z.shiftr l 8) 0xff; Z.land l 0xff])
            else if padding =? 1 then
              (dst ++ [Z.land (Z.shiftr l 16) 0xff; Z.land (Z.shiftr l 8) 0xff], n)
            else (dst ++ [Z.land (Z.shiftr l 16) 0xff], n)
        end end end end
      else (dst, n)
  end.

Definition unpack_m (src : bstr) (slen : Z) (ary : list value) (flags : Z)
  : res (list value * Z) :=
  let dlen := Z.quot slen 4 * 3 in
  _ <- _str_new_size dlen ;;
  let '(dst, n) := unpack_m_loop (S (Z.to_nat slen)) src slen 0 0 [] in
  Ok (ary ++ [str_value dst], n).

(** ** Null bytes: [x] *)

Definition pack_x (cfg : config) (src : value) (dst : bstr)
  (didx count flags : Z) : res (bstr * Z) :=
  if count <? 0 then Ok (dst, 0)
  else emit cfg dst didx count (repeat 0 (Z.to_nat count)).

Definition unpack_x (src : bstr) (slen : Z) (ary : list value)
  (count flags : Z) : res Z :=
  if count <? 0 then Ok slen
  else if slen <? count then Raise E_ARGUMENT_ERROR "x outside of string"
  else Ok count.

(** ** Templates *)

Record tmpl : Type := { str : string; idx : Z }.

(** What [read_tmpl] hands back through [dirp], [typep], [sizep], [countp]
    and [flagsp]. *)
Record directive : Type := {
  dir : pack_dir;
  type : pack_type;
  size : Z;
  count : Z;
  flags : Z
}.

Definition tlen (t : tmpl) : Z := Z.of_nat (String.length (str t)).

Definition prepare_tmpl (s : string) : tmpl := {| str := s; idx := 0 |}.

Definition has_tmpl (t : tmpl) : bool := idx t <? tlen t.

Definition isdigit (ch : ascii) : bool :=
  (chr "0" <=? chr ch) && (chr ch <=? chr "9").

(** [strchr(s, c) != NULL]; the terminating NUL of [s] counts as part of it. *)
Definition strchr (s : string) (c : ascii) : bool :=
  existsb (Ascii.eqb c) (list_ascii_of_string s) || Ascii.eqb c zero.

(** The two aliases: [t] is replaced and the [switch] entered again. *)
Definition resolve_alias (cfg : config) (t : ascii) : res ascii :=
  let unsupported :=
    Raise E_RUNTIME_ERROR
      ("mruby-pack does not support sizeof(int) == " ++ string_of_Z (sizeof_int cfg)) in
  match t with
  | "I"%char =>
      if sizeof_int cfg =? 2 then Ok "S"%char
      else if sizeof_int cfg =? 4 then Ok "L"%char
      else if sizeof_int cfg =? 8 then Ok "Q"%char
      else unsupported
  | "i"%char =>
      if sizeof_int cfg =? 2 then Ok "s"%char
      else if sizeof_int cfg =? 4 then Ok "l"%char
      else if sizeof_int cfg =? 8 then Ok "q"%char
      else unsupported
  | _ => Ok t
  end.

(** The [switch (t)] of [read_tmpl]: kind, element type, size and flags. *)
Definition directive_of (t : ascii) : pack_dir * pack_type * Z * Z :=
  match t with
  | "A"%char =>
      (PACK_DIR_STR, PACK_TYPE_STRING, 0, Z.lor PACK_FLAG_WIDTH PACK_FLAG_COUNT2)
  | "a"%char =>
      (PACK_DIR_STR, PACK_TYPE_STRING, 0,
       Z.lor (Z.lor PACK_FLAG_WIDTH PACK_FLAG_COUNT2) PACK_FLAG_a)
  | "C"%char => (PACK_DIR_CHAR, PACK_TYPE_INTEGER, 1, 0)
  | "c"%char => (PACK_DIR_CHAR, PACK_TYPE_INTEGER, 1, PACK_FLAG_SIGNED)
  | "D"%char | "d"%char => (PACK_DIR_DOUBLE, PACK_TYPE_FLOAT, 8, PACK_FLAG_SIGNED)
  | "F"%char | "f"%char => (PACK_DIR_FLOAT, PACK_TYPE_FLOAT, 4, PACK_FLAG_SIGNED)
  | "E"%char =>
      (PACK_DIR_DOUBLE, PACK_TYPE_FLOAT, 8, Z.lor PACK_FLAG_SIGNED PACK_FLAG_LT)
  | "e"%char =>
      (PACK_DIR_FLOAT, PACK_TYPE_FLOAT, 4, Z.lor PACK_FLAG_SIGNED PACK_FLAG_LT)
  | "G"%char =>
      (PACK_DIR_DOUBLE, PACK_TYPE_FLOAT, 8, Z.lor PACK_FLAG_SIGNED PACK_FLAG_GT)
  | "g"%char =>
      (PACK_DIR_FLOAT, PACK_TYPE_FLOAT, 4, Z.lor PACK_FLAG_SIGNED PACK_FLAG_GT)
  | "H"%char => (PACK_DIR_HEX, PACK_TYPE_STRING, 0, PACK_FLAG_COUNT2)
  | "h"%char =>
      (PACK_DIR_HEX, PACK_TYPE_STRING, 0, Z.lor PACK_FLAG_COUNT2 PACK_FLAG_LSB)
  | "L"%char => (PACK_DIR_LONG, PACK_TYPE_INTEGER, 4, 0)
  | "l"%char => (PACK_DIR_LONG, PACK_TYPE_INTEGER, 4, PACK_FLAG_SIGNED)
  | "m"%char => (PACK_DIR_BASE64, PACK_TYPE_STRING, 0, PACK_FLAG_WIDTH)
  | "N"%char => (PACK_DIR_LONG, PACK_TYPE_INTEGER, 4, PACK_FLAG_GT)
  | "n"%char => (PACK_DIR_SHORT, PACK_TYPE_INTEGER, 2, PACK_FLAG_GT)
  | "Q"%char => (PACK_DIR_QUAD, PACK_TYPE_INTEGER, 8, 0)
  | "q"%char => (PACK_DIR_QUAD, PACK_TYPE_INTEGER, 8, PACK_FLAG_SIGNED)
  | "S"%char => (PACK_DIR_SHORT, PACK_TYPE_INTEGER, 2, 0)
  | "s"%char => (PACK_DIR_SHORT, PACK_TYPE_INTEGER, 2, PACK_FLAG_SIGNED)
  | "U"%char => (PACK_DIR_UTF8, PACK_TYPE_INTEGER, 0, 0)
  | "V"%char => (PACK_DIR_LONG, PACK_TYPE_INTEGER, 4, PACK_FLAG_LT)
  | "v"%char => (PACK_DIR_SHORT, PACK_TYPE_INTEGER, 2, PACK_FLAG_LT)
  | "x"%char => (PACK_DIR_NUL, PACK_TYPE_NONE, 0, 0)
  | "Z"%char =>
      (PACK_DIR_STR, PACK_TYPE_STRING, 0,
       Z.lor (Z.lor PACK_FLAG_WIDTH PACK_FLAG_COUNT2) PACK_FLAG_Z)
  | _ => (PACK_DIR_INVALID, PACK_TYPE_NONE, 0, 0)
  end.

Definition is_modifier (ch : ascii) : bool :=
  Ascii.eqb ch "_" || Ascii.eqb ch "!" || Ascii.eqb ch "<" || Ascii.eqb ch ">".

Definition modifier_error (ch : ascii) : string :=
  "'" ++ String ch "' allowed only after types sSiIlLqQ".

(** The suffix loop [while (tmpl->idx < tlen) { ... }] over the characters
    that follow the directive.  [indigits] is set while the inner loop of the
    digit case is running, so that one recursion serves both loops: the inner
    loop multiplies the count, and the first character that is not a digit is
    then looked at by the outer loop.  Returns the number of characters the
    loop keeps ([tmpl->idx] after its [tmpl->idx--]), the count and the
    flags. *)
Fixpoint read_suffix (cfg : config) (t : ascii) (s : list ascii)
  (indigits : bool) (n count flags : Z) : res (Z * Z * Z) :=
  match s with
  | [] => Ok (n, count, flags)
  | ch :: s' =>
      if isdigit ch then
        if indigits then
          let count := int_cast cfg (count * 10 + (chr ch - chr "0")) in
          if count <? 0 then Raise E_RUNTIME_ERROR "too big template length"
          else read_suffix cfg t s' true (n + 1) count flags
        else read_suffix cfg t s' true (n + 1) (chr ch - chr "0") flags
      else if Ascii.eqb ch "*" then
        read_suffix cfg t s' false (n + 1) (-1) flags
      else if is_modifier ch then
        if negb (strchr "sSiIlLqQ" t) then
          Raise E_ARGUMENT_ERROR (modifier_error ch)
        else if Ascii.eqb ch "_" || Ascii.eqb ch "!" then
          read_suffix cfg t s' false (n + 1) count (Z.lor flags PACK_FLAG_s)
        else if Ascii.eqb ch "<" then
          read_suffix cfg t s' false (n + 1) count (Z.lor flags PACK_FLAG_LT)
        else
          read_suffix cfg t s' false (n + 1) count (Z.lor flags PACK_FLAG_GT)
      else Ok (n, count, flags)
  end.

Definition tptr (t : tmpl) : list ascii := list_ascii_of_string (str t).

(** The byte order in force, added to the flags when the suffix is read. *)
Definition resolve_endian (cfg : config) (flags : Z) : Z :=
  if has_flag flags PACK_FLAG_LT
     || (negb (has_flag flags PACK_FLAG_GT) && littleendian cfg)
  then Z.lor flags PACK_FLAG_LITTLEENDIAN else flags.

Definition read_tmpl (cfg : config) (tm : tmpl) : res (tmpl * directive) :=
  let t := nth (Z.to_nat (idx tm)) (tptr tm) zero in
  t <- resolve_alias cfg t ;;
  let '(dir, type, size, flags) := directive_of t in
  '(n, count, flags) <-
    read_suffix cfg t (skipn (Z.to_nat (idx tm + 1)) (tptr tm)) false
                (idx tm + 1) 1 flags ;;
  Ok ({| str := str tm; idx := n |},
      {| dir := dir; type := type; size := size; count := count;
         flags := resolve_endian cfg flags |}).

(** ** The pack engine *)

(** The conversion of the array element to the directive's element type. *)
Definition coerce (cfg : config) (type : pack_type) (o : value) : res value :=
  match type with
  | PACK_TYPE_INTEGER => _to_int cfg o
  | PACK_TYPE_FLOAT =>
      if negb (_float_p o) then f <- _to_flo o ;; Ok (float_value f) else Ok o
  | PACK_TYPE_STRING =>
      if negb (_string_p o)
      then Raise E_TYPE_ERROR ("can't convert " ++ class_path o ++ " into String")
      else Ok o
  | PACK_TYPE_NONE => Ok o
  end.

(** The [switch (dir)] of [_pack_pack]. *)
Definition pack_one (cfg : config) (d : pack_dir) (o : value) (result : bstr)
  (ridx count flags : Z) : res (bstr * Z) :=
  match d with
  | PACK_DIR_CHAR => pack_c cfg o result ridx flags
  | PACK_DIR_SHORT => pack_s cfg o result ridx flags
  | PACK_DIR_LONG => pack_l cfg o result ridx flags
  | PACK_DIR_QUAD => pack_q cfg o result ridx flags
  | PACK_DIR_BASE64 => pack_m cfg o result ridx count flags
  | PACK_DIR_HEX => pack_h cfg o result ridx count flags
  | PACK_DIR_STR => pack_a cfg o result ridx count flags
  | PACK_DIR_DOUBLE => pack_double cfg o result ridx flags
  | PACK_DIR_FLOAT => pack_float cfg o result ridx flags
  | PACK_DIR_UTF8 => pack_utf8 cfg o result ridx count flags
  | _ => Ok (result, 0)
  end.

(** [for (; aidx < RARRAY_LEN(ary); aidx++) { ... }] for one directive;
    [rest] holds the elements of [ary] from [aidx] on.  Returns [aidx],
    [ridx] and the output string. *)
Fixpoint pack_values (cfg : config) (d : pack_dir) (ty : pack_type) (flags : Z)
  (rest : list value) (count aidx ridx : Z) (result : bstr)
  : res (Z * Z * bstr) :=
  match rest with
  | [] => Ok (aidx, ridx, result)
  | o :: rest' =>
      if (count =? 0) && negb (has_flag flags PACK_FLAG_WIDTH)
      then Ok (aidx, ridx, result)
      else
        o <- coerce cfg ty o ;;
        '(result, n) <- pack_one cfg d o result ridx count flags ;;
        let ridx := int_cast cfg (ridx + n) in
        match d with
        | PACK_DIR_STR => Ok (aidx + 1, ridx, result)
        | _ =>
            let count := if count >? 0 then count - 1 else count in
            pack_values cfg d ty flags rest' count (aidx + 1) ridx result
        end
  end.

(** [while (has_tmpl(&tmpl)) { ... }] of [_pack_pack]. *)
Fixpoint pack_loop (cfg : config) (fuel : nat) (ary : list value) (tm : tmpl)
  (aidx ridx : Z) (result : bstr) : res (Z * Z * bstr) :=
  match fuel with
  | O => OutOfFuel
  | S fuel' =>
      if has_tmpl tm then
        '(tm, d) <- read_tmpl cfg tm ;;
        match dir d with
        | PACK_DIR_INVALID => pack_loop cfg fuel' ary tm aidx ridx result
        | PACK_DIR_NUL =>
            '(result, n) <- pack_x cfg nil_value result ridx (count d) (flags d) ;;
            pack_loop cfg fuel' ary tm aidx (int_cast cfg (ridx + n)) result
        | _ =>
            '(aidx, ridx, result) <-
              pack_values cfg (dir d) (type d) (flags d)
                (skipn (Z.to_nat aidx) ary) (count d) aidx ridx result ;;
            if ridx <? 0
            then Raise E_RANGE_ERROR "negative (or overflowed) template size"
            else pack_loop cfg fuel' ary tm aidx ridx result
        end
      else Ok (aidx, ridx, result)
  end.

(** The template is read at least one character per directive, so its length
    bounds the number of directives. *)
Definition tmpl_fuel (s : string) : nat := S (String.length s).

(** [aidx], [ridx] and the output string when the template loop of
    [_pack_pack] is left. *)
Definition pack_run (cfg : config) (ary : list value) (template : string)
  : res (Z * Z * bstr) :=
  let tm := prepare_tmpl template in
  let result := repeat 0 128 in
  pack_loop cfg (tmpl_fuel template) ary tm 0 0 result.

Definition _pack_pack (cfg : config) (ary : list value) (template : string)
  : res bstr :=
  '(_, ridx, result) <- pack_run cfg ary template ;;
  Ok (_str_resize result ridx).

(** ** The unpack engine *)

(** The [switch (dir)] inside the count loop of [pack_unpack]. *)
Definition unpack_one (cfg : config) (d : pack_dir) (sptr : bstr) (slen : Z)
  (result : list value) (flags : Z) : res (list value * Z) :=
  match d with
  | PACK_DIR_CHAR => unpack_c sptr slen result flags
  | PACK_DIR_SHORT => unpack_s cfg sptr slen result flags
  | PACK_DIR_LONG => unpack_l cfg sptr slen result flags
  | PACK_DIR_QUAD => unpack_q cfg sptr slen result flags
  | PACK_DIR_BASE64 => unpack_m sptr slen result flags
  | PACK_DIR_FLOAT => unpack_float cfg sptr slen result flags
  | PACK_DIR_DOUBLE => unpack_double cfg sptr slen result flags
  | PACK_DIR_UTF8 => unpack_utf8 cfg sptr slen result flags
  | _ => Raise E_RUNTIME_ERROR "mruby-pack's bug"
  end.

(** [while (count != 0) { ... }] for one directive. *)
Fixpoint unpack_count (cfg : config) (fuel : nat) (s : bstr) (srclen : Z)
  (d : pack_dir) (size flags count srcidx : Z) (result : list value)
  : res (Z * list value) :=
  if count =? 0 then Ok (srcidx, result)
  else
    match fuel with
    | O => OutOfFuel
    | S fuel' =>
        if srclen - srcidx <? size then
          Ok (srcidx, result ++ repeat nil_value (Z.to_nat count))
        else
          let sptr := skipn (Z.to_nat srcidx) s in
          '(result, n) <- unpack_one cfg d sptr (srclen - srcidx) result flags ;;
          let count := if count >? 0 then count - 1 else count in
          unpack_count cfg fuel' s srclen d size flags count
            (int_cast cfg (srcidx + n)) result
    end.

(** As many rounds as a count loop that ends can take: the count itself, or
    with [*] one round per remaining byte and one more. *)
Definition count_fuel (srclen srcidx count : Z) : nat :=
  Z.to_nat (Z.max count (srclen - srcidx + 2)).

(** The directives whose count is special: decoded once, outside the count
    loop. *)
Definition unpack_count2 (cfg : config) (d : pack_dir) (sptr : bstr) (slen : Z)
  (result : list value) (count flags : Z) : res (list value * Z) :=
  match d with
  | PACK_DIR_HEX => unpack_h cfg sptr slen result count flags
  | PACK_DIR_STR => unpack_a sptr slen result count flags
  | _ => Ok (result, 0)
  end.

(** [while (has_tmpl(&tmpl)) { ... }] of [pack_unpack]; returns [srcidx] and
    the array of results. *)
Fixpoint unpack_loop (cfg : config) (fuel : nat) (s : bstr) (srclen : Z)
  (single : bool) (tm : tmpl) (srcidx : Z) (result : list value)
  : res (Z * list value) :=
  match fuel with
  | O => OutOfFuel
  | S fuel' =>
      if has_tmpl tm then
        '(tm, d) <- read_tmpl cfg tm ;;
        match dir d with
        | PACK_DIR_INVALID =>
            unpack_loop cfg fuel' s srclen single tm srcidx result
        | PACK_DIR_NUL =>
            n <- unpack_x [] (srclen - srcidx) result (count d) (flags d) ;;
            unpack_loop cfg fuel' s srclen single tm
              (int_cast cfg (srcidx + n)) result
        | _ =>
            if has_flag (flags d) PACK_FLAG_COUNT2 then
              let sptr := skipn (Z.to_nat srcidx) s in
              '(result, n) <-
                unpack_count2 cfg (dir d) sptr (srclen - srcidx) result
                  (count d) (flags d) ;;
              unpack_loop cfg fuel' s srclen single tm
                (int_cast cfg (srcidx + n)) result
            else
              '(srcidx, result) <-
                unpack_count cfg (count_fuel srclen srcidx (count d)) s srclen
                  (dir d) (size d) (flags d) (count d) srcidx result ;;
              if single then Ok (srcidx, result)
              else unpack_loop cfg fuel' s srclen single tm srcidx result
        end
      else Ok (srcidx, result)
  end.

(** The cursor and the array when the template loop of [pack_unpack] is
    left. *)
Definition unpack_run (cfg : config) (s : bstr) (template : string)
  (single : bool) : res (Z * list value) :=
  let tm := prepare_tmpl template in
  let srclen := int_cast cfg (RSTRING_LEN s) in
  unpack_loop cfg (tmpl_fuel template) s srclen single tm 0 [].

(** [pack_unpack] returns the array, or with [single] the element
    [RARRAY_PTR(result)[0]], which lies outside an empty array. *)
Definition pack_unpack (cfg : config) (s : bstr) (template : string)
  (single : bool) : res (list value + value) :=
  '(_, result) <- unpack_run cfg s template single ;;
  if single then
    match result with
    | [] => Undefined
    | v :: _ => Ok (inr v)
    end
  else Ok (inl result).

Definition _pack_unpack (cfg : config) (s : bstr) (template : string)
  : res (list value) :=
  r <- pack_unpack cfg s template false ;;
  match r with inl a => Ok a | inr v => Ok [v] end.

Definition _pack_unpack1 (cfg : config) (s : bstr) (template : string)
  : res value :=
  r <- pack_unpack cfg s template true ;;
  match r with inr v => Ok v | inl _ => Undefined end.

(** ** Notions used in the statements *)

(** The directive that a template of the single character [t] denotes. *)
Definition single_directive (cfg : config) (t : ascii) : directive :=
  let '(d, ty, sz, fl) := directive_of t in
  {| dir := d; type := ty; size := sz; count := 1;
     flags := resolve_endian cfg fl |}.

(** [str] with the bytes [bs] stored from the index [i] on. *)
Definition splice (str : bstr) (i : nat) (bs : list Z) : bstr :=
  firstn i str ++ bs ++ skipn (i + List.length bs) str.

(** The [w] bytes of [v] reduced modulo [2 ^ (8 * w)], in the byte order that
    the flags resolve to. *)
Definition truncated (w : nat) (flags v : Z) : list Z :=
  let bs := le_bytes w (v mod 2 ^ (8 * Z.of_nat w)) in
  if has_flag flags PACK_FLAG_LITTLEENDIAN then bs else rev bs.

(** The width in bytes of the four integer kinds. *)
Definition int_width (d : pack_dir) : option nat :=
  match d with
  | PACK_DIR_CHAR => Some 1%nat
  | PACK_DIR_SHORT => Some 2%nat
  | PACK_DIR_LONG => Some 4%nat
  | PACK_DIR_QUAD => Some 8%nat
  | _ => None
  end.

(** The directive characters of the integers of a fixed width. *)
Definition integer_directives : list ascii :=
  list_ascii_of_string "CcSsnvLlNVQq".

(** The range of the elements of a byte string. *)
Definition is_byte (b : Z) : Prop := 0 <= b < 256.

(** The integer that the bytes [bs] denote under the flags: assembled in the
    resolved byte order and, for a signed directive, read in two's
    complement. *)
Definition decoded (w : nat) (fl : Z) (bs : list Z) : Z :=
  let raw :=
    le_value (if has_flag fl PACK_FLAG_LITTLEENDIAN then bs else rev bs) in
  if has_flag fl PACK_FLAG_SIGNED then sint (8 * Z.of_nat w) raw else raw.

(** [v] fits the width and the signedness of a directive. *)
Definition representable (w : nat) (fl v : Z) : Prop :=
  if has_flag fl PACK_FLAG_SIGNED
  then - 2 ^ (8 * Z.of_nat w - 1) <= v < 2 ^ (8 * Z.of_nat w - 1)
  else 0 <= v < 2 ^ (8 * Z.of_nat w).

(** The number of array elements that a run of the pack loop has consumed. *)
Definition values_consumed (r : res (Z * Z * bstr)) : res Z :=
  '(aidx, _, _) <- r ;; Ok aidx.

(** The fixed width that the directive table gives to each kind. *)
Definition dir_size (d : pack_dir) : Z :=
  match d with
  | PACK_DIR_CHAR => 1
  | PACK_DIR_SHORT => 2
  | PACK_DIR_LONG => 4
  | PACK_DIR_QUAD => 8
  | PACK_DIR_DOUBLE => 8
  | PACK_DIR_FLOAT => 4
  | _ => 0
  end.

(** The largest request that the doubling of [str_len_ensure] meets without
    passing [MRB_INT_MAX]: a quarter of the range of [_int]. *)
Definition capacity (cfg : config) : Z := 2 ^ (MRB_INT_BIT cfg - 2).

(** The cursor lies in the input or at most one past its end. *)
Definition cursor_ok (srclen srcidx : Z) : Prop := 0 <= srcidx <= srclen + 1.

(** The whole of [template] is read as the one directive [d]. *)
Definition one_directive (cfg : config) (template : string) (d : directive)
  : Prop :=
  template <> ""%string /\
  read_tmpl cfg (prepare_tmpl template) =
  Ok ({| str := template; idx := Z.of_nat (String.length template) |}, d).

(** The directive that a template of the character [t] followed by a star
    denotes. *)
Definition star_directive (cfg : config) (t : ascii) : directive :=
  let d := single_directive cfg t in
  {| dir := dir d; type := type d; size := size d; count := -1;
     flags := flags d |}.

(** The number that a run of decimal digits denotes. *)
Definition decimal (ds : list ascii) : Z :=
  fold_left (fun acc ch => acc * 10 + (chr ch - chr "0")) ds 0.

(** A character at which the suffix loop of [read_tmpl] stops. *)
Definition ends_suffix (rest : list ascii) : Prop :=
  match rest with
  | [] => True
  | ch :: _ => isdigit ch = false /\ ch <> "*"%char /\ is_modifier ch = false
  end.

(** The directive [d] with the count [n]. *)
Definition with_count (d : directive) (n : Z) : directive :=
  {| dir := dir d; type := type d; size := size d; count := n;
     flags := flags d |}.

(** A chunk of the width of the directive that denotes a Fixnum. *)
Definition fixnum_chunk (cfg : config) (w : nat) (fl : Z) (c : list Z) : Prop :=
  List.length c = w /\ Forall is_byte c /\
  MRB_INT_MIN cfg <= decoded w fl c <= MRB_INT_MAX cfg.

(** The bytes that [pack_utf8] stores for a code point below 0x200000. *)
Definition utf8_bytes (c : Z) : list Z :=
  if c <? 0x80 then [c]
  else if c <? 0x800 then [0xC0 + c / 64; 0x80 + c mod 64]
  else if c <? 0x10000 then
    [0xE0 + c / 4096; 0x80 + (c / 64) mod 64; 0x80 + c mod 64]
  else
    [0xF0 + c / 262144; 0x80 + (c / 4096) mod 64; 0x80 + (c / 64) mod 64;
     0x80 + c mod 64].

(** A byte that the directive [A] strips from the end of a string. *)
Definition blank (c : Z) : bool := (c =? 0) || isspace c.

(** The string does not end in a byte that [A] strips. *)
Definition unpadded (s : bstr) : Prop := blank (last s 1) = false.

(** The bytes that [pack_a] stores for the string [s] under the count [n]:
    the string, and the padding after it. *)
Definition str_padding (fl : Z) (s : bstr) (n : Z) : bstr :=
  repeat (if has_flag fl PACK_FLAG_a || has_flag fl PACK_FLAG_Z
          then 0 else chr " ")
         (Z.to_nat (if n =? -1 then (if has_flag fl PACK_FLAG_Z then 1 else 0)
                    else n - RSTRING_LEN s)).

(** The directive characters of a double. *)
Definition double_directives : list ascii := list_ascii_of_string "DdEG".

(** The characters that [read_tmpl] knows as directives. *)
Definition directive_characters : list ascii :=
  list_ascii_of_string "AaCcDdEeFfGgHhIiLlmNnQqSsUVvxZ".

(** The directive [d] with the flag of the native size set. *)
Definition with_native (d : directive) : directive :=
  {| dir := dir d; type := type d; size := size d; count := count d;
     flags := Z.lor (flags d) PACK_FLAG_s |}.

(** Two spellings that [read_tmpl] reads alike, whatever follows them: [b]
    as a directive [d], and [a] as the directive [g d]. *)
Definition read_alike (cfg : config) (g : directive -> directive)
  (a b : string) : Prop :=
  a <> ""%string /\ b <> ""%string /\
  ends_suffix (list_ascii_of_string a) /\
  ends_suffix (list_ascii_of_string b) /\
  forall rest,
    ends_suffix (list_ascii_of_string rest) ->
    exists r : res directive,
      read_tmpl cfg (prepare_tmpl (a ++ rest))
      = (d <- r ;;
         Ok ({| str := a ++ rest; idx := Z.of_nat (String.length a) |}, g d))
      /\
      read_tmpl cfg (prepare_tmpl (b ++ rest))
      = (d <- r ;;
         Ok ({| str := b ++ rest; idx := Z.of_nat (String.length b) |}, d)).

(** Two spellings [a] and [b] that [read_tmpl] reads as the same directive,
    whatever follows them. *)
Definition same_directive (cfg : config) (a b : string) : Prop :=
  read_alike cfg (fun d => d) a b.

(** The spellings with a byte-order modifier and the letters that stand for
    them. *)
Definition endian_aliases : list (string * string) :=
  [("S>", "n"); ("S<", "v"); ("L>", "N"); ("L<", "V")]%string.

(** A character of a count: a digit or the star. *)
Definition count_character (ch : ascii) : Prop :=
  isdigit ch = true \/ ch = "*"%char.

(** A character that the suffix loop of [read_tmpl] takes. *)
Definition suffix_character (ch : ascii) : Prop :=
  isdigit ch = true \/ ch = "*"%char \/ is_modifier ch = true.

(** The letters that [I] and [i] stand for, by the size of [int]. *)
Definition native_aliases (cfg : config) : list (string * string) :=
  if sizeof_int cfg =? 2 then [("I", "S"); ("i", "s")]%string
  else if sizeof_int cfg =? 4 then [("I", "L"); ("i", "l")]%string
  else if sizeof_int cfg =? 8 then [("I", "Q"); ("i", "q")]%string
  else [].

(** * Properties of the embedding *)

(** ** Integer conversions *)

Lemma sint_small (w x : Z) :
  0 < w -> - 2 ^ (w - 1) <= x < 2 ^ (w - 1) -> sint w x = x.
Proof.
  intros Hw Hx. unfold sint.
  assert (E : 2 ^ w = 2 * 2 ^ (w - 1)).
  { replace w with (Z.succ (w - 1)) at 1 by lia. apply Z.pow_succ_r. lia. }
  rewrite E, Z.mod_small; lia.
Qed.

Lemma supported_cfg64 : supported cfg64.
Proof. unfold supported, cfg64; cbn. lia. Qed.

Lemma supported_cfg32 : supported cfg32.
Proof. unfold supported, cfg32; cbn. lia. Qed.

Lemma int_cast_small (cfg : config) (x : Z) :
  supported cfg -> - 2 ^ 31 <= x < 2 ^ 31 -> int_cast cfg x = x.
Proof.
  intros (Hi & _) Hx. unfold int_cast.
  destruct Hi as [-> | ->]; apply sint_small; cbn; lia.
Qed.

Lemma mrb_int_cast_small (cfg : config) (x : Z) :
  supported cfg -> - 2 ^ 31 <= x < 2 ^ 31 -> mrb_int_cast cfg x = x.
Proof.
  intros (_ & Hi & _) Hx. unfold mrb_int_cast.
  destruct Hi as [-> | ->]; apply sint_small; cbn; lia.
Qed.

Lemma mrb_int_cast_fixable (cfg : config) (x : Z) :
  supported cfg -> MRB_INT_MIN cfg <= x <= MRB_INT_MAX cfg ->
  mrb_int_cast cfg x = x.
Proof.
  intros (_ & Hi & Hlo & _ & _ & Hhi) Hx. unfold mrb_int_cast.
  apply sint_small; [destruct Hi as [-> | ->]; lia | lia].
Qed.

(** ** One round of the template loops *)

Lemma unpack_loop_done cfg fuel s srclen single tm srcidx result :
  has_tmpl tm = false ->
  unpack_loop cfg (S fuel) s srclen single tm srcidx result = Ok (srcidx, result).
Proof. intros H. cbn [unpack_loop]. now rewrite H. Qed.

Lemma unpack_loop_nul cfg fuel s srclen single tm tm' d srcidx result :
  has_tmpl tm = true -> read_tmpl cfg tm = Ok (tm', d) -> dir d = PACK_DIR_NUL ->
  unpack_loop cfg (S fuel) s srclen single tm srcidx result =
  (n <- unpack_x [] (srclen - srcidx) result (count d) (flags d) ;;
   unpack_loop cfg fuel s srclen single tm' (int_cast cfg (srcidx + n)) result).
Proof.
  intros H R D. cbn [unpack_loop]. rewrite H, R. cbn [bind]. now rewrite D.
Qed.

Lemma unpack_loop_count cfg fuel s srclen single tm tm' d srcidx result :
  has_tmpl tm = true -> read_tmpl cfg tm = Ok (tm', d) ->
  dir d <> PACK_DIR_NUL -> dir d <> PACK_DIR_INVALID ->
  has_flag (flags d) PACK_FLAG_COUNT2 = false ->
  unpack_loop cfg (S fuel) s srclen single tm srcidx result =
  ('(srcidx, result) <-
     unpack_count cfg (count_fuel srclen srcidx (count d)) s srclen
       (dir d) (size d) (flags d) (count d) srcidx result ;;
   if single then Ok (srcidx, result)
   else unpack_loop cfg fuel s srclen single tm' srcidx result).
Proof.
  intros H R D1 D2 F. cbn [unpack_loop]. rewrite H, R. cbn [bind].
  rewrite F. destruct (dir d); congruence.
Qed.

Lemma pack_loop_done cfg fuel ary tm aidx ridx result :
  has_tmpl tm = false ->
  pack_loop cfg (S fuel) ary tm aidx ridx result = Ok (aidx, ridx, result).
Proof. intros H. cbn [pack_loop]. now rewrite H. Qed.

Lemma pack_loop_nul cfg fuel ary tm tm' d aidx ridx result :
  has_tmpl tm = true -> read_tmpl cfg tm = Ok (tm', d) -> dir d = PACK_DIR_NUL ->
  pack_loop cfg (S fuel) ary tm aidx ridx result =
  ('(result, n) <- pack_x cfg nil_value result ridx (count d) (flags d) ;;
   pack_loop cfg fuel ary tm' aidx (int_cast cfg (ridx + n)) result).
Proof.
  intros H R D. cbn [pack_loop]. rewrite H, R. cbn [bind]. now rewrite D.
Qed.

Lemma pack_loop_values cfg fuel ary tm tm' d aidx ridx result :
  has_tmpl tm = true -> read_tmpl cfg tm = Ok (tm', d) ->
  dir d <> PACK_DIR_NUL -> dir d <> PACK_DIR_INVALID ->
  pack_loop cfg (S fuel) ary tm aidx ridx result =
  ('(aidx, ridx, result) <-
     pack_values cfg (dir d) (type d) (flags d)
       (skipn (Z.to_nat aidx) ary) (count d) aidx ridx result ;;
   if ridx <? 0
   then Raise E_RANGE_ERROR "negative (or overflowed) template size"
   else pack_loop cfg fuel ary tm' aidx ridx result).
Proof.
  intros H R D1 D2. cbn [pack_loop]. rewrite H, R. cbn [bind].
  destruct (dir d); congruence.
Qed.

(** The directives that the templates of the statements below denote. *)
Lemma read_tmpl_x_star cfg :
  read_tmpl cfg (prepare_tmpl "x*") =
  Ok ({| str := "x*"; idx := 2 |},
      {| dir := PACK_DIR_NUL; type := PACK_TYPE_NONE; size := 0; count := -1;
         flags := resolve_endian cfg 0 |}).
Proof. reflexivity. Qed.

Lemma read_tmpl_single cfg (t : ascii) :
  strchr "Ii" t = false ->
  read_tmpl cfg (prepare_tmpl (String t "")) =
  Ok ({| str := String t ""; idx := 1 |}, single_directive cfg t).
Proof.
  destruct t as [[] [] [] [] [] [] [] []]; intros H;
    first [discriminate H | reflexivity].
Qed.

(** ** Null padding with the consume-all count *)

(** C10. For the directive [x*], [unpack_x] reports every remaining byte as
    consumed and never raises: a round of the template loop of unpack that
    reads [x*] goes on with the cursor at the end of the input, wherever the
    cursor was, and a call of unpack on ["x*"] ends there.  [pack_x] stores
    nothing and reports no byte, whatever the output string and the write
    position: a round of the template loop of pack that reads [x*] goes on
    with the same index, write position and output string, and a call of
    pack on ["x*"] yields the empty string. *)
Theorem null_star_skips_input_and_packs_nothing :
  forall cfg s, supported cfg -> RSTRING_LEN s < 2 ^ 31 ->
    (forall src slen result fl, unpack_x src slen result (-1) fl = Ok slen) /\
    (forall o dst didx fl, pack_x cfg o dst didx (-1) fl = Ok (dst, 0)) /\
    (forall fuel single tm tm' d srcidx result,
       has_tmpl tm = true -> read_tmpl cfg tm = Ok (tm', d) ->
       dir d = PACK_DIR_NUL -> count d = -1 ->
       unpack_loop cfg (S fuel) s (RSTRING_LEN s) single tm srcidx result =
       unpack_loop cfg fuel s (RSTRING_LEN s) single tm' (RSTRING_LEN s) result) /\
    (forall fuel ary tm tm' d aidx ridx result,
       has_tmpl tm = true -> read_tmpl cfg tm = Ok (tm', d) ->
       dir d = PACK_DIR_NUL -> count d = -1 -> - 2 ^ 31 <= ridx < 2 ^ 31 ->
       pack_loop cfg (S fuel) ary tm aidx ridx result =
       pack_loop cfg fuel ary tm' aidx ridx result) /\
    unpack_run cfg s "x*" false = Ok (RSTRING_LEN s, []) /\
    (forall ary, _pack_pack cfg ary "x*" = Ok []).
Proof.
  intros cfg s Hc Hs.
  assert (H0 : 0 <= RSTRING_LEN s) by (unfold RSTRING_LEN; lia).
  split; [reflexivity |]. split; [reflexivity |].
  split; [| split; [| split]].
  - intros fuel single tm tm' d srcidx result Ht Hr Hd Hn.
    rewrite (unpack_loop_nul cfg fuel s _ single tm tm' d) by assumption.
    rewrite Hn. cbn [unpack_x Z.ltb Z.compare bind].
    replace (srcidx + (RSTRING_LEN s - srcidx)) with (RSTRING_LEN s) by lia.
    now rewrite int_cast_small by (auto; lia).
  - intros fuel ary tm tm' d aidx ridx result Ht Hr Hd Hn Hi.
    rewrite (pack_loop_nul cfg fuel ary tm tm' d) by assumption.
    rewrite Hn. cbn [pack_x Z.ltb Z.compare bind].
    replace (ridx + 0) with ridx by lia.
    now rewrite int_cast_small by (auto; lia).
  - unfold unpack_run. rewrite int_cast_small by (auto; lia).
    unfold tmpl_fuel. cbn [String.length].
    erewrite unpack_loop_nul; [| reflexivity | apply read_tmpl_x_star | reflexivity].
    cbn [count flags unpack_x Z.ltb Z.compare bind].
    rewrite unpack_loop_done by reflexivity.
    rewrite int_cast_small by (auto; lia). f_equal. f_equal. lia.
  - intros ary. unfold _pack_pack, pack_run, tmpl_fuel. cbn [String.length].
    erewrite pack_loop_nul; [| reflexivity | apply read_tmpl_x_star | reflexivity].
    cbn [count flags pack_x Z.ltb Z.compare bind].
    rewrite pack_loop_done by reflexivity.
    cbn [bind]. rewrite int_cast_small by (auto; cbn; lia). reflexivity.
Qed.

Lemma null_star_witness :
  unpack_run cfg64 [1; 2; 3] "x*" false = Ok (3, []) /\
  _pack_pack cfg64 [fixnum_value 7] "x*" = Ok [] /\
  unpack_loop cfg64 3 [1; 2; 3] (RSTRING_LEN [1; 2; 3]) false
    {| str := "Cx*"; idx := 1 |} 1 [fixnum_value 1] =
  unpack_loop cfg64 2 [1; 2; 3] (RSTRING_LEN [1; 2; 3]) false
    {| str := "Cx*"; idx := 3 |} (RSTRING_LEN [1; 2; 3]) [fixnum_value 1].
Proof.
  destruct (null_star_skips_input_and_packs_nothing cfg64 [1; 2; 3]
              supported_cfg64 ltac:(cbn; lia)) as (_ & _ & Hs & _ & Hu & Hp).
  split; [exact Hu |]. split; [exact (Hp [fixnum_value 7]) |].
  exact (Hs 2%nat false {| str := "Cx*"; idx := 1 |} {| str := "Cx*"; idx := 3 |}
            {| dir := PACK_DIR_NUL; type := PACK_TYPE_NONE; size := 0;
               count := -1; flags := PACK_FLAG_LITTLEENDIAN |}
            1 [fixnum_value 1] eq_refl eq_refl eq_refl eq_refl).
Defined.

(** ** Running out of input inside a counted directive *)

Lemma unpack_count_short cfg fuel s srclen d size fl n srcidx result :
  0 < n -> srclen - srcidx < size ->
  unpack_count cfg (S fuel) s srclen d size fl n srcidx result =
  Ok (srcidx, result ++ repeat nil_value (Z.to_nat n)).
Proof.
  intros Hn Hs. cbn [unpack_count].
  destruct (Z.eqb_spec n 0) as [E | _]; [lia |].
  destruct (Z.ltb_spec (srclen - srcidx) size) as [_ | L]; [reflexivity | lia].
Qed.

Lemma count_fuel_pos srclen srcidx n :
  0 < n -> exists fuel, count_fuel srclen srcidx n = S fuel.
Proof.
  intros Hn. unfold count_fuel.
  destruct (Z.to_nat (Z.max n (srclen - srcidx + 2))) eqn:E; [lia | eauto].
Qed.

Lemma has_flag_lor_eq (f x b : Z) :
  has_flag (Z.lor f x) b = has_flag f b || has_flag x b.
Proof.
  unfold has_flag. rewrite Z.land_lor_distr_l.
  destruct (Z.eqb_spec (Z.land f b) 0) as [-> | Nf]; cbn [negb orb].
  - now rewrite Z.lor_0_l.
  - destruct (Z.eqb_spec (Z.lor (Z.land f b) (Z.land x b)) 0) as [E | _];
      [| reflexivity].
    apply Z.lor_eq_0_iff in E. tauto.
Qed.

(** The suffix loop and the resolution of the byte order never set the flag
    of the directives that are decoded once. *)
Lemma read_suffix_no_count2 cfg t :
  forall s indigits n count flags n' count' flags',
    read_suffix cfg t s indigits n count flags = Ok (n', count', flags') ->
    has_flag flags PACK_FLAG_COUNT2 = false ->
    has_flag flags' PACK_FLAG_COUNT2 = false.
Proof.
  induction s as [| ch s IH]; intros indigits n count flags n' count' flags';
    cbn [read_suffix].
  - now intros [= <- <- <-].
  - destruct (isdigit ch).
    + destruct indigits; [destruct (_ <? 0); [discriminate |] |]; apply IH.
    + destruct (Ascii.eqb ch "*"); [apply IH |].
      destruct (is_modifier ch); [| now intros [= <- <- <-]].
      destruct (negb (strchr "sSiIlLqQ" t)); [discriminate |].
      destruct (_ || _); [| destruct (Ascii.eqb ch "<")];
        intros H F; apply IH in H; auto;
        rewrite has_flag_lor_eq, F; reflexivity.
Qed.

Lemma directive_of_fixed (t : ascii) :
  let '(d, _, sz, fl) := directive_of t in
  0 < sz ->
  d <> PACK_DIR_NUL /\ d <> PACK_DIR_INVALID /\
  has_flag fl PACK_FLAG_COUNT2 = false.
Proof.
  destruct t as [[] [] [] [] [] [] [] []]; cbn; intros H;
    solve [discriminate H | repeat split; (discriminate || reflexivity)].
Qed.

(** What [read_tmpl] returns for a directive of a fixed width. *)
Lemma read_tmpl_fixed cfg (tm tm' : tmpl) (d : directive) :
  read_tmpl cfg tm = Ok (tm', d) -> 0 < size d ->
  dir d <> PACK_DIR_NUL /\ dir d <> PACK_DIR_INVALID /\
  has_flag (flags d) PACK_FLAG_COUNT2 = false.
Proof.
  unfold read_tmpl. intros H.
  destruct (resolve_alias cfg _) as [t | | |]; cbn [bind] in H;
    try discriminate H.
  pose proof (directive_of_fixed t) as Hf.
  destruct (directive_of t) as [[[d0 ty] sz] fl].
  destruct (read_suffix cfg t _ false _ 1 fl) as [[[n c] f] | | |] eqn:Es;
    cbn [bind] in H; try discriminate H.
  injection H as <- <-. cbn [dir size flags]. intros Hz.
  destruct (Hf Hz) as (D1 & D2 & F). repeat split; auto.
  apply (read_suffix_no_count2 cfg t _ _ _ _ _ _ _ _ Es) in F.
  unfold resolve_endian. destruct (_ || _); [| exact F].
  rewrite has_flag_lor_eq, F. reflexivity.
Qed.

(** C4. When a directive of a fixed width still asks for [n] values and fewer
    bytes than its width remain, the count loop appends [n] nil markers,
    leaves the cursor where it is and returns without raising; this holds at
    the first round of the directive, where the loop runs on [count_fuel], and
    at any later round.  So a round of the template loop that reads such a
    directive with an explicit count, at a cursor that leaves fewer bytes
    than the width, goes on to the next directive with that many nil markers
    appended.  In particular unpacking the one byte [1] with ["S"] gives the
    array that holds one nil. *)
Theorem short_input_yields_nil_markers :
  forall cfg, supported cfg ->
    (forall s srclen d size fl n srcidx result,
       0 < n -> srclen - srcidx < size ->
       unpack_count cfg (count_fuel srclen srcidx n) s srclen d size fl n
         srcidx result
       = Ok (srcidx, result ++ repeat nil_value (Z.to_nat n))) /\
    (forall fuel s srclen d size fl n srcidx result,
       0 < n -> srclen - srcidx < size ->
       unpack_count cfg (S fuel) s srclen d size fl n srcidx result
       = Ok (srcidx, result ++ repeat nil_value (Z.to_nat n))) /\
    (forall fuel s srclen tm tm' d srcidx result,
       has_tmpl tm = true -> read_tmpl cfg tm = Ok (tm', d) ->
       0 < size d -> 0 < count d -> srclen - srcidx < size d ->
       unpack_loop cfg (S fuel) s srclen false tm srcidx result =
       unpack_loop cfg fuel s srclen false tm' srcidx
         (result ++ repeat nil_value (Z.to_nat (count d)))) /\
    _pack_unpack cfg [1] "S" = Ok [nil_value].
Proof.
  intros cfg Hc. split; [| split; [| split]].
  - intros s srclen d size fl n srcidx result Hn Hs.
    destruct (count_fuel_pos srclen srcidx n Hn) as (fuel & ->).
    now apply unpack_count_short.
  - intros. now apply unpack_count_short.
  - intros fuel s srclen tm tm' d srcidx result Ht Hr Hz Hn Hs.
    destruct (read_tmpl_fixed cfg tm tm' d Hr Hz) as (D1 & D2 & F).
    rewrite (unpack_loop_count cfg fuel s srclen false tm tm' d) by assumption.
    destruct (count_fuel_pos srclen srcidx (count d) Hn) as (fuel' & ->).
    rewrite unpack_count_short by assumption. reflexivity.
  - unfold _pack_unpack, pack_unpack, unpack_run, tmpl_fuel.
    cbn [String.length RSTRING_LEN List.length Z.of_nat Pos.of_succ_nat].
    rewrite int_cast_small by (auto; lia).
    erewrite unpack_loop_count;
      [| reflexivity | apply (read_tmpl_single cfg "S"); reflexivity
       | discriminate | discriminate
       | unfold single_directive, resolve_endian; cbn;
         destruct (littleendian cfg); reflexivity ].
    change (count_fuel 1 0 (count (single_directive cfg "S"))) with 3%nat.
    change (count (single_directive cfg "S")) with 1.
    change (size (single_directive cfg "S")) with 2.
    rewrite unpack_count_short by lia.
    cbn [bind]. rewrite unpack_loop_done by reflexivity. reflexivity.
Qed.

Lemma short_input_witness :
  unpack_count cfg64 (count_fuel 1 0 3) [7] 1 PACK_DIR_LONG 4 0 3 0 []
    = Ok (0, [nil_value; nil_value; nil_value]) /\
  unpack_loop cfg64 3 [7; 8] 2 false (prepare_tmpl "N2") 0 [] =
    unpack_loop cfg64 2 [7; 8] 2 false {| str := "N2"; idx := 2 |} 0
      [nil_value; nil_value] /\
  _pack_unpack cfg64 [1] "S" = Ok [nil_value].
Proof.
  destruct (short_input_yields_nil_markers cfg64 supported_cfg64)
    as (H1 & _ & H3 & H4).
  split; [| split; [| exact H4]].
  - exact (H1 [7] 1 PACK_DIR_LONG 4 0 3 0 [] ltac:(lia) ltac:(lia)).
  - exact (H3 2%nat [7; 8] 2 (prepare_tmpl "N2") {| str := "N2"; idx := 2 |}
             {| dir := PACK_DIR_LONG; type := PACK_TYPE_INTEGER; size := 4;
                count := 2; flags := PACK_FLAG_GT |}
             0 [] eq_refl eq_refl ltac:(cbn; lia) ltac:(cbn; lia)
             ltac:(cbn; lia)).
Defined.

(** ** Single-value unpack *)

(** C8, the code at the inputs where it departs from the claim.  With
    [single] set, [pack_unpack] returns [RARRAY_PTR(result)[0]] without looking
    at the length of the array.  On the empty string with ["U"], and on
    ["abc"] with ["C0"], the first directive produces no value: the array is
    empty and the element read lies outside it.  Where the array is not
    empty its first element is returned.  After a directive that is decoded
    once ([A], [a], [Z], [H], [h]) the [continue] passes over the test of
    [single], so that the rest of the template is still run: ["A3x5"] on
    ["abc"] raises for its second directive. *)
Theorem unpack1_reads_outside_an_empty_array :
  (forall cfg s template i,
     unpack_run cfg s template true = Ok (i, []) ->
     _pack_unpack1 cfg s template = Undefined) /\
  (forall cfg s template i v rest,
     unpack_run cfg s template true = Ok (i, v :: rest) ->
     _pack_unpack1 cfg s template = Ok v) /\
  unpack_run cfg64 [] "U" true = Ok (1, []) /\
  _pack_unpack1 cfg64 [] "U" = Undefined /\
  unpack_run cfg64 (bytes_of_string "abc") "C0" true = Ok (0, []) /\
  _pack_unpack1 cfg64 (bytes_of_string "abc") "C0" = Undefined /\
  _pack_unpack1 cfg32 [] "U" = Undefined /\
  _pack_unpack1 cfg64 (bytes_of_string "abc") "C2" = Ok (fixnum_value 97) /\
  _pack_unpack1 cfg64 (bytes_of_string "abc") "A3x5"
    = Raise E_ARGUMENT_ERROR "x outside of string".
Proof.
  split; [| split].
  - intros cfg s template i H. unfold _pack_unpack1, pack_unpack.
    rewrite H. reflexivity.
  - intros cfg s template i v rest H. unfold _pack_unpack1, pack_unpack.
    rewrite H. reflexivity.
  - repeat split; vm_compute; reflexivity.
Qed.

Lemma unpack1_witness :
  _pack_unpack1 cfg64 [] "U" = Undefined /\
  _pack_unpack1 cfg64 [0x41; 0x42] "C2" = Ok (fixnum_value 0x41).
Proof.
  destruct unpack1_reads_outside_an_empty_array as (H1 & H2 & _).
  split.
  - exact (H1 cfg64 [] "U"%string 1 eq_refl).
  - exact (H2 cfg64 [0x41; 0x42] "C2"%string 2 (fixnum_value 0x41)
              [fixnum_value 0x42] eq_refl).
Defined.

(** ** Five- and six-byte UTF-8 sequences *)

Lemma range_check (P : Z -> bool) (n : nat) :
  forallb P (map Z.of_nat (seq 0 n)) = true ->
  forall y, 0 <= y < Z.of_nat n -> P y = true.
Proof.
  intros H y Hy. rewrite forallb_forall in H. apply H.
  replace y with (Z.of_nat (Z.to_nat y)) by lia.
  apply in_map, in_seq. lia.
Qed.

Lemma continuation_byte (y : Z) :
  0 <= y < 64 ->
  Z.land (Z.land (0x80 + y) 0xff) 0xc0 = 0x80 /\
  Z.land (Z.land (0x80 + y) 0xff) 0x3f = y.
Proof.
  intros Hy.
  pose proof (range_check
    (fun y => (Z.land (Z.land (0x80 + y) 0xff) 0xc0 =? 0x80)
              && (Z.land (Z.land (0x80 + y) 0xff) 0x3f =? y)) 64
    eq_refl y Hy) as H.
  cbv beta in H. apply andb_prop in H. destruct H as [H1 H2].
  split; now apply Z.eqb_eq.
Qed.

Lemma lor_shiftl_low (u y k : Z) :
  0 <= k -> 0 <= y < 2 ^ k -> Z.lor (Z.shiftl u k) y = u * 2 ^ k + y.
Proof.
  intros Hk Hy.
  assert (D : Z.land (Z.shiftl u k) y = 0).
  { apply Z.bits_inj'. intros n Hn. rewrite Z.land_spec, Z.bits_0.
    destruct (Z.lt_ge_cases n k) as [L | G].
    - rewrite Z.shiftl_spec_low by assumption. reflexivity.
    - replace (Z.testbit y n) with false; [apply andb_false_r |].
      symmetry. destruct (Z.eq_dec y 0) as [-> | Ny]; [apply Z.bits_0 |].
      apply Z.bits_above_log2; [lia |].
      apply Z.lt_le_trans with k; [| assumption].
      apply Z.log2_lt_pow2; lia. }
  rewrite <- Z.lxor_lor, <- Z.add_nocarry_lxor by assumption.
  now rewrite Z.shiftl_mul_pow2.
Qed.

Lemma utf8_tail_continuation (n : nat) (y uv : Z) (p : bstr) :
  0 <= y < 64 ->
  utf8_tail (S n) (0x80 + y :: p) uv = utf8_tail n p (uv * 64 + y).
Proof.
  intros Hy. destruct (continuation_byte y Hy) as [H1 H2].
  cbn [utf8_tail hd tl]. rewrite H1, H2. cbn [Z.eqb Pos.eqb negb].
  now rewrite (lor_shiftl_low uv y 6) by lia.
Qed.

Lemma utf8_to_uv_lead5 (x lenp : Z) (p : bstr) :
  0 <= x < 4 ->
  utf8_to_uv (0xF8 + x :: p) lenp =
  if 5 >? lenp then
    Raise E_ARGUMENT_ERROR
      ("malformed UTF-8 character (expected 5 bytes, given "
       ++ string_of_Z lenp ++ " bytes)")
  else
    uv <- utf8_tail 4 p x ;;
    if uv <? 0x200000 then Raise E_ARGUMENT_ERROR "redundant UTF-8 sequence"
    else Ok (uv, 5).
Proof.
  intros Hx.
  assert (C : x = 0 \/ x = 1 \/ x = 2 \/ x = 3) by lia.
  destruct C as [-> | [-> | [-> | ->]]]; reflexivity.
Qed.

Lemma utf8_to_uv_lead6 (x lenp : Z) (p : bstr) :
  0 <= x < 2 ->
  utf8_to_uv (0xFC + x :: p) lenp =
  if 6 >? lenp then
    Raise E_ARGUMENT_ERROR
      ("malformed UTF-8 character (expected 6 bytes, given "
       ++ string_of_Z lenp ++ " bytes)")
  else
    uv <- utf8_tail 5 p x ;;
    if uv <? 0x4000000 then Raise E_ARGUMENT_ERROR "redundant UTF-8 sequence"
    else Ok (uv, 6).
Proof.
  intros Hx.
  assert (C : x = 0 \/ x = 1) by lia.
  destruct C as [-> | ->]; reflexivity.
Qed.

(** The claim of C3 fails: the five bytes F8 88 80 80 80, whose leading byte
    declares a sequence of five bytes, are decoded to the value 0x200000. *)
Lemma utf8_five_byte_sequence_decoded :
  utf8_to_uv [0xF8; 0x88; 0x80; 0x80; 0x80] 5 = Ok (0x200000, 5) /\
  _pack_unpack cfg64 [0xF8; 0x88; 0x80; 0x80; 0x80] "U"
    = Ok [fixnum_value 0x200000] /\
  _pack_unpack cfg64 [0xFC; 0x84; 0x80; 0x80; 0x80; 0x80] "U"
    = Ok [fixnum_value 0x4000000].
Proof. repeat split; vm_compute; reflexivity. Qed.

(** C3, amended.  A leading byte F8..FB followed by four continuation bytes,
    and a leading byte FC or FD followed by five, are decoded like the shorter
    forms: when at least that many bytes are available, [utf8_to_uv] returns
    the value assembled from the payload bits together with the length 5 or
    6, unless that value lies below 0x200000, respectively 0x4000000, which
    is the error "redundant UTF-8 sequence". *)
Theorem utf8_long_sequences_are_decoded :
  forall x y1 y2 y3 y4 y5 lenp rest,
    0 <= y1 < 64 -> 0 <= y2 < 64 -> 0 <= y3 < 64 -> 0 <= y4 < 64 ->
    0 <= y5 < 64 ->
    (0 <= x < 4 -> 5 <= lenp ->
     let uv := x * 2 ^ 24 + y1 * 2 ^ 18 + y2 * 2 ^ 12 + y3 * 2 ^ 6 + y4 in
     utf8_to_uv (0xF8 + x :: 0x80 + y1 :: 0x80 + y2 :: 0x80 + y3
                 :: 0x80 + y4 :: rest) lenp =
     if uv <? 0x200000 then Raise E_ARGUMENT_ERROR "redundant UTF-8 sequence"
     else Ok (uv, 5)) /\
    (0 <= x < 2 -> 6 <= lenp ->
     let uv := x * 2 ^ 30 + y1 * 2 ^ 24 + y2 * 2 ^ 18 + y3 * 2 ^ 12
               + y4 * 2 ^ 6 + y5 in
     utf8_to_uv (0xFC + x :: 0x80 + y1 :: 0x80 + y2 :: 0x80 + y3
                 :: 0x80 + y4 :: 0x80 + y5 :: rest) lenp =
     if uv <? 0x4000000 then Raise E_ARGUMENT_ERROR "redundant UTF-8 sequence"
     else Ok (uv, 6)).
Proof.
  intros x y1 y2 y3 y4 y5 lenp rest H1 H2 H3 H4 H5. split.
  - intros Hx Hl uv. rewrite utf8_to_uv_lead5 by assumption.
    destruct (Z.gtb_spec 5 lenp) as [G | _]; [lia |].
    rewrite !utf8_tail_continuation by assumption. cbn [utf8_tail bind].
    replace ((((x * 64 + y1) * 64 + y2) * 64 + y3) * 64 + y4) with uv
      by (unfold uv; ring).
    reflexivity.
  - intros Hx Hl uv. rewrite utf8_to_uv_lead6 by assumption.
    destruct (Z.gtb_spec 6 lenp) as [G | _]; [lia |].
    rewrite !utf8_tail_continuation by assumption. cbn [utf8_tail bind].
    replace (((((x * 64 + y1) * 64 + y2) * 64 + y3) * 64 + y4) * 64 + y5)
      with uv by (unfold uv; ring).
    reflexivity.
Qed.

Lemma utf8_long_sequences_witness :
  utf8_to_uv [0xF9; 0x80; 0x80; 0x80; 0x81] 5 = Ok (0x1000001, 5) /\
  utf8_to_uv [0xFD; 0x80; 0x80; 0x80; 0x80; 0x82; 0x41] 7 = Ok (0x40000002, 6).
Proof.
  destruct (utf8_long_sequences_are_decoded 1 0 0 0 1 2 5 []
              ltac:(lia) ltac:(lia) ltac:(lia) ltac:(lia) ltac:(lia))
    as [H5 _].
  destruct (utf8_long_sequences_are_decoded 1 0 0 0 0 2 7 [0x41]
              ltac:(lia) ltac:(lia) ltac:(lia) ltac:(lia) ltac:(lia))
    as [_ H6].
  split; [exact (H5 ltac:(lia) ltac:(lia)) | exact (H6 ltac:(lia) ltac:(lia))].
Defined.

(** ** Line wrapping of base64 *)

Lemma list_ind3 (P : list Z -> Prop) :
  P [] -> (forall a, P [a]) -> (forall a b, P [a; b]) ->
  (forall a b c l, P l -> P (a :: b :: c :: l)) ->
  forall l, P l.
Proof.
  intros H0 H1 H2 H3.
  assert (A : forall l, P l /\ (forall a, P (a :: l)) /\ (forall a b, P (a :: b :: l))).
  { induction l as [| x l (I0 & I1 & I2)]; repeat split; auto. }
  intros l. apply A.
Qed.

Lemma b64_not_newline (i : Z) : b64 i <> chr "010".
Proof.
  unfold b64.
  assert (F : forallb (fun b => negb (b =? chr "010")) base64chars = true)
    by reflexivity.
  rewrite forallb_forall in F.
  destruct (Nat.lt_ge_cases (Z.to_nat i) (List.length base64chars)) as [L | G].
  - specialize (F _ (nth_In base64chars 0 L)).
    apply negb_true_iff, Z.eqb_neq in F. exact F.
  - rewrite nth_overflow by assumption. discriminate.
Qed.

Lemma pack_m_newline_zero (column : Z) : pack_m_newline column 0 = [].
Proof.
  unfold pack_m_newline. change (0 >? 0) with false.
  now rewrite andb_false_r.
Qed.

Lemma pack_m_loop_unwrapped (src : bstr) :
  forall column, 0 < column -> ~ In (chr "010") (pack_m_loop src column 0).
Proof.
  induction src as [| a | a b | a b c rest IH] using list_ind3;
    intros column Hc; cbn [pack_m_loop]; rewrite ?pack_m_newline_zero.
  - intros [].
  - cbn [app In].
    intros [H | [H | [H | [H | []]]]];
      solve [eapply b64_not_newline; eassumption | discriminate H].
  - cbn [app In].
    intros [H | [H | [H | [H | []]]]];
      solve [eapply b64_not_newline; eassumption | discriminate H].
  - destruct (Z.eqb_spec column 0) as [E | _]; [lia |].
    cbn [In]. intros [H | [H | [H | [H | H]]]];
      try solve [eapply b64_not_newline; eassumption].
    revert H. apply IH. lia.
Qed.

Lemma pack_m_loop_ends_line (src : bstr) (count : Z) :
  0 < count ->
  forall column, 0 < column ->
    exists pre, pack_m_loop src column count = pre ++ [chr "010"].
Proof.
  intros Hn.
  induction src as [| a | a b | a b c rest IH] using list_ind3;
    intros column Hc; cbn [pack_m_loop]; unfold pack_m_newline.
  - exists []. destruct (Z.gtb_spec column 0); [| lia].
    destruct (Z.gtb_spec count 0); [reflexivity | lia].
  - destruct (Z.gtb_spec (column + 3) 0); [| lia].
    destruct (Z.gtb_spec count 0); [| lia]. eexists. reflexivity.
  - destruct (Z.gtb_spec (column + 3) 0); [| lia].
    destruct (Z.gtb_spec count 0); [| lia]. eexists. reflexivity.
  - destruct (column =? count).
    + destruct (IH (0 + 3)) as (pre & ->); [lia |].
      eexists (_ :: _ :: _ :: _ :: _ :: pre). reflexivity.
    + destruct (IH (column + 3)) as (pre & ->); [lia |].
      eexists (_ :: _ :: _ :: _ :: pre). reflexivity.
Qed.

(** A line of [3 * S j] source bytes that starts at [column]: the loop
    encodes it as it does without wrapping, then breaks the line. *)
Lemma pack_m_loop_line (count : Z) (j : nat) :
  forall pre rest column column',
    List.length pre = (3 * S j)%nat ->
    column + 3 * Z.of_nat j = count -> 0 < column -> 0 < column' ->
    pack_m_loop (pre ++ rest) column count =
    pack_m_loop pre column' 0 ++ [chr "010"] ++ pack_m_loop rest 3 count.
Proof.
  induction j as [| j IH]; intros pre rest column column' Hl Hc H0 H0'.
  - destruct pre as [| a [| b [| c [| ? ?]]]]; cbn [List.length] in Hl; try lia.
    cbn [app pack_m_loop].
    destruct (Z.eqb_spec column count) as [_ | N]; [| lia].
    destruct (Z.eqb_spec column' 0) as [E | _]; [lia |].
    rewrite pack_m_newline_zero. reflexivity.
  - destruct pre as [| a [| b [| c pre']]]; cbn [List.length] in Hl; try lia.
    cbn [app pack_m_loop].
    destruct (Z.eqb_spec column count) as [E | _]; [lia |].
    destruct (Z.eqb_spec column' 0) as [E | _]; [lia |].
    rewrite (IH pre' rest (column + 3) (column' + 3)); try lia.
    reflexivity.
Qed.

Lemma pack_m_count_line (count : Z) :
  0 < pack_m_count count ->
  exists j, pack_m_count count = 3 + 3 * Z.of_nat j.
Proof.
  unfold pack_m_count.
  destruct (negb (count =? 0) && (count <? 3)) eqn:E1.
  - intros _. exists 14%nat. reflexivity.
  - destruct (Z.geb_spec count 3) as [G | L].
    + intros _. rewrite Z.rem_mod_nonneg by lia.
      exists (Z.to_nat (count / 3 - 1)).
      pose proof (Z.div_mod count 3 ltac:(lia)).
      pose proof (Z.mod_pos_bound count 3 ltac:(lia)). lia.
    + intros H. apply andb_false_iff in E1.
      destruct E1 as [E | E].
      * apply negb_false_iff, Z.eqb_eq in E. lia.
      * apply Z.ltb_ge in E. lia.
Qed.

Lemma pack_m_bytes_loop (src : bstr) (count : Z) :
  src <> [] -> pack_m_bytes src count = pack_m_loop src 3 (pack_m_count count).
Proof. destruct src; [congruence | reflexivity]. Qed.

(** The claim of C5 fails at the count 0: a source of 46 bytes is encoded
    without any newline, neither after 45 bytes nor at the end, and so are
    the three bytes of ["abc"] under the template ["m0"]. *)
Lemma base64_count_zero_does_not_wrap :
  existsb (Z.eqb (chr "010")) (pack_m_bytes (repeat (chr "a") 46) 0) = false /\
  _pack_pack cfg64 [str_value (bytes_of_string "abc")] "m0"
    = Ok (bytes_of_string "YWJj") /\
  _pack_pack cfg64 [str_value (bytes_of_string "abc")] "m"
    = Ok (bytes_of_string "YWJj" ++ [chr "010"]).
Proof. repeat split; vm_compute; reflexivity. Qed.

(** C5, amended.  The line length of [pack_m] is 45 source bytes for the
    counts 1, 2 and the consume-all sentinel, the count rounded down to a
    multiple of 3 for a count of 3 or more, and none for the count 0.
    Without a line length the output holds no newline.  With a line length
    [n], the output of a non-empty source ends in a newline, and a source
    longer than [n] bytes is encoded as its first [n] bytes without
    wrapping, a newline, and the encoding of the remaining bytes. *)
Theorem base64_line_length_and_wrapping :
  (pack_m_count 0 = 0 /\ pack_m_count 1 = 45 /\ pack_m_count 2 = 45 /\
   pack_m_count (-1) = 45 /\
   forall count, 3 <= count -> pack_m_count count = count - count mod 3) /\
  forall src count,
    (pack_m_count count = 0 -> ~ In (chr "010") (pack_m_bytes src count)) /\
    (0 < pack_m_count count -> src <> [] ->
     last (pack_m_bytes src count) 0 = chr "010") /\
    (0 < pack_m_count count -> pack_m_count count < RSTRING_LEN src ->
     pack_m_bytes src count =
     pack_m_bytes (firstn (Z.to_nat (pack_m_count count)) src) 0
     ++ [chr "010"]
     ++ pack_m_bytes (skipn (Z.to_nat (pack_m_count count)) src) count).
Proof.
  split.
  { repeat split; try reflexivity.
    intros count Hc. unfold pack_m_count.
    destruct (Z.eqb_spec count 0); [lia |].
    destruct (Z.ltb_spec count 3); [lia |].
    destruct (Z.geb_spec count 3); [| lia].
    cbn [negb andb]. now rewrite Z.rem_mod_nonneg by lia. }
  intros src count. repeat split.
  - intros E. unfold pack_m_bytes. destruct src as [| a src]; [intros [] |].
    rewrite E. apply pack_m_loop_unwrapped. lia.
  - intros Hn Hs. unfold pack_m_bytes. destruct src as [| a src]; [congruence |].
    destruct (pack_m_loop_ends_line (a :: src) _ Hn 3 ltac:(lia)) as (pre & ->).
    apply last_last.
  - intros Hn Hl. destruct (pack_m_count_line count Hn) as (j & Ej).
    unfold RSTRING_LEN in Hl.
    set (n := Z.to_nat (pack_m_count count)) in *.
    assert (Hf : List.length (firstn n src) = (3 * S j)%nat).
    { rewrite length_firstn. lia. }
    assert (Hk : List.length (skipn n src) <> O).
    { rewrite length_skipn. lia. }
    assert (Hs : src <> []) by (intros ->; cbn in Hl; lia).
    rewrite !pack_m_bytes_loop;
      [| intros E; rewrite E in Hk; now elim Hk
       | intros E; rewrite E in Hf; discriminate Hf
       | assumption ].
    rewrite <- (firstn_skipn n src) at 1.
    change (pack_m_count 0) with 0.
    apply pack_m_loop_line with (j := j); lia.
Qed.

Lemma base64_wrapping_witness :
  ~ In (chr "010") (pack_m_bytes (bytes_of_string "abcd") 0) /\
  last (pack_m_bytes (bytes_of_string "abcd") 2) 0 = chr "010" /\
  pack_m_bytes (bytes_of_string "abcdefg") 4 =
    pack_m_bytes (bytes_of_string "abc") 0 ++ [chr "010"]
    ++ pack_m_bytes (bytes_of_string "defg") 4.
Proof.
  destruct base64_line_length_and_wrapping as [_ H].
  destruct (H (bytes_of_string "abcd") 0) as (H1 & _ & _).
  destruct (H (bytes_of_string "abcd") 2) as (_ & H2 & _).
  destruct (H (bytes_of_string "abcdefg") 4) as (_ & _ & H3).
  split; [exact (H1 eq_refl) |].
  split; [exact (H2 eq_refl ltac:(discriminate)) |].
  exact (H3 eq_refl eq_refl).
Defined.

(** ** Templates read from a position inside a longer template *)

Lemma read_suffix_shift cfg t (k : Z) :
  forall s indigits n count flags,
    read_suffix cfg t s indigits (k + n) count flags =
    '(n', count', flags') <- read_suffix cfg t s indigits n count flags ;;
    Ok (k + n', count', flags').
Proof.
  induction s as [| ch s IH]; intros indigits n count flags;
    cbn [read_suffix]; [reflexivity |].
  replace (k + n + 1) with (k + (n + 1)) by lia.
  destruct (isdigit ch).
  - destruct indigits; [destruct (_ <? 0); [reflexivity |] |]; apply IH.
  - destruct (Ascii.eqb ch "*"); [apply IH |].
    destruct (is_modifier ch); [| reflexivity].
    destruct (negb _); [reflexivity |].
    destruct (_ || _); [apply IH |].
    destruct (Ascii.eqb ch "<"); apply IH.
Qed.

Lemma read_suffix_advances cfg t :
  forall s indigits n count flags n' count' flags',
    read_suffix cfg t s indigits n count flags = Ok (n', count', flags') ->
    n <= n' <= n + Z.of_nat (List.length s).
Proof.
  induction s as [| ch s IH]; intros indigits n count flags n' count' flags';
    cbn [read_suffix List.length].
  - intros [= <- _ _]. lia.
  - destruct (isdigit ch).
    + destruct indigits; [destruct (_ <? 0); [discriminate |] |];
        intros H; apply IH in H; lia.
    + destruct (Ascii.eqb ch "*"); [intros H; apply IH in H; lia |].
      destruct (is_modifier ch); [| intros [= <- _ _]; lia].
      destruct (negb _); [discriminate |].
      destruct (_ || _); [intros H; apply IH in H; lia |].
      destruct (Ascii.eqb ch "<"); intros H; apply IH in H; lia.
Qed.

Lemma string_length_app (a b : string) :
  String.length (a ++ b) = (String.length a + String.length b)%nat.
Proof. induction a as [| c a IH]; cbn; auto. Qed.

Lemma list_ascii_app (a b : string) :
  list_ascii_of_string (a ++ b)
  = (list_ascii_of_string a ++ list_ascii_of_string b)%list.
Proof. induction a as [| c a IH]; cbn; [reflexivity | now rewrite IH]. Qed.

Lemma list_ascii_length (a : string) :
  List.length (list_ascii_of_string a) = String.length a.
Proof. induction a as [| c a IH]; cbn; auto. Qed.

(** The template [pre ++ t] read from the position [i] of [t] on. *)
Lemma read_tmpl_shift cfg (pre t : string) (i : Z) :
  0 <= i ->
  read_tmpl cfg {| str := pre ++ t; idx := Z.of_nat (String.length pre) + i |} =
  '(tm, d) <- read_tmpl cfg {| str := t; idx := i |} ;;
  Ok ({| str := pre ++ t; idx := Z.of_nat (String.length pre) + idx tm |}, d).
Proof.
  intros Hi. unfold read_tmpl, tptr. cbn [str idx].
  rewrite list_ascii_app.
  replace (Z.to_nat (Z.of_nat (String.length pre) + i))
    with (List.length (list_ascii_of_string pre) + Z.to_nat i)%nat
    by (rewrite list_ascii_length; lia).
  rewrite app_nth2_plus.
  destruct (resolve_alias cfg _) as [c | | |]; cbn [bind]; try reflexivity.
  destruct (directive_of c) as [[[d ty] sz] fl].
  replace (Z.to_nat (Z.of_nat (String.length pre) + i + 1))
    with (List.length (list_ascii_of_string pre) + Z.to_nat (i + 1))%nat
    by (rewrite list_ascii_length; lia).
  rewrite skipn_app, skipn_all2 by lia.
  replace (_ + Z.to_nat (i + 1) - _)%nat with (Z.to_nat (i + 1)) by lia.
  cbn [app].
  replace (Z.of_nat (String.length pre) + i + 1)
    with (Z.of_nat (String.length pre) + (i + 1)) by lia.
  rewrite read_suffix_shift.
  destruct (read_suffix cfg c _ false (i + 1) 1 fl) as [[[n cnt] f] | | |];
    reflexivity.
Qed.

(** ** Modifiers in a template *)





Lemma resolve_alias_stays_integer cfg t t' :
  In t (list_ascii_of_string "sSiIlLqQ") -> resolve_alias cfg t = Ok t' ->
  strchr "sSiIlLqQ" t' = true.
Proof.
  intros H. cbn in H.
  destruct H as [<- | [<- | [<- | [<- | [<- | [<- | [<- | [<- | []]]]]]]]];
    cbn [resolve_alias];
    try (intros [= <-]; reflexivity);
    destruct (sizeof_int cfg =? 2); try (intros [= <-]; reflexivity);
    destruct (sizeof_int cfg =? 4); try (intros [= <-]; reflexivity);
    destruct (sizeof_int cfg =? 8); try (intros [= <-]; reflexivity);
    discriminate.
Qed.






Lemma strchr_integer_kinds_or_nul (t : ascii) :
  In t (list_ascii_of_string "sSiIlLqQ") \/ t = zero ->
  strchr "sSiIlLqQ" t = true.
Proof.
  intros [H | ->]; [| reflexivity]. cbn in H.
  repeat (destruct H as [<- | H]; [reflexivity |]). destruct H.
Qed.




(** ** Stores into the output string *)

Lemma capacity_bounds cfg :
  supported cfg ->
  2 ^ 30 <= capacity cfg /\ 2 * capacity cfg = 2 ^ (MRB_INT_BIT cfg - 1).
Proof.
  intros (_ & Hi & _). unfold capacity.
  destruct Hi as [-> | ->]; cbn; lia.
Qed.

Lemma capacity_small cfg (x : Z) :
  supported cfg -> x <= 2 ^ 30 -> x <= capacity cfg.
Proof. intros Hc Hx. destruct (capacity_bounds cfg Hc). lia. Qed.

Lemma mrb_int_cast_double cfg (n : Z) :
  supported cfg -> 0 <= n < capacity cfg -> mrb_int_cast cfg (n * 2) = n * 2.
Proof.
  intros Hc Hn. destruct (capacity_bounds cfg Hc) as [_ E].
  destruct Hc as (_ & Hi & _). unfold mrb_int_cast.
  apply sint_small; [destruct Hi as [-> | ->]; lia | lia].
Qed.

(** Below the capacity the doubling does not wrap around, and it ends as
    soon as the request fits. *)
Lemma double_until_ok cfg (fuel : nat) :
  supported cfg ->
  forall n len,
    0 < n < len -> len <= capacity cfg -> len <= n * 2 ^ Z.of_nat (S fuel) ->
    exists n', double_until cfg (S fuel) n len = Some n' /\ len <= n' /\ n <= n'.
Proof.
  intros Hc. induction fuel as [| fuel IH]; intros n len Hn Hl Hf.
  - cbn [double_until]. rewrite mrb_int_cast_double by (auto; lia).
    change (2 ^ Z.of_nat 1) with 2 in Hf.
    destruct (Z.gtb_spec len (n * 2)) as [G | L]; [lia |].
    exists (n * 2). repeat split; lia.
  - remember (S fuel) as f. cbn [double_until].
    rewrite mrb_int_cast_double by (auto; lia).
    destruct (Z.gtb_spec len (n * 2)) as [G | L].
    + subst f. destruct (IH (n * 2) len) as (n' & E & H1 & H2); try lia.
      * rewrite Nat2Z.inj_succ, Z.pow_succ_r in Hf by lia. lia.
      * exists n'. repeat split; auto; lia.
    + exists (n * 2). repeat split; lia.
Qed.

Lemma doubling_fuel_suffices cfg (n len : Z) :
  supported cfg -> 0 < n -> len <= capacity cfg ->
  len <= n * 2 ^ Z.of_nat (doubling_fuel cfg).
Proof.
  intros Hc Hn Hl. unfold doubling_fuel, capacity in *.
  destruct Hc as (_ & Hi & _).
  assert (P : 2 ^ (MRB_INT_BIT cfg - 2) <= 2 ^ Z.of_nat (S (Z.to_nat (MRB_INT_BIT cfg)))).
  { destruct Hi as [E | E]; rewrite E; apply Z.pow_le_mono_r; lia. }
  nia.
Qed.

Lemma str_len_ensure_ok cfg (str : bstr) (len : Z) :
  supported cfg -> str <> [] -> 0 <= len <= capacity cfg ->
  exists zeros, str_len_ensure cfg str len = Ok (str ++ zeros) /\
                len <= RSTRING_LEN (str ++ zeros).
Proof.
  intros Hc Hs Hl. unfold str_len_ensure.
  assert (Hn : 0 < RSTRING_LEN str).
  { unfold RSTRING_LEN. destruct str; [congruence | cbn [List.length]; lia]. }
  destruct (Z.ltb_spec len 0) as [L | _]; [lia |].
  destruct (Z.gtb_spec len (RSTRING_LEN str)) as [G | L].
  - unfold doubling_fuel.
    destruct (double_until_ok cfg (Z.to_nat (MRB_INT_BIT cfg)) Hc
                (RSTRING_LEN str) len)
      as (n' & -> & H1 & H2); try lia.
    { apply (doubling_fuel_suffices cfg); auto; lia. }
    exists (repeat 0 (Z.to_nat n' - List.length str)).
    unfold _str_resize. unfold RSTRING_LEN in *.
    rewrite firstn_all2 by lia. split; [reflexivity |].
    rewrite length_app, repeat_length. lia.
  - exists []. rewrite app_nil_r. split; [reflexivity | lia].
Qed.

Lemma poke_ok (str : bstr) :
  forall i b, (i < List.length str)%nat -> poke str i b = Ok (splice str i [b]).
Proof.
  induction str as [| hd tl IH]; intros i b Hi; [cbn in Hi; lia |].
  destruct i as [| i]; cbn [poke].
  - reflexivity.
  - rewrite IH by (cbn [List.length] in Hi; lia). reflexivity.
Qed.

Lemma splice_length (str : bstr) (i : nat) (bs : list Z) :
  (i + List.length bs <= List.length str)%nat ->
  List.length (splice str i bs) = List.length str.
Proof.
  intros H. unfold splice.
  rewrite !length_app, length_firstn, length_skipn. lia.
Qed.

Lemma splice_cons (str : bstr) (i : nat) (b : Z) (bs : list Z) :
  (i < List.length str)%nat ->
  splice (splice str i [b]) (S i) bs = splice str i (b :: bs).
Proof.
  intros Hi. unfold splice. cbn [List.length app].
  assert (L : List.length (firstn i str) = i) by (rewrite length_firstn; lia).
  rewrite firstn_app, L, firstn_all2 by lia.
  replace (S i - i)%nat with 1%nat by lia. cbn [firstn].
  rewrite skipn_app, L, (skipn_all2 (firstn i str)) by lia.
  replace (S i + List.length bs - i)%nat with (S (List.length bs)) by lia.
  cbn [skipn app]. rewrite skipn_skipn, <- app_assoc. cbn [app].
  replace (List.length bs + (i + 1))%nat with (i + S (List.length bs))%nat
    by lia.
  reflexivity.
Qed.

Lemma poke_all_ok (bs : list Z) :
  forall str idx,
    0 <= idx -> idx + Z.of_nat (List.length bs) <= RSTRING_LEN str ->
    poke_all str idx bs = Ok (splice str (Z.to_nat idx) bs).
Proof.
  unfold RSTRING_LEN.
  induction bs as [| b bs IH]; intros str idx H0 Hl; cbn [poke_all].
  - unfold splice. cbn [List.length app]. rewrite Nat.add_0_r.
    now rewrite firstn_skipn.
  - cbn [List.length] in Hl.
    destruct (Z.ltb_spec idx 0) as [L | _]; [lia |].
    rewrite poke_ok by lia. cbn [bind].
    rewrite IH; try lia.
    + replace (Z.to_nat (idx + 1)) with (S (Z.to_nat idx)) by lia.
      rewrite splice_cons by lia. reflexivity.
    + rewrite splice_length by (cbn [List.length]; lia). lia.
Qed.

(** An encoder that stores [bs] at a position inside the string succeeds: the
    string keeps what lay before the position, holds [bs] from there on and
    has not shrunk. *)
Lemma emit_ok cfg (str : bstr) (sidx need : Z) (bs : list Z) :
  supported cfg -> str <> [] ->
  0 <= sidx <= RSTRING_LEN str -> Z.of_nat (List.length bs) <= need ->
  sidx + need < 2 ^ 31 -> sidx + need <= capacity cfg ->
  exists str',
    emit cfg str sidx need bs = Ok (str', Z.of_nat (List.length bs)) /\
    firstn (Z.to_nat sidx + List.length bs) str'
      = firstn (Z.to_nat sidx) str ++ bs /\
    RSTRING_LEN str <= RSTRING_LEN str'.
Proof.
  intros Hc Hs Hi Hn Hb Hq. unfold emit.
  rewrite mrb_int_cast_small by (auto; lia).
  destruct (str_len_ensure_ok cfg str (sidx + need) Hc Hs ltac:(lia))
    as (zeros & -> & Hl).
  cbn [bind]. rewrite poke_all_ok by lia. cbn [bind].
  eexists. split; [reflexivity |]. unfold RSTRING_LEN in *.
  split.
  - unfold splice.
    assert (L : List.length (firstn (Z.to_nat sidx) (str ++ zeros)) = Z.to_nat sidx).
    { rewrite length_firstn, length_app. lia. }
    rewrite firstn_app, L, firstn_all2 by lia.
    replace (Z.to_nat sidx + List.length bs - Z.to_nat sidx)%nat
      with (List.length bs) by lia.
    rewrite firstn_app.
    replace (Z.to_nat sidx - List.length str)%nat with 0%nat by lia.
    cbn [firstn]. rewrite app_nil_r.
    rewrite (firstn_app (List.length bs) bs), firstn_all, Nat.sub_diag.
    cbn [firstn]. now rewrite app_nil_r.
  - rewrite splice_length by (rewrite length_app in *; lia).
    rewrite length_app. lia.
Qed.

Lemma poke_raises_nothing (str : bstr) :
  forall i b e msg, poke str i b <> Raise e msg.
Proof.
  induction str as [| hd tl IH]; intros i b e msg; cbn [poke]; [discriminate |].
  destruct i as [| i]; [discriminate |].
  specialize (IH i b e msg).
  destruct (poke tl i b); cbn [bind]; congruence.
Qed.

Lemma poke_all_raises_nothing (bs : list Z) :
  forall str idx e msg, poke_all str idx bs <> Raise e msg.
Proof.
  induction bs as [| b bs IH]; intros str idx e msg; cbn [poke_all];
    [discriminate |].
  destruct (idx <? 0); [discriminate |].
  pose proof (poke_raises_nothing str (Z.to_nat idx) b e msg) as Hp.
  destruct (poke str (Z.to_nat idx) b) as [str1 | | |]; cbn [bind];
    try congruence.
  apply IH.
Qed.

(** An error of an encoder comes from [str_len_ensure] alone: it does not
    depend on the bytes to store. *)
Lemma emit_raises cfg (str : bstr) (sidx need : Z) (bs bs' : list Z)
  (e : exc) (msg : string) :
  emit cfg str sidx need bs = Raise e msg ->
  emit cfg str sidx need bs' = Raise e msg.
Proof.
  unfold emit.
  destruct (str_len_ensure cfg str _) as [str1 | | |]; cbn [bind];
    try (intros H; exact H).
  destruct (poke_all str1 sidx bs) as [str2 | e' msg' | |] eqn:E; cbn [bind];
    try discriminate.
  now elim (poke_all_raises_nothing bs str1 sidx e' msg').
Qed.

(** ** Integers are truncated to the width of the directive *)

Lemma le_bytes_shiftr (w : nat) :
  forall n, le_bytes w n =
            map (fun i => char_byte (Z.shiftr n (8 * Z.of_nat i))) (seq 0 w).
Proof.
  induction w as [| w IH]; intros n; [reflexivity |].
  cbn [le_bytes seq map]. rewrite IH, <- seq_shift, map_map.
  f_equal. apply map_ext. intros i. unfold char_byte. f_equal.
  replace (n / 256) with (Z.shiftr n 8)
    by (now rewrite Z.shiftr_div_pow2 by lia).
  rewrite Z.shiftr_shiftr by lia.
  f_equal. lia.
Qed.

Lemma char_byte_low (n : Z) : char_byte (Z.land n 0xff) = char_byte (Z.shiftr n 0).
Proof.
  unfold char_byte. change 0xff with (Z.ones 8).
  rewrite Z.land_ones, Z.shiftr_0_r by lia.
  change (2 ^ 8) with 256. apply Z.mod_mod. lia.
Qed.

Lemma char_byte_mod (n : Z) : char_byte (n mod 256) = char_byte (Z.shiftr n 0).
Proof.
  unfold char_byte. rewrite Z.shiftr_0_r. apply Z.mod_mod. lia.
Qed.

Lemma char_byte_div (n : Z) : char_byte (n / 256) = char_byte (Z.shiftr n 8).
Proof. now rewrite Z.shiftr_div_pow2 by lia. Qed.

Lemma pack_integer_bytes (d : pack_dir) (w : nat) (v fl : Z) :
  int_width d = Some w ->
  forall cfg s sidx,
    pack_one cfg d (fixnum_value v) s sidx 1 fl =
    emit cfg s sidx (Z.of_nat w) (truncated w fl v).
Proof.
  intros Hw cfg s sidx. unfold truncated.
  destruct d; try discriminate Hw; injection Hw as <-;
    cbn [pack_one]; unfold pack_c, pack_s, pack_l, pack_q;
    cbn [_fixnum]; unfold uint;
    rewrite ?char_byte_low, ?char_byte_mod, ?char_byte_div;
    rewrite le_bytes_shiftr;
    destruct (has_flag fl PACK_FLAG_LITTLEENDIAN); try reflexivity;
    cbn [seq map rev app]; unfold char_byte;
    change (2 ^ (8 * Z.of_nat 1)) with 256;
    rewrite Z.shiftr_0_r, Z.mod_mod by lia; reflexivity.
Qed.

Lemma le_bytes_length (w : nat) : forall n, List.length (le_bytes w n) = w.
Proof. induction w as [| w IH]; intros n; cbn [le_bytes List.length]; auto. Qed.

Lemma truncated_length (w : nat) (fl v : Z) : List.length (truncated w fl v) = w.
Proof.
  unfold truncated. destruct (has_flag fl PACK_FLAG_LITTLEENDIAN);
    now rewrite ?length_rev, le_bytes_length.
Qed.

(** The encoders of the four integer kinds store the truncated value, at any
    position inside an output string. *)
Lemma pack_integer_ok cfg (d : pack_dir) (w : nat) (v : Z) (s : bstr)
  (sidx fl : Z) :
  supported cfg -> int_width d = Some w ->
  s <> [] -> 0 <= sidx <= RSTRING_LEN s ->
  sidx + 8 < 2 ^ 31 -> sidx + 8 <= capacity cfg ->
  exists s',
    pack_one cfg d (fixnum_value v) s sidx 1 fl = Ok (s', Z.of_nat w) /\
    firstn (Z.to_nat sidx + w) s' = firstn (Z.to_nat sidx) s ++ truncated w fl v /\
    RSTRING_LEN s <= RSTRING_LEN s'.
Proof.
  intros Hc Hw Hs Hi Hb Hq. rewrite (pack_integer_bytes d w v fl Hw).
  assert (W : (w <= 8)%nat).
  { destruct d; try discriminate Hw; injection Hw as <-; lia. }
  destruct (emit_ok cfg s sidx (Z.of_nat w) (truncated w fl v) Hc Hs Hi)
    as (s' & E & F & L); rewrite ?truncated_length in *; try lia.
  exists s'. auto.
Qed.

(** A call of pack on one value with a template of one directive character
    that is neither an alias, a string kind, the null directive nor
    unrecognized. *)
Lemma pack_single cfg (t : ascii) (o : value) :
  strchr "Ii" t = false ->
  dir (single_directive cfg t) <> PACK_DIR_NUL ->
  dir (single_directive cfg t) <> PACK_DIR_INVALID ->
  dir (single_directive cfg t) <> PACK_DIR_STR ->
  _pack_pack cfg [o] (String t "") =
  (o' <- coerce cfg (type (single_directive cfg t)) o ;;
   '(result, n) <-
     pack_one cfg (dir (single_directive cfg t)) o' (repeat 0 128) 0 1
       (flags (single_directive cfg t)) ;;
   if int_cast cfg (0 + n) <? 0
   then Raise E_RANGE_ERROR "negative (or overflowed) template size"
   else Ok (_str_resize result (int_cast cfg (0 + n)))).
Proof.
  intros Ht D1 D2 D3. unfold _pack_pack, pack_run, tmpl_fuel. cbn [String.length].
  erewrite pack_loop_values;
    [| reflexivity | apply (read_tmpl_single cfg t Ht) | exact D1 | exact D2].
  revert D1 D2 D3. unfold single_directive.
  destruct (directive_of t) as [[[d ty] sz] fl].
  cbn [dir type size count flags]. intros D1 D2 D3.
  change (skipn (Z.to_nat 0) [o]) with [o].
  cbn [pack_values]. change (1 =? 0) with false. cbn [andb].
  destruct (coerce cfg ty o) as [o' | | |]; cbn [bind]; try reflexivity.
  destruct (pack_one cfg d o' (repeat 0 128) 0 1 _) as [[result n] | | |];
    cbn [bind]; try reflexivity.
  destruct d; try congruence; cbn [bind];
    (destruct (int_cast cfg (0 + n) <? 0); [reflexivity |]);
    rewrite pack_loop_done by reflexivity; reflexivity.
Qed.

Lemma integer_directive_width cfg (t : ascii) :
  In t integer_directives ->
  strchr "Ii" t = false /\
  type (single_directive cfg t) = PACK_TYPE_INTEGER /\
  int_width (dir (single_directive cfg t))
    = Some (Z.to_nat (size (single_directive cfg t))).
Proof.
  intros H. cbn in H.
  repeat (destruct H as [<- | H]; [repeat split; reflexivity |]).
  destruct H.
Qed.

Lemma pack_integer_call cfg (t : ascii) (v : Z) :
  supported cfg -> In t integer_directives ->
  _pack_pack cfg [fixnum_value v] (String t "") =
  Ok (truncated (Z.to_nat (size (single_directive cfg t)))
        (flags (single_directive cfg t)) v).
Proof.
  intros Hc Ht.
  destruct (integer_directive_width cfg t Ht) as (Ha & Hty & Hw).
  set (d := single_directive cfg t) in *.
  rewrite pack_single; fold d; auto;
    try (intros E; rewrite E in Hw; discriminate Hw).
  rewrite Hty. cbn [coerce _to_int bind].
  destruct (pack_integer_ok cfg (dir d) _ v (repeat 0 128) 0 (flags d) Hc Hw)
    as (s' & E & F & L);
    [discriminate | cbn; lia | lia
     | destruct (capacity_bounds cfg Hc); lia |].
  rewrite E. cbn [bind].
  assert (W : (Z.to_nat (size d) <= 8)%nat).
  { destruct (dir d); try discriminate Hw; injection Hw as <-; lia. }
  rewrite int_cast_small by (auto; lia).
  destruct (Z.ltb_spec (0 + Z.of_nat (Z.to_nat (size d))) 0); [lia |].
  f_equal. unfold _str_resize.
  replace (Z.to_nat (0 + Z.of_nat (Z.to_nat (size d))))
    with (Z.to_nat 0 + Z.to_nat (size d))%nat by lia.
  rewrite F. unfold RSTRING_LEN in L. rewrite repeat_length in L.
  replace (Z.to_nat 0 + Z.to_nat (size d) - List.length s')%nat with 0%nat
    by lia.
  cbn [firstn repeat app]. now rewrite app_nil_r.
Qed.

(** C9.  For the integer directives of a fixed width, the encoder given an
    integer [v] raises nothing at any position inside an output string from
    which eight more bytes stay below 2^31 and within the capacity of the
    doubling of [str_len_ensure]: it stores the bytes of [v] reduced modulo
    two to the power of the width, in the byte order of the directive, and
    reports the width.  So a call of pack on the one integer [v] with such a
    directive returns those bytes, whatever [v] is.  At every position, an
    error that the encoder raises for one integer it raises for every
    other: no error depends on the value. *)
Theorem pack_truncates_integers :
  forall cfg, supported cfg ->
    (forall d w v s sidx fl,
       int_width d = Some w ->
       s <> [] -> 0 <= sidx <= RSTRING_LEN s ->
       sidx + 8 < 2 ^ 31 -> sidx + 8 <= capacity cfg ->
       exists s',
         pack_one cfg d (fixnum_value v) s sidx 1 fl = Ok (s', Z.of_nat w) /\
         firstn (Z.to_nat sidx + w) s'
           = firstn (Z.to_nat sidx) s ++ truncated w fl v) /\
    (forall t v,
       In t integer_directives ->
       _pack_pack cfg [fixnum_value v] (String t "") =
       Ok (truncated (Z.to_nat (size (single_directive cfg t)))
             (flags (single_directive cfg t)) v)) /\
    (forall d w v v' s sidx fl e msg,
       int_width d = Some w ->
       pack_one cfg d (fixnum_value v) s sidx 1 fl = Raise e msg ->
       pack_one cfg d (fixnum_value v') s sidx 1 fl = Raise e msg).
Proof.
  intros cfg Hc. split; [| split].
  - intros d w v s sidx fl Hw Hs Hi Hb Hq.
    destruct (pack_integer_ok cfg d w v s sidx fl Hc Hw Hs Hi Hb Hq)
      as (s' & E & F & _).
    eauto.
  - intros t v Ht. now apply pack_integer_call.
  - intros d w v v' s sidx fl e msg Hw.
    rewrite !(pack_integer_bytes d w _ fl Hw). apply emit_raises.
Qed.

Lemma pack_truncates_witness :
  _pack_pack cfg64 [fixnum_value 70000] "n" = Ok [0x11; 0x70] /\
  _pack_pack cfg64 [fixnum_value (-1)] "C" = Ok [0xff].
Proof.
  destruct (pack_truncates_integers cfg64 supported_cfg64) as (_ & H & _).
  split.
  - exact (H "n"%char 70000 ltac:(cbn; tauto)).
  - exact (H "C"%char (-1) ltac:(cbn; tauto)).
Defined.

(** ** Round trip of the integer directives *)

Lemma sint_cases (w x : Z) :
  0 < w -> 0 <= x < 2 ^ w ->
  sint w x = if x <? 2 ^ (w - 1) then x else x - 2 ^ w.
Proof.
  intros Hw Hx. unfold sint.
  assert (E : 2 ^ w = 2 * 2 ^ (w - 1)).
  { replace w with (Z.succ (w - 1)) at 1 by lia. apply Z.pow_succ_r. lia. }
  destruct (Z.ltb_spec x (2 ^ (w - 1))).
  - rewrite Z.mod_small; lia.
  - replace (x + 2 ^ (w - 1)) with (x - 2 ^ (w - 1) + 1 * 2 ^ w) by lia.
    rewrite Z.mod_add by lia. rewrite Z.mod_small; lia.
Qed.

Lemma sint_mod (w x : Z) : 0 < w -> sint w (x mod 2 ^ w) = sint w x.
Proof.
  intros Hw. unfold sint. f_equal.
  rewrite Z.add_mod_idemp_l by (apply Z.pow_nonzero; lia). reflexivity.
Qed.

Lemma le_value_le_bytes (w : nat) :
  forall n, le_value (le_bytes w n) = n mod 2 ^ (8 * Z.of_nat w).
Proof.
  induction w as [| w IH]; intros n.
  - cbn. now rewrite Z.mod_1_r.
  - cbn [le_bytes le_value]. rewrite IH.
    replace (2 ^ (8 * Z.of_nat (S w))) with (256 * 2 ^ (8 * Z.of_nat w)).
    + rewrite Z.rem_mul_r by lia. reflexivity.
    + replace (8 * Z.of_nat (S w)) with (8 + 8 * Z.of_nat w) by lia.
      rewrite Z.pow_add_r by lia. reflexivity.
Qed.

Lemma le_bytes_are_bytes (w : nat) : forall n, Forall is_byte (le_bytes w n).
Proof.
  induction w as [| w IH]; intros n; cbn [le_bytes]; constructor; auto.
  unfold is_byte. apply Z.mod_pos_bound. lia.
Qed.

Lemma truncated_are_bytes (w : nat) (fl v : Z) : Forall is_byte (truncated w fl v).
Proof.
  unfold truncated. destruct (has_flag fl PACK_FLAG_LITTLEENDIAN).
  - apply le_bytes_are_bytes.
  - apply Forall_rev, le_bytes_are_bytes.
Qed.

Lemma decoded_truncated (w : nat) (fl v : Z) :
  (0 < w)%nat -> representable w fl v -> decoded w fl (truncated w fl v) = v.
Proof.
  intros Hw Hr. unfold decoded, truncated, representable in *.
  assert (E : le_value
                (if has_flag fl PACK_FLAG_LITTLEENDIAN
                 then (if has_flag fl PACK_FLAG_LITTLEENDIAN
                       then le_bytes w (v mod 2 ^ (8 * Z.of_nat w))
                       else rev (le_bytes w (v mod 2 ^ (8 * Z.of_nat w))))
                 else rev (if has_flag fl PACK_FLAG_LITTLEENDIAN
                           then le_bytes w (v mod 2 ^ (8 * Z.of_nat w))
                           else rev (le_bytes w (v mod 2 ^ (8 * Z.of_nat w)))))
              = v mod 2 ^ (8 * Z.of_nat w)).
  { destruct (has_flag fl PACK_FLAG_LITTLEENDIAN);
      rewrite ?rev_involutive, le_value_le_bytes;
      apply Z.mod_mod, Z.pow_nonzero; lia. }
  cbv zeta. rewrite E.
  destruct (has_flag fl PACK_FLAG_SIGNED).
  - rewrite sint_mod by lia. apply sint_small; lia.
  - apply Z.mod_small. exact Hr.
Qed.

Lemma decode_eq (ary : list value) (x y n m : Z) :
  x = y -> n = m ->
  @Ok (list value * Z) (ary ++ [fixnum_value x], n)
  = Ok (ary ++ [fixnum_value y], m).
Proof. now intros -> ->. Qed.

Ltac drop_mods :=
  repeat match goal with
         | |- context [?x mod ?m] => rewrite (Z.mod_small x m) by lia
         end.

Ltac finish_decode :=
  rewrite ?sint_cases by lia;
  repeat match goal with
         | |- context [int_cast ?c ?x] =>
             rewrite (int_cast_small c x) by (auto; lia)
         | |- context [?a >=? ?b] => destruct (Z.geb_spec a b)
         | |- context [?a <? ?b] => destruct (Z.ltb_spec a b)
         end;
  (apply decode_eq; [lia | reflexivity]).

Lemma fixable_checks cfg (x : Z) :
  MRB_INT_MIN cfg <= x <= MRB_INT_MAX cfg ->
  FIXABLE cfg x = true /\ POSFIXABLE cfg x = true.
Proof.
  intros H. unfold FIXABLE, POSFIXABLE, NEGFIXABLE.
  destruct (Z.leb_spec x (MRB_INT_MAX cfg)); [| lia].
  destruct (Z.leb_spec (MRB_INT_MIN cfg) x); [| lia]. auto.
Qed.

(** The decoders of the four integer kinds on exactly the bytes of one
    value, when the value they denote is a Fixnum. *)
Lemma unpack_integer_ok cfg (d : pack_dir) (w : nat) (bs : list Z)
  (slen fl : Z) (ary : list value) :
  supported cfg -> int_width d = Some w ->
  List.length bs = w -> Forall is_byte bs ->
  MRB_INT_MIN cfg <= decoded w fl bs <= MRB_INT_MAX cfg ->
  unpack_one cfg d bs slen ary fl =
  Ok (ary ++ [fixnum_value (decoded w fl bs)], Z.of_nat w).
Proof.
  intros Hc Hw Hl Hb Hr.
  destruct (fixable_checks cfg _ Hr) as [Fx Px].
  rewrite <- (mrb_int_cast_fixable cfg _ Hc Hr) at 1.
  destruct d; try discriminate Hw; injection Hw as <-.
  - destruct bs as [| b0 [| ? ?]]; try discriminate Hl.
    inversion Hb as [| ? ? B0 _]; subst. unfold is_byte in *.
    cbn [unpack_one]. unfold unpack_c.
    rewrite (mrb_int_cast_fixable cfg _ Hc Hr). unfold decoded in *.
    cbn [src_at nth].
    destruct (has_flag fl PACK_FLAG_LITTLEENDIAN);
      destruct (has_flag fl PACK_FLAG_SIGNED); cbn [rev app le_value];
      change (8 * Z.of_nat 1) with 8 in *;
      finish_decode.
  - destruct bs as [| b0 [| b1 [| ? ?]]]; try discriminate Hl.
    inversion Hb as [| ? ? B0 Hb1]; inversion Hb1 as [| ? ? B1 _]; subst.
    unfold is_byte in *.
    cbn [unpack_one]. unfold unpack_s.
    rewrite (mrb_int_cast_fixable cfg _ Hc Hr). unfold decoded in *.
    cbn [src_at nth].
    destruct (has_flag fl PACK_FLAG_LITTLEENDIAN);
      destruct (has_flag fl PACK_FLAG_SIGNED);
      cbn [rev app le_value andb] in *;
      change (8 * Z.of_nat 2) with 16 in *;
      finish_decode.
  - destruct bs as [| b0 [| b1 [| b2 [| b3 [| ? ?]]]]]; try discriminate Hl.
    inversion Hb as [| ? ? B0 Hb1]; inversion Hb1 as [| ? ? B1 Hb2];
      inversion Hb2 as [| ? ? B2 Hb3]; inversion Hb3 as [| ? ? B3 _]; subst.
    unfold is_byte in *.
    cbn [unpack_one]. unfold unpack_l.
    cbn [src_at nth].
    assert (E :
      (if has_flag fl PACK_FLAG_LITTLEENDIAN then
         uint 32 (uint 32 (uint 32 (uint 32 (b3 * 256 * 256 * 256)
                                    + uint 32 (b2 * 256 * 256))
                           + uint 32 (b1 * 256)) + b0)
       else
         uint 32 (uint 32 (uint 32 (uint 32 (b0 * 256 * 256 * 256)
                                    + uint 32 (b1 * 256 * 256))
                           + uint 32 (b2 * 256)) + b3))
      = le_value (if has_flag fl PACK_FLAG_LITTLEENDIAN
                  then [b0; b1; b2; b3] else rev [b0; b1; b2; b3])).
    { destruct (has_flag fl PACK_FLAG_LITTLEENDIAN); unfold uint;
        cbn [rev app le_value]; drop_mods; lia. }
    rewrite E. unfold decoded in *. change (8 * Z.of_nat 4) with 32 in *.
    destruct (has_flag fl PACK_FLAG_SIGNED);
      rewrite ?Fx, ?Px; cbn [negb]; rewrite andb_false_r; reflexivity.
  - destruct bs as [| b0 [| b1 [| b2 [| b3 [| b4 [| b5 [| b6 [| b7 [| ? ?]]]]]]]]];
      try discriminate Hl.
    inversion Hb as [| ? ? B0 Hb1]; inversion Hb1 as [| ? ? B1 Hb2];
      inversion Hb2 as [| ? ? B2 Hb3]; inversion Hb3 as [| ? ? B3 Hb4];
      inversion Hb4 as [| ? ? B4 Hb5]; inversion Hb5 as [| ? ? B5 Hb6];
      inversion Hb6 as [| ? ? B6 Hb7]; inversion Hb7 as [| ? ? B7 _]; subst.
    unfold is_byte in *.
    cbn [unpack_one]. unfold unpack_q.
    assert (E :
      (let '(pos, step) :=
         if has_flag fl PACK_FLAG_LITTLEENDIAN then (7, -1) else (0, 1) in
       unpack_q_loop 8 [b0; b1; b2; b3; b4; b5; b6; b7] pos step 0)
      = le_value (if has_flag fl PACK_FLAG_LITTLEENDIAN
                  then [b0; b1; b2; b3; b4; b5; b6; b7]
                  else rev [b0; b1; b2; b3; b4; b5; b6; b7])).
    { destruct (has_flag fl PACK_FLAG_LITTLEENDIAN).
      - change (unpack_q_loop 8 [b0; b1; b2; b3; b4; b5; b6; b7] 7 (-1) 0)
          with (uint 64 (uint 64 (uint 64 (uint 64 (uint 64 (uint 64
                (uint 64 (uint 64 (uint 64 (uint 64 (uint 64 (uint 64
                (uint 64 (uint 64 (uint 64 (uint 64 (0 * 256) + b7) * 256)
                + b6) * 256) + b5) * 256) + b4) * 256) + b3) * 256) + b2)
                * 256) + b1) * 256) + b0)).
        unfold uint. cbn [rev app le_value]. drop_mods. lia.
      - change (unpack_q_loop 8 [b0; b1; b2; b3; b4; b5; b6; b7] 0 1 0)
          with (uint 64 (uint 64 (uint 64 (uint 64 (uint 64 (uint 64
                (uint 64 (uint 64 (uint 64 (uint 64 (uint 64 (uint 64
                (uint 64 (uint 64 (uint 64 (uint 64 (0 * 256) + b0) * 256)
                + b1) * 256) + b2) * 256) + b3) * 256) + b4) * 256) + b5)
                * 256) + b6) * 256) + b7)).
        unfold uint. cbn [rev app le_value]. drop_mods. lia. }
    unfold decoded in *. change (8 * Z.of_nat 8) with 64 in *.
    destruct (has_flag fl PACK_FLAG_LITTLEENDIAN);
      rewrite E; destruct (has_flag fl PACK_FLAG_SIGNED);
      rewrite ?Fx, ?Px; reflexivity.
Qed.

(** A call of unpack on exactly the bytes of one value, with a template of
    one directive character of a fixed width. *)
Lemma unpack_single cfg (t : ascii) (s : bstr) :
  supported cfg -> strchr "Ii" t = false ->
  dir (single_directive cfg t) <> PACK_DIR_NUL ->
  dir (single_directive cfg t) <> PACK_DIR_INVALID ->
  has_flag (flags (single_directive cfg t)) PACK_FLAG_COUNT2 = false ->
  0 < size (single_directive cfg t) < 2 ^ 31 ->
  RSTRING_LEN s = size (single_directive cfg t) ->
  _pack_unpack cfg s (String t "") =
  ('(result, n) <-
     unpack_one cfg (dir (single_directive cfg t)) s
       (size (single_directive cfg t)) [] (flags (single_directive cfg t)) ;;
   Ok result).
Proof.
  intros Hc Ht D1 D2 F Hz Hl.
  unfold _pack_unpack, pack_unpack, unpack_run, tmpl_fuel.
  cbn [String.length]. rewrite int_cast_small by (auto; lia). rewrite Hl.
  erewrite unpack_loop_count;
    [| reflexivity | apply (read_tmpl_single cfg t Ht) | exact D1 | exact D2
     | exact F].
  revert D1 D2 F Hz Hl. unfold single_directive.
  destruct (directive_of t) as [[[d ty] sz] fl].
  cbn [dir type size count flags]. intros D1 D2 F Hz Hl.
  destruct (count_fuel_pos sz 0 1 ltac:(lia)) as (fuel & ->).
  cbn [unpack_count]. change (1 =? 0) with false. cbv iota.
  replace (sz - 0) with sz by lia.
  destruct (Z.ltb_spec sz sz) as [L | _]; [lia |].
  change (skipn (Z.to_nat 0) s) with s.
  destruct (unpack_one cfg d s sz [] _) as [[result n] | | |];
    cbn [bind]; try reflexivity.
  change (if 1 >? 0 then 1 - 1 else 1) with 0.
  destruct fuel; cbn [unpack_count]; change (0 =? 0) with true; cbv iota;
    cbn [bind]; rewrite unpack_loop_done by reflexivity; reflexivity.
Qed.

(** C2.  For each of the directives C c S s n v L l N V Q q and each integer
    [v] that fits the width and signedness of the directive, packing [v]
    succeeds and unpacking the bytes with the same directive gives back the
    array that holds [v].  The integer is a Fixnum of the build, so it lies
    between [MRB_INT_MIN] and [MRB_INT_MAX]: the array handed to pack holds
    no other integers. *)
Theorem integer_round_trip :
  forall cfg t v,
    supported cfg -> In t integer_directives ->
    representable (Z.to_nat (size (single_directive cfg t)))
                  (flags (single_directive cfg t)) v ->
    MRB_INT_MIN cfg <= v <= MRB_INT_MAX cfg ->
    exists bytes,
      _pack_pack cfg [fixnum_value v] (String t "") = Ok bytes /\
      _pack_unpack cfg bytes (String t "") = Ok [fixnum_value v].
Proof.
  intros cfg t v Hc Ht Hr Hv.
  rewrite (pack_integer_call cfg t v Hc Ht).
  eexists. split; [reflexivity |].
  destruct (integer_directive_width cfg t Ht) as (Ha & Hty & Hw).
  set (d := single_directive cfg t) in *.
  set (w := Z.to_nat (size d)) in *.
  assert (W : (0 < w <= 8)%nat /\ size d = Z.of_nat w).
  { subst w. clear Hr. revert Hw. cbn in Ht.
    repeat (destruct Ht as [<- | Ht]; [cbn; intros _; lia |]).
    destruct Ht. }
  destruct W as [W Es].
  pose proof (decoded_truncated w (flags d) v ltac:(lia) Hr) as Hd.
  rewrite unpack_single; fold d; auto.
  - rewrite Es.
    rewrite (unpack_integer_ok cfg (dir d) w); auto.
    + cbn [bind app]. now rewrite Hd.
    + apply truncated_length.
    + apply truncated_are_bytes.
    + now rewrite Hd.
  - intros E; rewrite E in Hw; discriminate Hw.
  - intros E; rewrite E in Hw; discriminate Hw.
  - subst d. clear - Ht. cbn in Ht. unfold single_directive, resolve_endian.
    repeat (destruct Ht as [<- | Ht];
            [cbn; destruct (littleendian cfg); reflexivity |]).
    destruct Ht.
  - lia.
  - unfold RSTRING_LEN. rewrite truncated_length. lia.
Qed.

Lemma integer_round_trip_witness :
  exists bytes,
    _pack_pack cfg64 [fixnum_value (-2)] "s" = Ok bytes /\
    _pack_unpack cfg64 bytes "s" = Ok [fixnum_value (-2)].
Proof.
  apply (integer_round_trip cfg64 "s"%char (-2) supported_cfg64).
  - cbn. tauto.
  - vm_compute. split; [discriminate | reflexivity].
  - vm_compute. split; discriminate.
Defined.

(** ** Values consumed by the string directives *)

Lemma has_flag_lor (f x b : Z) :
  has_flag f b = true -> has_flag (Z.lor f x) b = true.
Proof.
  unfold has_flag. rewrite !negb_true_iff, !Z.eqb_neq.
  intros H E. apply H. rewrite Z.land_lor_distr_l in E.
  apply Z.lor_eq_0_iff in E. tauto.
Qed.

Lemma has_flag_resolve_endian cfg (f b : Z) :
  has_flag f b = true -> has_flag (resolve_endian cfg f) b = true.
Proof.
  intros H. unfold resolve_endian.
  destruct (_ || _); [now apply has_flag_lor | exact H].
Qed.

Lemma isdigit_value (ch : ascii) : isdigit ch = true -> 0 <= chr ch - chr "0" <= 9.
Proof.
  unfold isdigit. rewrite andb_true_iff, !Z.leb_le.
  change (chr "0") with 48. change (chr "9") with 57. lia.
Qed.

(** The suffix loop keeps the flags it was given and returns a count that is
    the consume-all sentinel or not negative. *)
Lemma read_suffix_keeps cfg t (b : Z) :
  forall s indigits n count flags n' count' flags',
    read_suffix cfg t s indigits n count flags = Ok (n', count', flags') ->
    (has_flag flags b = true -> has_flag flags' b = true) /\
    (-1 <= count -> -1 <= count').
Proof.
  induction s as [| ch s IH]; intros indigits n count flags n' count' flags';
    cbn [read_suffix].
  - intros [= <- <- <-]. auto.
  - destruct (isdigit ch) eqn:Hd.
    + destruct indigits.
      * destruct (Z.ltb_spec (int_cast cfg (count * 10 + (chr ch - chr "0"))) 0)
          as [L | G]; [discriminate |].
        intros H. apply IH in H. destruct H as [H1 H2].
        split; [exact H1 | intros _; apply H2; lia].
      * intros H. apply IH in H. destruct H as [H1 H2].
        pose proof (isdigit_value ch Hd).
        split; [exact H1 | intros _; apply H2; lia].
    + destruct (Ascii.eqb ch "*").
      * intros H. apply IH in H. destruct H as [H1 H2].
        split; [exact H1 | intros _; apply H2; lia].
      * destruct (is_modifier ch); [| intros [= <- <- <-]; auto].
        destruct (negb (strchr "sSiIlLqQ" t)); [discriminate |].
        destruct (_ || _); [| destruct (Ascii.eqb ch "<")];
          intros H; apply IH in H; destruct H as [H1 H2];
          (split; [intros F; apply H1; now apply has_flag_lor | exact H2]).
Qed.

Lemma directive_of_str (t : ascii) (ty : pack_type) (sz fl : Z) :
  directive_of t = (PACK_DIR_STR, ty, sz, fl) ->
  ty = PACK_TYPE_STRING /\ has_flag fl PACK_FLAG_WIDTH = true.
Proof.
  destruct t as [[] [] [] [] [] [] [] []]; cbn;
    intros H; try discriminate H; injection H as <- <- <-;
    split; reflexivity.
Qed.

(** What [read_tmpl] returns for a directive of the string kind. *)
Lemma read_tmpl_str cfg (tm tm' : tmpl) (d : directive) :
  read_tmpl cfg tm = Ok (tm', d) -> dir d = PACK_DIR_STR ->
  type d = PACK_TYPE_STRING /\
  has_flag (flags d) PACK_FLAG_WIDTH = true /\ -1 <= count d.
Proof.
  unfold read_tmpl. intros H D.
  destruct (resolve_alias cfg _) as [t | | |]; cbn [bind] in H;
    try discriminate H.
  destruct (directive_of t) as [[[d0 ty] sz] fl] eqn:Ed.
  destruct (read_suffix cfg t _ false _ 1 fl) as [[[n c] f] | | |] eqn:Es;
    cbn [bind] in H; try discriminate H.
  injection H as <- <-. cbn [dir type count flags] in *. subst d0.
  destruct (directive_of_str t ty sz fl Ed) as [-> Hf].
  destruct (read_suffix_keeps cfg t PACK_FLAG_WIDTH _ _ _ _ _ _ _ _ Es)
    as [H1 H2].
  repeat split.
  - apply has_flag_resolve_endian. auto.
  - apply H2. lia.
Qed.

Lemma pack_a_ok cfg (s : bstr) (dst : bstr) (didx count fl : Z) :
  supported cfg -> dst <> [] -> 0 <= didx <= RSTRING_LEN dst ->
  -1 <= count -> didx + Z.max count (RSTRING_LEN s) + 1 < 2 ^ 31 ->
  didx + Z.max count (RSTRING_LEN s) + 1 <= capacity cfg ->
  exists dst' n, pack_a cfg (str_value s) dst didx count fl = Ok (dst', n).
Proof.
  intros Hc Hd Hi Hn Hb Hq. unfold pack_a. cbn [RSTRING].
  destruct (Z.eqb_spec count 0) as [E0 | N0]; [eauto |].
  set (pad := if _ || _ then 0 else chr " ").
  unfold RSTRING_LEN in *.
  destruct (Z.eqb_spec count (-1)) as [E1 | N1];
    [| destruct (Z.ltb_spec count (Z.of_nat (List.length s)))].
  - destruct (has_flag fl PACK_FLAG_Z);
      (edestruct (emit_ok cfg dst didx) as (dst' & E & _);
       [exact Hc | exact Hd | exact Hi | | | | rewrite E; eauto];
       rewrite ?length_app, ?length_firstn, ?repeat_length; lia).
  - edestruct (emit_ok cfg dst didx) as (dst' & E & _);
      [exact Hc | exact Hd | exact Hi | | | | rewrite E; eauto];
      rewrite ?length_app, ?length_firstn, ?repeat_length; lia.
  - edestruct (emit_ok cfg dst didx) as (dst' & E & _);
      [exact Hc | exact Hd | exact Hi | | | | rewrite E; eauto];
      rewrite ?length_app, ?length_firstn, ?repeat_length; lia.
Qed.

(** The claim of C1 fails for the hexadecimal and the base64 directives, and
    on an exhausted array.  One [H2] consumes both strings of the array and
    packs the second one with the count 1; one [m] consumes all three
    strings; one [A] on the empty array consumes nothing. *)
Lemma string_kinds_consume_zero_or_several :
  values_consumed
    (pack_run cfg64 [str_value (bytes_of_string "ab");
                     str_value (bytes_of_string "cd")] "H2") = Ok 2 /\
  _pack_pack cfg64 [str_value (bytes_of_string "ab");
                    str_value (bytes_of_string "cd")] "H2" = Ok [0xab; 0xc0] /\
  values_consumed
    (pack_run cfg64 [str_value (bytes_of_string "abc");
                     str_value (bytes_of_string "def");
                     str_value (bytes_of_string "ghi")] "m") = Ok 3 /\
  values_consumed (pack_run cfg64 [] "A") = Ok 0.
Proof. repeat split; vm_compute; reflexivity. Qed.

(** C1, amended.  A directive that [read_tmpl] resolves to the string kind,
    that is [A], [a] or [Z] with any count, consumes exactly one value of
    the array when one remains and it is a String: the loop over the array
    returns with the index advanced by one, provided that the bytes to store
    end below 2^31 and within the capacity of the doubling of
    [str_len_ensure]; and whenever the loop returns at all, it returns with
    the index advanced by one.  It raises a type error when the value is not
    a String, and consumes nothing when the array is exhausted. *)
Theorem string_directive_consumes_one_value :
  forall cfg tm tm' d,
    supported cfg -> read_tmpl cfg tm = Ok (tm', d) -> dir d = PACK_DIR_STR ->
    (forall s rest aidx ridx result,
       result <> [] -> 0 <= ridx <= RSTRING_LEN result ->
       ridx + Z.max (count d) (RSTRING_LEN s) + 1 < 2 ^ 31 ->
       ridx + Z.max (count d) (RSTRING_LEN s) + 1 <= capacity cfg ->
       exists ridx' result',
         pack_values cfg (dir d) (type d) (flags d) (str_value s :: rest)
           (count d) aidx ridx result = Ok (aidx + 1, ridx', result')) /\
    (forall s rest aidx ridx result aidx' ridx' result',
       pack_values cfg (dir d) (type d) (flags d) (str_value s :: rest)
         (count d) aidx ridx result = Ok (aidx', ridx', result') ->
       aidx' = aidx + 1) /\
    (forall o rest aidx ridx result,
       _string_p o = false ->
       pack_values cfg (dir d) (type d) (flags d) (o :: rest)
         (count d) aidx ridx result
       = Raise E_TYPE_ERROR ("can't convert " ++ class_path o ++ " into String")) /\
    (forall aidx ridx result,
       pack_values cfg (dir d) (type d) (flags d) [] (count d) aidx ridx result
       = Ok (aidx, ridx, result)).
Proof.
  intros cfg tm tm' d Hc Hr Hd.
  destruct (read_tmpl_str cfg tm tm' d Hr Hd) as (Hty & Hw & Hn).
  rewrite Hd, Hty. repeat split.
  - intros s rest aidx ridx result Hres Hi Hb Hq.
    cbn [pack_values]. rewrite Hw. cbn [negb]. rewrite andb_false_r.
    cbn [coerce _string_p negb bind pack_one].
    destruct (pack_a_ok cfg s result ridx (count d) (flags d) Hc Hres Hi Hn Hb
                Hq)
      as (dst' & n & ->).
    cbn [bind]. eauto.
  - intros s rest aidx ridx result aidx' ridx' result'.
    cbn [pack_values]. rewrite Hw. cbn [negb]. rewrite andb_false_r.
    cbn [coerce _string_p negb bind pack_one].
    destruct (pack_a cfg (str_value s) result ridx (count d) (flags d))
      as [[dst' n] | | |]; cbn [bind]; try discriminate.
    now intros [= <- _ _].
  - intros o rest aidx ridx result Ho.
    cbn [pack_values]. rewrite Hw. cbn [negb]. rewrite andb_false_r.
    cbn [coerce]. rewrite Ho. reflexivity.
Qed.

Lemma string_directive_witness :
  exists ridx' result',
    pack_values cfg64 PACK_DIR_STR PACK_TYPE_STRING
      (Z.lor (Z.lor (Z.lor PACK_FLAG_WIDTH PACK_FLAG_COUNT2) PACK_FLAG_a)
             PACK_FLAG_LITTLEENDIAN)
      [str_value (bytes_of_string "ab"); str_value (bytes_of_string "cd")]
      5 0 0 (repeat 0 128)
    = Ok (0 + 1, ridx', result').
Proof.
  destruct (string_directive_consumes_one_value cfg64 (prepare_tmpl "a5")
              {| str := "a5"; idx := 2 |}
              {| dir := PACK_DIR_STR; type := PACK_TYPE_STRING; size := 0;
                 count := 5;
                 flags := Z.lor (Z.lor (Z.lor PACK_FLAG_WIDTH PACK_FLAG_COUNT2)
                                       PACK_FLAG_a) PACK_FLAG_LITTLEENDIAN |}
              supported_cfg64 eq_refl eq_refl) as (H & _).
  apply (H (bytes_of_string "ab") [str_value (bytes_of_string "cd")] 0 0
           (repeat 0 128)).
  - discriminate.
  - vm_compute. split; discriminate.
  - vm_compute. reflexivity.
  - vm_compute. discriminate.
Defined.

(** ** The read cursor of unpack *)

Lemma directive_of_size (t : ascii) :
  let '(d, _, sz, _) := directive_of t in sz = dir_size d.
Proof. destruct t as [[] [] [] [] [] [] [] []]; reflexivity. Qed.

Lemma read_tmpl_shape cfg (tm tm' : tmpl) (d : directive) :
  read_tmpl cfg tm = Ok (tm', d) -> size d = dir_size (dir d) /\ -1 <= count d.
Proof.
  unfold read_tmpl. intros H.
  destruct (resolve_alias cfg _) as [t | | |]; cbn [bind] in H;
    try discriminate H.
  pose proof (directive_of_size t) as Hs.
  destruct (directive_of t) as [[[d0 ty] sz] fl].
  destruct (read_suffix cfg t _ false _ 1 fl) as [[[n c] f] | | |] eqn:Es;
    cbn [bind] in H; try discriminate H.
  injection H as <- <-. cbn [dir size count].
  destruct (read_suffix_keeps cfg t 0 _ _ _ _ _ _ _ _ Es) as [_ H2].
  split; [exact Hs | apply H2; lia].
Qed.

Lemma memchr0_bound (sptr : bstr) :
  forall slen cp, memchr0 sptr slen = Some cp -> 0 <= cp < Z.of_nat slen.
Proof.
  induction sptr as [| c rest IH]; intros slen cp; destruct slen as [| slen];
    cbn [memchr0]; try discriminate.
  destruct (c =? 0); [intros [= <-]; lia |].
  destruct (memchr0 rest slen) as [i |] eqn:E; [| discriminate].
  intros [= <-]. apply IH in E. lia.
Qed.

Lemma unpack_a_consumed (src : bstr) (slen count fl : Z) (ary ary' : list value)
  (n : Z) :
  -1 <= count ->
  unpack_a src slen ary count fl = Ok (ary', n) ->
  Z.min slen 0 <= n <= Z.max slen 0.
Proof.
  intros Hc. unfold unpack_a.
  set (slen1 := if negb (count =? -1) && (count <? slen) then count else slen).
  assert (B : Z.min slen 0 <= slen1 <= Z.max slen 0).
  { subst slen1. destruct (Z.eqb_spec count (-1)); cbn [negb andb]; [lia |].
    destruct (Z.ltb_spec count slen); lia. }
  destruct ((slen1 >=? 0) && has_flag fl PACK_FLAG_Z) eqn:Ez.
  - destruct (memchr0 src (Z.to_nat slen1)) as [cp |] eqn:Em.
    + apply memchr0_bound in Em.
      destruct (count =? -1); intros [= _ <-]; lia.
    + intros [= _ <-]. exact B.
  - destruct (negb (has_flag fl PACK_FLAG_a)); intros [= _ <-]; exact B.
Qed.

Lemma unpack_h_loop_consumed (sptr : bstr) :
  forall slen count ashift bshift ds n,
    unpack_h_loop sptr slen count ashift bshift = (ds, n) ->
    0 <= n <= Z.max slen 0.
Proof.
  induction sptr as [| c sptr IH]; intros slen count ashift bshift ds n;
    cbn [unpack_h_loop]; [intros [= _ <-]; lia |].
  destruct (Z.gtb_spec slen 0) as [G | L]; cbn [andb];
    [| intros [= _ <-]; lia].
  destruct (count >? 0); [| intros [= _ <-]; lia].
  destruct (count - 1 >? 0).
  - destruct (unpack_h_loop sptr (slen - 1) (count - 1 - 1) ashift bshift)
      as [ds' n'] eqn:E.
    intros [= _ <-]. apply IH in E. lia.
  - destruct (unpack_h_loop sptr (slen - 1) (count - 1) ashift bshift)
      as [ds' n'] eqn:E.
    intros [= _ <-]. apply IH in E. lia.
Qed.

Lemma unpack_h_consumed cfg (src : bstr) (slen count fl : Z)
  (ary ary' : list value) (n : Z) :
  unpack_h cfg src slen ary count fl = Ok (ary', n) -> 0 <= n <= Z.max slen 0.
Proof.
  unfold unpack_h. destruct (nibble_shifts fl) as [ashift bshift].
  destruct (_str_new_size _); cbn [bind]; try discriminate.
  destruct (unpack_h_loop src slen _ ashift bshift) as [ds n'] eqn:E.
  intros [= _ <-]. now apply unpack_h_loop_consumed in E.
Qed.

Lemma unpack_x_consumed (src : bstr) (slen count fl : Z) (ary : list value)
  (n : Z) :
  -1 <= count ->
  unpack_x src slen ary count fl = Ok n -> Z.min slen 0 <= n <= slen.
Proof.
  intros Hc. unfold unpack_x.
  destruct (Z.ltb_spec count 0); [intros [= <-]; lia |].
  destruct (Z.ltb_spec slen count); [discriminate | intros [= <-]; lia].
Qed.

Lemma utf8_to_uv_length (p : bstr) (lenp uv n : Z) :
  1 <= lenp -> utf8_to_uv p lenp = Ok (uv, n) -> 1 <= n <= lenp.
Proof.
  intros Hl. unfold utf8_to_uv.
  destruct (_ =? 0); [intros [= _ <-]; lia |].
  destruct (_ =? 0); [discriminate |].
  set (lead := if _ =? 0 then _ else _).
  assert (B : match lead with Some (k, _) => 2 <= k <= 6 | None => True end).
  { subst lead. repeat (destruct (_ =? 0); [lia |]). exact I. }
  destruct lead as [[k uv0] |]; [| discriminate].
  destruct (Z.gtb_spec k lenp); [discriminate |].
  destruct (utf8_tail _ _ _); cbn [bind]; try discriminate.
  destruct (_ <? _); [discriminate | intros [= _ <-]; lia].
Qed.

Lemma unpack_m_sym_consumed (sptr : bstr) :
  forall slen padding n o sptr' slen' padding' n',
    unpack_m_sym sptr slen padding n = (o, sptr', slen', padding', n') ->
    0 <= slen -> 0 <= slen' <= slen /\ n' + slen' = n + slen.
Proof.
  induction sptr as [| c sptr IH];
    intros slen padding n o sptr' slen' padding' n'; cbn [unpack_m_sym].
  - intros [= _ _ <- _ <-]. lia.
  - destruct (Z.eqb_spec slen 0); [intros [= _ _ <- _ <-]; lia |].
    intros H Hs.
    destruct (c >=? 128); [apply IH in H; lia |].
    destruct (_ =? PACK_BASE64_PADDING); [injection H as _ _ <- _ <-; lia |].
    destruct (_ =? PACK_BASE64_IGNORE); [apply IH in H; lia |].
    injection H as _ _ <- _ <-; lia.
Qed.

Lemma pair_snd {A : Type} (a a' : A) (n n' : Z) : (a, n) = (a', n') -> n = n'.
Proof. congruence. Qed.

Lemma ok_snd {A : Type} (a a' : A) (n n' : Z) :
  @Ok (A * Z) (a, n) = Ok (a', n') -> n = n'.
Proof. congruence. Qed.

Lemma unpack_m_loop_consumed (fuel : nat) :
  forall sptr slen padding n dst dst' n',
    unpack_m_loop fuel sptr slen padding n dst = (dst', n') ->
    0 <= slen -> n <= n' <= n + slen.
Proof.
  induction fuel as [| fuel IH]; intros sptr slen padding n dst dst' n';
    cbn [unpack_m_loop]; [intros H; apply pair_snd in H; lia |].
  destruct (slen >=? 4); [| intros H; apply pair_snd in H; lia].
  intros H Hs.
  destruct (unpack_m_sym sptr slen padding n) as [[[[o0 p0] l0] d0] n0] eqn:E0.
  apply unpack_m_sym_consumed in E0; [| lia].
  destruct o0 as [ch0 |]; [| apply pair_snd in H; lia].
  destruct (unpack_m_sym p0 l0 d0 n0) as [[[[o1 p1] l1] d1] n1] eqn:E1.
  apply unpack_m_sym_consumed in E1; [| lia].
  destruct o1 as [ch1 |]; [| apply pair_snd in H; lia].
  destruct (unpack_m_sym p1 l1 d1 n1) as [[[[o2 p2] l2] d2] n2] eqn:E2.
  apply unpack_m_sym_consumed in E2; [| lia].
  destruct o2 as [ch2 |]; [| apply pair_snd in H; lia].
  destruct (unpack_m_sym p2 l2 d2 n2) as [[[[o3 p3] l3] d3] n3] eqn:E3.
  apply unpack_m_sym_consumed in E3; [| lia].
  destruct o3 as [ch3 |]; [| apply pair_snd in H; lia].
  destruct (d3 =? 0); [apply IH in H; lia |].
  destruct (d3 =? 1); apply pair_snd in H; lia.
Qed.

Lemma unpack_m_consumed (src : bstr) (slen fl : Z) (ary ary' : list value)
  (n : Z) :
  0 <= slen -> unpack_m src slen ary fl = Ok (ary', n) -> 0 <= n <= slen.
Proof.
  intros Hs. unfold unpack_m.
  destruct (_str_new_size _); cbn [bind]; try discriminate.
  destruct (unpack_m_loop _ src slen 0 0 []) as [dst n'] eqn:E.
  intros [= _ <-]. apply unpack_m_loop_consumed in E; lia.
Qed.

Lemma unpack_one_consumed cfg (d : pack_dir) (sptr : bstr) (slen fl : Z)
  (result result' : list value) (n : Z) :
  supported cfg -> dir_size d <= slen -> slen < 2 ^ 31 ->
  unpack_one cfg d sptr slen result fl = Ok (result', n) ->
  0 <= n /\ (n <= slen \/ (d = PACK_DIR_UTF8 /\ slen = 0 /\ n = 1)).
Proof.
  intros Hc Hg Hb. destruct d; cbn [unpack_one dir_size] in *;
    try discriminate.
  - unfold unpack_c. destruct (has_flag _ _); intros H; apply ok_snd in H; lia.
  - unfold unpack_s. intros H; apply ok_snd in H; lia.
  - unfold unpack_l. destruct (has_flag _ _); destruct (_ && _);
      try discriminate; intros H; apply ok_snd in H; lia.
  - unfold unpack_q. destruct (if has_flag _ _ then _ else _) as [pos step].
    destruct (has_flag _ _); destruct (negb _);
      try discriminate; intros H; apply ok_snd in H; lia.
  - unfold unpack_utf8. destruct (Z.eqb_spec slen 0);
      [intros H; apply ok_snd in H; split; [lia | right; auto] |].
    destruct (utf8_to_uv sptr slen) as [[uv lenp] | | |] eqn:E; cbn [bind];
      try discriminate.
    apply utf8_to_uv_length in E; [| lia].
    rewrite int_cast_small by (auto; lia). intros H; apply ok_snd in H; lia.
  - unfold unpack_double. intros H; apply ok_snd in H; lia.
  - unfold unpack_float. intros H; apply ok_snd in H; lia.
  - intros H. apply unpack_m_consumed in H; lia.
Qed.

Lemma unpack_count2_consumed cfg (d : pack_dir) (sptr : bstr)
  (slen count fl : Z) (result result' : list value) (n : Z) :
  -1 <= count ->
  unpack_count2 cfg d sptr slen result count fl = Ok (result', n) ->
  Z.min slen 0 <= n <= Z.max slen 0.
Proof.
  intros Hc. destruct d; cbn [unpack_count2];
    try (intros H; apply ok_snd in H; lia).
  - now apply unpack_a_consumed.
  - intros H. apply unpack_h_consumed in H. lia.
Qed.

Lemma unpack_count_cursor cfg (s : bstr) (srclen : Z) (d : pack_dir) (fl : Z) :
  supported cfg -> srclen + 1 < 2 ^ 31 ->
  forall fuel count srcidx result srcidx' result',
    cursor_ok srclen srcidx ->
    unpack_count cfg fuel s srclen d (dir_size d) fl count srcidx result
      = Ok (srcidx', result') ->
    cursor_ok srclen srcidx'.
Proof.
  intros Hc Hb. unfold cursor_ok.
  induction fuel as [| fuel IH]; intros count srcidx result srcidx' result' Hi;
    cbn [unpack_count].
  - destruct (count =? 0); [intros [= <- _]; exact Hi | discriminate].
  - destruct (count =? 0); [intros [= <- _]; exact Hi |].
    destruct (Z.ltb_spec (srclen - srcidx) (dir_size d)) as [L | G];
      [intros [= <- _]; exact Hi |].
    destruct (unpack_one cfg d _ _ result fl) as [[r n] | | |] eqn:E;
      cbn [bind]; try discriminate.
    apply unpack_one_consumed in E; auto; [| lia].
    rewrite int_cast_small by (auto; lia).
    apply IH. lia.
Qed.

Lemma unpack_loop_cursor cfg (s : bstr) (srclen : Z) (single : bool) :
  supported cfg -> 0 <= srclen -> srclen + 1 < 2 ^ 31 ->
  forall fuel tm srcidx result srcidx' result',
    cursor_ok srclen srcidx ->
    unpack_loop cfg fuel s srclen single tm srcidx result
      = Ok (srcidx', result') ->
    cursor_ok srclen srcidx'.
Proof.
  intros Hc H0 Hb.
  induction fuel as [| fuel IH]; intros tm srcidx result srcidx' result' Hi;
    cbn [unpack_loop]; [discriminate |].
  destruct (has_tmpl tm); [| intros [= <- _]; exact Hi].
  destruct (read_tmpl cfg tm) as [[tm1 d] | | |] eqn:Er; cbn [bind];
    try discriminate.
  destruct (read_tmpl_shape cfg tm tm1 d Er) as [Hs Hn].
  assert (K : forall r n,
             unpack_count2 cfg (dir d) (skipn (Z.to_nat srcidx) s)
               (srclen - srcidx) result (count d) (flags d) = Ok (r, n) ->
             unpack_loop cfg fuel s srclen single tm1
               (int_cast cfg (srcidx + n)) r = Ok (srcidx', result') ->
             cursor_ok srclen srcidx').
  { intros r n E H. apply unpack_count2_consumed in E; [| exact Hn].
    unfold cursor_ok in Hi.
    rewrite int_cast_small in H by (auto; lia).
    apply IH in H; [exact H | unfold cursor_ok; lia]. }
  assert (C : forall r,
             ('(i, r') <-
                unpack_count cfg (count_fuel srclen srcidx (count d)) s srclen
                  (dir d) (size d) (flags d) (count d) srcidx result ;;
              if single then Ok (i, r')
              else unpack_loop cfg fuel s srclen single tm1 i r')
             = Ok (srcidx', r) -> cursor_ok srclen srcidx').
  { intros r. rewrite Hs.
    destruct (unpack_count cfg _ s srclen (dir d) _ _ _ srcidx result)
      as [[i r'] | | |] eqn:E; cbn [bind]; try discriminate.
    apply unpack_count_cursor in E; auto.
    destruct single; [intros [= <- _]; exact E | apply IH; exact E]. }
  destruct (dir d) eqn:Ed;
    try (destruct (has_flag (flags d) PACK_FLAG_COUNT2);
         [ match goal with
           | |- context [unpack_count2 ?a ?b ?c ?e ?f ?g ?h] =>
               destruct (unpack_count2 a b c e f g h) as [[r n] | | |] eqn:E
           end;
           cbn [bind]; try discriminate; now apply (K r n)
         | apply C ]).
  - destruct (unpack_x [] _ result _ _) as [n | | |] eqn:E; cbn [bind];
      try discriminate.
    apply unpack_x_consumed in E; [| exact Hn].
    unfold cursor_ok in Hi. rewrite int_cast_small by (auto; lia).
    apply IH. unfold cursor_ok. lia.
  - apply IH. exact Hi.
Qed.

(** The claim of C7 fails: on an empty input, [unpack_utf8] pushes no value
    and reports one byte, and the cursor of the call becomes 1 while the
    input has the length 0. *)
Lemma cursor_passes_end_of_empty_input :
  unpack_utf8 cfg64 [] 0 [] 0 = Ok ([], 1) /\
  unpack_run cfg64 [] "U" false = Ok (1, []) /\
  RSTRING_LEN [] < 1.
Proof. repeat split; vm_compute; reflexivity. Qed.

Lemma unpack_loop_once cfg fuel s srclen single tm tm' d srcidx result :
  has_tmpl tm = true -> read_tmpl cfg tm = Ok (tm', d) ->
  dir d <> PACK_DIR_NUL -> dir d <> PACK_DIR_INVALID ->
  has_flag (flags d) PACK_FLAG_COUNT2 = true ->
  unpack_loop cfg (S fuel) s srclen single tm srcidx result =
  ('(result, n) <-
     unpack_count2 cfg (dir d) (skipn (Z.to_nat srcidx) s) (srclen - srcidx)
       result (count d) (flags d) ;;
   unpack_loop cfg fuel s srclen single tm' (int_cast cfg (srcidx + n)) result).
Proof.
  intros H R D1 D2 F. cbn [unpack_loop]. rewrite H, R. cbn [bind].
  rewrite F. destruct (dir d); congruence.
Qed.

(** C7, amended.  For an input shorter than 2^31 - 1 bytes, the cursor stays
    between 0 and the length plus one, and the engine goes on at the cursor
    plus the byte count that the codec has reported.  Each call of a codec
    that the engine makes with the cursor in that range (the null directive,
    a directive decoded once, or a round of a count loop that has passed the
    test for the fixed width) and that returns a byte count moves the cursor
    by exactly that count, without wrap-around, to a position in the same
    range: the next round of the count loop, and the next round of the
    template loop after the null directive or a directive decoded once, run
    with the cursor advanced by that count and with the array that the codec
    returned, and the template loop goes on at the cursor with which a count
    loop has ended.  The position one past the end is reached only when [U]
    meets an exhausted input and reports one byte: a directive decoded once
    never moves the cursor beyond the end of the input, and the null
    directive leaves it inside the input.  So the cursor with which a call
    of unpack ends lies in that range. *)
Theorem cursor_stays_within_one_past_end :
  forall cfg s, supported cfg -> RSTRING_LEN s + 1 < 2 ^ 31 ->
    (forall srcidx d src cnt fl result result' n,
       cursor_ok (RSTRING_LEN s) srcidx -> -1 <= cnt ->
       (dir_size d <= RSTRING_LEN s - srcidx ->
        unpack_one cfg d src (RSTRING_LEN s - srcidx) result fl
          = Ok (result', n) ->
        int_cast cfg (srcidx + n) = srcidx + n /\
        cursor_ok (RSTRING_LEN s) (srcidx + n) /\
        (RSTRING_LEN s < srcidx + n ->
         d = PACK_DIR_UTF8 /\ srcidx = RSTRING_LEN s /\ n = 1)) /\
       (unpack_count2 cfg d src (RSTRING_LEN s - srcidx) result cnt fl
          = Ok (result', n) ->
        int_cast cfg (srcidx + n) = srcidx + n /\
        0 <= srcidx + n <= Z.max (RSTRING_LEN s) srcidx) /\
       (unpack_x src (RSTRING_LEN s - srcidx) result cnt fl = Ok n ->
        int_cast cfg (srcidx + n) = srcidx + n /\
        0 <= srcidx + n <= RSTRING_LEN s)) /\
    (forall result, unpack_utf8 cfg [] 0 result 0 = Ok (result, 1)) /\
    (forall fuel d fl cnt srcidx result result' n,
       cursor_ok (RSTRING_LEN s) srcidx -> cnt <> 0 ->
       dir_size d <= RSTRING_LEN s - srcidx ->
       unpack_one cfg d (skipn (Z.to_nat srcidx) s) (RSTRING_LEN s - srcidx)
         result fl = Ok (result', n) ->
       unpack_count cfg (S fuel) s (RSTRING_LEN s) d (dir_size d) fl cnt
         srcidx result
       = unpack_count cfg fuel s (RSTRING_LEN s) d (dir_size d) fl
           (if cnt >? 0 then cnt - 1 else cnt) (srcidx + n) result') /\
    (forall fuel single tm tm' d srcidx result,
       has_tmpl tm = true -> read_tmpl cfg tm = Ok (tm', d) ->
       dir d <> PACK_DIR_NUL -> dir d <> PACK_DIR_INVALID ->
       has_flag (flags d) PACK_FLAG_COUNT2 = false ->
       size d = dir_size (dir d) /\
       unpack_loop cfg (S fuel) s (RSTRING_LEN s) single tm srcidx result =
       ('(srcidx', result') <-
          unpack_count cfg (count_fuel (RSTRING_LEN s) srcidx (count d)) s
            (RSTRING_LEN s) (dir d) (size d) (flags d) (count d) srcidx
            result ;;
        if single then Ok (srcidx', result')
        else unpack_loop cfg fuel s (RSTRING_LEN s) single tm' srcidx'
               result')) /\
    (forall fuel single tm tm' d srcidx result result' n,
       cursor_ok (RSTRING_LEN s) srcidx ->
       has_tmpl tm = true -> read_tmpl cfg tm = Ok (tm', d) ->
       dir d <> PACK_DIR_NUL -> dir d <> PACK_DIR_INVALID ->
       has_flag (flags d) PACK_FLAG_COUNT2 = true ->
       unpack_count2 cfg (dir d) (skipn (Z.to_nat srcidx) s)
         (RSTRING_LEN s - srcidx) result (count d) (flags d)
         = Ok (result', n) ->
       unpack_loop cfg (S fuel) s (RSTRING_LEN s) single tm srcidx result =
       unpack_loop cfg fuel s (RSTRING_LEN s) single tm' (srcidx + n)
         result') /\
    (forall fuel single tm tm' d srcidx result n,
       cursor_ok (RSTRING_LEN s) srcidx ->
       has_tmpl tm = true -> read_tmpl cfg tm = Ok (tm', d) ->
       dir d = PACK_DIR_NUL ->
       unpack_x [] (RSTRING_LEN s - srcidx) result (count d) (flags d)
         = Ok n ->
       unpack_loop cfg (S fuel) s (RSTRING_LEN s) single tm srcidx result =
       unpack_loop cfg fuel s (RSTRING_LEN s) single tm' (srcidx + n)
         result) /\
    (forall template single srcidx result,
       unpack_run cfg s template single = Ok (srcidx, result) ->
       cursor_ok (RSTRING_LEN s) srcidx).
Proof.
  intros cfg s Hc Hb.
  assert (H0 : 0 <= RSTRING_LEN s) by (unfold RSTRING_LEN; lia).
  split; [| split; [| split; [| split; [| split; [| split]]]]].
  - intros srcidx d src cnt fl result result' n Hi Hn.
    unfold cursor_ok in *. split; [| split].
    + intros Hg E. apply unpack_one_consumed in E; auto; [| lia].
      destruct E as [E0 [E1 | (E1 & E2 & E3)]];
        rewrite int_cast_small by (auto; lia);
        (split; [reflexivity |]); (split; [lia |]); intros L;
        [lia | repeat split; [assumption | lia | assumption]].
    + intros E. apply unpack_count2_consumed in E; auto.
      rewrite int_cast_small by (auto; lia). lia.
    + intros E. apply unpack_x_consumed in E; auto.
      rewrite int_cast_small by (auto; lia). lia.
  - reflexivity.
  - intros fuel d fl cnt srcidx result result' n Hi Hn Hg E.
    cbn [unpack_count].
    destruct (Z.eqb_spec cnt 0) as [Z0 | _]; [contradiction |].
    destruct (Z.ltb_spec (RSTRING_LEN s - srcidx) (dir_size d)) as [L | _];
      [lia |].
    rewrite E. cbn [bind].
    apply unpack_one_consumed in E; auto; [| unfold cursor_ok in Hi; lia].
    unfold cursor_ok in Hi.
    rewrite int_cast_small by (auto; lia). reflexivity.
  - intros fuel single tm tm' d srcidx result Ht Hr D1 D2 F.
    split; [apply (read_tmpl_shape cfg tm tm' d Hr) |].
    now apply unpack_loop_count.
  - intros fuel single tm tm' d srcidx result result' n Hi Ht Hr D1 D2 F E.
    rewrite (unpack_loop_once cfg fuel s _ single tm tm' d) by assumption.
    rewrite E. cbn [bind].
    apply unpack_count2_consumed in E;
      [| apply (read_tmpl_shape cfg tm tm' d Hr)].
    unfold cursor_ok in Hi.
    rewrite int_cast_small by (auto; lia). reflexivity.
  - intros fuel single tm tm' d srcidx result n Hi Ht Hr D E.
    rewrite (unpack_loop_nul cfg fuel s _ single tm tm' d) by assumption.
    rewrite E. cbn [bind].
    apply unpack_x_consumed in E;
      [| apply (read_tmpl_shape cfg tm tm' d Hr)].
    unfold cursor_ok in Hi.
    rewrite int_cast_small by (auto; lia). reflexivity.
  - intros template single srcidx result. unfold unpack_run.
    rewrite int_cast_small by (auto; lia).
    apply unpack_loop_cursor; auto. unfold cursor_ok. lia.
Qed.

Lemma cursor_witness :
  cursor_ok (RSTRING_LEN [0xe2; 0x82; 0xac]) 4 /\
  unpack_count cfg64 3 [0xe2; 0x82; 0xac] (RSTRING_LEN [0xe2; 0x82; 0xac])
    PACK_DIR_UTF8 (dir_size PACK_DIR_UTF8) 0 (-1) 0 []
  = unpack_count cfg64 2 [0xe2; 0x82; 0xac] (RSTRING_LEN [0xe2; 0x82; 0xac])
      PACK_DIR_UTF8 (dir_size PACK_DIR_UTF8) 0 (-1) (0 + 3)
      [fixnum_value 8364] /\
  unpack_loop cfg64 3 [0xe2; 0x82; 0xac] (RSTRING_LEN [0xe2; 0x82; 0xac])
    false {| str := "x2a"; idx := 0 |} 0 []
  = unpack_loop cfg64 2 [0xe2; 0x82; 0xac] (RSTRING_LEN [0xe2; 0x82; 0xac])
      false {| str := "x2a"; idx := 2 |} (0 + 2) [].
Proof.
  destruct (cursor_stays_within_one_past_end cfg64 [0xe2; 0x82; 0xac]
              supported_cfg64 ltac:(vm_compute; reflexivity))
    as (_ & _ & Hn & _ & _ & Hx & H).
  split; [| split].
  - apply (H "U*"%string false 4 [fixnum_value 8364]).
    vm_compute. reflexivity.
  - apply (Hn 2%nat PACK_DIR_UTF8 0 (-1) 0 [] [fixnum_value 8364] 3).
    + vm_compute. split; discriminate.
    + discriminate.
    + vm_compute. discriminate.
    + vm_compute. reflexivity.
  - apply (Hx 2%nat false {| str := "x2a"; idx := 0 |}
              {| str := "x2a"; idx := 2 |}
              {| dir := PACK_DIR_NUL; type := PACK_TYPE_NONE; size := 0;
                 count := 2; flags := PACK_FLAG_LITTLEENDIAN |} 0 [] 2).
    + vm_compute. split; discriminate.
    + reflexivity.
    + reflexivity.
    + reflexivity.
    + reflexivity.
Defined.

(** * Further properties of the code *)

(** ** The array of results only grows *)

Lemma ok_fst {A : Type} (a a' : A) (n n' : Z) :
  @Ok (A * Z) (a, n) = Ok (a', n') -> a = a'.
Proof. congruence. Qed.

Lemma extends_app (result : list value) (x : value) (r : list value) :
  r = result ++ [x] -> exists ext, r = result ++ ext.
Proof. intros ->. eauto. Qed.

Lemma unpack_one_extends cfg (d : pack_dir) (sptr : bstr) (slen fl : Z)
  (result r : list value) (n : Z) :
  unpack_one cfg d sptr slen result fl = Ok (r, n) ->
  exists ext, r = result ++ ext.
Proof.
  destruct d; cbn [unpack_one]; try discriminate.
  - unfold unpack_c. destruct (has_flag _ _); intros H; apply ok_fst in H;
      symmetry in H; eapply extends_app; exact H.
  - unfold unpack_s. intros H; apply ok_fst in H.
    symmetry in H; eapply extends_app; exact H.
  - unfold unpack_l. destruct (has_flag _ _); destruct (_ && _);
      try discriminate; intros H; apply ok_fst in H;
      symmetry in H; eapply extends_app; exact H.
  - unfold unpack_q. destruct (if has_flag _ _ then _ else _) as [pos step].
    destruct (has_flag _ _); destruct (negb _);
      try discriminate; intros H; apply ok_fst in H;
      symmetry in H; eapply extends_app; exact H.
  - unfold unpack_utf8. destruct (slen =? 0).
    + intros H; apply ok_fst in H. exists []. now rewrite app_nil_r.
    + destruct (utf8_to_uv sptr slen) as [[uv lenp] | | |]; cbn [bind];
        try discriminate.
      intros H; apply ok_fst in H. symmetry in H; eapply extends_app; exact H.
  - unfold unpack_double. intros H; apply ok_fst in H.
    symmetry in H; eapply extends_app; exact H.
  - unfold unpack_float. intros H; apply ok_fst in H.
    symmetry in H; eapply extends_app; exact H.
  - unfold unpack_m. destruct (_str_new_size _); cbn [bind]; try discriminate.
    destruct (unpack_m_loop _ sptr slen 0 0 []) as [dst n'].
    intros H; apply ok_fst in H. symmetry in H; eapply extends_app; exact H.
Qed.

Lemma unpack_count2_extends cfg (d : pack_dir) (sptr : bstr)
  (slen count fl : Z) (result r : list value) (n : Z) :
  unpack_count2 cfg d sptr slen result count fl = Ok (r, n) ->
  exists ext, r = result ++ ext.
Proof.
  destruct d; cbn [unpack_count2];
    try (intros H; apply ok_fst in H; exists []; now rewrite app_nil_r).
  - unfold unpack_a.
    destruct (if (_ >=? 0) && _ then _ else _) as [copylen slen'].
    intros H; apply ok_fst in H. symmetry in H; eapply extends_app; exact H.
  - unfold unpack_h. destruct (nibble_shifts fl) as [ashift bshift].
    destruct (_str_new_size _); cbn [bind]; try discriminate.
    destruct (unpack_h_loop sptr slen _ ashift bshift) as [ds n'].
    intros H; apply ok_fst in H. symmetry in H; eapply extends_app; exact H.
Qed.

Lemma unpack_count_extends cfg (s : bstr) (srclen : Z) (d : pack_dir)
  (size fl : Z) :
  forall fuel count srcidx result i r,
    unpack_count cfg fuel s srclen d size fl count srcidx result = Ok (i, r) ->
    exists ext, r = result ++ ext.
Proof.
  induction fuel as [| fuel IH]; intros count srcidx result i r;
    cbn [unpack_count].
  - destruct (count =? 0); [| discriminate].
    intros [= _ <-]. exists []. now rewrite app_nil_r.
  - destruct (count =? 0);
      [intros [= _ <-]; exists []; now rewrite app_nil_r |].
    destruct (srclen - srcidx <? size); [intros [= _ <-]; eauto |].
    destruct (unpack_one cfg d _ _ result fl) as [[r1 n] | | |] eqn:E;
      cbn [bind]; try discriminate.
    apply unpack_one_extends in E. destruct E as (e1 & ->).
    intros H. apply IH in H. destruct H as (e2 & ->).
    exists (e1 ++ e2). now rewrite app_assoc.
Qed.

Lemma unpack_loop_extends cfg (s : bstr) (srclen : Z) (single : bool) :
  forall fuel tm srcidx result i r,
    unpack_loop cfg fuel s srclen single tm srcidx result = Ok (i, r) ->
    exists ext, r = result ++ ext.
Proof.
  induction fuel as [| fuel IH]; intros tm srcidx result i r;
    cbn [unpack_loop]; [discriminate |].
  destruct (has_tmpl tm);
    [| intros [= _ <-]; exists []; now rewrite app_nil_r].
  destruct (read_tmpl cfg tm) as [[tm1 d] | | |]; cbn [bind]; try discriminate.
  assert (K : forall r1 n,
             unpack_count2 cfg (dir d) (skipn (Z.to_nat srcidx) s)
               (srclen - srcidx) result (count d) (flags d) = Ok (r1, n) ->
             unpack_loop cfg fuel s srclen single tm1
               (int_cast cfg (srcidx + n)) r1 = Ok (i, r) ->
             exists ext, r = result ++ ext).
  { intros r1 n E H. apply unpack_count2_extends in E. destruct E as (e1 & ->).
    apply IH in H. destruct H as (e2 & ->).
    exists (e1 ++ e2). now rewrite app_assoc. }
  assert (C : ('(i', r') <-
                 unpack_count cfg (count_fuel srclen srcidx (count d)) s srclen
                   (dir d) (size d) (flags d) (count d) srcidx result ;;
               if single then Ok (i', r')
               else unpack_loop cfg fuel s srclen single tm1 i' r')
              = Ok (i, r) -> exists ext, r = result ++ ext).
  { destruct (unpack_count cfg _ s srclen (dir d) _ _ _ srcidx result)
      as [[i1 r1] | | |] eqn:E; cbn [bind]; try discriminate.
    apply unpack_count_extends in E. destruct E as (e1 & ->).
    destruct single; [intros [= _ <-]; eauto |].
    intros H. apply IH in H. destruct H as (e2 & ->).
    exists (e1 ++ e2). now rewrite app_assoc. }
  destruct (dir d);
    try (destruct (has_flag (flags d) PACK_FLAG_COUNT2);
         [ match goal with
           | |- context [unpack_count2 ?a ?b ?c ?e ?f ?g ?h] =>
               destruct (unpack_count2 a b c e f g h) as [[r1 n] | | |] eqn:E
           end;
           cbn [bind]; try discriminate; now apply (K r1 n)
         | exact C ]).
  - destruct (unpack_x [] _ result _ _) as [n | | |]; cbn [bind];
      try discriminate.
    apply IH.
  - apply IH.
Qed.

(** With [single] set the template loop stops early: what it returns is a
    prefix of what the loop returns without [single], when that returns. *)
Lemma unpack_loop_single_prefix cfg (s : bstr) (srclen : Z) :
  forall fuel tm srcidx result i2 r2,
    unpack_loop cfg fuel s srclen false tm srcidx result = Ok (i2, r2) ->
    exists i1 r1 ext,
      unpack_loop cfg fuel s srclen true tm srcidx result = Ok (i1, r1) /\
      r2 = r1 ++ ext.
Proof.
  induction fuel as [| fuel IH]; intros tm srcidx result i2 r2;
    cbn [unpack_loop]; [discriminate |].
  destruct (has_tmpl tm);
    [| intros [= <- <-]; exists srcidx, result, []; now rewrite app_nil_r].
  destruct (read_tmpl cfg tm) as [[tm1 d] | | |]; cbn [bind]; try discriminate.
  assert (C : ('(i', r') <-
                 unpack_count cfg (count_fuel srclen srcidx (count d)) s srclen
                   (dir d) (size d) (flags d) (count d) srcidx result ;;
               unpack_loop cfg fuel s srclen false tm1 i' r')
              = Ok (i2, r2) ->
              exists i1 r1 ext,
                ('(i', r') <-
                   unpack_count cfg (count_fuel srclen srcidx (count d)) s srclen
                     (dir d) (size d) (flags d) (count d) srcidx result ;;
                 Ok (i', r')) = Ok (i1, r1) /\ r2 = r1 ++ ext).
  { destruct (unpack_count cfg _ s srclen (dir d) _ _ _ srcidx result)
      as [[i1 r1] | | |]; cbn [bind]; try discriminate.
    intros H. apply unpack_loop_extends in H. destruct H as (ext & ->).
    exists i1, r1, ext. auto. }
  destruct (dir d);
    try (destruct (has_flag (flags d) PACK_FLAG_COUNT2);
         [ match goal with
           | |- context [unpack_count2 ?a ?b ?c ?e ?f ?g ?h] =>
               destruct (unpack_count2 a b c e f g h) as [[r1 n] | | |]
           end;
           cbn [bind]; try discriminate; apply IH
         | exact C ]).
  - destruct (unpack_x [] _ result _ _) as [n | | |]; cbn [bind];
      try discriminate.
    apply IH.
  - apply IH.
Qed.

(** X1. [unpack1] agrees with [unpack]: when [_pack_unpack] returns the array
    [l] for a string and a template, [_pack_unpack1] on the same string and
    template returns the first element of [l], or else it takes the element
    [RARRAY_PTR(result)[0]] of an array that is empty because the first
    directive that decodes in the count loop has produced no value.  It
    raises nothing and returns no other value. *)
Theorem unpack1_is_first_of_unpack :
  forall cfg s template l,
    _pack_unpack cfg s template = Ok l ->
    (exists v rest, _pack_unpack1 cfg s template = Ok v /\ l = v :: rest) \/
    _pack_unpack1 cfg s template = Undefined.
Proof.
  intros cfg s template l. unfold _pack_unpack, _pack_unpack1, pack_unpack.
  unfold unpack_run.
  destruct (unpack_loop cfg _ s _ false _ 0 []) as [[i2 r2] | | |] eqn:E;
    cbn [bind]; try discriminate.
  intros [= <-].
  apply unpack_loop_single_prefix in E. destruct E as (i1 & r1 & ext & -> & ->).
  cbn [bind]. destruct r1 as [| v r1]; [now right |].
  left. exists v, (r1 ++ ext). auto.
Qed.

Lemma unpack1_is_first_witness :
  (exists v rest,
     _pack_unpack1 cfg64 [1; 2; 3] "CS" = Ok v /\
     [fixnum_value 1; fixnum_value 0x302] = v :: rest) \/
  _pack_unpack1 cfg64 [1; 2; 3] "CS" = Undefined.
Proof.
  apply (unpack1_is_first_of_unpack cfg64 [1; 2; 3] "CS"%string).
  vm_compute. reflexivity.
Defined.

(** ** The count loop of unpack under [m*] *)

Lemma unpack_m_ok (src : bstr) (slen fl : Z) (ary : list value) :
  0 <= slen ->
  exists dst n, unpack_m src slen ary fl = Ok (ary ++ [str_value dst], n) /\
                0 <= n <= slen.
Proof.
  intros Hs. unfold unpack_m, _str_new_size.
  assert (Q : 0 <= Z.quot slen 4 * 3).
  { rewrite Z.quot_div_nonneg by lia.
    pose proof (Z.div_pos slen 4 Hs ltac:(lia)). lia. }
  destruct (Z.ltb_spec (Z.quot slen 4 * 3) 0) as [L | _]; [lia |].
  cbn [bind].
  destruct (unpack_m_loop _ src slen 0 0 []) as [dst n] eqn:E.
  exists dst, n. split; [reflexivity |].
  apply unpack_m_loop_consumed in E; lia.
Qed.

Lemma unpack_count_base64_star cfg (s : bstr) (srclen fl : Z) :
  supported cfg -> srclen < 2 ^ 31 ->
  forall fuel srcidx result,
    0 <= srcidx <= srclen ->
    unpack_count cfg fuel s srclen PACK_DIR_BASE64 0 fl (-1) srcidx result
    = OutOfFuel.
Proof.
  intros Hc Hb.
  induction fuel as [| fuel IH]; intros srcidx result Hi; cbn [unpack_count].
  - reflexivity.
  - change (-1 =? 0) with false. cbv iota.
    destruct (Z.ltb_spec (srclen - srcidx) 0) as [L | _]; [lia |].
    cbn [unpack_one].
    destruct (unpack_m_ok (skipn (Z.to_nat srcidx) s) (srclen - srcidx) fl
                result ltac:(lia)) as (dst & n & -> & Hn).
    cbn [bind]. change (-1 >? 0) with false. cbv iota.
    rewrite int_cast_small by (auto; lia).
    apply IH. lia.
Qed.

(** X2. Under [m*] the count loop of [pack_unpack] is never left.  The size
    of the directive is 0, so the test [srclen - srcidx < size] fails at every
    cursor inside the input; [unpack_m] never raises and never moves the
    cursor past the end; and the count stays at the sentinel -1.  So the count
    loop uses up every number of rounds that it is given, and so does the
    template loop on ["m*"], with or without [single], for every input
    shorter than 2^31 bytes. *)
Theorem unpack_base64_star_never_ends :
  forall cfg s, supported cfg -> RSTRING_LEN s < 2 ^ 31 ->
    (forall fuel fl srcidx result,
       0 <= srcidx <= RSTRING_LEN s ->
       unpack_count cfg fuel s (RSTRING_LEN s) PACK_DIR_BASE64 0 fl (-1)
         srcidx result = OutOfFuel) /\
    (forall fuel single, (0 < fuel)%nat ->
       unpack_loop cfg fuel s (RSTRING_LEN s) single (prepare_tmpl "m*") 0 []
       = OutOfFuel) /\
    _pack_unpack cfg s "m*" = OutOfFuel.
Proof.
  intros cfg s Hc Hb.
  assert (H0 : 0 <= RSTRING_LEN s) by (unfold RSTRING_LEN; lia).
  assert (L : forall fuel single, (0 < fuel)%nat ->
            unpack_loop cfg fuel s (RSTRING_LEN s) single (prepare_tmpl "m*") 0 []
            = OutOfFuel).
  { intros fuel single Hf. destruct fuel as [| fuel]; [lia |].
    cbn [unpack_loop].
    change (has_tmpl (prepare_tmpl "m*")) with true. cbv iota.
    assert (R : read_tmpl cfg (prepare_tmpl "m*") =
                Ok ({| str := "m*"; idx := 2 |},
                    {| dir := PACK_DIR_BASE64; type := PACK_TYPE_STRING;
                       size := 0; count := -1;
                       flags := resolve_endian cfg PACK_FLAG_WIDTH |}))
      by reflexivity.
    rewrite R. cbn [bind dir flags size count].
    assert (F : has_flag (resolve_endian cfg PACK_FLAG_WIDTH) PACK_FLAG_COUNT2
                = false).
    { unfold resolve_endian. destruct (littleendian cfg); reflexivity. }
    rewrite F.
    rewrite unpack_count_base64_star by (auto; lia). reflexivity. }
  split; [| split].
  - intros fuel fl srcidx result Hi.
    now apply unpack_count_base64_star.
  - exact L.
  - unfold _pack_unpack, pack_unpack, unpack_run.
    rewrite int_cast_small by (auto; lia).
    rewrite L by (unfold tmpl_fuel; lia). reflexivity.
Qed.

Lemma unpack_base64_star_witness :
  unpack_count cfg64 1000 [0x51; 0x51; 0x3d; 0x3d] 4 PACK_DIR_BASE64 0 0 (-1) 0 []
    = OutOfFuel /\
  _pack_unpack cfg64 [0x51; 0x51; 0x3d; 0x3d] "m*" = OutOfFuel.
Proof.
  destruct (unpack_base64_star_never_ends cfg64 [0x51; 0x51; 0x3d; 0x3d]
              supported_cfg64 ltac:(vm_compute; reflexivity)) as (H1 & _ & H3).
  split; [| exact H3].
  apply (H1 1000%nat 0 0 []). vm_compute. split; discriminate.
Defined.

(** ** The decoding table of base64 *)

(** X3. The table that [make_base64_dec_tab] builds has 128 entries and
    inverts the alphabet: the entry at the [i]-th character of [base64chars]
    is [i]; the entry at ['='] is the padding mark, and the entry at every
    other character below 128 is the mark of a character to ignore. *)
Theorem base64_dec_tab_inverts_alphabet :
  List.length make_base64_dec_tab = 128%nat /\
  (forall i, 0 <= i < 64 ->
     0 <= b64 i < 128 /\ nth (Z.to_nat (b64 i)) make_base64_dec_tab 0 = i) /\
  nth (Z.to_nat (chr "=")) make_base64_dec_tab 0 = PACK_BASE64_PADDING /\
  (forall c, 0 <= c < 128 -> c <> chr "=" -> ~ In c base64chars ->
     nth (Z.to_nat c) make_base64_dec_tab 0 = PACK_BASE64_IGNORE).
Proof.
  split; [reflexivity |]. split; [| split; [reflexivity |]].
  - intros i Hi.
    pose proof (range_check
      (fun i => (0 <=? b64 i) && (b64 i <? 128)
                && (nth (Z.to_nat (b64 i)) make_base64_dec_tab 0 =? i)) 64
      eq_refl i Hi) as H.
    cbv beta in H. apply andb_prop in H. destruct H as [H H3].
    apply andb_prop in H. destruct H as [H1 H2].
    apply Z.leb_le in H1. apply Z.ltb_lt in H2. apply Z.eqb_eq in H3. auto.
  - intros c Hc Ne Hn.
    pose proof (range_check
      (fun c => (c =? chr "=") || existsb (Z.eqb c) base64chars
                || (nth (Z.to_nat c) make_base64_dec_tab 0 =? PACK_BASE64_IGNORE))
      128 eq_refl c Hc) as H.
    cbv beta in H. apply orb_prop in H. destruct H as [H | H].
    + apply orb_prop in H. destruct H as [H | H].
      * apply Z.eqb_eq in H. contradiction.
      * apply existsb_exists in H. destruct H as (x & Hx & E).
        apply Z.eqb_eq in E. subst x. contradiction.
    + now apply Z.eqb_eq.
Qed.

Lemma base64_dec_tab_witness :
  (0 <= b64 26 < 128 /\ nth (Z.to_nat (b64 26)) make_base64_dec_tab 0 = 26) /\
  nth (Z.to_nat (chr "010")) make_base64_dec_tab 0 = PACK_BASE64_IGNORE.
Proof.
  destruct base64_dec_tab_inverts_alphabet as (_ & H1 & _ & H2).
  split.
  - apply (H1 26). lia.
  - apply (H2 (chr "010")).
    + change (chr "010") with 10. lia.
    + discriminate.
    + vm_compute. intuition discriminate.
Defined.

(** ** Round trip of base64 *)

Lemma b64_decodes (i : Z) :
  0 <= i < 64 ->
  (b64 i >=? 128) = false /\ nth (Z.to_nat (b64 i)) base64_dec_tab 0 = i.
Proof.
  intros Hi.
  pose proof (range_check
    (fun i => negb (b64 i >=? 128)
              && (nth (Z.to_nat (b64 i)) base64_dec_tab 0 =? i)) 64
    eq_refl i Hi) as H.
  cbv beta in H. apply andb_prop in H. destruct H as [H1 H2].
  apply negb_true_iff in H1. apply Z.eqb_eq in H2. auto.
Qed.

Lemma unpack_m_sym_b64 (i : Z) (rest : bstr) (slen padding n : Z) :
  0 <= i < 64 -> slen <> 0 ->
  unpack_m_sym (b64 i :: rest) slen padding n
  = (Some i, rest, slen - 1, padding, n + 1).
Proof.
  intros Hi Hs. destruct (b64_decodes i Hi) as [H1 H2].
  cbn [unpack_m_sym].
  destruct (Z.eqb_spec slen 0) as [E | _]; [contradiction |].
  rewrite H1, H2. unfold PACK_BASE64_PADDING, PACK_BASE64_IGNORE.
  destruct (Z.eqb_spec i 254); [lia |].
  destruct (Z.eqb_spec i 255); [lia |]. reflexivity.
Qed.

Lemma unpack_m_sym_newline (rest : bstr) (slen padding n : Z) :
  slen <> 0 ->
  unpack_m_sym (chr "010" :: rest) slen padding n
  = unpack_m_sym rest (slen - 1) padding (n + 1).
Proof.
  intros Hs. cbn [unpack_m_sym].
  destruct (Z.eqb_spec slen 0) as [E | _]; [contradiction |]. reflexivity.
Qed.

Lemma unpack_m_sym_padding (rest : bstr) (slen padding n : Z) :
  slen <> 0 ->
  unpack_m_sym (chr "=" :: rest) slen padding n
  = (Some 0, rest, slen - 1, padding + 1, n + 1).
Proof.
  intros Hs. cbn [unpack_m_sym].
  destruct (Z.eqb_spec slen 0) as [E | _]; [contradiction |]. reflexivity.
Qed.

Lemma sextet (l k : Z) : 0 <= k -> 0 <= Z.land (Z.shiftr l k) 0x3f < 64.
Proof.
  intros Hk. change 0x3f with (Z.ones 6). rewrite Z.land_ones by lia.
  apply Z.mod_pos_bound. lia.
Qed.

Lemma sextet_low (l : Z) : 0 <= Z.land l 0x3f < 64.
Proof.
  change 0x3f with (Z.ones 6). rewrite Z.land_ones by lia.
  apply Z.mod_pos_bound. lia.
Qed.

Ltac sextets := first [apply sextet; lia | apply sextet_low | lia].

Ltac to_arith :=
  change 0x3f with (Z.ones 6); change 0xff with (Z.ones 8);
  rewrite ?Z.land_ones by lia;
  rewrite ?Z.shiftr_div_pow2, ?Z.shiftl_mul_pow2 by lia;
  change (2 ^ 18) with 262144; change (2 ^ 16) with 65536;
  change (2 ^ 12) with 4096; change (2 ^ 8) with 256; change (2 ^ 6) with 64.

Lemma group3 (a b c : Z) :
  is_byte a -> is_byte b -> is_byte c ->
  let l := Z.shiftl a 16 + Z.shiftl b 8 + c in
  let l' := Z.shiftl (Z.land (Z.shiftr l 18) 0x3f) 18
            + Z.shiftl (Z.land (Z.shiftr l 12) 0x3f) 12
            + Z.shiftl (Z.land (Z.shiftr l 6) 0x3f) 6
            + Z.land l 0x3f in
  [Z.land (Z.shiftr l' 16) 0xff; Z.land (Z.shiftr l' 8) 0xff; Z.land l' 0xff]
  = [a; b; c].
Proof.
  intros Ha Hb Hc l l'. unfold is_byte in *.
  assert (E : l' = l).
  { subst l'. to_arith. subst l. to_arith.
    Z.div_mod_to_equations. lia. }
  rewrite E. subst l. to_arith.
  repeat f_equal; Z.div_mod_to_equations; lia.
Qed.

Lemma group2 (a b : Z) :
  is_byte a -> is_byte b ->
  let l := Z.shiftl a 16 + Z.shiftl b 8 in
  let l' := Z.shiftl (Z.land (Z.shiftr l 18) 0x3f) 18
            + Z.shiftl (Z.land (Z.shiftr l 12) 0x3f) 12
            + Z.shiftl (Z.land (Z.shiftr l 6) 0x3f) 6 + 0 in
  [Z.land (Z.shiftr l' 16) 0xff; Z.land (Z.shiftr l' 8) 0xff] = [a; b].
Proof.
  intros Ha Hb l l'. unfold is_byte in *.
  assert (E : l' = l).
  { subst l'. to_arith. subst l. to_arith.
    Z.div_mod_to_equations. lia. }
  rewrite E. subst l. to_arith.
  repeat f_equal; Z.div_mod_to_equations; lia.
Qed.

Lemma group1 (a : Z) :
  is_byte a ->
  let l := Z.shiftl a 16 in
  let l' := Z.shiftl (Z.land (Z.shiftr l 18) 0x3f) 18
            + Z.shiftl (Z.land (Z.shiftr l 12) 0x3f) 12
            + Z.shiftl 0 6 + 0 in
  [Z.land (Z.shiftr l' 16) 0xff] = [a].
Proof.
  intros Ha l l'. unfold is_byte in *.
  assert (E : l' = l).
  { subst l'. to_arith. subst l. to_arith.
    Z.div_mod_to_equations. lia. }
  rewrite E. subst l. to_arith.
  repeat f_equal; Z.div_mod_to_equations; lia.
Qed.

Lemma newline_prefix (nl : bstr) :
  nl = [] \/ nl = [chr "010"] -> 0 <= RSTRING_LEN nl <= 1.
Proof. intros [-> | ->]; cbn; lia. Qed.

Lemma unpack_m_sym_skip (nl : bstr) (i : Z) (rest : bstr) (slen padding n : Z) :
  nl = [] \/ nl = [chr "010"] -> 0 <= i < 64 -> RSTRING_LEN nl < slen ->
  unpack_m_sym (nl ++ b64 i :: rest) slen padding n
  = (Some i, rest, slen - RSTRING_LEN nl - 1, padding, n + RSTRING_LEN nl + 1).
Proof.
  intros [-> | ->] Hi Hs; cbn [app] in *;
    change (RSTRING_LEN []) with 0 in *;
    change (RSTRING_LEN [chr "010"]) with 1 in *.
  - rewrite unpack_m_sym_b64 by lia. repeat f_equal; lia.
  - rewrite unpack_m_sym_newline by lia.
    rewrite unpack_m_sym_b64 by lia. repeat f_equal; lia.
Qed.

Lemma unpack_m_loop_args (fuel : nat) (sptr : bstr) (slen slen' n n' : Z)
  (dst dst' : list Z) :
  slen = slen' -> n = n' -> dst = dst' ->
  unpack_m_loop fuel sptr slen 0 n dst = unpack_m_loop fuel sptr slen' 0 n' dst'.
Proof. now intros -> -> ->. Qed.

(** One round of the decoding loop on a full group, on a group of two bytes
    and on a group of one byte, after the newline that may precede them. *)
Lemma unpack_m_loop_group3 (fuel : nat) (nl : bstr) (a b c : Z) (tail : bstr)
  (slen n : Z) (dst : list Z) :
  is_byte a -> is_byte b -> is_byte c ->
  nl = [] \/ nl = [chr "010"] -> RSTRING_LEN nl + 4 <= slen ->
  let l := Z.shiftl a 16 + Z.shiftl b 8 + c in
  unpack_m_loop (S fuel)
    (nl ++ b64 (Z.land (Z.shiftr l 18) 0x3f) :: b64 (Z.land (Z.shiftr l 12) 0x3f)
        :: b64 (Z.land (Z.shiftr l 6) 0x3f) :: b64 (Z.land l 0x3f) :: tail)
    slen 0 n dst
  = unpack_m_loop fuel tail (slen - RSTRING_LEN nl - 4) 0
      (n + RSTRING_LEN nl + 4) (dst ++ [a; b; c]).
Proof.
  intros Ha Hb Hc Hn Hs l. pose proof (newline_prefix nl Hn) as Hl.
  cbn [unpack_m_loop].
  destruct (Z.geb_spec slen 4) as [_ | L]; [| lia].
  rewrite unpack_m_sym_skip by (auto; sextets).
  rewrite !unpack_m_sym_b64 by sextets.
  change (0 =? 0) with true. cbv iota.
  pose proof (group3 a b c Ha Hb Hc) as G. cbv zeta in G. fold l in G.
  rewrite G. apply unpack_m_loop_args; [lia | lia | reflexivity].
Qed.

Lemma unpack_m_loop_group2 (fuel : nat) (nl : bstr) (a b : Z) (tail : bstr)
  (slen n : Z) (dst : list Z) :
  is_byte a -> is_byte b ->
  nl = [] \/ nl = [chr "010"] -> RSTRING_LEN nl + 4 <= slen ->
  let l := Z.shiftl a 16 + Z.shiftl b 8 in
  fst (unpack_m_loop (S fuel)
         (nl ++ b64 (Z.land (Z.shiftr l 18) 0x3f)
             :: b64 (Z.land (Z.shiftr l 12) 0x3f)
             :: b64 (Z.land (Z.shiftr l 6) 0x3f) :: chr "=" :: tail)
         slen 0 n dst)
  = dst ++ [a; b].
Proof.
  intros Ha Hb Hn Hs l. pose proof (newline_prefix nl Hn) as Hl.
  cbn [unpack_m_loop].
  destruct (Z.geb_spec slen 4) as [_ | L]; [| lia].
  rewrite unpack_m_sym_skip by (auto; sextets).
  rewrite !unpack_m_sym_b64 by sextets.
  rewrite unpack_m_sym_padding by lia.
  change (0 + 1 =? 0) with false. change (0 + 1 =? 1) with true. cbv iota.
  pose proof (group2 a b Ha Hb) as G. cbv zeta in G. fold l in G.
  cbn [fst]. now rewrite G.
Qed.

Lemma unpack_m_loop_group1 (fuel : nat) (nl : bstr) (a : Z) (tail : bstr)
  (slen n : Z) (dst : list Z) :
  is_byte a ->
  nl = [] \/ nl = [chr "010"] -> RSTRING_LEN nl + 4 <= slen ->
  let l := Z.shiftl a 16 in
  fst (unpack_m_loop (S fuel)
         (nl ++ b64 (Z.land (Z.shiftr l 18) 0x3f)
             :: b64 (Z.land (Z.shiftr l 12) 0x3f)
             :: chr "=" :: chr "=" :: tail)
         slen 0 n dst)
  = dst ++ [a].
Proof.
  intros Ha Hn Hs l. pose proof (newline_prefix nl Hn) as Hl.
  cbn [unpack_m_loop].
  destruct (Z.geb_spec slen 4) as [_ | L]; [| lia].
  rewrite unpack_m_sym_skip by (auto; sextets).
  rewrite !unpack_m_sym_b64 by sextets.
  rewrite !unpack_m_sym_padding by lia.
  change (0 + 1 + 1 =? 0) with false. change (0 + 1 + 1 =? 1) with false.
  cbv iota.
  pose proof (group1 a Ha) as G. cbv zeta in G. fold l in G.
  cbn [fst]. now rewrite G.
Qed.

(** The decoding loop on the output of the encoding loop. *)
Lemma unpack_m_loop_pack_m_loop (count : Z) :
  forall src, Forall is_byte src ->
  forall fuel nl column slen n dst,
    (List.length src < fuel)%nat -> nl = [] \/ nl = [chr "010"] ->
    slen = RSTRING_LEN (nl ++ pack_m_loop src column count) ->
    fst (unpack_m_loop fuel (nl ++ pack_m_loop src column count) slen 0 n dst)
    = dst ++ src.
Proof.
  induction src as [| a | a b | a b c rest IH] using list_ind3;
    intros Hb fuel nl column slen n dst Hf Hn Hs;
    pose proof (newline_prefix nl Hn) as Hl;
    (destruct fuel as [| fuel]; [cbn [List.length] in Hf; lia |]);
    unfold RSTRING_LEN in Hs, Hl; rewrite length_app in Hs.
  - cbn [pack_m_loop] in *. cbn [unpack_m_loop].
    assert (P : (List.length (pack_m_newline column count) <= 1)%nat).
    { unfold pack_m_newline. destruct (_ && _); cbn; lia. }
    destruct (Z.geb_spec slen 4) as [G | _]; [lia |].
    cbn [fst]. now rewrite app_nil_r.
  - pose proof (Forall_inv Hb) as Ha.
    cbn [pack_m_loop app] in *. cbn [List.length] in Hs.
    apply unpack_m_loop_group1; auto. unfold RSTRING_LEN. lia.
  - pose proof (Forall_inv Hb) as Ha.
    pose proof (Forall_inv (Forall_inv_tail Hb)) as Hb2.
    cbn [pack_m_loop app] in *. cbn [List.length] in Hs.
    apply unpack_m_loop_group2; auto. unfold RSTRING_LEN. lia.
  - pose proof (Forall_inv Hb) as Ha.
    pose proof (Forall_inv (Forall_inv_tail Hb)) as Hb2.
    pose proof (Forall_inv (Forall_inv_tail (Forall_inv_tail Hb))) as Hc.
    pose proof (Forall_inv_tail (Forall_inv_tail (Forall_inv_tail Hb))) as Hr.
    cbn [pack_m_loop] in *. cbn [List.length] in Hs, Hf.
    destruct (column =? count).
    + rewrite unpack_m_loop_group3; auto; [| unfold RSTRING_LEN; lia].
      rewrite (IH Hr fuel [chr "010"] (0 + 3)); auto; [| lia |].
      * rewrite <- app_assoc. reflexivity.
      * unfold RSTRING_LEN. cbn [List.length app] in *. lia.
    + rewrite unpack_m_loop_group3; auto; [| unfold RSTRING_LEN; lia].
      rewrite (IH Hr fuel [] (column + 3)); auto; [| lia |].
      * rewrite <- app_assoc. reflexivity.
      * unfold RSTRING_LEN. cbn [List.length app] in *. lia.
Qed.

Lemma pack_m_bytes_length (src : bstr) (count : Z) :
  (List.length src <= List.length (pack_m_bytes src count))%nat.
Proof.
  unfold pack_m_bytes. destruct src as [| x src]; [cbn; lia |].
  generalize (x :: src) (pack_m_count count) 3. clear.
  induction l as [| a | a b | a b c rest IH] using list_ind3;
    intros count column; cbn [pack_m_loop List.length];
    rewrite ?length_app; cbn [List.length]; try lia.
  destruct (column =? count); cbn [List.length];
    [specialize (IH count (0 + 3)) | specialize (IH count (column + 3))]; lia.
Qed.

Lemma unpack_m_pack_m_bytes (src : bstr) (count : Z) (ary : list value)
  (fl : Z) :
  Forall is_byte src ->
  exists n,
    unpack_m (pack_m_bytes src count) (RSTRING_LEN (pack_m_bytes src count))
      ary fl
    = Ok (ary ++ [str_value src], n).
Proof.
  intros Hb.
  set (enc := pack_m_bytes src count).
  assert (H0 : 0 <= RSTRING_LEN enc) by (unfold RSTRING_LEN; lia).
  unfold unpack_m, _str_new_size.
  assert (Q : 0 <= Z.quot (RSTRING_LEN enc) 4 * 3).
  { rewrite Z.quot_div_nonneg by lia.
    pose proof (Z.div_pos (RSTRING_LEN enc) 4 H0 ltac:(lia)). lia. }
  destruct (Z.ltb_spec (Z.quot (RSTRING_LEN enc) 4 * 3) 0) as [L | _]; [lia |].
  cbn [bind].
  destruct (unpack_m_loop _ enc (RSTRING_LEN enc) 0 0 []) as [dst n] eqn:E.
  exists n. replace dst with src; [reflexivity |].
  change dst with (fst (dst, n)). rewrite <- E. subst enc.
  destruct src as [| x src]; [reflexivity |].
  pose proof (pack_m_bytes_length (x :: src) count) as Hl.
  rewrite pack_m_bytes_loop in * by discriminate.
  symmetry.
  apply (unpack_m_loop_pack_m_loop _ (x :: src) Hb _ []); auto.
  unfold RSTRING_LEN. lia.
Qed.

(** X4. [unpack_m] inverts [pack_m]: for every string of bytes and every
    count, that is with every line length and without one, decoding the bytes
    that the loop of [pack_m] produces appends the original string to the
    array.  The newlines and the padding that [pack_m] adds are skipped. *)
Theorem base64_round_trip :
  forall src count ary fl,
    Forall is_byte src ->
    exists n,
      unpack_m (pack_m_bytes src count) (RSTRING_LEN (pack_m_bytes src count))
        ary fl
      = Ok (ary ++ [str_value src], n).
Proof. intros src count ary fl. apply unpack_m_pack_m_bytes. Qed.

Lemma base64_round_trip_witness :
  exists n,
    unpack_m (pack_m_bytes [0x66; 0x6f; 0x6f; 0x62] 3)
      (RSTRING_LEN (pack_m_bytes [0x66; 0x6f; 0x6f; 0x62] 3)) [] 0
    = Ok ([] ++ [str_value [0x66; 0x6f; 0x6f; 0x62]], n).
Proof.
  apply base64_round_trip.
  repeat constructor; unfold is_byte; lia.
Defined.

(** ** The length of the base64 output *)

Lemma pack_m_loop_length_wrapped (j : nat) :
  let count := 3 * (Z.of_nat j + 1) in
  forall src i,
    0 <= i <= Z.of_nat j ->
    RSTRING_LEN (pack_m_loop src (3 * (i + 1)) count)
    = 4 * ((RSTRING_LEN src + 2) / 3) + (3 * i + RSTRING_LEN src) / count + 1.
Proof.
  intros count.
  assert (Hc : 0 < count) by (subst count; lia).
  unfold RSTRING_LEN.
  induction src as [| a | a b | a b c rest IH] using list_ind3; intros i Hi;
    cbn [pack_m_loop]; unfold pack_m_newline;
    rewrite ?length_app; cbn [List.length].
  - destruct (Z.gtb_spec (3 * (i + 1)) 0); [| lia].
    destruct (Z.gtb_spec count 0); [| lia]. cbn [andb List.length].
    change (Z.of_nat 0) with 0. change (Z.of_nat 1) with 1.
    rewrite (Z.div_small (3 * i + 0)) by (subst count; lia).
    change ((0 + 2) / 3) with 0. lia.
  - destruct (Z.gtb_spec (3 * (i + 1) + 3) 0); [| lia].
    destruct (Z.gtb_spec count 0); [| lia]. cbn [andb List.length].
    change (Z.of_nat 1) with 1. change (Z.of_nat 5) with 5.
    rewrite (Z.div_small (3 * i + 1)) by (subst count; lia).
    change ((1 + 2) / 3) with 1. lia.
  - destruct (Z.gtb_spec (3 * (i + 1) + 3) 0); [| lia].
    destruct (Z.gtb_spec count 0); [| lia]. cbn [andb List.length].
    change (Z.of_nat 2) with 2. change (Z.of_nat 5) with 5.
    rewrite (Z.div_small (3 * i + 2)) by (subst count; lia).
    change ((2 + 2) / 3) with 1. lia.
  - replace (Z.of_nat (S (S (S (List.length rest)))) + 2)
      with (Z.of_nat (List.length rest) + 2 + 1 * 3) by lia.
    rewrite Z.div_add by lia.
    destruct (Z.eqb_spec (3 * (i + 1)) count) as [E | N].
    + cbn [List.length].
      specialize (IH 0 ltac:(lia)).
      change (3 * (0 + 1)) with (0 + 3) in IH.
      replace (3 * i + Z.of_nat (S (S (S (List.length rest)))))
        with (Z.of_nat (List.length rest) + 1 * count) by lia.
      rewrite Z.div_add by lia.
      replace (3 * 0 + Z.of_nat (List.length rest))
        with (Z.of_nat (List.length rest)) in IH by lia.
      lia.
    + specialize (IH (i + 1) ltac:(subst count; lia)).
      replace (3 * (i + 1 + 1)) with (3 * (i + 1) + 3) in IH by lia.
      replace (3 * i + Z.of_nat (S (S (S (List.length rest)))))
        with (3 * (i + 1) + Z.of_nat (List.length rest)) by lia.
      lia.
Qed.

Lemma pack_m_loop_length_unwrapped :
  forall src column,
    0 < column ->
    RSTRING_LEN (pack_m_loop src column 0) = 4 * ((RSTRING_LEN src + 2) / 3).
Proof.
  unfold RSTRING_LEN.
  induction src as [| a | a b | a b c rest IH] using list_ind3;
    intros column Hc; cbn [pack_m_loop]; rewrite ?pack_m_newline_zero;
    rewrite ?length_app; cbn [List.length].
  - reflexivity.
  - reflexivity.
  - reflexivity.
  - replace (Z.of_nat (S (S (S (List.length rest)))) + 2)
      with (Z.of_nat (List.length rest) + 2 + 1 * 3) by lia.
    rewrite Z.div_add by lia.
    destruct (Z.eqb_spec column 0) as [E | _]; [lia |].
    cbn [List.length].
    specialize (IH (column + 3) ltac:(lia)).
    set (q := (Z.of_nat (List.length rest) + 2) / 3) in *. lia.
Qed.

Lemma pack_m_count_cases (count : Z) :
  pack_m_count count = 0 \/ exists j, pack_m_count count = 3 * (Z.of_nat j + 1).
Proof.
  destruct (Z_lt_le_dec 0 (pack_m_count count)) as [L | G].
  - right. destruct (pack_m_count_line count L) as (j & E).
    exists j. lia.
  - left. revert G. unfold pack_m_count.
    destruct (Z.eqb_spec count 0) as [-> | N]; [reflexivity |].
    destruct (Z.ltb_spec count 3); cbn [negb andb]; [lia |].
    destruct (Z.geb_spec count 3) as [G | L]; [| lia].
    rewrite Z.rem_mod_nonneg by lia.
    pose proof (Z.mod_pos_bound count 3 ltac:(lia)). lia.
Qed.

Lemma pack_m_estimate cfg (src dst : bstr) (didx count fl : Z) :
  src <> [] ->
  let srclen := RSTRING_LEN src in
  let n := pack_m_count count in
  let dstlen :=
    (srclen + 2) / 3 * 4
    + (if n >? 0 then srclen / n + (if srclen mod n =? 0 then 0 else 1)
       else 0) in
  pack_m cfg (str_value src) dst didx count fl
    = emit cfg dst didx dstlen (pack_m_bytes src count) /\
  RSTRING_LEN (pack_m_bytes src count)
    = dstlen + (if (n >? 0) && (srclen mod n =? 0) then 1 else 0).
Proof.
  intros Hs srclen n dstlen.
  assert (Hl : 0 < srclen).
  { subst srclen. unfold RSTRING_LEN.
    destruct src; [congruence | cbn [List.length]; lia]. }
  assert (Hn : n = 0 \/ exists j, n = 3 * (Z.of_nat j + 1))
    by apply pack_m_count_cases.
  split.
  - unfold pack_m. cbn [RSTRING]. fold srclen. fold n.
    destruct (Z.eqb_spec srclen 0) as [E | _]; [lia |].
    f_equal. subst dstlen.
    rewrite Z.quot_div_nonneg by lia.
    destruct (Z.gtb_spec n 0) as [G | _]; [| lia].
    rewrite Z.quot_div_nonneg, Z.rem_mod_nonneg by lia. lia.
  - rewrite pack_m_bytes_loop by assumption. fold n. subst dstlen.
    destruct Hn as [E | (j & E)]; rewrite E.
    + rewrite pack_m_loop_length_unwrapped by lia. fold srclen.
      change (0 >? 0) with false. cbn [andb]. lia.
    + pose proof (pack_m_loop_length_wrapped j src 0 ltac:(lia)) as H.
      cbv zeta in H. change (3 * (0 + 1)) with 3 in H. rewrite H.
      fold srclen. rewrite <- E.
      destruct (Z.gtb_spec n 0) as [_ | L]; [| lia]. cbn [andb].
      replace (3 * 0 + srclen) with srclen by lia.
      destruct (srclen mod n =? 0); lia.
Qed.

(** X5. The room that [pack_m] reserves against the bytes that it stores.
    For a source of [srclen] > 0 bytes and the line length [n], [pack_m]
    makes sure of [dstlen] bytes from the write position on: four for each
    group of three source bytes, and with a line length one for each line,
    complete or not.  Its loop stores that many bytes, except when [srclen]
    is a multiple of the line length: then it stores one byte more, because a
    newline is written after the last full line both inside the loop and
    after it. *)
Theorem base64_stores_past_its_estimate :
  forall cfg src dst didx count fl,
    src <> [] ->
    let srclen := RSTRING_LEN src in
    let n := pack_m_count count in
    let dstlen :=
      (srclen + 2) / 3 * 4
      + (if n >? 0 then srclen / n + (if srclen mod n =? 0 then 0 else 1)
         else 0) in
    pack_m cfg (str_value src) dst didx count fl
      = emit cfg dst didx dstlen (pack_m_bytes src count) /\
    RSTRING_LEN (pack_m_bytes src count)
      = dstlen + (if (n >? 0) && (srclen mod n =? 0) then 1 else 0).
Proof. intros cfg src dst didx count fl. apply pack_m_estimate. Qed.

Lemma base64_stores_past_its_estimate_witness :
  pack_m cfg64 (str_value [1; 2; 3]) (repeat 0 128) 0 3 0
    = emit cfg64 (repeat 0 128) 0 5 (pack_m_bytes [1; 2; 3] 3) /\
  RSTRING_LEN (pack_m_bytes [1; 2; 3] 3) = 5 + 1.
Proof.
  apply (base64_stores_past_its_estimate cfg64 [1; 2; 3] (repeat 0 128) 0 3 0).
  discriminate.
Defined.

(** ** What a store that succeeded has done *)

Lemma poke_inv (str : bstr) :
  forall i b str', poke str i b = Ok str' -> (i < List.length str)%nat.
Proof.
  induction str as [| hd tl IH]; intros i b str'; [discriminate |].
  destruct i as [| i]; cbn [poke List.length]; [lia |].
  destruct (poke tl i b) as [tl' | | |] eqn:E; cbn [bind]; try discriminate.
  apply IH in E. lia.
Qed.

Lemma poke_all_inv (bs : list Z) :
  forall str idx str',
    poke_all str idx bs = Ok str' ->
    bs = [] \/ (0 <= idx /\ idx + Z.of_nat (List.length bs) <= RSTRING_LEN str).
Proof.
  unfold RSTRING_LEN.
  induction bs as [| b bs IH]; intros str idx str'; [now left |].
  cbn [poke_all]. right.
  destruct (Z.ltb_spec idx 0) as [L | G]; [discriminate |].
  destruct (poke str (Z.to_nat idx) b) as [str1 | | |] eqn:E; cbn [bind] in *;
    try discriminate.
  pose proof (poke_inv _ _ _ _ E) as Hi.
  rewrite poke_ok in E by assumption. injection E as <-.
  apply IH in H. rewrite splice_length in H by (cbn [List.length]; lia).
  cbn [List.length]. destruct H as [-> | H]; cbn [List.length]; lia.
Qed.

Lemma double_until_inv cfg (fuel : nat) :
  forall n len n', double_until cfg fuel n len = Some n' -> len <= n'.
Proof.
  induction fuel as [| fuel IH]; intros n len n'; cbn [double_until];
    [discriminate |].
  destruct (Z.gtb_spec len (mrb_int_cast cfg (n * 2))) as [G | L]; [apply IH |].
  intros [= <-]. exact L.
Qed.

Lemma str_len_ensure_inv cfg (str : bstr) (len : Z) (str1 : bstr) :
  str_len_ensure cfg str len = Ok str1 ->
  (exists zeros, str1 = str ++ zeros) /\ len <= RSTRING_LEN str1.
Proof.
  unfold str_len_ensure.
  destruct (Z.ltb_spec len 0) as [L | G]; [discriminate |].
  destruct (Z.gtb_spec len (RSTRING_LEN str)) as [G1 | L1].
  - destruct (double_until _ _ _ len) as [n' |] eqn:E; [| discriminate].
    apply double_until_inv in E. intros [= <-].
    unfold _str_resize, RSTRING_LEN in *.
    rewrite firstn_all2 by lia.
    split; [eauto |]. rewrite length_app, repeat_length. lia.
  - intros [= <-]. split; [exists []; now rewrite app_nil_r | exact L1].
Qed.

(** An encoder that has succeeded has stored its bytes at the position it
    was given, and reports their number. *)
Lemma emit_inv cfg (str : bstr) (sidx need : Z) (bs : list Z) (str' : bstr)
  (n : Z) :
  0 <= sidx <= RSTRING_LEN str ->
  emit cfg str sidx need bs = Ok (str', n) ->
  n = Z.of_nat (List.length bs) /\
  firstn (Z.to_nat sidx + List.length bs) str' = firstn (Z.to_nat sidx) str ++ bs /\
  RSTRING_LEN str <= RSTRING_LEN str'.
Proof.
  intros Hi. unfold emit.
  destruct (str_len_ensure cfg str _) as [str1 | | |] eqn:E1; cbn [bind];
    try discriminate.
  destruct (poke_all str1 sidx bs) as [str2 | | |] eqn:E2; cbn [bind];
    try discriminate.
  intros [= <- <-]. split; [reflexivity |].
  apply str_len_ensure_inv in E1. destruct E1 as [(zeros & ->) _].
  destruct (poke_all_inv _ _ _ _ E2) as [-> | (H0 & Hl)].
  - cbn [poke_all] in E2. injection E2 as <-.
    cbn [List.length]. rewrite Nat.add_0_r, app_nil_r.
    unfold RSTRING_LEN in *. rewrite length_app.
    split; [| lia]. rewrite firstn_app.
    replace (Z.to_nat sidx - List.length str)%nat with 0%nat by lia.
    cbn [firstn]. now rewrite app_nil_r.
  - rewrite poke_all_ok in E2 by assumption. injection E2 as <-.
    unfold RSTRING_LEN in *. split.
    + unfold splice.
      assert (L : List.length (firstn (Z.to_nat sidx) (str ++ zeros))
                  = Z.to_nat sidx).
      { rewrite length_firstn. lia. }
      rewrite firstn_app, L, firstn_all2 by lia.
      replace (Z.to_nat sidx + List.length bs - Z.to_nat sidx)%nat
        with (List.length bs) by lia.
      rewrite firstn_app.
      replace (Z.to_nat sidx - List.length str)%nat with 0%nat by lia.
      cbn [firstn]. rewrite app_nil_r.
      rewrite (firstn_app (List.length bs) bs), firstn_all, Nat.sub_diag.
      cbn [firstn]. now rewrite app_nil_r.
    + rewrite splice_length by lia. rewrite length_app. lia.
Qed.

(** ** Calls of pack and unpack with a template of one directive *)

Lemma one_directive_loop (template : string) :
  template <> ""%string ->
  has_tmpl (prepare_tmpl template) = true /\
  has_tmpl {| str := template; idx := Z.of_nat (String.length template) |}
    = false /\
  exists fuel, tmpl_fuel template = S (S fuel).
Proof.
  intros H. unfold has_tmpl, tlen, prepare_tmpl, tmpl_fuel. cbn [str idx].
  destruct template as [| c s]; [congruence |]. cbn [String.length].
  split; [apply Z.ltb_lt; lia |]. split; [apply Z.ltb_ge; lia | eauto].
Qed.

Lemma pack_one_value cfg (template : string) (d : directive) (o : value) :
  one_directive cfg template d ->
  dir d <> PACK_DIR_NUL -> dir d <> PACK_DIR_INVALID ->
  (count d =? 0) && negb (has_flag (flags d) PACK_FLAG_WIDTH) = false ->
  _pack_pack cfg [o] template =
  (o' <- coerce cfg (type d) o ;;
   '(result, n) <-
     pack_one cfg (dir d) o' (repeat 0 128) 0 (count d) (flags d) ;;
   if int_cast cfg (0 + n) <? 0
   then Raise E_RANGE_ERROR "negative (or overflowed) template size"
   else Ok (_str_resize result (int_cast cfg (0 + n)))).
Proof.
  intros [Hn Hr] D1 D2 Hc.
  destruct (one_directive_loop template Hn) as (H1 & H2 & fuel & Hf).
  unfold _pack_pack, pack_run. rewrite Hf.
  rewrite (pack_loop_values cfg _ _ _ _ d _ _ _ H1 Hr D1 D2).
  change (skipn (Z.to_nat 0) [o]) with [o].
  cbn [pack_values]. rewrite Hc.
  destruct (coerce cfg (type d) o) as [o' | | |]; cbn [bind]; try reflexivity.
  destruct (pack_one cfg (dir d) o' (repeat 0 128) 0 _ _) as [[result n] | | |];
    cbn [bind]; try reflexivity.
  destruct (dir d); try congruence; cbn [bind pack_values];
    (destruct (int_cast cfg (0 + n) <? 0); [reflexivity |]);
    rewrite pack_loop_done by exact H2; reflexivity.
Qed.

(** The bytes that a call of pack on one value returns, when the encoder of
    the directive stores [bs] at the start of the output string. *)
Lemma pack_one_value_bytes cfg (template : string) (d : directive)
  (o o' : value) (need : Z) (bs bytes : list Z) :
  supported cfg -> one_directive cfg template d ->
  dir d <> PACK_DIR_NUL -> dir d <> PACK_DIR_INVALID ->
  (count d =? 0) && negb (has_flag (flags d) PACK_FLAG_WIDTH) = false ->
  coerce cfg (type d) o = Ok o' ->
  pack_one cfg (dir d) o' (repeat 0 128) 0 (count d) (flags d)
    = emit cfg (repeat 0 128) 0 need bs ->
  RSTRING_LEN bs < 2 ^ 31 ->
  _pack_pack cfg [o] template = Ok bytes -> bytes = bs.
Proof.
  intros Hc Ho D1 D2 Hn Eo Ep Hb.
  rewrite (pack_one_value cfg template d o Ho D1 D2 Hn), Eo. cbn [bind].
  rewrite Ep.
  destruct (emit cfg (repeat 0 128) 0 need bs) as [[result n] | | |] eqn:E;
    cbn [bind]; try discriminate.
  apply emit_inv in E; [| cbn; lia]. destruct E as (-> & F & L).
  unfold RSTRING_LEN in *. rewrite repeat_length in L.
  rewrite int_cast_small by (auto; lia).
  destruct (Z.ltb_spec (0 + Z.of_nat (List.length bs)) 0); [lia |].
  intros [= <-]. unfold _str_resize.
  assert (Hl : (List.length bs <= List.length result)%nat).
  { apply (f_equal (@List.length Z)) in F.
    rewrite length_firstn, length_app in F. cbn in F. lia. }
  rewrite ?Z.add_0_l, Nat2Z.id.
  replace (List.length bs - List.length result)%nat with 0%nat by lia.
  cbn [repeat]. rewrite app_nil_r.
  change (Z.to_nat 0) with 0%nat in F. cbn [Nat.add firstn app] in F. exact F.
Qed.

Lemma unpack_one_directive cfg (template : string) (d : directive) (s : bstr) :
  supported cfg -> one_directive cfg template d ->
  dir d <> PACK_DIR_NUL -> dir d <> PACK_DIR_INVALID ->
  RSTRING_LEN s < 2 ^ 31 ->
  _pack_unpack cfg s template =
  if has_flag (flags d) PACK_FLAG_COUNT2 then
    '(result, n) <-
      unpack_count2 cfg (dir d) s (RSTRING_LEN s) [] (count d) (flags d) ;;
    Ok result
  else
    '(srcidx, result) <-
      unpack_count cfg (count_fuel (RSTRING_LEN s) 0 (count d)) s (RSTRING_LEN s)
        (dir d) (size d) (flags d) (count d) 0 [] ;;
    Ok result.
Proof.
  intros Hc [Hn Hr] D1 D2 Hb.
  assert (H0 : 0 <= RSTRING_LEN s) by (unfold RSTRING_LEN; lia).
  destruct (one_directive_loop template Hn) as (H1 & H2 & fuel & Hf).
  unfold _pack_unpack, pack_unpack, unpack_run. rewrite Hf.
  rewrite int_cast_small by (auto; lia).
  cbn [unpack_loop]. rewrite H1, Hr. cbn [bind].
  change (skipn (Z.to_nat 0) s) with s.
  replace (RSTRING_LEN s - 0) with (RSTRING_LEN s) by lia.
  destruct (has_flag (flags d) PACK_FLAG_COUNT2).
  - destruct (dir d); try congruence;
      match goal with
      | |- context [unpack_count2 ?a ?b ?c ?e ?f ?g ?h] =>
          destruct (unpack_count2 a b c e f g h) as [[r n] | | |]
      end; cbn [bind]; try reflexivity;
      rewrite H2; reflexivity.
  - destruct (dir d); try congruence;
      match goal with
      | |- context [unpack_count ?a ?b ?c ?e ?f ?g ?h ?i ?j ?k] =>
          destruct (unpack_count a b c e f g h i j k) as [[i' r] | | |]
      end; cbn [bind]; try reflexivity;
      rewrite H2; reflexivity.
Qed.

Lemma one_directive_single cfg (t : ascii) :
  strchr "Ii" t = false ->
  one_directive cfg (String t "") (single_directive cfg t).
Proof.
  intros Ht. split; [discriminate |]. apply (read_tmpl_single cfg t Ht).
Qed.

Lemma one_directive_star cfg (t : ascii) :
  strchr "Ii" t = false ->
  one_directive cfg (String t "*") (star_directive cfg t).
Proof.
  intros Ht. split; [discriminate |]. revert Ht.
  destruct t as [[] [] [] [] [] [] [] []]; intros H;
    first [discriminate H | reflexivity].
Qed.

(** The call succeeds when the bytes fit the room that the encoder asks
    for. *)
Lemma pack_one_value_ok cfg (template : string) (d : directive)
  (o o' : value) (need : Z) (bs : list Z) :
  supported cfg -> one_directive cfg template d ->
  dir d <> PACK_DIR_NUL -> dir d <> PACK_DIR_INVALID ->
  (count d =? 0) && negb (has_flag (flags d) PACK_FLAG_WIDTH) = false ->
  coerce cfg (type d) o = Ok o' ->
  pack_one cfg (dir d) o' (repeat 0 128) 0 (count d) (flags d)
    = emit cfg (repeat 0 128) 0 need bs ->
  RSTRING_LEN bs <= need -> need < 2 ^ 31 -> need <= capacity cfg ->
  _pack_pack cfg [o] template = Ok bs.
Proof.
  intros Hc Ho D1 D2 Hn Eo Ep Hl Hb Hq.
  destruct (emit_ok cfg (repeat 0 128) 0 need bs Hc) as (s' & E & _);
    [discriminate | cbn; lia | exact Hl | lia | lia |].
  destruct (_pack_pack cfg [o] template) as [bytes | | |] eqn:Ep'.
  - f_equal.
    apply (pack_one_value_bytes cfg template d o o' need bs bytes); auto.
    unfold RSTRING_LEN in *. lia.
  - exfalso. revert Ep'.
    rewrite (pack_one_value cfg template d o Ho D1 D2 Hn), Eo. cbn [bind].
    rewrite Ep, E. cbn [bind]. unfold RSTRING_LEN in *.
    rewrite int_cast_small by (auto; lia).
    destruct (Z.ltb_spec (0 + Z.of_nat (List.length bs)) 0); [lia | discriminate].
  - exfalso. revert Ep'.
    rewrite (pack_one_value cfg template d o Ho D1 D2 Hn), Eo. cbn [bind].
    rewrite Ep, E. cbn [bind]. unfold RSTRING_LEN in *.
    rewrite int_cast_small by (auto; lia).
    destruct (Z.ltb_spec (0 + Z.of_nat (List.length bs)) 0); [lia | discriminate].
  - exfalso. revert Ep'.
    rewrite (pack_one_value cfg template d o Ho D1 D2 Hn), Eo. cbn [bind].
    rewrite Ep, E. cbn [bind]. unfold RSTRING_LEN in *.
    rewrite int_cast_small by (auto; lia).
    destruct (Z.ltb_spec (0 + Z.of_nat (List.length bs)) 0); [lia | discriminate].
Qed.

Lemma unpack_count_once cfg (fuel : nat) (s : bstr) (srclen : Z) (d : pack_dir)
  (size fl srcidx : Z) (result : list value) :
  size <= srclen - srcidx ->
  unpack_count cfg (S fuel) s srclen d size fl 1 srcidx result =
  ('(r, n) <-
     unpack_one cfg d (skipn (Z.to_nat srcidx) s) (srclen - srcidx) result fl ;;
   Ok (int_cast cfg (srcidx + n), r)).
Proof.
  intros Hs. cbn [unpack_count]. change (1 =? 0) with false. cbv iota.
  destruct (Z.ltb_spec (srclen - srcidx) size) as [L | _]; [lia |].
  destruct (unpack_one cfg d _ _ result fl) as [[r n] | | |]; cbn [bind];
    try reflexivity.
  change (if 1 >? 0 then 1 - 1 else 1) with 0.
  destruct fuel; reflexivity.
Qed.

Lemma single_directive_m cfg :
  single_directive cfg "m" =
  {| dir := PACK_DIR_BASE64; type := PACK_TYPE_STRING; size := 0; count := 1;
     flags := resolve_endian cfg PACK_FLAG_WIDTH |}.
Proof. reflexivity. Qed.

Lemma resolve_endian_count2 cfg (fl : Z) :
  has_flag (resolve_endian cfg fl) PACK_FLAG_COUNT2 = has_flag fl PACK_FLAG_COUNT2.
Proof.
  unfold resolve_endian. destruct (_ || _); [| reflexivity].
  rewrite has_flag_lor_eq. change (has_flag PACK_FLAG_LITTLEENDIAN PACK_FLAG_COUNT2)
    with false. apply orb_false_r.
Qed.

Lemma resolve_endian_width cfg (fl : Z) :
  has_flag (resolve_endian cfg fl) PACK_FLAG_WIDTH = has_flag fl PACK_FLAG_WIDTH.
Proof.
  unfold resolve_endian. destruct (_ || _); [| reflexivity].
  rewrite has_flag_lor_eq. change (has_flag PACK_FLAG_LITTLEENDIAN PACK_FLAG_WIDTH)
    with false. apply orb_false_r.
Qed.

Lemma pack_m_bytes_bound (src : bstr) (count : Z) :
  RSTRING_LEN src < 2 ^ 30 -> RSTRING_LEN (pack_m_bytes src count) < 2 ^ 31.
Proof.
  intros Hb. destruct src as [| x src]; [cbn; lia |].
  destruct (pack_m_estimate cfg64 (x :: src) [] 0 count 0
              ltac:(discriminate)) as [_ H].
  cbv zeta in H. rewrite H. clear H.
  set (L := RSTRING_LEN (x :: src)) in *.
  assert (H0 : 0 < L) by (subst L; unfold RSTRING_LEN; cbn [List.length]; lia).
  destruct (pack_m_count_cases count) as [-> | (j & ->)].
  - change (0 >? 0) with false. cbn [andb].
    pose proof (Z.mul_div_le (L + 2) 3 ltac:(lia)). lia.
  - set (n := 3 * (Z.of_nat j + 1)).
    assert (Hn : 3 <= n) by (subst n; lia).
    destruct (Z.gtb_spec n 0) as [_ | ?]; [| lia]. cbn [andb].
    pose proof (Z.mul_div_le (L + 2) 3 ltac:(lia)).
    assert (Q : L / n <= L / 3).
    { apply Z.div_le_compat_l; lia. }
    pose proof (Z.mul_div_le L 3 ltac:(lia)).
    destruct (L mod n =? 0); lia.
Qed.

(** X6. Base64 through the two entry points.  When [pack] of one string under
    ["m"] returns, it returns the encoding that the loop of [pack_m] produces
    with the line length 45, and [unpack] of these bytes under ["m"] returns
    the array that holds the original string and nothing else. *)
Theorem base64_pack_unpack :
  forall cfg src bytes,
    supported cfg -> Forall is_byte src -> RSTRING_LEN src < 2 ^ 30 ->
    _pack_pack cfg [str_value src] "m" = Ok bytes ->
    bytes = pack_m_bytes src 1 /\
    _pack_unpack cfg bytes "m" = Ok [str_value src].
Proof.
  intros cfg src bytes Hc Hb Hl Hp.
  pose proof (one_directive_single cfg "m" eq_refl) as Ho.
  pose proof (pack_m_bytes_bound src 1 Hl) as Hm.
  assert (E : bytes = pack_m_bytes src 1).
  { revert Hp.
    apply (pack_one_value_bytes cfg "m" _ (str_value src) (str_value src)
             (if RSTRING_LEN src =? 0 then 0
              else let dstlen := Z.quot (RSTRING_LEN src + 2) 3 * 4 in
                   dstlen + Z.quot (RSTRING_LEN src) 45
                   + (if Z.rem (RSTRING_LEN src) 45 =? 0 then 0 else 1))
             _ _ Hc Ho); try discriminate; try reflexivity; [| exact Hm].
    rewrite single_directive_m. cbn [dir count flags pack_one].
    unfold pack_m. cbn [RSTRING].
    destruct (Z.eqb_spec (RSTRING_LEN src) 0) as [E | N]; [| reflexivity].
    destruct src; [| discriminate E].
    unfold emit. cbn [pack_m_bytes poke_all List.length Z.of_nat bind].
    rewrite mrb_int_cast_small by (auto; lia). reflexivity. }
  split; [exact E |]. subst bytes.
  rewrite (unpack_one_directive cfg "m" _ _ Hc Ho) by (discriminate || exact Hm).
  rewrite single_directive_m. cbn [dir count flags size].
  rewrite resolve_endian_count2. change (has_flag PACK_FLAG_WIDTH PACK_FLAG_COUNT2)
    with false. cbv iota.
  set (enc := pack_m_bytes src 1) in *.
  assert (H0 : 0 <= RSTRING_LEN enc) by (unfold RSTRING_LEN; lia).
  destruct (count_fuel_pos (RSTRING_LEN enc) 0 1 ltac:(lia)) as (fuel & ->).
  rewrite unpack_count_once by lia.
  change (skipn (Z.to_nat 0) enc) with enc.
  replace (RSTRING_LEN enc - 0) with (RSTRING_LEN enc) by lia.
  cbn [unpack_one]. subst enc.
  destruct (unpack_m_pack_m_bytes src 1 [] (resolve_endian cfg PACK_FLAG_WIDTH)
              Hb)
    as (n & ->).
  reflexivity.
Qed.

Lemma base64_pack_unpack_witness :
  bytes_of_string "Zm9vYg==" ++ [chr "010"] = pack_m_bytes (bytes_of_string "foob") 1 /\
  _pack_unpack cfg64 (bytes_of_string "Zm9vYg==" ++ [chr "010"]) "m"
    = Ok [str_value (bytes_of_string "foob")].
Proof.
  apply (base64_pack_unpack cfg64 (bytes_of_string "foob")).
  - exact supported_cfg64.
  - repeat constructor; unfold is_byte; cbn; lia.
  - vm_compute. reflexivity.
  - vm_compute. reflexivity.
Defined.

(** ** Counts in a template *)

Lemma decimal_acc_le (ds : list ascii) :
  Forall (fun ch => isdigit ch = true) ds ->
  forall acc, 0 <= acc ->
    acc <= fold_left (fun acc ch => acc * 10 + (chr ch - chr "0")) ds acc.
Proof.
  induction 1 as [| ch ds Hd _ IH]; intros acc Ha; cbn [fold_left]; [lia |].
  pose proof (isdigit_value ch Hd).
  specialize (IH (acc * 10 + (chr ch - chr "0")) ltac:(lia)). lia.
Qed.

Lemma ok_triple (n n' c f : Z) :
  n = n' -> @Ok (Z * Z * Z) (n, c, f) = Ok (n', c, f).
Proof. now intros ->. Qed.

Lemma read_suffix_stop cfg t (rest : list ascii) (indigits : bool)
  (n count flags : Z) :
  ends_suffix rest ->
  read_suffix cfg t rest indigits n count flags = Ok (n, count, flags).
Proof.
  destruct rest as [| ch rest]; [reflexivity |]. cbn [ends_suffix read_suffix].
  intros (Hd & Hs & Hm). rewrite Hd, Hm.
  destruct (Ascii.eqb_spec ch "*"); [contradiction | reflexivity].
Qed.

Lemma read_suffix_more_digits cfg t (rest : list ascii) (flags : Z) :
  supported cfg -> ends_suffix rest ->
  forall ds n acc,
    Forall (fun ch => isdigit ch = true) ds -> 0 <= acc ->
    fold_left (fun acc ch => acc * 10 + (chr ch - chr "0")) ds acc < 2 ^ 31 ->
    read_suffix cfg t (ds ++ rest) true n acc flags =
    Ok (n + Z.of_nat (List.length ds),
        fold_left (fun acc ch => acc * 10 + (chr ch - chr "0")) ds acc, flags).
Proof.
  intros Hc Hr. induction ds as [| ch ds IH]; intros n acc Hd Ha Hb.
  - cbn [app List.length fold_left]. rewrite read_suffix_stop by assumption.
    apply ok_triple. lia.
  - pose proof (Forall_inv Hd) as Hch. pose proof (Forall_inv_tail Hd) as Hds.
    pose proof (isdigit_value ch Hch) as Hv.
    cbn [app read_suffix]. cbn [fold_left] in Hb |- *. rewrite Hch.
    pose proof (decimal_acc_le ds Hds (acc * 10 + (chr ch - chr "0"))
                  ltac:(lia)) as Hm.
    assert (XX : acc * 10 + (chr ch - chr "0") < 2 ^ 31).
    { eapply Z.le_lt_trans; [exact Hm | exact Hb]. }
    rewrite int_cast_small by (auto; lia).
    destruct (Z.ltb_spec (acc * 10 + (chr ch - chr "0")) 0); [lia |].
    rewrite IH by first [assumption | lia].
    apply ok_triple. cbn [List.length]. lia.
Qed.

Lemma read_suffix_digits cfg t (rest : list ascii) (flags : Z) :
  supported cfg -> ends_suffix rest ->
  forall ds n count,
    ds <> [] -> Forall (fun ch => isdigit ch = true) ds ->
    decimal ds < 2 ^ 31 ->
    read_suffix cfg t (ds ++ rest) false n count flags =
    Ok (n + Z.of_nat (List.length ds), decimal ds, flags).
Proof.
  intros Hc Hr ds n count Hn Hd Hb.
  destruct ds as [| ch ds]; [congruence |].
  pose proof (Forall_inv Hd) as Hch. pose proof (Forall_inv_tail Hd) as Hds.
  pose proof (isdigit_value ch Hch) as Hv.
  unfold decimal in *. cbn [app read_suffix fold_left] in *. rewrite Hch.
  change (0 * 10) with 0 in *. cbn [Z.add] in *.
  rewrite (read_suffix_more_digits cfg t rest flags Hc Hr)
    by first [assumption | lia].
  apply ok_triple. cbn [List.length]. lia.
Qed.

Lemma skipn_1_string (t : ascii) (s : list ascii) :
  skipn (Z.to_nat (0 + 1)) (t :: s) = s.
Proof. reflexivity. Qed.

Lemma read_tmpl_counted cfg (t : ascii) (ds rest : list ascii) :
  supported cfg -> strchr "Ii" t = false -> ends_suffix rest ->
  ds <> [] -> Forall (fun ch => isdigit ch = true) ds -> decimal ds < 2 ^ 31 ->
  read_tmpl cfg (prepare_tmpl (String t (string_of_list_ascii (ds ++ rest)))) =
  Ok ({| str := String t (string_of_list_ascii (ds ++ rest));
         idx := 1 + Z.of_nat (List.length ds) |},
      with_count (single_directive cfg t) (decimal ds)).
Proof.
  intros Hc Ht Hr Hn Hd Hb. unfold read_tmpl, prepare_tmpl, tptr.
  cbn [str idx list_ascii_of_string].
  rewrite list_ascii_of_string_of_list_ascii.
  rewrite skipn_1_string. change (Z.to_nat 0) with 0%nat. cbn [nth].
  assert (Ea : resolve_alias cfg t = Ok t).
  { revert Ht. destruct t as [[] [] [] [] [] [] [] []]; intros H;
      first [discriminate H | reflexivity]. }
  rewrite Ea. cbn [bind]. unfold with_count, single_directive.
  destruct (directive_of t) as [[[d ty] sz] fl].
  rewrite (read_suffix_digits cfg t rest fl Hc Hr) by assumption.
  cbn [bind dir type size flags]. reflexivity.
Qed.

(** X7. A count in a template is read as a decimal number.  For a directive
    character other than the aliases [I] and [i], followed by one or more
    digits that denote a number below 2^31 and then by the end of the
    template or by a character that is neither a digit, a star nor a
    modifier, [read_tmpl] returns the directive of that character with the
    number as its count, leading zeros included, and leaves the template at
    the first character after the digits. *)
Theorem count_is_read_as_decimal :
  forall cfg t ds rest,
    supported cfg -> strchr "Ii" t = false -> ends_suffix rest ->
    ds <> [] -> Forall (fun ch => isdigit ch = true) ds ->
    decimal ds < 2 ^ 31 ->
    read_tmpl cfg
      (prepare_tmpl (String t (string_of_list_ascii (ds ++ rest)))) =
    Ok ({| str := String t (string_of_list_ascii (ds ++ rest));
           idx := 1 + Z.of_nat (List.length ds) |},
        with_count (single_directive cfg t) (decimal ds)).
Proof. intros. now apply read_tmpl_counted. Qed.

Lemma count_is_read_as_decimal_witness :
  read_tmpl cfg64 (prepare_tmpl "n0120C") =
  Ok ({| str := "n0120C"; idx := 5 |},
      {| dir := PACK_DIR_SHORT; type := PACK_TYPE_INTEGER; size := 2;
         count := 120; flags := PACK_FLAG_GT |}).
Proof.
  apply (count_is_read_as_decimal cfg64 "n"%char ["0"; "1"; "2"; "0"]%char
           ["C"]%char supported_cfg64 eq_refl).
  - cbn. repeat split; discriminate.
  - discriminate.
  - repeat constructor.
  - vm_compute. reflexivity.
Defined.

Lemma one_directive_counted cfg (t : ascii) (ds : list ascii) :
  supported cfg -> strchr "Ii" t = false ->
  ds <> [] -> Forall (fun ch => isdigit ch = true) ds -> decimal ds < 2 ^ 31 ->
  one_directive cfg (String t (string_of_list_ascii ds))
    (with_count (single_directive cfg t) (decimal ds)).
Proof.
  intros Hc Ht Hn Hd Hb. split; [discriminate |].
  pose proof (read_tmpl_counted cfg t ds [] Hc Ht I Hn Hd Hb) as H.
  rewrite app_nil_r in H. rewrite H. repeat f_equal.
  cbn [String.length]. rewrite <- (list_ascii_of_string_of_list_ascii ds) at 1.
  clear. generalize (string_of_list_ascii ds). intros s.
  induction s as [| c s IH]; cbn [list_ascii_of_string List.length String.length];
    lia.
Qed.

(** ** Arrays of integers under a star count *)

Lemma pack_directive cfg (template : string) (d : directive) (ary : list value) :
  one_directive cfg template d ->
  dir d <> PACK_DIR_NUL -> dir d <> PACK_DIR_INVALID ->
  _pack_pack cfg ary template =
  ('(aidx, ridx, result) <-
     pack_values cfg (dir d) (type d) (flags d) ary (count d) 0 0
       (repeat 0 128) ;;
   if ridx <? 0
   then Raise E_RANGE_ERROR "negative (or overflowed) template size"
   else Ok (_str_resize result ridx)).
Proof.
  intros [Hn Hr] D1 D2.
  destruct (one_directive_loop template Hn) as (H1 & H2 & fuel & Hf).
  unfold _pack_pack, pack_run. rewrite Hf.
  rewrite (pack_loop_values cfg _ _ _ _ d _ _ _ H1 Hr D1 D2).
  change (skipn (Z.to_nat 0) ary) with ary.
  destruct (pack_values cfg (dir d) (type d) (flags d) ary (count d) 0 0 _)
    as [[[aidx ridx] result] | | |]; cbn [bind]; try reflexivity.
  destruct (ridx <? 0); [reflexivity |].
  rewrite pack_loop_done by exact H2. reflexivity.
Qed.

Lemma pack_one_integer_count cfg (d : pack_dir) (w : nat) (o : value)
  (s : bstr) (sidx c fl : Z) :
  int_width d = Some w ->
  pack_one cfg d o s sidx c fl = pack_one cfg d o s sidx 1 fl.
Proof. destruct d; try discriminate; reflexivity. Qed.

Lemma int_width_bounds (d : pack_dir) (w : nat) :
  int_width d = Some w -> (0 < w <= 8)%nat /\ d <> PACK_DIR_STR.
Proof.
  destruct d; try discriminate; intros [= <-]; split; (lia || discriminate).
Qed.

(** The values of an array packed one after the other by an integer
    directive whose count is the star. *)
Lemma pack_values_integers cfg (d : pack_dir) (w : nat) (fl : Z) :
  supported cfg -> int_width d = Some w ->
  forall vs aidx ridx result,
    result <> [] -> 0 <= ridx <= RSTRING_LEN result ->
    ridx + Z.of_nat w * Z.of_nat (List.length vs) + 8 < 2 ^ 31 ->
    ridx + Z.of_nat w * Z.of_nat (List.length vs) + 8 <= capacity cfg ->
    exists result',
      pack_values cfg d PACK_TYPE_INTEGER fl (map fixnum_value vs) (-1)
        aidx ridx result
      = Ok (aidx + Z.of_nat (List.length vs),
            ridx + Z.of_nat w * Z.of_nat (List.length vs), result') /\
      firstn (Z.to_nat (ridx + Z.of_nat w * Z.of_nat (List.length vs))) result'
        = firstn (Z.to_nat ridx) result ++ List.concat (map (truncated w fl) vs) /\
      RSTRING_LEN result <= RSTRING_LEN result'.
Proof.
  intros Hc Hw. destruct (int_width_bounds d w Hw) as [W Ds].
  induction vs as [| v vs IH]; intros aidx ridx result Hr Hi Hb Hq.
  - exists result. cbn [map pack_values List.length List.concat].
    rewrite app_nil_r.
    replace (aidx + Z.of_nat 0) with aidx by lia.
    replace (ridx + Z.of_nat w * Z.of_nat 0) with ridx by lia.
    repeat split; lia || reflexivity.
  - cbn [map pack_values List.length List.concat] in *.
    change (-1 =? 0) with false. cbn [andb coerce _to_int bind].
    rewrite (pack_one_integer_count cfg d w _ _ _ _ _ Hw).
    destruct (pack_integer_ok cfg d w v result ridx fl Hc Hw Hr Hi ltac:(lia)
                ltac:(lia))
      as (s1 & -> & F1 & L1).
    cbn [bind]. rewrite int_cast_small by (auto; lia).
    change (-1 >? 0) with false. cbv iota.
    assert (Hl1 : ridx + Z.of_nat w <= RSTRING_LEN s1).
    { apply (f_equal (@List.length Z)) in F1.
      rewrite length_firstn, length_app, length_firstn, truncated_length in F1.
      unfold RSTRING_LEN in *. lia. }
    destruct (IH (aidx + 1) (ridx + Z.of_nat w) s1) as (s2 & E2 & F2 & L2).
    { intros ->. unfold RSTRING_LEN in L1. cbn in L1.
      destruct result; [congruence | cbn in L1; lia]. }
    { lia. }
    { lia. }
    { lia. }
    exists s2.
    replace (pack_values cfg d PACK_TYPE_INTEGER fl (map fixnum_value vs) (-1)
               (aidx + 1) (ridx + Z.of_nat w) s1)
      with (Ok (aidx + Z.of_nat (S (List.length vs)),
                ridx + Z.of_nat w * Z.of_nat (S (List.length vs)), s2)).
    2:{ rewrite E2.
        replace (aidx + 1 + Z.of_nat (List.length vs))
          with (aidx + Z.of_nat (S (List.length vs))) by lia.
        replace (ridx + Z.of_nat w + Z.of_nat w * Z.of_nat (List.length vs))
          with (ridx + Z.of_nat w * Z.of_nat (S (List.length vs))) by lia.
        reflexivity. }
    split; [destruct d; try congruence; reflexivity |].
    split; [| lia].
    replace (ridx + Z.of_nat w * Z.of_nat (S (List.length vs)))
      with (ridx + Z.of_nat w + Z.of_nat w * Z.of_nat (List.length vs)) by lia.
    rewrite F2.
    replace (Z.to_nat (ridx + Z.of_nat w)) with (Z.to_nat ridx + w)%nat by lia.
    rewrite F1. now rewrite <- app_assoc.
Qed.

Lemma str_resize_prefix (result : bstr) (ridx : Z) (bs : list Z) :
  0 <= ridx -> firstn (Z.to_nat ridx) result = bs ->
  RSTRING_LEN bs = ridx -> _str_resize result ridx = bs.
Proof.
  intros H0 F L. unfold _str_resize. rewrite F.
  assert (Hl : (Z.to_nat ridx <= List.length result)%nat).
  { apply (f_equal (@List.length Z)) in F. rewrite length_firstn in F.
    unfold RSTRING_LEN in L. lia. }
  replace (Z.to_nat ridx - List.length result)%nat with 0%nat by lia.
  cbn [repeat]. apply app_nil_r.
Qed.

Lemma concat_truncated_length (w : nat) (fl : Z) (vs : list Z) :
  RSTRING_LEN (List.concat (map (truncated w fl) vs))
  = Z.of_nat w * Z.of_nat (List.length vs).
Proof.
  unfold RSTRING_LEN. induction vs as [| v vs IH]; cbn [map List.concat List.length].
  - lia.
  - rewrite length_app, truncated_length. lia.
Qed.

Lemma pack_integers_star cfg (t : ascii) (vs : list Z) :
  supported cfg -> In t integer_directives ->
  size (single_directive cfg t) * Z.of_nat (List.length vs) + 8 < 2 ^ 31 ->
  size (single_directive cfg t) * Z.of_nat (List.length vs) + 8 <= capacity cfg ->
  _pack_pack cfg (map fixnum_value vs) (String t "*") =
  Ok (List.concat (map (truncated (Z.to_nat (size (single_directive cfg t)))
                     (flags (single_directive cfg t))) vs)).
Proof.
  intros Hc Ht Hb Hq.
  destruct (integer_directive_width cfg t Ht) as (Ha & Hty & Hw).
  destruct (int_width_bounds _ _ Hw) as [W _].
  rewrite (pack_directive cfg _ (star_directive cfg t));
    [| apply one_directive_star; exact Ha
     | cbn [star_directive dir]; intros E; rewrite E in Hw; discriminate Hw
     | cbn [star_directive dir]; intros E; rewrite E in Hw; discriminate Hw ].
  cbn [star_directive dir type flags count]. rewrite Hty.
  set (d := single_directive cfg t) in *. set (w := Z.to_nat (size d)) in *.
  assert (Es : size d = Z.of_nat w) by (subst w; lia).
  destruct (pack_values_integers cfg (dir d) w (flags d) Hc Hw vs 0 0
              (repeat 0 128)) as (s' & -> & F & L);
    [discriminate | cbn; lia | lia | lia |].
  cbn [bind].
  destruct (Z.ltb_spec (0 + Z.of_nat w * Z.of_nat (List.length vs)) 0); [lia |].
  f_equal. apply str_resize_prefix; [lia | exact F |].
  rewrite concat_truncated_length. lia.
Qed.

Lemma unpack_q_loop_prefix (src more : bstr) (step : Z) :
  forall i pos ull,
    (forall k, (k < i)%nat ->
       0 <= pos + Z.of_nat k * step < Z.of_nat (List.length src)) ->
    unpack_q_loop i (src ++ more) pos step ull
    = unpack_q_loop i src pos step ull.
Proof.
  induction i as [| i IH]; intros pos ull H; [reflexivity |].
  cbn [unpack_q_loop]. unfold src_at.
  pose proof (H 0%nat ltac:(lia)) as H0.
  rewrite app_nth1 by lia.
  apply IH. intros k Hk. specialize (H (S k) ltac:(lia)). lia.
Qed.

(** The decoders of the integer kinds read no more than the width. *)
Lemma unpack_integer_prefix cfg (d : pack_dir) (w : nat) (bs more : list Z)
  (slen slen' fl : Z) (ary : list value) :
  int_width d = Some w -> List.length bs = w ->
  unpack_one cfg d (bs ++ more) slen ary fl = unpack_one cfg d bs slen' ary fl.
Proof.
  intros Hw Hl. destruct d; try discriminate Hw; injection Hw as <-.
  - destruct bs as [| b0 [| ? ?]]; try discriminate Hl. reflexivity.
  - destruct bs as [| b0 [| b1 [| ? ?]]]; try discriminate Hl. reflexivity.
  - destruct bs as [| b0 [| b1 [| b2 [| b3 [| ? ?]]]]]; try discriminate Hl.
    reflexivity.
  - destruct bs as [| b0 [| b1 [| b2 [| b3 [| b4 [| b5 [| b6 [| b7 [| ? ?]]]]]]]]];
      try discriminate Hl.
    cbn [unpack_one]. unfold unpack_q.
    destruct (has_flag fl PACK_FLAG_LITTLEENDIAN);
      rewrite unpack_q_loop_prefix
        by (intros k Hk; cbn [List.length]; lia);
      reflexivity.
Qed.

Lemma concat_chunks_length cfg (w : nat) (fl : Z) (chunks : list (list Z)) :
  Forall (fixnum_chunk cfg w fl) chunks ->
  RSTRING_LEN (List.concat chunks) = Z.of_nat w * Z.of_nat (List.length chunks).
Proof.
  unfold RSTRING_LEN.
  induction 1 as [| c chunks (Hl & _) _ IH]; cbn [List.concat List.length];
    [lia |].
  rewrite length_app, Hl. lia.
Qed.

Lemma skipn_app_exact (pre rest : list Z) (n : Z) :
  n = RSTRING_LEN pre -> skipn (Z.to_nat n) (pre ++ rest) = rest.
Proof.
  intros ->. unfold RSTRING_LEN. rewrite Nat2Z.id, skipn_app, Nat.sub_diag.
  rewrite skipn_all. reflexivity.
Qed.

(** The count loop of an integer directive under the star: every full chunk
    is decoded, and what is left at the end is shorter than the width. *)
Lemma unpack_count_integers cfg (d : pack_dir) (w : nat) (fl : Z) :
  supported cfg -> int_width d = Some w ->
  forall chunks pre tail fuel result,
    Forall (fixnum_chunk cfg w fl) chunks ->
    (List.length tail < w)%nat ->
    RSTRING_LEN (pre ++ List.concat chunks ++ tail) < 2 ^ 31 ->
    (List.length chunks < fuel)%nat ->
    unpack_count cfg fuel (pre ++ List.concat chunks ++ tail)
      (RSTRING_LEN (pre ++ List.concat chunks ++ tail)) d (Z.of_nat w) fl (-1)
      (RSTRING_LEN pre) result
    = Ok (RSTRING_LEN (pre ++ List.concat chunks),
          result ++ map (fun c => fixnum_value (decoded w fl c)) chunks).
Proof.
  intros Hc Hw. destruct (int_width_bounds d w Hw) as [W _].
  induction chunks as [| c chunks IH]; intros pre tail fuel result Hk Ht Hb Hf;
    (destruct fuel as [| fuel]; [cbn [List.length] in Hf; lia |]);
    cbn [unpack_count]; change (-1 =? 0) with false; cbv iota.
  - cbn [List.concat app map] in *. rewrite !app_nil_r.
    unfold RSTRING_LEN in *. rewrite length_app in *.
    destruct (Z.ltb_spec
                (Z.of_nat (List.length pre + List.length tail)
                 - Z.of_nat (List.length pre)) (Z.of_nat w)) as [_ | G];
      [reflexivity | lia].
  - pose proof (Forall_inv Hk) as (Hl & Hy & Hr).
    pose proof (Forall_inv_tail Hk) as Hk'.
    cbn [List.concat List.length map] in *.
    assert (Hlen : RSTRING_LEN (pre ++ (c ++ List.concat chunks) ++ tail)
                   = RSTRING_LEN pre + Z.of_nat w
                     + RSTRING_LEN (List.concat chunks ++ tail)).
    { unfold RSTRING_LEN. rewrite !length_app, Hl. lia. }
    assert (H0 : 0 <= RSTRING_LEN (List.concat chunks ++ tail))
      by (unfold RSTRING_LEN; lia).
    assert (Hp : 0 <= RSTRING_LEN pre) by (unfold RSTRING_LEN; lia).
    destruct (Z.ltb_spec
                (RSTRING_LEN (pre ++ (c ++ List.concat chunks) ++ tail)
                 - RSTRING_LEN pre) (Z.of_nat w)) as [L | _]; [lia |].
    rewrite skipn_app_exact by reflexivity.
    rewrite <- !app_assoc.
    rewrite (unpack_integer_prefix cfg d w c _ _ (Z.of_nat w) fl result Hw Hl).
    rewrite (unpack_integer_ok cfg d w c _ fl result Hc Hw Hl Hy Hr).
    cbn [bind]. change (-1 >? 0) with false. cbv iota.
    rewrite int_cast_small by (auto; lia).
    replace (RSTRING_LEN pre + Z.of_nat w) with (RSTRING_LEN (pre ++ c))
      by (unfold RSTRING_LEN; rewrite length_app, Hl; lia).
    replace (pre ++ c ++ List.concat chunks ++ tail)
      with ((pre ++ c) ++ List.concat chunks ++ tail)
      by (now rewrite <- app_assoc).
    rewrite IH; auto.
    + rewrite <- !app_assoc. cbn [app]. reflexivity.
    + rewrite <- !app_assoc. rewrite <- !app_assoc in Hb. exact Hb.
    + lia.
Qed.

Lemma integer_directive_no_count2 cfg (t : ascii) :
  In t integer_directives ->
  has_flag (flags (single_directive cfg t)) PACK_FLAG_COUNT2 = false.
Proof.
  intros Ht. cbn in Ht. unfold single_directive, resolve_endian.
  repeat (destruct Ht as [<- | Ht];
          [cbn; destruct (littleendian cfg); reflexivity |]).
  destruct Ht.
Qed.

Lemma unpack_integers_star cfg (t : ascii) (chunks : list (list Z))
  (tail : list Z) :
  supported cfg -> In t integer_directives ->
  let w := Z.to_nat (size (single_directive cfg t)) in
  let fl := flags (single_directive cfg t) in
  Forall (fixnum_chunk cfg w fl) chunks -> (List.length tail < w)%nat ->
  RSTRING_LEN (List.concat chunks ++ tail) < 2 ^ 31 ->
  _pack_unpack cfg (List.concat chunks ++ tail) (String t "*") =
  Ok (map (fun c => fixnum_value (decoded w fl c)) chunks).
Proof.
  intros Hc Ht w fl Hk Hl Hb.
  destruct (integer_directive_width cfg t Ht) as (Ha & Hty & Hw).
  destruct (int_width_bounds _ _ Hw) as [W _]. fold w in Hw, W.
  rewrite (unpack_one_directive cfg _ (star_directive cfg t)); auto;
    [| apply one_directive_star; exact Ha
     | cbn [star_directive dir]; intros E; rewrite E in Hw; discriminate Hw
     | cbn [star_directive dir]; intros E; rewrite E in Hw; discriminate Hw ].
  cbn [star_directive dir size flags count].
  rewrite (integer_directive_no_count2 cfg t Ht).
  replace (size (single_directive cfg t)) with (Z.of_nat w) by (subst w; lia).
  pose proof (unpack_count_integers cfg _ w fl Hc Hw chunks [] tail
                (count_fuel (RSTRING_LEN (List.concat chunks ++ tail)) 0 (-1))
                [] Hk Hl Hb) as H.
  cbn [app] in H. change (RSTRING_LEN []) with 0 in H.
  fold fl. rewrite H; [reflexivity |].
  unfold count_fuel.
  pose proof (concat_chunks_length cfg w fl chunks Hk) as Hn.
  unfold RSTRING_LEN in *. rewrite length_app in *. nia.
Qed.

(** X8. An array of integers survives [pack] and [unpack] under a directive
    with a star, as long as the output stays below 2^31 bytes and within the
    capacity of the doubling of [str_len_ensure].  For each directive
    character of a fixed-width integer, and values that fit its width and
    signedness and the Fixnum range, [pack] with the star stores every value
    of the array, [w] bytes each in the byte order of the directive;
    [unpack] with the star, on these bytes followed by fewer than [w] stray
    bytes, returns the values in their order and drops the stray bytes
    without a nil marker. *)
Theorem integer_array_round_trip :
  forall cfg t vs tail,
    supported cfg -> In t integer_directives ->
    let w := Z.to_nat (size (single_directive cfg t)) in
    let fl := flags (single_directive cfg t) in
    Forall (fun v => representable w fl v /\
                     MRB_INT_MIN cfg <= v <= MRB_INT_MAX cfg) vs ->
    (List.length tail < w)%nat ->
    Z.of_nat w * Z.of_nat (List.length vs) + 8 < 2 ^ 31 ->
    Z.of_nat w * Z.of_nat (List.length vs) + 8 <= capacity cfg ->
    let bytes := List.concat (map (truncated w fl) vs) in
    _pack_pack cfg (map fixnum_value vs) (String t "*") = Ok bytes /\
    RSTRING_LEN bytes = Z.of_nat w * Z.of_nat (List.length vs) /\
    _pack_unpack cfg (bytes ++ tail) (String t "*") = Ok (map fixnum_value vs).
Proof.
  intros cfg t vs tail Hc Ht w fl Hv Hl Hb Hq bytes. subst bytes.
  destruct (integer_directive_width cfg t Ht) as (Ha & Hty & Hw).
  destruct (int_width_bounds _ _ Hw) as [W _]. fold w in Hw, W.
  split; [| split].
  - apply pack_integers_star; auto;
      replace (size (single_directive cfg t)) with (Z.of_nat w)
        by (subst w; lia); assumption.
  - apply concat_truncated_length.
  - assert (Hk : Forall (fixnum_chunk cfg w fl) (map (truncated w fl) vs)).
    { apply Forall_map. revert Hv. apply Forall_impl. intros v [Hr Hm].
      split; [apply truncated_length |]. split; [apply truncated_are_bytes |].
      now rewrite decoded_truncated by (auto; lia). }
    rewrite (unpack_integers_star cfg t _ tail Hc Ht Hk Hl).
    + f_equal. rewrite map_map. apply map_ext_Forall.
      revert Hv. apply Forall_impl. intros v [Hr _].
      now rewrite decoded_truncated by (auto; lia).
    + unfold RSTRING_LEN. rewrite length_app.
      pose proof (concat_truncated_length w fl vs) as Hn.
      unfold RSTRING_LEN in Hn. lia.
Qed.

Lemma integer_array_round_trip_witness :
  _pack_pack cfg64 (map fixnum_value [1; -2; 300]) "s*"
    = Ok [1; 0; 254; 255; 44; 1] /\
  RSTRING_LEN [1; 0; 254; 255; 44; 1] = Z.of_nat 2 * Z.of_nat 3 /\
  _pack_unpack cfg64 ([1; 0; 254; 255; 44; 1] ++ [9]) "s*"
    = Ok (map fixnum_value [1; -2; 300]).
Proof.
  apply (integer_array_round_trip cfg64 "s"%char [1; -2; 300] [9]
           supported_cfg64).
  - cbn. tauto.
  - repeat constructor; vm_compute; intuition discriminate.
  - vm_compute. lia.
  - vm_compute. reflexivity.
  - vm_compute. discriminate.
Defined.

(** ** Round trip of UTF-8 *)

Lemma lor_prefix (u k x : Z) :
  0 <= k -> 0 <= x < 2 ^ k -> Z.lor (u * 2 ^ k) x = u * 2 ^ k + x.
Proof.
  intros Hk Hx. rewrite <- (lor_shiftl_low u x k) by assumption.
  now rewrite Z.shiftl_mul_pow2 by lia.
Qed.

Lemma continuation_stored (x : Z) :
  0 <= x ->
  char_byte (Z.lor 0x80 (Z.land x 0x3F)) = 0x80 + x mod 64.
Proof.
  intros Hx. change 0x3F with (Z.ones 6). rewrite Z.land_ones by lia.
  change (2 ^ 6) with 64.
  pose proof (Z.mod_pos_bound x 64 ltac:(lia)).
  rewrite (lor_prefix 2 6) by (change (2 ^ 6) with 64; lia).
  change (2 * 2 ^ 6) with 128. unfold char_byte. apply Z.mod_small. lia.
Qed.

Lemma pack_utf8_bytes cfg (c : Z) (str : bstr) (sidx count fl : Z) :
  0 <= c < 0x200000 ->
  pack_utf8 cfg (fixnum_value c) str sidx count fl
  = emit cfg str sidx (RSTRING_LEN (utf8_bytes c)) (utf8_bytes c).
Proof.
  intros Hc. unfold pack_utf8, utf8_bytes. cbn [_float_p _fixnum].
  unfold uint. rewrite (Z.mod_small c (2 ^ 32)) by lia.
  destruct (Z.ltb_spec c 0x80).
  { unfold char_byte. rewrite Z.mod_small by lia. reflexivity. }
  destruct (Z.ltb_spec c 0x800).
  { rewrite continuation_stored by lia.
    rewrite Z.shiftr_div_pow2 by lia. change (2 ^ 6) with 64.
    assert (0 <= c / 64 < 32)
      by (split; [apply Z.div_pos | apply Z.div_lt_upper_bound]; lia).
    rewrite (lor_prefix 6 5) by (change (2 ^ 5) with 32; lia).
    change (6 * 2 ^ 5) with 192. unfold char_byte.
    rewrite (Z.mod_small (192 + c / 64)) by lia. reflexivity. }
  destruct (Z.ltb_spec c 0x10000).
  { rewrite !continuation_stored
      by (try apply Z.shiftr_nonneg; lia).
    rewrite !Z.shiftr_div_pow2 by lia.
    change (2 ^ 6) with 64. change (2 ^ 12) with 4096.
    assert (0 <= c / 4096 < 16)
      by (split; [apply Z.div_pos | apply Z.div_lt_upper_bound]; lia).
    rewrite (lor_prefix 14 4) by (change (2 ^ 4) with 16; lia).
    change (14 * 2 ^ 4) with 224. unfold char_byte.
    rewrite (Z.mod_small (224 + c / 4096)) by lia. reflexivity. }
  destruct (Z.ltb_spec c 0x200000); [| lia].
  rewrite !continuation_stored by (try apply Z.shiftr_nonneg; lia).
  rewrite !Z.shiftr_div_pow2 by lia.
  change (2 ^ 6) with 64. change (2 ^ 12) with 4096.
  change (2 ^ 18) with 262144.
  assert (0 <= c / 262144 < 8)
    by (split; [apply Z.div_pos | apply Z.div_lt_upper_bound]; lia).
  rewrite (lor_prefix 30 3) by (change (2 ^ 3) with 8; lia).
  change (30 * 2 ^ 3) with 240. unfold char_byte.
  rewrite (Z.mod_small (240 + c / 262144)) by lia. reflexivity.
Qed.

(** The leading bytes of the sequences of one to four bytes. *)
Lemma utf8_to_uv_lead1 (c lenp : Z) (p : bstr) :
  0 <= c < 0x80 -> utf8_to_uv (c :: p) lenp = Ok (c, 1).
Proof.
  intros Hc.
  pose proof (range_check
    (fun c => (Z.land (Z.land c 0xff) 0x80 =? 0) && (Z.land c 0xff =? c)) 128
    eq_refl c Hc) as H.
  cbv beta in H. apply andb_prop in H. destruct H as [H1 H2].
  apply Z.eqb_eq in H2.
  unfold utf8_to_uv. cbn [hd]. rewrite H1, H2. reflexivity.
Qed.

Lemma utf8_to_uv_lead2 (a lenp : Z) (p : bstr) :
  0 <= a < 32 ->
  utf8_to_uv (0xC0 + a :: p) lenp =
  if 2 >? lenp then
    Raise E_ARGUMENT_ERROR
      ("malformed UTF-8 character (expected 2 bytes, given "
       ++ string_of_Z lenp ++ " bytes)")
  else
    uv <- utf8_tail 1 p a ;;
    if uv <? 0x80 then Raise E_ARGUMENT_ERROR "redundant UTF-8 sequence"
    else Ok (uv, 2).
Proof.
  intros Ha.
  pose proof (range_check
    (fun a => let uv := Z.land (0xC0 + a) 0xff in
              negb (Z.land uv 0x80 =? 0) && negb (Z.land uv 0x40 =? 0)
              && (Z.land uv 0x20 =? 0) && (Z.land uv 0x1f =? a)) 32
    eq_refl a Ha) as H.
  cbv beta zeta in H.
  apply andb_prop in H. destruct H as [H H4].
  apply andb_prop in H. destruct H as [H H3].
  apply andb_prop in H. destruct H as [H1 H2].
  apply negb_true_iff in H1, H2. apply Z.eqb_eq in H4.
  unfold utf8_to_uv. cbn [hd tl]. rewrite H1, H2, H3, H4. reflexivity.
Qed.

Lemma utf8_to_uv_lead3 (a lenp : Z) (p : bstr) :
  0 <= a < 16 ->
  utf8_to_uv (0xE0 + a :: p) lenp =
  if 3 >? lenp then
    Raise E_ARGUMENT_ERROR
      ("malformed UTF-8 character (expected 3 bytes, given "
       ++ string_of_Z lenp ++ " bytes)")
  else
    uv <- utf8_tail 2 p a ;;
    if uv <? 0x800 then Raise E_ARGUMENT_ERROR "redundant UTF-8 sequence"
    else Ok (uv, 3).
Proof.
  intros Ha.
  pose proof (range_check
    (fun a => let uv := Z.land (0xE0 + a) 0xff in
              negb (Z.land uv 0x80 =? 0) && negb (Z.land uv 0x40 =? 0)
              && negb (Z.land uv 0x20 =? 0)
              && (Z.land uv 0x10 =? 0) && (Z.land uv 0x0f =? a)) 16
    eq_refl a Ha) as H.
  cbv beta zeta in H.
  apply andb_prop in H. destruct H as [H H5].
  apply andb_prop in H. destruct H as [H H4].
  apply andb_prop in H. destruct H as [H H3].
  apply andb_prop in H. destruct H as [H1 H2].
  apply negb_true_iff in H1, H2, H3. apply Z.eqb_eq in H5.
  unfold utf8_to_uv. cbn [hd tl]. rewrite H1, H2, H3, H4, H5. reflexivity.
Qed.

Lemma utf8_to_uv_lead4 (a lenp : Z) (p : bstr) :
  0 <= a < 8 ->
  utf8_to_uv (0xF0 + a :: p) lenp =
  if 4 >? lenp then
    Raise E_ARGUMENT_ERROR
      ("malformed UTF-8 character (expected 4 bytes, given "
       ++ string_of_Z lenp ++ " bytes)")
  else
    uv <- utf8_tail 3 p a ;;
    if uv <? 0x10000 then Raise E_ARGUMENT_ERROR "redundant UTF-8 sequence"
    else Ok (uv, 4).
Proof.
  intros Ha.
  pose proof (range_check
    (fun a => let uv := Z.land (0xF0 + a) 0xff in
              negb (Z.land uv 0x80 =? 0) && negb (Z.land uv 0x40 =? 0)
              && negb (Z.land uv 0x20 =? 0) && negb (Z.land uv 0x10 =? 0)
              && (Z.land uv 0x08 =? 0) && (Z.land uv 0x07 =? a)) 8
    eq_refl a Ha) as H.
  cbv beta zeta in H.
  apply andb_prop in H. destruct H as [H H6].
  apply andb_prop in H. destruct H as [H H5].
  apply andb_prop in H. destruct H as [H H4].
  apply andb_prop in H. destruct H as [H H3].
  apply andb_prop in H. destruct H as [H1 H2].
  apply negb_true_iff in H1, H2, H3, H4. apply Z.eqb_eq in H6.
  unfold utf8_to_uv. cbn [hd tl]. rewrite H1, H2, H3, H4, H5, H6. reflexivity.
Qed.

Lemma utf8_bytes_length (c : Z) : 1 <= RSTRING_LEN (utf8_bytes c) <= 4.
Proof.
  unfold utf8_bytes, RSTRING_LEN.
  repeat (destruct (_ <? _); [cbn; lia |]). cbn; lia.
Qed.

Lemma utf8_to_uv_bytes (c lenp : Z) (rest : bstr) :
  0 <= c < 0x200000 -> RSTRING_LEN (utf8_bytes c) <= lenp ->
  utf8_to_uv (utf8_bytes c ++ rest) lenp = Ok (c, RSTRING_LEN (utf8_bytes c)).
Proof.
  intros Hc. unfold utf8_bytes.
  pose proof (Z.mod_pos_bound c 64 ltac:(lia)) as M0.
  pose proof (Z.mod_pos_bound (c / 64) 64 ltac:(lia)) as M1.
  pose proof (Z.mod_pos_bound (c / 4096) 64 ltac:(lia)) as M2.
  destruct (Z.ltb_spec c 0x80).
  { intros _. cbn [app]. now apply utf8_to_uv_lead1. }
  destruct (Z.ltb_spec c 0x800).
  { change (RSTRING_LEN [_; _]) with 2. intros Hl. cbn [app].
    rewrite utf8_to_uv_lead2
      by (split; [apply Z.div_pos | apply Z.div_lt_upper_bound]; lia).
    destruct (Z.gtb_spec 2 lenp); [lia |].
    rewrite utf8_tail_continuation by assumption. cbn [utf8_tail bind].
    replace (c / 64 * 64 + c mod 64) with c
      by (Z.div_mod_to_equations; lia).
    destruct (Z.ltb_spec c 0x80); [lia | reflexivity]. }
  destruct (Z.ltb_spec c 0x10000).
  { change (RSTRING_LEN [_; _; _]) with 3. intros Hl. cbn [app].
    rewrite utf8_to_uv_lead3
      by (split; [apply Z.div_pos | apply Z.div_lt_upper_bound]; lia).
    destruct (Z.gtb_spec 3 lenp); [lia |].
    rewrite !utf8_tail_continuation by assumption. cbn [utf8_tail bind].
    replace ((c / 4096 * 64 + (c / 64) mod 64) * 64 + c mod 64) with c
      by (Z.div_mod_to_equations; lia).
    destruct (Z.ltb_spec c 0x800); [lia | reflexivity]. }
  change (RSTRING_LEN [_; _; _; _]) with 4. intros Hl. cbn [app].
  rewrite utf8_to_uv_lead4
    by (split; [apply Z.div_pos | apply Z.div_lt_upper_bound]; lia).
  destruct (Z.gtb_spec 4 lenp); [lia |].
  rewrite !utf8_tail_continuation by assumption. cbn [utf8_tail bind].
  replace (((c / 262144 * 64 + (c / 4096) mod 64) * 64 + (c / 64) mod 64) * 64
           + c mod 64) with c
    by (Z.div_mod_to_equations; lia).
  destruct (Z.ltb_spec c 0x10000); [lia | reflexivity].
Qed.

Lemma unpack_utf8_bytes cfg (c slen fl : Z) (rest : bstr) (ary : list value) :
  supported cfg -> 0 <= c < 0x200000 -> RSTRING_LEN (utf8_bytes c) <= slen ->
  unpack_utf8 cfg (utf8_bytes c ++ rest) slen ary fl
  = Ok (ary ++ [fixnum_value c], RSTRING_LEN (utf8_bytes c)).
Proof.
  intros Hs Hc Hl. pose proof (utf8_bytes_length c) as Hn.
  unfold unpack_utf8. destruct (Z.eqb_spec slen 0); [lia |].
  rewrite utf8_to_uv_bytes by assumption. cbn [bind].
  rewrite mrb_int_cast_small, int_cast_small by (auto; lia). reflexivity.
Qed.

(** The values of an array stored one after the other by a directive whose
    count is the star; [enc] gives the bytes that the encoder stores for a
    value. *)
Lemma pack_values_star cfg (d : pack_dir) (ty : pack_type) (fl : Z)
  (enc : value -> list Z) :
  supported cfg -> d <> PACK_DIR_STR ->
  forall os aidx ridx result,
    Forall (fun o => exists o',
              coerce cfg ty o = Ok o' /\
              forall result ridx,
                pack_one cfg d o' result ridx (-1) fl
                = emit cfg result ridx (RSTRING_LEN (enc o)) (enc o)) os ->
    result <> [] -> 0 <= ridx <= RSTRING_LEN result ->
    ridx + RSTRING_LEN (List.concat (map enc os)) < 2 ^ 31 ->
    ridx + RSTRING_LEN (List.concat (map enc os)) <= capacity cfg ->
    exists result',
      pack_values cfg d ty fl os (-1) aidx ridx result
      = Ok (aidx + Z.of_nat (List.length os),
            ridx + RSTRING_LEN (List.concat (map enc os)), result') /\
      firstn (Z.to_nat (ridx + RSTRING_LEN (List.concat (map enc os)))) result'
        = firstn (Z.to_nat ridx) result ++ List.concat (map enc os) /\
      RSTRING_LEN result <= RSTRING_LEN result'.
Proof.
  intros Hc Ds.
  induction os as [| o os IH]; intros aidx ridx result Ho Hr Hi Hb Hq.
  - exists result. cbn [map pack_values List.length List.concat].
    rewrite app_nil_r. change (RSTRING_LEN []) with 0.
    replace (aidx + Z.of_nat 0) with aidx by lia.
    replace (ridx + 0) with ridx by lia.
    repeat split; lia || reflexivity.
  - pose proof (Forall_inv Ho) as (o' & Eo & Ep).
    pose proof (Forall_inv_tail Ho) as Ho'.
    cbn [map pack_values List.length List.concat] in *.
    assert (Hlen : RSTRING_LEN (enc o ++ List.concat (map enc os))
                   = RSTRING_LEN (enc o) + RSTRING_LEN (List.concat (map enc os))).
    { unfold RSTRING_LEN. rewrite length_app. lia. }
    assert (H0 : 0 <= RSTRING_LEN (enc o)) by (unfold RSTRING_LEN; lia).
    assert (H1 : 0 <= RSTRING_LEN (List.concat (map enc os)))
      by (unfold RSTRING_LEN; lia).
    change (-1 =? 0) with false. cbn [andb]. rewrite Eo. cbn [bind].
    rewrite Ep.
    destruct (emit_ok cfg result ridx (RSTRING_LEN (enc o)) (enc o) Hc Hr Hi)
      as (s1 & E1 & F1 & L1); [unfold RSTRING_LEN; lia | lia | lia |].
    rewrite E1. cbn [bind]. fold (RSTRING_LEN (enc o)).
    rewrite int_cast_small by (auto; lia).
    change (-1 >? 0) with false. cbv iota.
    assert (Hl1 : ridx + RSTRING_LEN (enc o) <= RSTRING_LEN s1).
    { apply (f_equal (@List.length Z)) in F1.
      rewrite length_firstn, length_app, length_firstn in F1.
      unfold RSTRING_LEN in *. lia. }
    destruct (IH (aidx + 1) (ridx + RSTRING_LEN (enc o)) s1 Ho')
      as (s2 & E2 & F2 & L2).
    { intros ->. unfold RSTRING_LEN in L1. cbn in L1.
      destruct result; [congruence | cbn in L1; lia]. }
    { lia. }
    { lia. }
    { lia. }
    exists s2.
    replace (pack_values cfg d ty fl os (-1) (aidx + 1)
               (ridx + RSTRING_LEN (enc o)) s1)
      with (Ok (aidx + Z.of_nat (S (List.length os)),
                ridx + RSTRING_LEN (enc o ++ List.concat (map enc os)), s2)).
    2:{ rewrite E2, Hlen.
        replace (aidx + 1 + Z.of_nat (List.length os))
          with (aidx + Z.of_nat (S (List.length os))) by lia.
        replace (ridx + RSTRING_LEN (enc o)
                 + RSTRING_LEN (List.concat (map enc os)))
          with (ridx + (RSTRING_LEN (enc o)
                        + RSTRING_LEN (List.concat (map enc os)))) by lia.
        reflexivity. }
    split; [destruct d; try congruence; reflexivity |].
    split; [| lia].
    rewrite Hlen.
    replace (ridx + (RSTRING_LEN (enc o)
                     + RSTRING_LEN (List.concat (map enc os))))
      with (ridx + RSTRING_LEN (enc o)
            + RSTRING_LEN (List.concat (map enc os))) by lia.
    rewrite F2.
    replace (Z.to_nat (ridx + RSTRING_LEN (enc o)))
      with (Z.to_nat ridx + List.length (enc o))%nat
      by (unfold RSTRING_LEN; lia).
    rewrite F1. now rewrite <- app_assoc.
Qed.

(** A call of pack whose template is one directive with the star. *)
Lemma pack_star cfg (template : string) (d : directive) (enc : value -> list Z)
  (os : list value) :
  supported cfg -> one_directive cfg template d ->
  dir d <> PACK_DIR_NUL -> dir d <> PACK_DIR_INVALID -> dir d <> PACK_DIR_STR ->
  count d = -1 ->
  Forall (fun o => exists o',
            coerce cfg (type d) o = Ok o' /\
            forall result ridx,
              pack_one cfg (dir d) o' result ridx (-1) (flags d)
              = emit cfg result ridx (RSTRING_LEN (enc o)) (enc o)) os ->
  RSTRING_LEN (List.concat (map enc os)) < 2 ^ 31 ->
  RSTRING_LEN (List.concat (map enc os)) <= capacity cfg ->
  _pack_pack cfg os template = Ok (List.concat (map enc os)).
Proof.
  intros Hc Ho D1 D2 D3 Hn He Hb Hq.
  rewrite (pack_directive cfg template d os Ho D1 D2), Hn.
  destruct (pack_values_star cfg (dir d) (type d) (flags d) enc Hc D3 os 0 0
              (repeat 0 128) He) as (s' & -> & F & L);
    [discriminate | cbn; lia | lia | lia |].
  cbn [bind].
  assert (H0 : 0 <= RSTRING_LEN (List.concat (map enc os)))
    by (unfold RSTRING_LEN; lia).
  destruct (Z.ltb_spec (0 + RSTRING_LEN (List.concat (map enc os))) 0); [lia |].
  f_equal. apply str_resize_prefix; [lia | exact F | lia].
Qed.

Lemma concat_utf8_length (cs : list Z) :
  Z.of_nat (List.length cs) <= RSTRING_LEN (List.concat (map utf8_bytes cs))
  <= 4 * Z.of_nat (List.length cs).
Proof.
  unfold RSTRING_LEN. induction cs as [| c cs IH];
    cbn [map List.concat List.length]; [lia |].
  rewrite length_app. pose proof (utf8_bytes_length c) as H.
  unfold RSTRING_LEN in H. lia.
Qed.

(** The count loop of [U*] on the bytes of a sequence of code points: it
    decodes them all, and ends one byte past the input. *)
Lemma unpack_count_utf8 cfg (fl : Z) :
  supported cfg ->
  forall cs pre fuel result,
    Forall (fun c => 0 <= c < 0x200000) cs ->
    RSTRING_LEN (pre ++ List.concat (map utf8_bytes cs)) + 1 < 2 ^ 31 ->
    (S (List.length cs) < fuel)%nat ->
    unpack_count cfg fuel (pre ++ List.concat (map utf8_bytes cs))
      (RSTRING_LEN (pre ++ List.concat (map utf8_bytes cs)))
      PACK_DIR_UTF8 0 fl (-1) (RSTRING_LEN pre) result
    = Ok (RSTRING_LEN (pre ++ List.concat (map utf8_bytes cs)) + 1,
          result ++ map fixnum_value cs).
Proof.
  intros Hc.
  induction cs as [| c cs IH]; intros pre fuel result Hk Hb Hf;
    (destruct fuel as [| fuel]; [cbn [List.length] in Hf; lia |]);
    cbn [unpack_count]; change (-1 =? 0) with false; cbv iota.
  - cbn [map List.concat List.length] in *. rewrite !app_nil_r in *.
    assert (Hp : 0 <= RSTRING_LEN pre) by (unfold RSTRING_LEN; lia).
    destruct (Z.ltb_spec (RSTRING_LEN pre - RSTRING_LEN pre) 0); [lia |].
    cbn [unpack_one]. unfold unpack_utf8.
    replace (RSTRING_LEN pre - RSTRING_LEN pre) with 0 by lia.
    change (0 =? 0) with true. cbv iota. cbn [bind].
    change (-1 >? 0) with false. cbv iota.
    rewrite int_cast_small by (auto; lia).
    destruct fuel as [| fuel]; [lia |].
    cbn [unpack_count]. change (-1 =? 0) with false. cbv iota.
    destruct (Z.ltb_spec (RSTRING_LEN pre - (RSTRING_LEN pre + 1)) 0); [| lia].
    change (Z.to_nat (-1)) with 0%nat. cbn [repeat map].
    rewrite ?app_nil_r. reflexivity.
  - pose proof (Forall_inv Hk) as Hr. pose proof (Forall_inv_tail Hk) as Hk'.
    cbn [map List.concat List.length] in *.
    pose proof (utf8_bytes_length c) as Hn.
    assert (Hlen : RSTRING_LEN (pre ++ utf8_bytes c
                                ++ List.concat (map utf8_bytes cs))
                   = RSTRING_LEN pre + RSTRING_LEN (utf8_bytes c)
                     + RSTRING_LEN (List.concat (map utf8_bytes cs))).
    { unfold RSTRING_LEN. rewrite !length_app. lia. }
    assert (H0 : 0 <= RSTRING_LEN (List.concat (map utf8_bytes cs)))
      by (unfold RSTRING_LEN; lia).
    assert (Hp : 0 <= RSTRING_LEN pre) by (unfold RSTRING_LEN; lia).
    destruct (Z.ltb_spec
                (RSTRING_LEN (pre ++ utf8_bytes c
                              ++ List.concat (map utf8_bytes cs))
                 - RSTRING_LEN pre) 0) as [L | _]; [lia |].
    rewrite skipn_app_exact by reflexivity.
    cbn [unpack_one].
    rewrite unpack_utf8_bytes by (auto; lia).
    cbn [bind]. change (-1 >? 0) with false. cbv iota.
    rewrite int_cast_small by (auto; lia).
    replace (RSTRING_LEN pre + RSTRING_LEN (utf8_bytes c))
      with (RSTRING_LEN (pre ++ utf8_bytes c))
      by (unfold RSTRING_LEN; rewrite length_app; lia).
    replace (pre ++ utf8_bytes c ++ List.concat (map utf8_bytes cs))
      with ((pre ++ utf8_bytes c) ++ List.concat (map utf8_bytes cs))
      by (now rewrite <- app_assoc).
    rewrite IH; auto.
    + rewrite <- !app_assoc. cbn [app]. reflexivity.
    + rewrite <- !app_assoc. exact Hb.
    + lia.
Qed.

Lemma resolve_endian_count2_zero cfg :
  has_flag (resolve_endian cfg 0) PACK_FLAG_COUNT2 = false.
Proof. unfold resolve_endian. destruct (littleendian cfg); reflexivity. Qed.

Lemma star_directive_U cfg :
  star_directive cfg "U" =
  {| dir := PACK_DIR_UTF8; type := PACK_TYPE_INTEGER; size := 0; count := -1;
     flags := resolve_endian cfg 0 |}.
Proof. reflexivity. Qed.

(** X9. An array of code points survives [pack] and [unpack] under ["U*"],
    as long as four bytes for each stay below 2^31 and within the capacity
    of the doubling of [str_len_ensure].  For code points below 0x200000,
    [pack] stores the UTF-8 bytes of each, between one and four, and
    [unpack] of these bytes returns the code points in their order; the
    count loop is left when the input is exhausted. *)
Theorem utf8_array_round_trip :
  forall cfg cs,
    supported cfg -> Forall (fun c => 0 <= c < 0x200000) cs ->
    4 * Z.of_nat (List.length cs) + 1 < 2 ^ 31 ->
    4 * Z.of_nat (List.length cs) + 1 <= capacity cfg ->
    let bytes := List.concat (map utf8_bytes cs) in
    _pack_pack cfg (map fixnum_value cs) "U*" = Ok bytes /\
    Z.of_nat (List.length cs) <= RSTRING_LEN bytes
      <= 4 * Z.of_nat (List.length cs) /\
    _pack_unpack cfg bytes "U*" = Ok (map fixnum_value cs).
Proof.
  intros cfg cs Hc Hk Hb Hq bytes. subst bytes.
  pose proof (concat_utf8_length cs) as Hl.
  pose proof (one_directive_star cfg "U" eq_refl) as Ho.
  split; [| split; [exact Hl |]].
  - rewrite (pack_star cfg "U*" (star_directive cfg "U")
               (fun o => utf8_bytes (_fixnum o)) (map fixnum_value cs) Hc Ho);
      try discriminate; try reflexivity.
    + now rewrite map_map.
    + apply Forall_map. revert Hk. apply Forall_impl. intros c Hr.
      exists (fixnum_value c). split; [reflexivity |].
      intros result ridx. rewrite star_directive_U. cbn [dir flags pack_one _fixnum].
      now apply pack_utf8_bytes.
    + replace (map (fun o => utf8_bytes (_fixnum o)) (map fixnum_value cs))
        with (map utf8_bytes cs) by (now rewrite map_map).
      lia.
    + replace (map (fun o => utf8_bytes (_fixnum o)) (map fixnum_value cs))
        with (map utf8_bytes cs) by (now rewrite map_map).
      lia.
  - rewrite (unpack_one_directive cfg "U*" (star_directive cfg "U") _ Hc Ho)
      by (discriminate || lia).
    rewrite star_directive_U. cbn [dir flags size count].
    rewrite resolve_endian_count2_zero.
    pose proof (unpack_count_utf8 cfg (resolve_endian cfg 0) Hc cs []
                  (count_fuel (RSTRING_LEN (List.concat (map utf8_bytes cs)))
                     0 (-1)) [] Hk) as H.
    cbn [app] in H. change (RSTRING_LEN []) with 0 in H.
    rewrite H; [reflexivity | lia |].
    unfold count_fuel. lia.
Qed.

Lemma utf8_array_round_trip_witness :
  _pack_pack cfg64 (map fixnum_value [65; 945; 8364; 128512]) "U*"
    = Ok (List.concat (map utf8_bytes [65; 945; 8364; 128512])) /\
  Z.of_nat (List.length [65; 945; 8364; 128512])
    <= RSTRING_LEN (List.concat (map utf8_bytes [65; 945; 8364; 128512]))
    <= 4 * Z.of_nat (List.length [65; 945; 8364; 128512]) /\
  _pack_unpack cfg64 (List.concat (map utf8_bytes [65; 945; 8364; 128512]))
    "U*"
    = Ok (map fixnum_value [65; 945; 8364; 128512]).
Proof.
  apply (utf8_array_round_trip cfg64 [65; 945; 8364; 128512] supported_cfg64).
  - repeat constructor; lia.
  - cbn. lia.
  - vm_compute. discriminate.
Defined.

(** ** Round trip of the hexadecimal directives *)

Lemma nibbles_restored (c ashift bshift : Z) :
  is_byte c -> (ashift, bshift) = (4, 0) \/ (ashift, bshift) = (0, 4) ->
  let a := Z.land (Z.shiftr c ashift) 0x0f in
  let b := Z.land (Z.shiftr c bshift) 0x0f in
  In (nth (Z.to_nat a) hexadecimal 0) hexadecimal /\
  In (nth (Z.to_nat b) hexadecimal 0) hexadecimal /\
  char_byte (Z.shiftl (hex2int (nth (Z.to_nat a) hexadecimal 0)) ashift
             + Z.shiftl (hex2int (nth (Z.to_nat b) hexadecimal 0)) bshift) = c.
Proof.
  intros Hc Hs a b.
  assert (Ha : (Z.to_nat a < List.length hexadecimal)%nat).
  { subst a. change 0x0f with (Z.ones 4). rewrite Z.land_ones by lia.
    pose proof (Z.mod_pos_bound (Z.shiftr c ashift) (2 ^ 4) ltac:(lia)).
    change (List.length hexadecimal) with 16%nat. change (2 ^ 4) with 16 in *.
    lia. }
  assert (Hb : (Z.to_nat b < List.length hexadecimal)%nat).
  { subst b. change 0x0f with (Z.ones 4). rewrite Z.land_ones by lia.
    pose proof (Z.mod_pos_bound (Z.shiftr c bshift) (2 ^ 4) ltac:(lia)).
    change (List.length hexadecimal) with 16%nat. change (2 ^ 4) with 16 in *.
    lia. }
  split; [now apply nth_In |]. split; [now apply nth_In |].
  subst a b. destruct Hs as [[= -> ->] | [= -> ->]].
  - pose proof (range_check
      (fun c =>
         char_byte
           (Z.shiftl (hex2int (nth (Z.to_nat (Z.land (Z.shiftr c 4) 0x0f))
                                   hexadecimal 0)) 4
            + Z.shiftl (hex2int (nth (Z.to_nat (Z.land (Z.shiftr c 0) 0x0f))
                                     hexadecimal 0)) 0) =? c) 256
      eq_refl c Hc) as H.
    cbv beta in H. now apply Z.eqb_eq.
  - pose proof (range_check
      (fun c =>
         char_byte
           (Z.shiftl (hex2int (nth (Z.to_nat (Z.land (Z.shiftr c 0) 0x0f))
                                   hexadecimal 0)) 0
            + Z.shiftl (hex2int (nth (Z.to_nat (Z.land (Z.shiftr c 4) 0x0f))
                                     hexadecimal 0)) 4) =? c) 256
      eq_refl c Hc) as H.
    cbv beta in H. now apply Z.eqb_eq.
Qed.

Lemma nibble_shifts_cases (fl : Z) :
  nibble_shifts fl = (4, 0) \/ nibble_shifts fl = (0, 4).
Proof. unfold nibble_shifts. destruct (has_flag fl PACK_FLAG_LSB); auto. Qed.

(** The decoding loop on a whole string with room for two digits a byte, and
    the encoding loop on the digits it writes. *)
Lemma unpack_h_loop_pack_h_loop (ashift bshift : Z) :
  (ashift, bshift) = (4, 0) \/ (ashift, bshift) = (0, 4) ->
  forall bs slen count,
    Forall is_byte bs -> slen = RSTRING_LEN bs -> count = 2 * RSTRING_LEN bs ->
    exists ds,
      unpack_h_loop bs slen count ashift bshift = (ds, RSTRING_LEN bs) /\
      RSTRING_LEN ds = 2 * RSTRING_LEN bs /\
      Forall (fun c => In c hexadecimal) ds /\
      forall fuel, (List.length bs <= fuel)%nat ->
        pack_h_loop fuel ds count count ashift bshift = bs.
Proof.
  intros Hs. unfold RSTRING_LEN.
  induction bs as [| c bs IH]; intros slen count Hb -> ->.
  - exists []. cbn [unpack_h_loop List.length]. repeat split; auto.
    intros fuel _. destruct fuel; reflexivity.
  - pose proof (Forall_inv Hb) as Hc. pose proof (Forall_inv_tail Hb) as Hb'.
    destruct (IH (Z.of_nat (List.length bs)) (2 * Z.of_nat (List.length bs))
                Hb' eq_refl eq_refl) as (ds & E & L & F & P).
    destruct (nibbles_restored c ashift bshift Hc Hs) as (Ia & Ib & R).
    cbv zeta in Ia, Ib, R.
    cbn [unpack_h_loop List.length].
    destruct (Z.gtb_spec (Z.of_nat (S (List.length bs))) 0) as [_ | ?]; [| lia].
    destruct (Z.gtb_spec (2 * Z.of_nat (S (List.length bs))) 0) as [_ | ?];
      [| lia].
    cbn [andb].
    destruct (Z.gtb_spec (2 * Z.of_nat (S (List.length bs)) - 1) 0) as [_ | ?];
      [| lia].
    replace (Z.of_nat (S (List.length bs)) - 1)
      with (Z.of_nat (List.length bs)) by lia.
    replace (2 * Z.of_nat (S (List.length bs)) - 1 - 1)
      with (2 * Z.of_nat (List.length bs)) by lia.
    rewrite E. cbv beta iota. eexists. split; [| split; [| split]].
    + f_equal. lia.
    + cbn [List.length]. lia.
    + constructor; [exact Ia | constructor; [exact Ib | exact F]].
    + intros fuel Hf. destruct fuel as [| fuel]; [lia |].
      cbn [pack_h_loop hd tl].
      destruct (Z.gtb_spec (2 * Z.of_nat (S (List.length bs))) 0) as [_ | ?];
        [| lia].
      destruct (Z.gtb_spec (2 * Z.of_nat (S (List.length bs)) - 1) 0)
        as [_ | ?]; [| lia].
      cbn [hd tl]. rewrite R. f_equal.
      replace (2 * Z.of_nat (S (List.length bs)) - 1 - 1)
        with (2 * Z.of_nat (List.length bs)) by lia.
      replace (2 * Z.of_nat (S (List.length bs)) - 2)
        with (2 * Z.of_nat (List.length bs)) by lia.
      apply P. lia.
Qed.

Lemma resolve_endian_lsb cfg (fl : Z) :
  has_flag (resolve_endian cfg fl) PACK_FLAG_LSB = has_flag fl PACK_FLAG_LSB.
Proof.
  unfold resolve_endian. destruct (_ || _); [| reflexivity].
  rewrite has_flag_lor_eq.
  change (has_flag PACK_FLAG_LITTLEENDIAN PACK_FLAG_LSB) with false.
  apply orb_false_r.
Qed.

Lemma star_directive_hex cfg (t : ascii) :
  t = "H"%char \/ t = "h"%char ->
  strchr "Ii" t = false /\
  dir (star_directive cfg t) = PACK_DIR_HEX /\
  type (star_directive cfg t) = PACK_TYPE_STRING /\
  count (star_directive cfg t) = -1 /\
  has_flag (flags (star_directive cfg t)) PACK_FLAG_COUNT2 = true.
Proof.
  intros [-> | ->]; repeat split; try reflexivity;
    cbn [star_directive flags single_directive directive_of];
    unfold resolve_endian; destruct (_ || _); reflexivity.
Qed.

(** X10. Under [H*] and [h*], [unpack] turns every string of bytes into a
    string of twice the length made of the digits [0-9a-f] only, and [pack]
    of that string under the same directive returns the original bytes.
    [pack] asks [str_len_ensure] for as many bytes as the string has digits,
    which have to stay below 2^31 and within the capacity of its
    doubling. *)
Theorem hex_round_trip :
  forall cfg t bs,
    supported cfg -> t = "H"%char \/ t = "h"%char ->
    Forall is_byte bs -> 2 * RSTRING_LEN bs < 2 ^ 31 ->
    2 * RSTRING_LEN bs <= capacity cfg ->
    exists hs,
      _pack_unpack cfg bs (String t "*") = Ok [str_value hs] /\
      RSTRING_LEN hs = 2 * RSTRING_LEN bs /\
      Forall (fun c => In c hexadecimal) hs /\
      _pack_pack cfg [str_value hs] (String t "*") = Ok bs.
Proof.
  intros cfg t bs Hc Ht Hb Hl Hq.
  destruct (star_directive_hex cfg t Ht) as (Ha & Hd & Hty & Hn & Hf).
  pose proof (one_directive_star cfg t Ha) as Ho.
  set (d := star_directive cfg t) in *.
  assert (H0 : 0 <= RSTRING_LEN bs) by (unfold RSTRING_LEN; lia).
  destruct (nibble_shifts (flags d)) as [ashift bshift] eqn:En.
  assert (Hs : (ashift, bshift) = (4, 0) \/ (ashift, bshift) = (0, 4)).
  { rewrite <- En. apply nibble_shifts_cases. }
  destruct (unpack_h_loop_pack_h_loop ashift bshift Hs bs (RSTRING_LEN bs)
              (2 * RSTRING_LEN bs) Hb eq_refl eq_refl) as (hs & E & L & F & P).
  exists hs. split; [| split; [exact L | split; [exact F |]]].
  - rewrite (unpack_one_directive cfg _ d bs Hc Ho)
      by (rewrite ?Hd; (discriminate || lia)).
    rewrite Hf, Hd, Hn. cbn [unpack_count2]. unfold unpack_h.
    rewrite En. change (-1 =? -1) with true. cbv iota.
    rewrite int_cast_small by (auto; lia).
    replace (RSTRING_LEN bs * 2) with (2 * RSTRING_LEN bs) by lia.
    unfold _str_new_size.
    destruct (Z.ltb_spec (2 * RSTRING_LEN bs) 0); [lia |]. cbn [bind].
    rewrite E. reflexivity.
  - apply (pack_one_value_ok cfg _ d (str_value hs) (str_value hs)
             (RSTRING_LEN hs) bs Hc Ho);
      rewrite ?Hd, ?Hn, ?Hty; try discriminate; try reflexivity;
      [| unfold RSTRING_LEN in *; lia | lia | lia].
    cbn [pack_one]. unfold pack_h. cbn [RSTRING]. rewrite En.
    change (-1 =? -1) with true. cbv iota.
    rewrite L. rewrite P by (unfold RSTRING_LEN in *; lia). reflexivity.
Qed.

Lemma hex_round_trip_witness :
  exists hs,
    _pack_unpack cfg64 [0x12; 0xab] "h*" = Ok [str_value hs] /\
    RSTRING_LEN hs = 2 * RSTRING_LEN [0x12; 0xab] /\
    Forall (fun c => In c hexadecimal) hs /\
    _pack_pack cfg64 [str_value hs] "h*" = Ok [0x12; 0xab].
Proof.
  apply (hex_round_trip cfg64 "h"%char [0x12; 0xab] supported_cfg64).
  - now right.
  - repeat constructor; unfold is_byte; lia.
  - vm_compute. reflexivity.
  - vm_compute. discriminate.
Defined.

(** ** The string directives *)

Lemma memchr0_none (s : bstr) :
  ~ In 0 s -> forall slen, memchr0 s slen = None.
Proof.
  induction s as [| c s IH]; intros Hn slen; destruct slen as [| slen];
    cbn [memchr0]; try reflexivity.
  destruct (Z.eqb_spec c 0) as [-> | _]; [elim Hn; now left |].
  rewrite IH; [reflexivity |]. intros H. apply Hn. now right.
Qed.

Lemma memchr0_found (s rest : bstr) :
  ~ In 0 s ->
  forall slen, (List.length s < slen)%nat ->
    memchr0 (s ++ 0 :: rest) slen = Some (RSTRING_LEN s).
Proof.
  unfold RSTRING_LEN.
  induction s as [| c s IH]; intros Hn slen Hl; destruct slen as [| slen];
    cbn [List.length] in Hl; try lia; cbn [app memchr0].
  - reflexivity.
  - destruct (Z.eqb_spec c 0) as [-> | _]; [elim Hn; now left |].
    rewrite IH; [| intros H; apply Hn; now right | lia].
    f_equal. cbn [List.length]. lia.
Qed.

Lemma memchr0_no_zero (s : bstr) :
  forall slen,
    match memchr0 s slen with
    | Some cp => ~ In 0 (firstn (Z.to_nat cp) s) /\ 0 <= cp < Z.of_nat slen
    | None => ~ In 0 (firstn slen s)
    end.
Proof.
  induction s as [| c s IH]; intros slen; destruct slen as [| slen];
    cbn [memchr0 firstn]; try (intros []).
  destruct (Z.eqb_spec c 0) as [-> | N].
  - cbn [Z.to_nat firstn]. split; [intros [] | lia].
  - specialize (IH slen). destruct (memchr0 s slen) as [cp |].
    + destruct IH as [IH B]. split; [| lia].
      replace (Z.to_nat (cp + 1)) with (S (Z.to_nat cp)) by lia.
      cbn [firstn]. intros [H | H]; [congruence | contradiction].
    + cbn [firstn]. intros [H | H]; [congruence | contradiction].
Qed.

Lemma rtrim_le (s : bstr) (k : nat) : (rtrim s k <= k)%nat.
Proof.
  induction k as [| k IH]; cbn [rtrim]; [lia |].
  destruct (_ || _); lia.
Qed.

(** Where the trimming loop stops: at the start of the string, or behind a
    byte that is no blank. *)
Lemma rtrim_stops (s : bstr) (k : nat) :
  rtrim s k = 0%nat \/
  exists j, rtrim s k = S j /\ blank (src_at s j) = false.
Proof.
  induction k as [| k IH]; cbn [rtrim]; [now left |].
  destruct ((src_at s k =? 0) || isspace (src_at s k)) eqn:E; [exact IH |].
  right. exists k. auto.
Qed.

Lemma rtrim_padding (s : bstr) (pad : Z) (m : nat) :
  blank pad = true ->
  rtrim (s ++ repeat pad m) (List.length s + m)
  = rtrim (s ++ repeat pad m) (List.length s).
Proof.
  intros Hp. induction m as [| m IH]; [now rewrite Nat.add_0_r |].
  rewrite Nat.add_succ_r. cbn [rtrim]. unfold src_at.
  rewrite app_nth2 by lia.
  replace (List.length s + m - List.length s)%nat with m by lia.
  rewrite nth_repeat_lt by lia.
  fold (blank pad). rewrite Hp.
  replace (repeat pad (S m)) with (repeat pad m ++ [pad])
    by (now rewrite <- repeat_cons).
  rewrite app_assoc.
  assert (G : forall k l x, (k <= List.length l)%nat ->
            rtrim (l ++ [x]) k = rtrim l k).
  { clear. induction k as [| k IH]; intros l x Hk; cbn [rtrim]; [reflexivity |].
    unfold src_at. rewrite app_nth1 by lia.
    destruct (_ || _); [apply IH; lia | reflexivity]. }
  rewrite G by (rewrite length_app, repeat_length; lia).
  rewrite IH. symmetry. apply G. rewrite length_app, repeat_length. lia.
Qed.

Lemma rtrim_unpadded (s rest : bstr) :
  unpadded s -> rtrim (s ++ rest) (List.length s) = List.length s.
Proof.
  unfold unpadded. destruct (List.length s) as [| k] eqn:E; [reflexivity |].
  intros Hu. cbn [rtrim]. unfold src_at.
  rewrite app_nth1 by lia.
  assert (L : nth k s 0 = last s 1).
  { clear Hu. revert k E. induction s as [| c s IH]; intros k E;
      [discriminate |].
    destruct s as [| c' s'].
    - cbn in E. injection E as <-. reflexivity.
    - destruct k as [| k]; [discriminate |].
      change (nth (S k) (c :: c' :: s') 0) with (nth k (c' :: s') 0).
      rewrite (IH k) by (cbn [List.length] in *; lia). reflexivity. }
  rewrite L. fold (blank (last s 1)). now rewrite Hu.
Qed.

Lemma str_padding_length (fl : Z) (s : bstr) (n : Z) :
  n = -1 \/ (0 < n /\ RSTRING_LEN s <= n) ->
  RSTRING_LEN (s ++ str_padding fl s n)
  = if n =? -1 then RSTRING_LEN s + (if has_flag fl PACK_FLAG_Z then 1 else 0)
    else n.
Proof.
  intros Hn. unfold str_padding. unfold RSTRING_LEN in *.
  rewrite length_app, repeat_length.
  destruct (Z.eqb_spec n (-1)); [destruct (has_flag fl PACK_FLAG_Z); lia | lia].
Qed.

Lemma pack_a_field cfg (fl : Z) (s dst : bstr) (didx n : Z) :
  n = -1 \/ (0 < n /\ RSTRING_LEN s <= n) ->
  pack_a cfg (str_value s) dst didx n fl
  = emit cfg dst didx (RSTRING_LEN (s ++ str_padding fl s n))
      (s ++ str_padding fl s n).
Proof.
  intros Hn. rewrite str_padding_length by assumption.
  unfold pack_a, str_padding. cbn [RSTRING].
  destruct (Z.eqb_spec n 0) as [E | _]; [lia |].
  assert (F : firstn (Z.to_nat (RSTRING_LEN s)) s = s).
  { unfold RSTRING_LEN. rewrite Nat2Z.id. apply firstn_all. }
  destruct (Z.eqb_spec n (-1)) as [E | N].
  - rewrite F. destruct (has_flag fl PACK_FLAG_Z); reflexivity.
  - destruct (Z.ltb_spec n (RSTRING_LEN s)) as [L | G]; [lia |].
    rewrite F. f_equal. lia.
Qed.

Lemma blank_space : blank (chr " ") = true.
Proof. reflexivity. Qed.

Lemma firstn_app_exact (s rest : bstr) (n : Z) :
  n = RSTRING_LEN s -> firstn (Z.to_nat n) (s ++ rest) = s.
Proof.
  intros ->. unfold RSTRING_LEN. rewrite Nat2Z.id, firstn_app, Nat.sub_diag.
  cbn [firstn]. now rewrite firstn_all, app_nil_r.
Qed.

Lemma firstn_exact (s : bstr) : firstn (Z.to_nat (RSTRING_LEN s)) s = s.
Proof. unfold RSTRING_LEN. rewrite Nat2Z.id. apply firstn_all. Qed.

(** What [unpack_a] returns on the bytes that [pack_a] stores. *)
Lemma unpack_a_field (fl : Z) (s : bstr) (n : Z) (ary : list value) :
  n = -1 \/ (0 < n /\ RSTRING_LEN s <= n) ->
  (has_flag fl PACK_FLAG_Z = true -> ~ In 0 s) ->
  (has_flag fl PACK_FLAG_Z = false -> has_flag fl PACK_FLAG_a = false ->
   unpadded s) ->
  unpack_a (s ++ str_padding fl s n) (RSTRING_LEN (s ++ str_padding fl s n))
    ary n fl
  = Ok (ary ++ [str_value (if negb (has_flag fl PACK_FLAG_Z)
                              && has_flag fl PACK_FLAG_a
                           then s ++ str_padding fl s n else s)],
        RSTRING_LEN (s ++ str_padding fl s n)).
Proof.
  intros Hn Hz Ha.
  pose proof (str_padding_length fl s n Hn) as Hl.
  assert (H0 : 0 <= RSTRING_LEN s) by (unfold RSTRING_LEN; lia).
  set (field := s ++ str_padding fl s n) in *.
  assert (Hf : RSTRING_LEN s <= RSTRING_LEN field).
  { rewrite Hl. destruct (Z.eqb_spec n (-1));
      [destruct (has_flag fl PACK_FLAG_Z) |]; lia. }
  unfold unpack_a.
  assert (E1 : (if negb (n =? -1) && (n <? RSTRING_LEN field) then n
                else RSTRING_LEN field) = RSTRING_LEN field).
  { destruct (Z.eqb_spec n (-1)); cbn [negb andb]; [reflexivity |].
    destruct (Z.ltb_spec n (RSTRING_LEN field)); [| reflexivity].
    rewrite Hl in *. destruct (Z.eqb_spec n (-1)); lia. }
  rewrite E1.
  destruct (Z.geb_spec (RSTRING_LEN field) 0) as [_ | ?]; [| lia].
  cbn [andb].
  destruct (has_flag fl PACK_FLAG_Z) eqn:Fz.
  - specialize (Hz eq_refl). cbn [negb andb].
    subst field. unfold str_padding in *. rewrite Fz in *.
    rewrite orb_true_r in *.
    destruct (Z.to_nat (if n =? -1 then 1 else n - RSTRING_LEN s)) as [| k] eqn:Ek.
    + cbn [repeat] in *. rewrite app_nil_r in *.
      rewrite memchr0_none by assumption.
      destruct (Z.ltb_spec (RSTRING_LEN s) 0); [lia |].
      rewrite firstn_exact. reflexivity.
    + cbn [repeat] in *.
      rewrite memchr0_found by (auto; unfold RSTRING_LEN in *;
                                 rewrite length_app in *; cbn [List.length] in *;
                                 lia).
      destruct (Z.ltb_spec (RSTRING_LEN s) 0); [lia |].
      rewrite firstn_app_exact by reflexivity.
      destruct (Z.eqb_spec n (-1)) as [-> | N]; [| reflexivity].
      do 2 f_equal. change (Z.to_nat 1) with 1%nat in Ek.
      injection Ek as <-. unfold RSTRING_LEN. rewrite length_app.
      cbn [List.length repeat]. lia.
  - cbn [negb andb]. destruct (has_flag fl PACK_FLAG_a) eqn:Fa; cbn [negb].
    + destruct (Z.ltb_spec (RSTRING_LEN field) 0); [lia |].
      rewrite firstn_exact. reflexivity.
    + specialize (Ha eq_refl eq_refl).
      destruct (Z.gtb_spec (RSTRING_LEN field) 0) as [G | L].
      * subst field. unfold str_padding in *. rewrite Fz, Fa in *.
        cbn [orb] in *.
        set (k := Z.to_nat (if n =? -1 then 0 else n - RSTRING_LEN s)) in *.
        replace (Z.to_nat (RSTRING_LEN (s ++ repeat (chr " ") k)))
          with (List.length s + k)%nat
          by (unfold RSTRING_LEN; rewrite length_app, repeat_length; lia).
        rewrite rtrim_padding by apply blank_space.
        rewrite rtrim_unpadded by assumption.
        fold (RSTRING_LEN s).
        destruct (Z.ltb_spec (RSTRING_LEN s) 0); [lia |].
        rewrite firstn_app_exact by reflexivity. reflexivity.
      * assert (Es : s = []).
        { destruct s; [reflexivity |].
          unfold RSTRING_LEN in Hf, L. cbn [List.length] in *. lia. }
        destruct (Z.ltb_spec (RSTRING_LEN field) 0); [lia |].
        replace (RSTRING_LEN field) with 0 by lia.
        cbn [Z.to_nat firstn]. now rewrite Es.
Qed.

Lemma directive_of_str_count2 (t : ascii) (ty : pack_type) (sz fl : Z) :
  directive_of t = (PACK_DIR_STR, ty, sz, fl) ->
  has_flag fl PACK_FLAG_COUNT2 = true.
Proof.
  destruct t as [[] [] [] [] [] [] [] []]; cbn;
    intros H; try discriminate H; injection H as <- <- <-; reflexivity.
Qed.

Lemma read_tmpl_str_count2 cfg (tm tm' : tmpl) (d : directive) :
  read_tmpl cfg tm = Ok (tm', d) -> dir d = PACK_DIR_STR ->
  has_flag (flags d) PACK_FLAG_COUNT2 = true.
Proof.
  unfold read_tmpl. intros H D.
  destruct (resolve_alias cfg _) as [t | | |]; cbn [bind] in H;
    try discriminate H.
  destruct (directive_of t) as [[[d0 ty] sz] fl] eqn:Ed.
  destruct (read_suffix cfg t _ false _ 1 fl) as [[[n c] f] | | |] eqn:Es;
    cbn [bind] in H; try discriminate H.
  injection H as <- <-. cbn [dir flags] in *. subst d0.
  pose proof (directive_of_str_count2 t ty sz fl Ed) as Hf.
  destruct (read_suffix_keeps cfg t PACK_FLAG_COUNT2 _ _ _ _ _ _ _ _ Es)
    as [H1 _].
  apply has_flag_resolve_endian. auto.
Qed.

(** X11. A string survives [pack] and [unpack] under one directive of the
    kind [A], [a] or [Z], with a star or with a count that is positive and
    not below the length of the string.  [pack] returns the string followed
    by padding: up to the count, or with the star nothing, except one NUL
    for [Z]; the padding is made of spaces for [A] and of NUL bytes for [a]
    and [Z].  [unpack] of these bytes returns the string alone for [Z],
    provided the string holds no NUL, and for [A], provided the string does
    not end in a NUL or in white space; for [a] it returns the string with
    its padding.  The string with its terminator and the count have to stay
    below 2^31 and within the capacity of the doubling of
    [str_len_ensure]. *)
Theorem string_round_trip :
  forall cfg template d s,
    supported cfg -> one_directive cfg template d -> dir d = PACK_DIR_STR ->
    count d = -1 \/ (0 < count d /\ RSTRING_LEN s <= count d) ->
    RSTRING_LEN s + 1 < 2 ^ 31 -> count d < 2 ^ 31 ->
    RSTRING_LEN s + 1 <= capacity cfg -> count d <= capacity cfg ->
    (has_flag (flags d) PACK_FLAG_Z = true -> ~ In 0 s) ->
    (has_flag (flags d) PACK_FLAG_Z = false ->
     has_flag (flags d) PACK_FLAG_a = false -> unpadded s) ->
    let padding := str_padding (flags d) s (count d) in
    _pack_pack cfg [str_value s] template = Ok (s ++ padding) /\
    RSTRING_LEN (s ++ padding)
      = (if count d =? -1
         then RSTRING_LEN s
              + (if has_flag (flags d) PACK_FLAG_Z then 1 else 0)
         else count d) /\
    _pack_unpack cfg (s ++ padding) template
      = Ok [str_value (if negb (has_flag (flags d) PACK_FLAG_Z)
                          && has_flag (flags d) PACK_FLAG_a
                       then s ++ padding else s)].
Proof.
  intros cfg template d s Hc Ho Hd Hn Hs Hb Hqs Hqc Hz Ha padding.
  subst padding.
  pose proof (str_padding_length (flags d) s (count d) Hn) as Hl.
  assert (H0 : 0 <= RSTRING_LEN s) by (unfold RSTRING_LEN; lia).
  assert (Hf : RSTRING_LEN (s ++ str_padding (flags d) s (count d)) < 2 ^ 31).
  { rewrite Hl. destruct (count d =? -1);
      [destruct (has_flag (flags d) PACK_FLAG_Z) |]; lia. }
  assert (Hq : RSTRING_LEN (s ++ str_padding (flags d) s (count d))
               <= capacity cfg).
  { rewrite Hl. destruct (count d =? -1);
      [destruct (has_flag (flags d) PACK_FLAG_Z) |]; lia. }
  destruct Ho as [Ht Hr].
  destruct (read_tmpl_str cfg _ _ d Hr Hd) as (Hty & Hw & _).
  pose proof (read_tmpl_str_count2 cfg _ _ d Hr Hd) as Hc2.
  split; [| split; [exact Hl |]].
  - apply (pack_one_value_ok cfg template d (str_value s) (str_value s)
             (RSTRING_LEN (s ++ str_padding (flags d) s (count d))) _ Hc
             (conj Ht Hr));
      rewrite ?Hd, ?Hty, ?Hw; try discriminate; try reflexivity.
    + apply andb_false_r.
    + cbn [pack_one]. now apply pack_a_field.
    + exact Hf.
    + exact Hq.
  - rewrite (unpack_one_directive cfg template d _ Hc (conj Ht Hr))
      by (rewrite ?Hd; (discriminate || exact Hf)).
    rewrite Hc2, Hd. cbn [unpack_count2].
    rewrite unpack_a_field by assumption. reflexivity.
Qed.

Lemma string_round_trip_witness :
  _pack_pack cfg64 [str_value (bytes_of_string "ab")] "A5"
    = Ok (bytes_of_string "ab" ++ bytes_of_string "   ") /\
  RSTRING_LEN (bytes_of_string "ab" ++ bytes_of_string "   ") = 5 /\
  _pack_unpack cfg64 (bytes_of_string "ab" ++ bytes_of_string "   ") "A5"
    = Ok [str_value (bytes_of_string "ab")].
Proof.
  apply (string_round_trip cfg64 "A5"
           {| dir := PACK_DIR_STR; type := PACK_TYPE_STRING; size := 0;
              count := 5;
              flags := Z.lor (Z.lor PACK_FLAG_WIDTH PACK_FLAG_COUNT2)
                             PACK_FLAG_LITTLEENDIAN |}
           (bytes_of_string "ab") supported_cfg64).
  - split; [discriminate | reflexivity].
  - reflexivity.
  - right. vm_compute. intuition discriminate.
  - vm_compute. reflexivity.
  - vm_compute. reflexivity.
  - vm_compute. discriminate.
  - vm_compute. discriminate.
  - discriminate.
  - intros _ _. reflexivity.
Defined.

(** X12. What [unpack_a] never returns.  The string that it appends is the
    only new element of the array; under [Z] it holds no NUL byte, and under
    [A] it is empty or its last byte is neither a NUL nor white space. *)
Theorem unpacked_string_is_trimmed :
  forall src slen ary count fl r n,
    unpack_a src slen ary count fl = Ok (r, n) ->
    exists s,
      r = ary ++ [str_value s] /\
      (has_flag fl PACK_FLAG_Z = true -> ~ In 0 s) /\
      (has_flag fl PACK_FLAG_Z = false -> has_flag fl PACK_FLAG_a = false ->
       s = [] \/ blank (last s 0) = false).
Proof.
  intros src slen ary count fl r n. unfold unpack_a.
  set (slen1 := if negb (count =? -1) && (count <? slen) then count else slen).
  destruct (has_flag fl PACK_FLAG_Z) eqn:Fz.
  - destruct (Z.geb_spec slen1 0) as [G | L]; cbn [andb].
    + pose proof (memchr0_no_zero src (Z.to_nat slen1)) as M.
      destruct (memchr0 src (Z.to_nat slen1)) as [cp |].
      * destruct M as [M B].
        destruct (Z.ltb_spec cp 0); [lia |].
        intros Hr; apply ok_fst in Hr; subst r. eexists.
        split; [reflexivity |]. split; [intros _; exact M | discriminate].
      * destruct (Z.ltb_spec slen1 0); [lia |].
        intros Hr; apply ok_fst in Hr; subst r. eexists.
        split; [reflexivity |]. split; [intros _; exact M | discriminate].
    + destruct (negb (has_flag fl PACK_FLAG_a));
        [destruct (Z.gtb_spec slen1 0); [lia |] |];
        (destruct (Z.ltb_spec slen1 0); [| lia]);
        intros Hr; apply ok_fst in Hr; subst r; exists [];
        (split; [reflexivity |]); (split; [intros _ [] | discriminate]).
  - rewrite andb_false_r.
    destruct (has_flag fl PACK_FLAG_a) eqn:Fa; cbn [negb].
    + destruct (slen1 <? 0); intros Hr; apply ok_fst in Hr; subst r;
        eexists; (split; [reflexivity |]); split; discriminate.
    + destruct (Z.gtb_spec slen1 0) as [G | L].
      * destruct (Z.ltb_spec (Z.of_nat (rtrim src (Z.to_nat slen1))) 0); [lia |].
        intros Hr; apply ok_fst in Hr; subst r. eexists.
        split; [reflexivity |]. split; [discriminate |]. intros _ _.
        rewrite Nat2Z.id.
        destruct (rtrim_stops src (Z.to_nat slen1)) as [-> | (j & -> & Hj)];
          [now left |].
        right. unfold src_at in Hj.
        destruct (Nat.lt_ge_cases j (List.length src)) as [Lt | Ge].
        -- replace (last (firstn (S j) src) 0) with (nth j src 0); [exact Hj |].
           clear - Lt. revert j Lt.
           induction src as [| c src IH]; intros j Lt; [cbn in Lt; lia |].
           destruct j as [| j]; [reflexivity |].
           cbn [List.length] in Lt.
           change (nth (S j) (c :: src) 0) with (nth j src 0).
           rewrite (IH j) by lia.
           cbn [firstn]. destruct src as [| c' src']; [cbn in Lt; lia |].
           reflexivity.
        -- rewrite nth_overflow in Hj by lia. discriminate Hj.
      * destruct (Z.ltb_spec slen1 0);
          intros Hr; apply ok_fst in Hr; subst r; eexists;
          (split; [reflexivity |]); (split; [discriminate |]); intros _ _; left;
          [reflexivity |].
        replace slen1 with 0 by lia. reflexivity.
Qed.

Lemma unpacked_string_is_trimmed_witness :
  exists s,
    [str_value (bytes_of_string "ab")] = [] ++ [str_value s] /\
    (has_flag PACK_FLAG_WIDTH PACK_FLAG_Z = true -> ~ In 0 s) /\
    (has_flag PACK_FLAG_WIDTH PACK_FLAG_Z = false ->
     has_flag PACK_FLAG_WIDTH PACK_FLAG_a = false ->
     s = [] \/ blank (last s 0) = false).
Proof.
  apply (unpacked_string_is_trimmed (bytes_of_string "ab  ") 4 [] (-1)
           PACK_FLAG_WIDTH [str_value (bytes_of_string "ab")] 4).
  reflexivity.
Defined.

(** ** Doubles *)

Lemma digits2_pos_bounds (m : positive) :
  2 ^ (Zpos (digits2_pos m) - 1) <= Zpos m < 2 ^ Zpos (digits2_pos m).
Proof.
  induction m as [m IH | m IH |]; cbn [digits2_pos].
  - rewrite Pos2Z.inj_succ, Z.pow_succ_r by lia.
    replace (Z.succ (Zpos (digits2_pos m)) - 1)
      with (Z.succ (Zpos (digits2_pos m) - 1)) by lia.
    rewrite Z.pow_succ_r by lia. lia.
  - rewrite Pos2Z.inj_succ, Z.pow_succ_r by lia.
    replace (Z.succ (Zpos (digits2_pos m)) - 1)
      with (Z.succ (Zpos (digits2_pos m) - 1)) by lia.
    rewrite Z.pow_succ_r by lia. lia.
  - cbn. lia.
Qed.

Lemma ieee_bits_range (f : spec_float) :
  valid_binary 53 1024 f = true -> 0 <= ieee_bits 52 11 f < 2 ^ 64.
Proof.
  destruct f as [s | s | | s m e]; cbn [valid_binary ieee_bits].
  - intros _. destruct s; cbn; lia.
  - intros _. destruct s; cbn; lia.
  - intros _. cbn. lia.
  - unfold bounded, canonical_mantissa, fexp, emin.
    rewrite andb_true_iff, Z.eqb_eq, Z.leb_le. intros [Hc He].
    pose proof (digits2_pos_bounds m) as Hd.
    destruct (Z.ltb_spec (Zpos m) (2 ^ 52)) as [L | G].
    + destruct s; change (2 ^ (52 + 11)) with (2 ^ 63); lia.
    + assert (D : Zpos (digits2_pos m) = 53).
      { destruct (Z.lt_trichotomy (Zpos (digits2_pos m)) 53) as [A | [A | A]];
          [| exact A | lia].
        exfalso.
        assert (2 ^ Zpos (digits2_pos m) <= 2 ^ 52)
          by (apply Z.pow_le_mono_r; lia).
        lia. }
      rewrite D in Hd. change (2 ^ (53 - 1)) with (2 ^ 52) in Hd.
      change (2 ^ (11 - 1) - 1) with 1023.
      change (2 ^ (52 + 11)) with (2 ^ 63).
      assert (1 <= e + 1023 + 52 <= 2046) by lia.
      change (2 ^ 53) with (2 * 2 ^ 52) in Hd.
      change (2 ^ 63) with (2048 * 2 ^ 52). change (2 ^ 64) with (4096 * 2 ^ 52).
      destruct s; nia.
Qed.

Lemma ieee_value_bits (f : spec_float) :
  valid_binary 53 1024 f = true -> ieee_value 52 11 (ieee_bits 52 11 f) = f.
Proof.
  destruct f as [s | s | | s m e]; cbn [valid_binary ieee_bits].
  - intros _. destruct s; reflexivity.
  - intros _. destruct s; reflexivity.
  - intros _. reflexivity.
  - unfold bounded, canonical_mantissa, fexp, emin.
    rewrite andb_true_iff, Z.eqb_eq, Z.leb_le. intros [Hc He].
    pose proof (digits2_pos_bounds m) as Hd.
    change (2 ^ (52 + 11)) with (2 ^ 63).
    change (2 ^ (11 - 1) - 1) with 1023.
    set (sg := if s then 2 ^ 63 else 0).
    assert (Hsg : sg = 2048 * 2 ^ 52 * (if s then 1 else 0))
      by (subst sg; destruct s; reflexivity).
    destruct (Z.ltb_spec (Zpos m) (2 ^ 52)) as [L | G].
    + assert (E : e = -1074).
      { assert (2 ^ (Zpos (digits2_pos m) - 1) < 2 ^ 52) by lia.
        assert (Zpos (digits2_pos m) - 1 < 52)
          by (apply (Z.pow_lt_mono_r_iff 2); lia).
        lia. }
      unfold ieee_value.
      change (2 ^ (11 - 1) - 1) with 1023. change (52 + 11) with 63.
      assert (B : Z.testbit (sg + Zpos m) 63 = s).
      { rewrite Z.testbit_eqb by lia. rewrite Hsg.
        change (2 ^ 63) with (2048 * 2 ^ 52).
        destruct s;
          [apply Z.eqb_eq | apply Z.eqb_neq];
          Z.div_mod_to_equations; lia. }
      assert (F : ((sg + Zpos m) / 2 ^ 52) mod 2 ^ 11 = 0).
      { rewrite Hsg. change (2 ^ 11) with 2048.
        destruct s; Z.div_mod_to_equations; lia. }
      assert (M : (sg + Zpos m) mod 2 ^ 52 = Zpos m).
      { rewrite Hsg. destruct s; Z.div_mod_to_equations; lia. }
      rewrite B, F, M. cbn [Z.eqb]. subst e. reflexivity.
    + assert (D : Zpos (digits2_pos m) = 53).
      { destruct (Z.lt_trichotomy (Zpos (digits2_pos m)) 53) as [A | [A | A]];
          [| exact A | lia].
        exfalso.
        assert (2 ^ Zpos (digits2_pos m) <= 2 ^ 52)
          by (apply Z.pow_le_mono_r; lia).
        lia. }
      rewrite D in Hd. change (2 ^ (53 - 1)) with (2 ^ 52) in Hd.
      change (2 ^ 53) with (2 * 2 ^ 52) in Hd.
      assert (R : 1 <= e + 1023 + 52 <= 2046) by lia.
      unfold ieee_value.
      change (2 ^ (11 - 1) - 1) with 1023. change (52 + 11) with 63.
      set (x := sg + (e + 1023 + 52) * 2 ^ 52 + (Zpos m - 2 ^ 52)).
      assert (B : Z.testbit x 63 = s).
      { rewrite Z.testbit_eqb by lia. subst x. rewrite Hsg.
        change (2 ^ 63) with (2048 * 2 ^ 52).
        destruct s;
          [apply Z.eqb_eq | apply Z.eqb_neq];
          Z.div_mod_to_equations; nia. }
      assert (F : (x / 2 ^ 52) mod 2 ^ 11 = e + 1023 + 52).
      { subst x. rewrite Hsg. change (2 ^ 11) with 2048.
        destruct s; Z.div_mod_to_equations; nia. }
      assert (M : x mod 2 ^ 52 = Zpos m - 2 ^ 52).
      { subst x. rewrite Hsg. destruct s; Z.div_mod_to_equations; nia. }
      rewrite B, F, M.
      destruct (Z.eqb_spec (e + 1023 + 52) 0); [lia |].
      change (2 ^ 11 - 1) with 2047.
      destruct (Z.eqb_spec (e + 1023 + 52) 2047); [lia |].
      replace (Zpos m - 2 ^ 52 + 2 ^ 52) with (Zpos m) by lia.
      f_equal. lia.
Qed.

Lemma float_order_involutive cfg (fl : Z) (b : list Z) :
  float_order cfg fl (float_order cfg fl b) = b.
Proof.
  unfold float_order.
  destruct (has_flag fl PACK_FLAG_LITTLEENDIAN), (MRB_ENDIAN_BIG cfg);
    rewrite ?rev_involutive; reflexivity.
Qed.

Lemma float_order_length cfg (fl : Z) (b : list Z) :
  List.length (float_order cfg fl b) = List.length b.
Proof.
  unfold float_order.
  destruct (has_flag fl PACK_FLAG_LITTLEENDIAN), (MRB_ENDIAN_BIG cfg);
    rewrite ?length_rev; reflexivity.
Qed.

Lemma host_bytes_length cfg (n : nat) (bits : Z) :
  List.length (host_bytes cfg n bits) = n.
Proof.
  unfold host_bytes. destruct (littleendian cfg);
    rewrite ?length_rev; apply le_bytes_length.
Qed.

Lemma host_value_bytes cfg (n : nat) (bits : Z) :
  host_value cfg (host_bytes cfg n bits) = bits mod 2 ^ (8 * Z.of_nat n).
Proof.
  unfold host_value, host_bytes. destruct (littleendian cfg);
    rewrite ?rev_involutive; apply le_value_le_bytes.
Qed.

Lemma firstn_exact_app (n : nat) (l more : list Z) :
  List.length l = n -> firstn n (l ++ more) = l.
Proof.
  intros <-. rewrite firstn_app, Nat.sub_diag, firstn_all. cbn [firstn].
  apply app_nil_r.
Qed.

Lemma unpack_double_pack_double cfg (fl : Z) (f : spec_float)
  (ary : list value) (slen : Z) :
  valid_binary 53 1024 f = true ->
  unpack_double cfg
    (float_order cfg fl (host_bytes cfg 8 (ieee_bits 52 11 f))) slen ary fl
  = Ok (ary ++ [float_value f], 8).
Proof.
  intros Hv. unfold unpack_double.
  rewrite firstn_exact_app
    by (now rewrite float_order_length, host_bytes_length).
  rewrite float_order_involutive, host_value_bytes.
  change (8 * Z.of_nat 8) with 64.
  rewrite Z.mod_small by (now apply ieee_bits_range).
  now rewrite ieee_value_bits.
Qed.

Lemma double_directive cfg (t : ascii) :
  In t double_directives ->
  dir (single_directive cfg t) = PACK_DIR_DOUBLE /\
  type (single_directive cfg t) = PACK_TYPE_FLOAT /\
  size (single_directive cfg t) = 8 /\
  count (single_directive cfg t) = 1 /\
  has_flag (flags (single_directive cfg t)) PACK_FLAG_COUNT2 = false /\
  strchr "Ii" t = false.
Proof.
  intros Ht. cbn in Ht. unfold single_directive.
  repeat (destruct Ht as [<- | Ht];
          [cbn [directive_of dir type size count flags];
           rewrite resolve_endian_count2; repeat split; reflexivity |]).
  destruct Ht.
Qed.

Lemma double_pack cfg (t : ascii) (f : spec_float) :
  supported cfg -> In t double_directives ->
  _pack_pack cfg [float_value f] (String t "")
  = Ok (float_order cfg (flags (single_directive cfg t))
          (host_bytes cfg 8 (ieee_bits 52 11 f))).
Proof.
  intros Hc Ht.
  destruct (double_directive cfg t Ht) as (Hd & Hty & Hs & Hn & Hc2 & Hi).
  pose proof (one_directive_single cfg t Hi) as Ho.
  apply (pack_one_value_ok cfg (String t "") _ (float_value f)
           (float_value f) 8 _ Hc Ho);
    rewrite ?Hd, ?Hty, ?Hn; try discriminate; try reflexivity;
    unfold RSTRING_LEN; rewrite ?float_order_length, ?host_bytes_length;
    first [lia | apply capacity_small; [assumption | lia]].
Qed.

Lemma double_unpack cfg (t : ascii) (f : spec_float) :
  supported cfg -> In t double_directives -> valid_binary 53 1024 f = true ->
  _pack_unpack cfg
    (float_order cfg (flags (single_directive cfg t))
       (host_bytes cfg 8 (ieee_bits 52 11 f))) (String t "")
  = Ok [float_value f].
Proof.
  intros Hc Ht Hv.
  destruct (double_directive cfg t Ht) as (Hd & Hty & Hs & Hn & Hc2 & Hi).
  pose proof (one_directive_single cfg t Hi) as Ho.
  set (bytes := float_order cfg _ _).
  assert (Hl : RSTRING_LEN bytes = 8).
  { unfold RSTRING_LEN. subst bytes.
    now rewrite float_order_length, host_bytes_length. }
  rewrite (unpack_one_directive cfg (String t "") _ bytes Hc Ho)
    by (rewrite ?Hd, ?Hl; (discriminate || lia)).
  rewrite Hc2, Hd, Hs, Hn, Hl.
  change (count_fuel 8 0 1) with (S 9).
  rewrite unpack_count_once by lia. cbn [unpack_one skipn Z.to_nat].
  subst bytes. rewrite unpack_double_pack_double by assumption.
  reflexivity.
Qed.

(** X13. A double survives [pack] and [unpack].  Under each of the
    directives [D], [d], [E] and [G], [pack] of a double returns eight bytes,
    and [unpack] of these bytes under the same directive returns the same
    double: every finite number of the format, the two zeros, the two
    infinities and the NaN, on a host of either byte order and whether or
    not [MRB_ENDIAN_BIG] is defined. *)
Theorem double_round_trip :
  forall cfg t f,
    supported cfg -> In t double_directives -> valid_binary 53 1024 f = true ->
    exists bytes,
      _pack_pack cfg [float_value f] (String t "") = Ok bytes /\
      RSTRING_LEN bytes = 8 /\
      _pack_unpack cfg bytes (String t "") = Ok [float_value f].
Proof.
  intros cfg t f Hc Ht Hv.
  eexists. split; [exact (double_pack cfg t f Hc Ht) |].
  split; [| exact (double_unpack cfg t f Hc Ht Hv)].
  unfold RSTRING_LEN. now rewrite float_order_length, host_bytes_length.
Qed.

Lemma double_round_trip_witness :
  exists bytes,
    _pack_pack cfg64 [float_value (S754_finite true 6755399441055744 (-51))]
      "G" = Ok bytes /\
    RSTRING_LEN bytes = 8 /\
    _pack_unpack cfg64 bytes "G"
      = Ok [float_value (S754_finite true 6755399441055744 (-51))].
Proof.
  apply (double_round_trip cfg64 "G"%char
           (S754_finite true 6755399441055744 (-51)) supported_cfg64).
  - cbn. tauto.
  - reflexivity.
Defined.

(** X14. The byte order of [E] and [G].  On a build where [MRB_ENDIAN_BIG]
    is defined exactly on the hosts that [check_little_endian] finds not to
    be little-endian, [pack] under [E] returns the eight bytes of the IEEE
    754 image of the double with the least significant byte first, and under
    [G] the same bytes in the opposite order, whatever the byte order of the
    host.  This is stated for the doubles that are numbers: every finite
    number of the format, the two zeros and the two infinities.  A NaN is left
    out, since its sign and payload, which the source copies with the other
    bytes, are not part of the value [S754_nan]. *)
Theorem double_byte_order :
  forall cfg f,
    supported cfg -> MRB_ENDIAN_BIG cfg = negb (littleendian cfg) ->
    valid_binary 53 1024 f = true -> f <> S754_nan ->
    _pack_pack cfg [float_value f] "E" = Ok (le_bytes 8 (ieee_bits 52 11 f)) /\
    _pack_pack cfg [float_value f] "G"
      = Ok (rev (le_bytes 8 (ieee_bits 52 11 f))).
Proof.
  intros cfg f Hc He _ _. split.
  - rewrite (double_pack cfg "E" f Hc ltac:(cbn; tauto)).
    f_equal. unfold single_directive, float_order, host_bytes, resolve_endian.
    cbn [directive_of flags]. rewrite He.
    change (has_flag (Z.lor PACK_FLAG_SIGNED PACK_FLAG_LT) PACK_FLAG_LT)
      with true. cbn [orb].
    change (has_flag (Z.lor (Z.lor PACK_FLAG_SIGNED PACK_FLAG_LT)
                            PACK_FLAG_LITTLEENDIAN) PACK_FLAG_LITTLEENDIAN)
      with true.
    destruct (littleendian cfg); cbn [negb]; rewrite ?rev_involutive;
      reflexivity.
  - rewrite (double_pack cfg "G" f Hc ltac:(cbn; tauto)).
    f_equal. unfold single_directive, float_order, host_bytes, resolve_endian.
    cbn [directive_of flags]. rewrite He.
    change (has_flag (Z.lor PACK_FLAG_SIGNED PACK_FLAG_GT) PACK_FLAG_LT)
      with false.
    change (has_flag (Z.lor PACK_FLAG_SIGNED PACK_FLAG_GT) PACK_FLAG_GT)
      with true. cbn [orb negb andb].
    change (has_flag (Z.lor PACK_FLAG_SIGNED PACK_FLAG_GT)
                     PACK_FLAG_LITTLEENDIAN) with false.
    destruct (littleendian cfg); cbn [negb]; rewrite ?rev_involutive;
      reflexivity.
Qed.

Lemma double_byte_order_witness :
  _pack_pack cfg64 [float_value (S754_finite false 4503599627370496 (-52))] "E"
    = Ok [0; 0; 0; 0; 0; 0; 240; 63] /\
  _pack_pack cfg64 [float_value (S754_finite false 4503599627370496 (-52))] "G"
    = Ok [63; 240; 0; 0; 0; 0; 0; 0].
Proof.
  apply (double_byte_order cfg64 (S754_finite false 4503599627370496 (-52))
           supported_cfg64 eq_refl); [reflexivity | discriminate].
Defined.

(** ** The template loops from a position inside a longer template *)

Lemma has_tmpl_shift (pre t : string) (i : Z) :
  has_tmpl {| str := pre ++ t; idx := Z.of_nat (String.length pre) + i |}
  = has_tmpl {| str := t; idx := i |}.
Proof.
  unfold has_tmpl, tlen. cbn [str idx]. rewrite string_length_app.
  destruct (Z.ltb_spec i (Z.of_nat (String.length t)));
    [apply Z.ltb_lt | apply Z.ltb_ge]; lia.
Qed.

Lemma read_tmpl_advances cfg (tm tm' : tmpl) (d : directive) :
  read_tmpl cfg tm = Ok (tm', d) -> str tm' = str tm /\ idx tm < idx tm'.
Proof.
  unfold read_tmpl.
  destruct (resolve_alias cfg _) as [c | | |]; cbn [bind]; try discriminate.
  destruct (directive_of c) as [[[d0 ty] sz] fl].
  destruct (read_suffix cfg c _ false _ 1 fl) as [[[n cnt] f] | | |] eqn:E;
    cbn [bind]; try discriminate.
  intros [= <- _]. cbn [str idx]. apply read_suffix_advances in E.
  split; [reflexivity | lia].
Qed.

Lemma pack_loop_shift cfg (pre t : string) (ary : list value) :
  forall fuel i aidx ridx result,
    0 <= i ->
    pack_loop cfg fuel ary
      {| str := pre ++ t; idx := Z.of_nat (String.length pre) + i |}
      aidx ridx result
    = pack_loop cfg fuel ary {| str := t; idx := i |} aidx ridx result.
Proof.
  induction fuel as [| fuel IH]; intros i aidx ridx result Hi;
    cbn [pack_loop]; [reflexivity |].
  rewrite has_tmpl_shift. destruct (has_tmpl _); [| reflexivity].
  rewrite read_tmpl_shift by assumption.
  destruct (read_tmpl cfg {| str := t; idx := i |}) as [[tm d] | | |] eqn:E;
    cbn [bind]; try reflexivity.
  apply read_tmpl_advances in E. cbn [str idx] in E. destruct E as [Es Ei].
  destruct tm as [st j]. cbn [str idx] in *. subst st.
  destruct (dir d).
  all: try (destruct (pack_values cfg _ _ _ _ _ _ _ _) as [[[a r] res] | | |];
            cbn [bind]; try reflexivity;
            destruct (r <? 0); [reflexivity | apply IH; lia]).
  - destruct (pack_x cfg _ _ _ _ _) as [[res n] | | |]; cbn [bind];
      [apply IH; lia | reflexivity ..].
  - apply IH; lia.
Qed.

Lemma unpack_loop_shift cfg (pre t : string) (s : bstr) (srclen : Z)
  (single : bool) :
  forall fuel i srcidx result,
    0 <= i ->
    unpack_loop cfg fuel s srclen single
      {| str := pre ++ t; idx := Z.of_nat (String.length pre) + i |}
      srcidx result
    = unpack_loop cfg fuel s srclen single {| str := t; idx := i |}
        srcidx result.
Proof.
  induction fuel as [| fuel IH]; intros i srcidx result Hi;
    cbn [unpack_loop]; [reflexivity |].
  rewrite has_tmpl_shift. destruct (has_tmpl _); [| reflexivity].
  rewrite read_tmpl_shift by assumption.
  destruct (read_tmpl cfg {| str := t; idx := i |}) as [[tm d] | | |] eqn:E;
    cbn [bind]; try reflexivity.
  apply read_tmpl_advances in E. cbn [str idx] in E. destruct E as [Es Ei].
  destruct tm as [st j]. cbn [str idx] in *. subst st.
  destruct (dir d).
  all: try (destruct (has_flag (flags d) PACK_FLAG_COUNT2);
            [destruct (unpack_count2 cfg _ _ _ _ _ _) as [[r n] | | |];
             cbn [bind]; [apply IH; lia | reflexivity ..]
            | destruct (unpack_count cfg _ _ _ _ _ _ _ _ _) as [[n r] | | |];
              cbn [bind]; try reflexivity;
              destruct single; [reflexivity | apply IH; lia]]).
  - destruct (unpack_x _ _ _ _ _) as [n | | |]; cbn [bind];
      [apply IH; lia | reflexivity ..].
  - apply IH; lia.
Qed.

(** The template loops do not depend on the number of rounds they are
    allowed, once it exceeds the number of characters left. *)
Lemma pack_loop_fuel cfg (ary : list value) :
  forall fuel fuel' tm aidx ridx result,
    0 <= idx tm ->
    Z.max 0 (tlen tm - idx tm) < Z.of_nat fuel ->
    Z.max 0 (tlen tm - idx tm) < Z.of_nat fuel' ->
    pack_loop cfg fuel ary tm aidx ridx result
    = pack_loop cfg fuel' ary tm aidx ridx result.
Proof.
  induction fuel as [| fuel IH]; intros fuel' tm aidx ridx result Hi Hf Hf';
    [lia |].
  destruct fuel' as [| fuel']; [lia |]. cbn [pack_loop].
  unfold has_tmpl. destruct (Z.ltb_spec (idx tm) (tlen tm)) as [L | G];
    [| reflexivity].
  destruct (read_tmpl cfg tm) as [[tm1 d] | | |] eqn:E; cbn [bind];
    try reflexivity.
  apply read_tmpl_advances in E. destruct E as [Es Ei].
  assert (Ht : tlen tm1 = tlen tm) by (unfold tlen; now rewrite Es).
  destruct (dir d).
  all: try (destruct (pack_values cfg _ _ _ _ _ _ _ _) as [[[a r] res] | | |];
            cbn [bind]; try reflexivity;
            destruct (r <? 0); [reflexivity | apply IH; lia]).
  - destruct (pack_x cfg _ _ _ _ _) as [[res n] | | |]; cbn [bind];
      [apply IH; lia | reflexivity ..].
  - apply IH; lia.
Qed.

Lemma unpack_loop_fuel cfg (s : bstr) (srclen : Z) (single : bool) :
  forall fuel fuel' tm srcidx result,
    0 <= idx tm ->
    Z.max 0 (tlen tm - idx tm) < Z.of_nat fuel ->
    Z.max 0 (tlen tm - idx tm) < Z.of_nat fuel' ->
    unpack_loop cfg fuel s srclen single tm srcidx result
    = unpack_loop cfg fuel' s srclen single tm srcidx result.
Proof.
  induction fuel as [| fuel IH]; intros fuel' tm srcidx result Hi Hf Hf';
    [lia |].
  destruct fuel' as [| fuel']; [lia |]. cbn [unpack_loop].
  unfold has_tmpl. destruct (Z.ltb_spec (idx tm) (tlen tm)) as [L | G];
    [| reflexivity].
  destruct (read_tmpl cfg tm) as [[tm1 d] | | |] eqn:E; cbn [bind];
    try reflexivity.
  apply read_tmpl_advances in E. destruct E as [Es Ei].
  assert (Ht : tlen tm1 = tlen tm) by (unfold tlen; now rewrite Es).
  destruct (dir d).
  all: try (destruct (has_flag (flags d) PACK_FLAG_COUNT2);
            [destruct (unpack_count2 cfg _ _ _ _ _ _) as [[r n] | | |];
             cbn [bind]; [apply IH; lia | reflexivity ..]
            | destruct (unpack_count cfg _ _ _ _ _ _ _ _ _) as [[n r] | | |];
              cbn [bind]; try reflexivity;
              destruct single; [reflexivity | apply IH; lia]]).
  - destruct (unpack_x _ _ _ _ _) as [n | | |]; cbn [bind];
      [apply IH; lia | reflexivity ..].
  - apply IH; lia.
Qed.

(** A suffix that ends where the next part of the template begins. *)
Lemma read_suffix_app cfg t (s2 : list ascii) :
  ends_suffix s2 ->
  forall s1 indigits n count flags,
    read_suffix cfg t (s1 ++ s2) indigits n count flags
    = read_suffix cfg t s1 indigits n count flags.
Proof.
  intros H2. induction s1 as [| ch s1 IH]; intros indigits n count flags.
  - cbn [app]. now rewrite read_suffix_stop.
  - cbn [app read_suffix].
    destruct (isdigit ch).
    + destruct indigits; [destruct (_ <? 0); [reflexivity |] |]; apply IH.
    + destruct (Ascii.eqb ch "*"); [apply IH |].
      destruct (is_modifier ch); [| reflexivity].
      destruct (negb _); [reflexivity |].
      destruct (_ || _); [apply IH |].
      destruct (Ascii.eqb ch "<"); apply IH.
Qed.

(** A directive inside the first part of a template is read as in the first
    part alone, when the second part does not begin with a character that
    the suffix loop takes. *)
Lemma read_tmpl_app cfg (t1 t2 : string) (i : Z) :
  ends_suffix (list_ascii_of_string t2) ->
  0 <= i < Z.of_nat (String.length t1) ->
  read_tmpl cfg {| str := t1 ++ t2; idx := i |} =
  '(tm, d) <- read_tmpl cfg {| str := t1; idx := i |} ;;
  Ok ({| str := t1 ++ t2; idx := idx tm |}, d).
Proof.
  intros H2 Hi. unfold read_tmpl, tptr. cbn [str idx].
  rewrite list_ascii_app.
  rewrite app_nth1 by (rewrite list_ascii_length; lia).
  destruct (resolve_alias cfg _) as [c | | |]; cbn [bind]; try reflexivity.
  destruct (directive_of c) as [[[d ty] sz] fl].
  rewrite skipn_app.
  replace (Z.to_nat (i + 1) - List.length (list_ascii_of_string t1))%nat
    with 0%nat by (rewrite list_ascii_length; lia).
  cbn [skipn]. rewrite read_suffix_app by assumption.
  destruct (read_suffix cfg c _ false (i + 1) 1 fl) as [[[n cnt] f] | | |];
    reflexivity.
Qed.

Lemma read_tmpl_within cfg (tm tm' : tmpl) (d : directive) :
  0 <= idx tm < tlen tm ->
  read_tmpl cfg tm = Ok (tm', d) -> idx tm' <= tlen tm.
Proof.
  intros Hi. unfold read_tmpl.
  destruct (resolve_alias cfg _) as [c | | |]; cbn [bind]; try discriminate.
  destruct (directive_of c) as [[[d0 ty] sz] fl].
  destruct (read_suffix cfg c _ false _ 1 fl) as [[[n cnt] f] | | |] eqn:E;
    cbn [bind]; try discriminate.
  intros [= <- _]. cbn [idx]. apply read_suffix_advances in E.
  rewrite length_skipn in E. unfold tlen, tptr in *.
  rewrite list_ascii_length in E. lia.
Qed.

(** ** Characters that are no directives *)

Lemma directive_of_unknown cfg (c : ascii) :
  ~ In c directive_characters ->
  resolve_alias cfg c = Ok c /\
  directive_of c = (PACK_DIR_INVALID, PACK_TYPE_NONE, 0, 0).
Proof.
  intros H.
  destruct c as [[] [] [] [] [] [] [] []];
    first [split; reflexivity | exfalso; apply H; vm_compute; tauto].
Qed.

Lemma read_tmpl_unknown cfg (c : ascii) (t : string) :
  ~ In c directive_characters -> ends_suffix (list_ascii_of_string t) ->
  exists d,
    read_tmpl cfg (prepare_tmpl (String c t))
    = Ok ({| str := String c t; idx := 1 |}, d) /\
    dir d = PACK_DIR_INVALID.
Proof.
  intros Hc Ht. destruct (directive_of_unknown cfg c Hc) as [Ea Ed].
  unfold read_tmpl, prepare_tmpl, tptr. cbn [str idx list_ascii_of_string].
  change (Z.to_nat 0) with 0%nat. cbn [nth]. rewrite Ea. cbn [bind].
  rewrite Ed. change (Z.to_nat (0 + 1)) with 1%nat. cbn [skipn].
  rewrite read_suffix_stop by assumption. cbn [bind].
  eexists. split; reflexivity.
Qed.

Lemma has_tmpl_app_inside (t1 t2 : string) (i : Z) :
  i < Z.of_nat (String.length t1) ->
  has_tmpl {| str := t1 ++ t2; idx := i |} = true.
Proof.
  intros Hi. unfold has_tmpl, tlen. cbn [str idx]. rewrite string_length_app.
  apply Z.ltb_lt. lia.
Qed.

Lemma pack_loop_unknown cfg (c : ascii) (t : string) (ary : list value)
  (fuel : nat) (aidx ridx : Z) (result : bstr) :
  ~ In c directive_characters -> ends_suffix (list_ascii_of_string t) ->
  pack_loop cfg (S fuel) ary (prepare_tmpl (String c t)) aidx ridx result
  = pack_loop cfg fuel ary (prepare_tmpl t) aidx ridx result.
Proof.
  intros Hc Ht. destruct (read_tmpl_unknown cfg c t Hc Ht) as (d & Er & Ed).
  cbn [pack_loop].
  assert (Hh : has_tmpl (prepare_tmpl (String c t)) = true).
  { unfold has_tmpl, tlen, prepare_tmpl. cbn [str idx String.length].
    apply Z.ltb_lt. lia. }
  rewrite Hh, Er. cbn [bind]. rewrite Ed.
  apply (pack_loop_shift cfg (String c "") t ary fuel 0). lia.
Qed.

Lemma unpack_loop_unknown cfg (c : ascii) (t : string) (s : bstr)
  (srclen : Z) (single : bool) (fuel : nat) (srcidx : Z)
  (result : list value) :
  ~ In c directive_characters -> ends_suffix (list_ascii_of_string t) ->
  unpack_loop cfg (S fuel) s srclen single (prepare_tmpl (String c t))
    srcidx result
  = unpack_loop cfg fuel s srclen single (prepare_tmpl t) srcidx result.
Proof.
  intros Hc Ht. destruct (read_tmpl_unknown cfg c t Hc Ht) as (d & Er & Ed).
  cbn [unpack_loop].
  assert (Hh : has_tmpl (prepare_tmpl (String c t)) = true).
  { unfold has_tmpl, tlen, prepare_tmpl. cbn [str idx String.length].
    apply Z.ltb_lt. lia. }
  rewrite Hh, Er. cbn [bind]. rewrite Ed.
  apply (unpack_loop_shift cfg (String c "") t s _ single fuel 0). lia.
Qed.

Lemma pack_loop_skip cfg (t1 t2 : string) (c : ascii) (ary : list value) :
  ~ In c directive_characters ->
  ends_suffix (c :: list_ascii_of_string t2) ->
  ends_suffix (list_ascii_of_string t2) ->
  forall fuel fuel' i aidx ridx result,
    0 <= i <= Z.of_nat (String.length t1) ->
    Z.of_nat (String.length t1) + 1 + Z.of_nat (String.length t2) - i
      < Z.of_nat fuel ->
    Z.of_nat (String.length t1) + Z.of_nat (String.length t2) - i
      < Z.of_nat fuel' ->
    pack_loop cfg fuel ary {| str := t1 ++ String c t2; idx := i |}
      aidx ridx result
    = pack_loop cfg fuel' ary {| str := t1 ++ t2; idx := i |}
        aidx ridx result.
Proof.
  intros Hc Hc2 Ht2.
  induction fuel as [| fuel IH]; intros fuel' i aidx ridx result Hi Hf Hf';
    [lia |].
  destruct (Z.eq_dec i (Z.of_nat (String.length t1))) as [-> | Ne].
  - replace (Z.of_nat (String.length t1))
      with (Z.of_nat (String.length t1) + 0) by lia.
    rewrite !pack_loop_shift by lia.
    change {| str := String c t2; idx := 0 |}
      with (prepare_tmpl (String c t2)).
    rewrite pack_loop_unknown by assumption.
    apply pack_loop_fuel; unfold tlen, prepare_tmpl; cbn [str idx]; lia.
  - destruct fuel' as [| fuel']; [lia |]. cbn [pack_loop].
    rewrite !has_tmpl_app_inside by lia.
    rewrite !read_tmpl_app by first [assumption | exact Hc2 | lia].
    destruct (read_tmpl cfg {| str := t1; idx := i |}) as [[tm d] | | |] eqn:E;
      cbn [bind]; try reflexivity.
    pose proof (read_tmpl_within cfg {| str := t1; idx := i |} tm d
                  ltac:(unfold tlen; cbn [str idx]; lia) E) as Hw.
    apply read_tmpl_advances in E. cbn [str idx] in E. destruct E as [_ Ei].
    unfold tlen in Hw. cbn [str idx] in Hw.
    destruct (dir d).
    all: try (destruct (pack_values cfg _ _ _ _ _ _ _ _)
                as [[[a r] res] | | |];
              cbn [bind]; try reflexivity;
              destruct (r <? 0); [reflexivity | apply IH; lia]).
    + destruct (pack_x cfg _ _ _ _ _) as [[res n] | | |]; cbn [bind];
        [apply IH; lia | reflexivity ..].
    + apply IH; lia.
Qed.

Lemma unpack_loop_skip cfg (t1 t2 : string) (c : ascii) (s : bstr)
  (srclen : Z) (single : bool) :
  ~ In c directive_characters ->
  ends_suffix (c :: list_ascii_of_string t2) ->
  ends_suffix (list_ascii_of_string t2) ->
  forall fuel fuel' i srcidx result,
    0 <= i <= Z.of_nat (String.length t1) ->
    Z.of_nat (String.length t1) + 1 + Z.of_nat (String.length t2) - i
      < Z.of_nat fuel ->
    Z.of_nat (String.length t1) + Z.of_nat (String.length t2) - i
      < Z.of_nat fuel' ->
    unpack_loop cfg fuel s srclen single
      {| str := t1 ++ String c t2; idx := i |} srcidx result
    = unpack_loop cfg fuel' s srclen single {| str := t1 ++ t2; idx := i |}
        srcidx result.
Proof.
  intros Hc Hc2 Ht2.
  induction fuel as [| fuel IH]; intros fuel' i srcidx result Hi Hf Hf';
    [lia |].
  destruct (Z.eq_dec i (Z.of_nat (String.length t1))) as [-> | Ne].
  - replace (Z.of_nat (String.length t1))
      with (Z.of_nat (String.length t1) + 0) by lia.
    rewrite !unpack_loop_shift by lia.
    change {| str := String c t2; idx := 0 |}
      with (prepare_tmpl (String c t2)).
    rewrite unpack_loop_unknown by assumption.
    apply unpack_loop_fuel; unfold tlen, prepare_tmpl; cbn [str idx]; lia.
  - destruct fuel' as [| fuel']; [lia |]. cbn [unpack_loop].
    rewrite !has_tmpl_app_inside by lia.
    rewrite !read_tmpl_app by first [assumption | exact Hc2 | lia].
    destruct (read_tmpl cfg {| str := t1; idx := i |}) as [[tm d] | | |] eqn:E;
      cbn [bind]; try reflexivity.
    pose proof (read_tmpl_within cfg {| str := t1; idx := i |} tm d
                  ltac:(unfold tlen; cbn [str idx]; lia) E) as Hw.
    apply read_tmpl_advances in E. cbn [str idx] in E. destruct E as [_ Ei].
    unfold tlen in Hw. cbn [str idx] in Hw.
    destruct (dir d).
    all: try (destruct (has_flag (flags d) PACK_FLAG_COUNT2);
              [destruct (unpack_count2 cfg _ _ _ _ _ _) as [[r n] | | |];
               cbn [bind]; [apply IH; lia | reflexivity ..]
              | destruct (unpack_count cfg _ _ _ _ _ _ _ _ _)
                  as [[n r] | | |];
                cbn [bind]; try reflexivity;
                destruct single; [reflexivity | apply IH; lia]]).
    + destruct (unpack_x _ _ _ _ _) as [n | | |]; cbn [bind];
        [apply IH; lia | reflexivity ..].
    + apply IH; lia.
Qed.

Lemma pack_run_skip cfg (t1 t2 : string) (c : ascii) (ary : list value) :
  ~ In c directive_characters ->
  ends_suffix (c :: list_ascii_of_string t2) ->
  ends_suffix (list_ascii_of_string t2) ->
  pack_run cfg ary (t1 ++ String c t2) = pack_run cfg ary (t1 ++ t2).
Proof.
  intros Hc Hc2 Ht2. unfold pack_run, prepare_tmpl, tmpl_fuel.
  apply pack_loop_skip; auto; rewrite ?string_length_app;
    cbn [String.length]; lia.
Qed.

Lemma unpack_run_skip cfg (t1 t2 : string) (c : ascii) (s : bstr)
  (single : bool) :
  ~ In c directive_characters ->
  ends_suffix (c :: list_ascii_of_string t2) ->
  ends_suffix (list_ascii_of_string t2) ->
  unpack_run cfg s (t1 ++ String c t2) single
  = unpack_run cfg s (t1 ++ t2) single.
Proof.
  intros Hc Hc2 Ht2. unfold unpack_run, prepare_tmpl, tmpl_fuel.
  apply unpack_loop_skip; auto; rewrite ?string_length_app;
    cbn [String.length]; lia.
Qed.

(** X15. A character of the template that is no directive is passed over.
    When a character that is neither a directive letter nor a digit, a star
    or a modifier (a space, say) stands in a template before the end or
    before a character that is again no digit, star or modifier, then
    [pack], [unpack] and [unpack1] behave as on the template without that
    character: they return the same value or raise the same error. *)
Theorem unknown_character_is_skipped :
  forall cfg t1 c t2,
    ~ In c directive_characters -> ends_suffix [c] ->
    ends_suffix (list_ascii_of_string t2) ->
    (forall ary,
       _pack_pack cfg ary (t1 ++ String c t2) = _pack_pack cfg ary (t1 ++ t2)) /\
    (forall s,
       _pack_unpack cfg s (t1 ++ String c t2) = _pack_unpack cfg s (t1 ++ t2)) /\
    (forall s,
       _pack_unpack1 cfg s (t1 ++ String c t2)
       = _pack_unpack1 cfg s (t1 ++ t2)).
Proof.
  intros cfg t1 c t2 Hc Hc2 Ht. repeat split.
  - intros ary. unfold _pack_pack. now rewrite pack_run_skip.
  - intros s. unfold _pack_unpack, pack_unpack. now rewrite unpack_run_skip.
  - intros s. unfold _pack_unpack1, pack_unpack. now rewrite unpack_run_skip.
Qed.

Lemma unknown_character_is_skipped_witness :
  _pack_pack cfg64 [fixnum_value 1; fixnum_value 2] "C2 n"
  = _pack_pack cfg64 [fixnum_value 1; fixnum_value 2] "C2n".
Proof.
  destruct (unknown_character_is_skipped cfg64 "C2" " "%char "n") as (H & _).
  - vm_compute. intuition discriminate.
  - cbn. repeat split; discriminate.
  - cbn. repeat split; discriminate.
  - apply H.
Defined.

(** ** The decoders append to the array they are given *)

Lemma unpack_one_from_nil cfg (d : pack_dir) (sptr : bstr) (slen fl : Z)
  (result : list value) :
  unpack_one cfg d sptr slen result fl =
  '(r, n) <- unpack_one cfg d sptr slen [] fl ;; Ok (result ++ r, n).
Proof.
  destruct d; cbn [unpack_one]; try reflexivity.
  - unfold unpack_c. destruct (has_flag _ _); reflexivity.
  - unfold unpack_l. destruct (has_flag _ _); destruct (_ && _); reflexivity.
  - unfold unpack_q. destruct (if has_flag _ _ then _ else _) as [pos step].
    destruct (has_flag _ _); destruct (negb _); reflexivity.
  - unfold unpack_utf8. destruct (slen =? 0);
      [cbn [bind]; now rewrite app_nil_r |].
    destruct (utf8_to_uv _ _) as [[uv n] | | |]; reflexivity.
  - unfold unpack_m. destruct (_str_new_size _); cbn [bind]; try reflexivity.
    destruct (unpack_m_loop _ _ _ _ _ _) as [dst n]. reflexivity.
Qed.

Lemma unpack_count2_from_nil cfg (d : pack_dir) (sptr : bstr)
  (slen count fl : Z) (result : list value) :
  unpack_count2 cfg d sptr slen result count fl =
  '(r, n) <- unpack_count2 cfg d sptr slen [] count fl ;; Ok (result ++ r, n).
Proof.
  destruct d; cbn [unpack_count2 bind]; rewrite ?app_nil_r; try reflexivity.
  - unfold unpack_a.
    destruct (if (_ >=? 0) && _ then _ else _) as [copylen slen']. reflexivity.
  - unfold unpack_h. destruct (nibble_shifts fl) as [ashift bshift].
    destruct (_str_new_size _); cbn [bind]; try reflexivity.
    destruct (unpack_h_loop _ _ _ _ _) as [ds n]. reflexivity.
Qed.

Lemma unpack_count_from_nil cfg (s : bstr) (srclen : Z) (d : pack_dir)
  (size fl : Z) :
  forall fuel count srcidx result,
    unpack_count cfg fuel s srclen d size fl count srcidx result =
    '(i, r) <- unpack_count cfg fuel s srclen d size fl count srcidx [] ;;
    Ok (i, result ++ r).
Proof.
  induction fuel as [| fuel IH]; intros count srcidx result;
    cbn [unpack_count].
  - destruct (count =? 0); cbn [bind]; rewrite ?app_nil_r; reflexivity.
  - destruct (count =? 0); [cbn [bind]; now rewrite app_nil_r |].
    destruct (_ <? size); [reflexivity |].
    rewrite unpack_one_from_nil.
    destruct (unpack_one cfg d _ _ [] fl) as [[r n] | | |]; cbn [bind app];
      try reflexivity.
    rewrite IH. rewrite (IH _ _ r).
    destruct (unpack_count cfg fuel s srclen d size fl _ _ [])
      as [[i r'] | | |]; cbn [bind]; try reflexivity.
    now rewrite app_assoc.
Qed.

Lemma unpack_loop_from_nil cfg (s : bstr) (srclen : Z) (single : bool) :
  forall fuel tm srcidx result,
    unpack_loop cfg fuel s srclen single tm srcidx result =
    '(i, r) <- unpack_loop cfg fuel s srclen single tm srcidx [] ;;
    Ok (i, result ++ r).
Proof.
  induction fuel as [| fuel IH]; intros tm srcidx result;
    cbn [unpack_loop]; [reflexivity |].
  destruct (has_tmpl tm); [| cbn [bind]; now rewrite app_nil_r].
  destruct (read_tmpl cfg tm) as [[tm1 d] | | |]; cbn [bind]; try reflexivity.
  assert (C2 :
    ('(result0, n) <-
       unpack_count2 cfg (dir d) (skipn (Z.to_nat srcidx) s) (srclen - srcidx)
         result (count d) (flags d) ;;
     unpack_loop cfg fuel s srclen single tm1 (int_cast cfg (srcidx + n))
       result0) =
    '(i, r) <-
      ('(result0, n) <-
         unpack_count2 cfg (dir d) (skipn (Z.to_nat srcidx) s)
           (srclen - srcidx) [] (count d) (flags d) ;;
       unpack_loop cfg fuel s srclen single tm1 (int_cast cfg (srcidx + n))
         result0) ;;
    Ok (i, result ++ r)).
  { rewrite unpack_count2_from_nil.
    destruct (unpack_count2 cfg _ _ _ [] _ _) as [[r n] | | |]; cbn [bind];
      try reflexivity.
    rewrite IH. rewrite (IH _ _ r).
    destruct (unpack_loop cfg fuel s srclen single tm1 _ [])
      as [[i r'] | | |]; cbn [bind]; try reflexivity.
    now rewrite app_assoc. }
  assert (C1 :
    ('(srcidx0, result0) <-
       unpack_count cfg (count_fuel srclen srcidx (count d)) s srclen (dir d)
         (size d) (flags d) (count d) srcidx result ;;
     (if single then Ok (srcidx0, result0)
      else unpack_loop cfg fuel s srclen single tm1 srcidx0 result0)) =
    '(i, r) <-
      ('(srcidx0, result0) <-
         unpack_count cfg (count_fuel srclen srcidx (count d)) s srclen (dir d)
           (size d) (flags d) (count d) srcidx [] ;;
       (if single then Ok (srcidx0, result0)
        else unpack_loop cfg fuel s srclen single tm1 srcidx0 result0)) ;;
    Ok (i, result ++ r)).
  { rewrite unpack_count_from_nil.
    destruct (unpack_count cfg _ s srclen _ _ _ _ _ [])
      as [[i r] | | |]; cbn [bind]; try reflexivity.
    destruct single; [reflexivity |].
    rewrite IH. rewrite (IH _ _ r).
    destruct (unpack_loop cfg fuel s srclen false tm1 _ [])
      as [[i' r'] | | |]; cbn [bind]; try reflexivity.
    now rewrite app_assoc. }
  destruct (dir d);
    try (destruct (has_flag (flags d) PACK_FLAG_COUNT2); [exact C2 | exact C1]).
  - unfold unpack_x.
    destruct (count d <? 0); cbn [bind]; [apply IH |].
    destruct (_ <? count d); cbn [bind]; [reflexivity | apply IH].
  - apply IH.
Qed.

(** ** Decoding from a position inside the string *)

Lemma skipn_rebase (s : bstr) (base k : Z) :
  0 <= base -> 0 <= k ->
  skipn (Z.to_nat (base + k)) s = skipn (Z.to_nat k) (skipn (Z.to_nat base) s).
Proof.
  intros Hb Hk. rewrite skipn_skipn. f_equal. lia.
Qed.

Lemma unpack_count_rebase cfg (s : bstr) (srclen base : Z) (d : pack_dir)
  (fl : Z) :
  supported cfg -> srclen + 1 < 2 ^ 31 -> 0 <= base <= srclen ->
  forall fuel count k,
    0 <= k -> base + k <= srclen + 1 ->
    unpack_count cfg fuel s srclen d (dir_size d) fl count (base + k) [] =
    '(i, r) <-
      unpack_count cfg fuel (skipn (Z.to_nat base) s) (srclen - base) d
        (dir_size d) fl count k [] ;;
    Ok (base + i, r).
Proof.
  intros Hc Hb Hbase.
  induction fuel as [| fuel IH]; intros count k Hk Hl; cbn [unpack_count].
  - destruct (count =? 0); reflexivity.
  - destruct (count =? 0); [reflexivity |].
    replace (srclen - base - k) with (srclen - (base + k)) by lia.
    destruct (Z.ltb_spec (srclen - (base + k)) (dir_size d)) as [L | G];
      [reflexivity |].
    rewrite skipn_rebase by lia.
    destruct (unpack_one cfg d _ _ [] fl) as [[r n] | | |] eqn:E;
      cbn [bind]; try reflexivity.
    assert (Hd : 0 <= dir_size d) by (destruct d; cbn; lia).
    apply unpack_one_consumed in E; [| assumption | lia | lia].
    destruct E as [Hn0 Hn].
    rewrite !int_cast_small by (auto; lia).
    rewrite unpack_count_from_nil.
    rewrite (unpack_count_from_nil cfg (skipn (Z.to_nat base) s)).
    replace (base + k + n) with (base + (k + n)) by lia.
    rewrite IH by lia.
    destruct (unpack_count cfg fuel (skipn (Z.to_nat base) s) _ d _ fl _ _ [])
      as [[i r'] | | |]; reflexivity.
Qed.

Lemma count_fuel_rebase (srclen base k count : Z) :
  count_fuel srclen (base + k) count = count_fuel (srclen - base) k count.
Proof. unfold count_fuel. f_equal. lia. Qed.

Lemma unpack_loop_rebase cfg (s : bstr) (srclen base : Z) (single : bool) :
  supported cfg -> srclen + 1 < 2 ^ 31 -> 0 <= base <= srclen ->
  forall fuel tm k,
    0 <= k -> base + k <= srclen + 1 ->
    unpack_loop cfg fuel s srclen single tm (base + k) [] =
    '(i, r) <-
      unpack_loop cfg fuel (skipn (Z.to_nat base) s) (srclen - base) single
        tm k [] ;;
    Ok (base + i, r).
Proof.
  intros Hc Hb Hbase.
  induction fuel as [| fuel IH]; intros tm k Hk Hl; cbn [unpack_loop];
    [reflexivity |].
  destruct (has_tmpl tm); [| reflexivity].
  destruct (read_tmpl cfg tm) as [[tm1 d] | | |] eqn:Er; cbn [bind];
    try reflexivity.
  destruct (read_tmpl_shape cfg tm tm1 d Er) as [Hs Hn].
  assert (C2 :
    ('(result, n) <-
       unpack_count2 cfg (dir d) (skipn (Z.to_nat (base + k)) s)
         (srclen - (base + k)) [] (count d) (flags d) ;;
     unpack_loop cfg fuel s srclen single tm1 (int_cast cfg (base + k + n))
       result) =
    '(i, r) <-
      ('(result, n) <-
         unpack_count2 cfg (dir d)
           (skipn (Z.to_nat k) (skipn (Z.to_nat base) s))
           (srclen - base - k) [] (count d) (flags d) ;;
       unpack_loop cfg fuel (skipn (Z.to_nat base) s) (srclen - base) single
         tm1 (int_cast cfg (k + n)) result) ;;
    Ok (base + i, r)).
  { rewrite skipn_rebase by lia.
    replace (srclen - base - k) with (srclen - (base + k)) by lia.
    destruct (unpack_count2 cfg _ _ _ [] _ _) as [[r n] | | |] eqn:E;
      cbn [bind]; try reflexivity.
    apply unpack_count2_consumed in E; [| assumption].
    rewrite !int_cast_small by (auto; lia).
    rewrite unpack_loop_from_nil.
    rewrite (unpack_loop_from_nil cfg (skipn (Z.to_nat base) s)).
    replace (base + k + n) with (base + (k + n)) by lia.
    rewrite IH by lia.
    destruct (unpack_loop cfg fuel (skipn (Z.to_nat base) s) _ single tm1 _ [])
      as [[i r'] | | |]; reflexivity. }
  assert (C1 :
    ('(srcidx, result) <-
       unpack_count cfg (count_fuel srclen (base + k) (count d)) s srclen
         (dir d) (size d) (flags d) (count d) (base + k) [] ;;
     (if single then Ok (srcidx, result)
      else unpack_loop cfg fuel s srclen single tm1 srcidx result)) =
    '(i, r) <-
      ('(srcidx, result) <-
         unpack_count cfg (count_fuel (srclen - base) k (count d))
           (skipn (Z.to_nat base) s) (srclen - base) (dir d) (size d)
           (flags d) (count d) k [] ;;
       (if single then Ok (srcidx, result)
        else unpack_loop cfg fuel (skipn (Z.to_nat base) s) (srclen - base)
               single tm1 srcidx result)) ;;
    Ok (base + i, r)).
  { rewrite count_fuel_rebase, Hs.
    rewrite unpack_count_rebase by (auto; lia).
    destruct (unpack_count cfg _ (skipn (Z.to_nat base) s) _ _ _ _ _ _ [])
      as [[i r] | | |] eqn:E; cbn [bind]; try reflexivity.
    destruct single; [reflexivity |].
    apply unpack_count_cursor in E; [| assumption | lia | unfold cursor_ok; lia].
    unfold cursor_ok in E.
    rewrite unpack_loop_from_nil.
    rewrite (unpack_loop_from_nil cfg (skipn (Z.to_nat base) s)).
    rewrite IH by lia.
    destruct (unpack_loop cfg fuel (skipn (Z.to_nat base) s) _ false tm1 _ [])
      as [[i' r'] | | |]; reflexivity. }
  destruct (dir d);
    try (destruct (has_flag (flags d) PACK_FLAG_COUNT2); [exact C2 | exact C1]).
  - replace (srclen - base - k) with (srclen - (base + k)) by lia.
    destruct (unpack_x [] _ [] _ _) as [n | | |] eqn:E; cbn [bind];
      try reflexivity.
    apply unpack_x_consumed in E; [| assumption].
    rewrite !int_cast_small by (auto; lia).
    replace (base + k + n) with (base + (k + n)) by lia.
    apply IH; lia.
  - apply IH; lia.
Qed.

(** ** Templates put one after the other *)

Lemma unpack_loop_app cfg (s : bstr) (srclen : Z) (t1 t2 : string) :
  ends_suffix (list_ascii_of_string t2) ->
  forall fuel i srcidx result,
    0 <= i <= Z.of_nat (String.length t1) ->
    Z.of_nat (String.length t1) - i < Z.of_nat fuel ->
    unpack_loop cfg (fuel + tmpl_fuel t2) s srclen false
      {| str := t1 ++ t2; idx := i |} srcidx result =
    '(srcidx', result') <-
      unpack_loop cfg fuel s srclen false {| str := t1; idx := i |}
        srcidx result ;;
    unpack_loop cfg (tmpl_fuel t2) s srclen false (prepare_tmpl t2)
      srcidx' result'.
Proof.
  intros Ht2.
  induction fuel as [| fuel IH]; intros i srcidx result Hi Hf; [lia |].
  destruct (Z.eq_dec i (Z.of_nat (String.length t1))) as [-> | Ne].
  - replace {| str := t1 ++ t2; idx := Z.of_nat (String.length t1) |}
      with {| str := t1 ++ t2; idx := Z.of_nat (String.length t1) + 0 |}
      by (f_equal; lia).
    rewrite unpack_loop_shift by lia.
    cbn [unpack_loop]. unfold has_tmpl, tlen. cbn [str idx].
    rewrite Z.ltb_irrefl. cbn [bind].
    apply unpack_loop_fuel; unfold tlen, tmpl_fuel, prepare_tmpl; cbn [str idx]; lia.
  - cbn [Nat.add unpack_loop].
    rewrite has_tmpl_app_inside by lia.
    assert (Hh : has_tmpl {| str := t1; idx := i |} = true).
    { unfold has_tmpl, tlen. cbn [str idx]. apply Z.ltb_lt. lia. }
    rewrite Hh.
    rewrite read_tmpl_app by first [assumption | lia].
    destruct (read_tmpl cfg {| str := t1; idx := i |}) as [[tm d] | | |] eqn:E;
      cbn [bind]; try reflexivity.
    pose proof (read_tmpl_within cfg {| str := t1; idx := i |} tm d
                  ltac:(unfold tlen; cbn [str idx]; lia) E) as Hw.
    apply read_tmpl_advances in E. cbn [str idx] in E. destruct E as [Es Ei].
    unfold tlen in Hw. cbn [str idx] in Hw.
    destruct tm as [st j]. cbn [str idx] in *. subst st.
    destruct (dir d).
    all: try (destruct (has_flag (flags d) PACK_FLAG_COUNT2);
              [destruct (unpack_count2 cfg _ _ _ _ _ _) as [[r n] | | |];
               cbn [bind]; [apply IH; lia | reflexivity ..]
              | destruct (unpack_count cfg _ _ _ _ _ _ _ _ _)
                  as [[n r] | | |];
                cbn [bind]; [apply IH; lia | reflexivity ..]]).
    + destruct (unpack_x _ _ _ _ _) as [n | | |]; cbn [bind];
        [apply IH; lia | reflexivity ..].
    + apply IH; lia.
Qed.

(** X16. Templates put one after the other decode one after the other.
    When [unpack] under the template [t1] ends with the cursor [n] inside
    the string and the array [l1], and [t2] does not begin with a digit, a
    star or a modifier, then [unpack] under [t1 ++ t2] is [l1] followed by
    what [unpack] under [t2] returns for the bytes from [n] on, and it
    raises what that raises. *)
Theorem unpack_templates_compose :
  forall cfg s t1 t2 n l1,
    supported cfg -> RSTRING_LEN s + 1 < 2 ^ 31 ->
    ends_suffix (list_ascii_of_string t2) ->
    unpack_run cfg s t1 false = Ok (n, l1) -> n <= RSTRING_LEN s ->
    _pack_unpack cfg s (t1 ++ t2) =
    l2 <- _pack_unpack cfg (skipn (Z.to_nat n) s) t2 ;; Ok (l1 ++ l2).
Proof.
  intros cfg s t1 t2 n l1 Hc Hb Ht2 Hr Hn.
  assert (H0 : 0 <= RSTRING_LEN s) by (unfold RSTRING_LEN; lia).
  assert (Hn0 : 0 <= n).
  { revert Hr. unfold unpack_run. rewrite int_cast_small by (auto; lia).
    intros Hr. apply unpack_loop_cursor in Hr; auto;
      unfold cursor_ok in *; lia. }
  unfold _pack_unpack, pack_unpack, unpack_run in *.
  rewrite int_cast_small in * by (auto; lia).
  assert (Hl : RSTRING_LEN (skipn (Z.to_nat n) s) = RSTRING_LEN s - n).
  { unfold RSTRING_LEN in *. rewrite length_skipn. lia. }
  rewrite Hl. rewrite int_cast_small by (auto; lia).
  rewrite (unpack_loop_fuel cfg s _ false (tmpl_fuel (t1 ++ t2))
             (tmpl_fuel t1 + tmpl_fuel t2)%nat)
    by (unfold tmpl_fuel, tlen, prepare_tmpl; cbn [str idx];
        rewrite ?string_length_app; lia).
  unfold prepare_tmpl at 1.
  rewrite (unpack_loop_app cfg s _ t1 t2 Ht2)
    by (unfold tmpl_fuel; lia).
  fold (prepare_tmpl t1). rewrite Hr. cbn [bind].
  rewrite unpack_loop_from_nil.
  replace n with (n + 0) at 1 by lia.
  rewrite unpack_loop_rebase by (auto; lia).
  destruct (unpack_loop cfg (tmpl_fuel t2) (skipn (Z.to_nat n) s) _ false _ 0 [])
    as [[i r] | | |]; reflexivity.
Qed.

Lemma unpack_templates_compose_witness :
  _pack_unpack cfg64 [1; 0; 2; 255; 65] ("vC" ++ "ca") =
  l2 <- _pack_unpack cfg64 (skipn (Z.to_nat 3) [1; 0; 2; 255; 65]) "ca" ;;
  Ok ([fixnum_value 1; fixnum_value 2] ++ l2).
Proof.
  apply (unpack_templates_compose cfg64 [1; 0; 2; 255; 65] "vC" "ca" 3
           [fixnum_value 1; fixnum_value 2] supported_cfg64).
  - vm_compute. reflexivity.
  - cbn. repeat split; discriminate.
  - vm_compute. reflexivity.
  - vm_compute. discriminate.
Defined.

(** ** The decoder of UTF-8 accepts the encoder's bytes only *)

Lemma continuation_inv (b : Z) :
  is_byte b -> Z.land (Z.land b 0xff) 0xc0 = 0x80 ->
  exists y, 0 <= y < 64 /\ b = 0x80 + y.
Proof.
  intros Hb H.
  pose proof (range_check
    (fun b => negb (Z.land (Z.land b 0xff) 0xc0 =? 0x80)
              || ((0x80 <=? b) && (b <? 0xC0))) 256 eq_refl b Hb) as R.
  cbv beta in R. rewrite H in R. cbn [Z.eqb Pos.eqb negb orb] in R.
  apply andb_prop in R. destruct R as [R1 R2].
  apply Z.leb_le in R1. apply Z.ltb_lt in R2.
  exists (b - 0x80). lia.
Qed.

Lemma utf8_tail_inv (n : nat) :
  forall p uv r,
    Forall is_byte p -> (n <= List.length p)%nat ->
    utf8_tail n p uv = Ok r ->
    exists ys,
      List.length ys = n /\ Forall (fun y => 0 <= y < 64) ys /\
      firstn n p = map (fun y => 0x80 + y) ys /\
      r = fold_left (fun u y => u * 64 + y) ys uv.
Proof.
  induction n as [| n IH]; intros p uv r Hp Hl.
  - cbn [utf8_tail]. intros [= <-]. exists []. repeat split. constructor.
  - destruct p as [| b p]; [cbn in Hl; lia |].
    pose proof (Forall_inv Hp) as Hb. pose proof (Forall_inv_tail Hp) as Hp'.
    cbn [utf8_tail hd tl].
    destruct (Z.eqb_spec (Z.land (Z.land b 0xff) 0xc0) 0x80) as [E | N];
      cbn [negb]; [| discriminate].
    destruct (continuation_inv b Hb E) as (y & Hy & ->).
    destruct (continuation_byte y Hy) as [_ H2]. rewrite H2.
    rewrite (lor_shiftl_low uv y 6) by (change (2 ^ 6) with 64; lia).
    change (2 ^ 6) with 64.
    intros H. apply IH in H; [| assumption | cbn [List.length] in Hl; lia].
    destruct H as (ys & L & F & P & R).
    exists (y :: ys). cbn [List.length firstn map fold_left].
    repeat split; [lia | now constructor | now rewrite P | exact R].
Qed.

Lemma lead_byte_cases (b : Z) :
  is_byte b ->
  0 <= b < 0x80 \/ 0x80 <= b < 0xC0 \/
  (exists a, 0 <= a < 32 /\ b = 0xC0 + a) \/
  (exists a, 0 <= a < 16 /\ b = 0xE0 + a) \/
  (exists a, 0 <= a < 8 /\ b = 0xF0 + a) \/
  (exists a, 0 <= a < 4 /\ b = 0xF8 + a) \/
  (exists a, 0 <= a < 2 /\ b = 0xFC + a) \/
  0xFE <= b < 0x100.
Proof.
  unfold is_byte. intros Hb.
  destruct (Z.lt_ge_cases b 0x80); [left; lia | right].
  destruct (Z.lt_ge_cases b 0xC0); [left; lia | right].
  destruct (Z.lt_ge_cases b 0xE0); [left; exists (b - 0xC0); lia | right].
  destruct (Z.lt_ge_cases b 0xF0); [left; exists (b - 0xE0); lia | right].
  destruct (Z.lt_ge_cases b 0xF8); [left; exists (b - 0xF0); lia | right].
  destruct (Z.lt_ge_cases b 0xFC); [left; exists (b - 0xF8); lia | right].
  destruct (Z.lt_ge_cases b 0xFE); [left; exists (b - 0xFC); lia | right].
  lia.
Qed.

Lemma utf8_to_uv_no_lead (b lenp : Z) (p : bstr) :
  0x80 <= b < 0xC0 \/ 0xFE <= b < 0x100 ->
  utf8_to_uv (b :: p) lenp
  = Raise E_ARGUMENT_ERROR "malformed UTF-8 character".
Proof.
  intros [Hb | Hb].
  - pose proof (range_check
      (fun b => (b <? 0x80) || (0xC0 <=? b)
                || (negb (Z.land (Z.land b 0xff) 0x80 =? 0)
                    && (Z.land (Z.land b 0xff) 0x40 =? 0))) 256 eq_refl b
      ltac:(lia)) as H.
    cbv beta in H.
    destruct (Z.ltb_spec b 0x80); [lia |].
    destruct (Z.leb_spec 0xC0 b); [lia |]. cbn [orb] in H.
    apply andb_prop in H. destruct H as [K1 K2].
    apply negb_true_iff in K1.
    unfold utf8_to_uv. cbn [hd]. rewrite K1, K2. reflexivity.
  - assert (C : b = 0xFE \/ b = 0xFF) by lia.
    destruct C as [-> | ->]; reflexivity.
Qed.

(** X17. [utf8_to_uv] accepts no other bytes than those [pack_utf8] stores.
    When it decodes a sequence of at most four bytes to [c], then [c] lies
    below 0x200000 and the bytes it has consumed are the bytes that
    [pack_utf8] stores for [c]: an overlong form is never decoded. *)
Theorem utf8_decoding_is_canonical :
  forall p lenp c n,
    Forall is_byte p -> 1 <= lenp <= RSTRING_LEN p ->
    utf8_to_uv p lenp = Ok (c, n) -> n <= 4 ->
    0 <= c < 0x200000 /\ firstn (Z.to_nat n) p = utf8_bytes c.
Proof.
  intros p lenp c n Hp Hl H Hn.
  destruct p as [| b p]; [cbn in Hl; lia |].
  pose proof (Forall_inv Hp) as Hb. pose proof (Forall_inv_tail Hp) as Hp'.
  unfold RSTRING_LEN in Hl. cbn [List.length] in Hl.
  destruct (lead_byte_cases b Hb)
    as [B | [B | [(a & A & ->) | [(a & A & ->) | [(a & A & ->)
        | [(a & A & ->) | [(a & A & ->) | B]]]]]]].
  - rewrite utf8_to_uv_lead1 in H by assumption. injection H as <- <-.
    split; [lia |]. unfold utf8_bytes.
    destruct (Z.ltb_spec b 0x80); [reflexivity | lia].
  - rewrite utf8_to_uv_no_lead in H by auto. discriminate H.
  - rewrite utf8_to_uv_lead2 in H by assumption.
    destruct (Z.gtb_spec 2 lenp) as [G | L]; [discriminate H |].
    destruct (utf8_tail 1 p a) as [uv | | |] eqn:E; cbn [bind] in H;
      try discriminate H.
    apply utf8_tail_inv in E; [| assumption | lia].
    destruct E as (ys & Ly & Fy & Py & ->).
    destruct ys as [| y1 [| ? ?]]; try discriminate Ly.
    pose proof (Forall_inv Fy) as Y1. cbv beta in Y1.
    cbn [fold_left] in H.
    destruct (Z.ltb_spec (a * 64 + y1) 0x80); [discriminate H |].
    injection H as <- <-. split; [lia |].
    change (Z.to_nat 2) with 2%nat. cbn [firstn]. cbn [firstn map] in Py.
    rewrite Py. unfold utf8_bytes.
    destruct (Z.ltb_spec (a * 64 + y1) 0x80); [lia |].
    destruct (Z.ltb_spec (a * 64 + y1) 0x800); [| lia].
    repeat f_equal; Z.div_mod_to_equations; lia.
  - rewrite utf8_to_uv_lead3 in H by assumption.
    destruct (Z.gtb_spec 3 lenp) as [G | L]; [discriminate H |].
    destruct (utf8_tail 2 p a) as [uv | | |] eqn:E; cbn [bind] in H;
      try discriminate H.
    apply utf8_tail_inv in E; [| assumption | lia].
    destruct E as (ys & Ly & Fy & Py & ->).
    destruct ys as [| y1 [| y2 [| ? ?]]]; try discriminate Ly.
    pose proof (Forall_inv Fy) as Y1. cbv beta in Y1.
    pose proof (Forall_inv (Forall_inv_tail Fy)) as Y2. cbv beta in Y2.
    cbn [fold_left] in H.
    destruct (Z.ltb_spec ((a * 64 + y1) * 64 + y2) 0x800); [discriminate H |].
    injection H as <- <-. split; [lia |].
    change (Z.to_nat 3) with 3%nat. cbn [firstn]. cbn [firstn map] in Py.
    rewrite Py. unfold utf8_bytes.
    destruct (Z.ltb_spec ((a * 64 + y1) * 64 + y2) 0x80); [lia |].
    destruct (Z.ltb_spec ((a * 64 + y1) * 64 + y2) 0x800); [lia |].
    destruct (Z.ltb_spec ((a * 64 + y1) * 64 + y2) 0x10000); [| lia].
    repeat f_equal; Z.div_mod_to_equations; lia.
  - rewrite utf8_to_uv_lead4 in H by assumption.
    destruct (Z.gtb_spec 4 lenp) as [G | L]; [discriminate H |].
    destruct (utf8_tail 3 p a) as [uv | | |] eqn:E; cbn [bind] in H;
      try discriminate H.
    apply utf8_tail_inv in E; [| assumption | lia].
    destruct E as (ys & Ly & Fy & Py & ->).
    destruct ys as [| y1 [| y2 [| y3 [| ? ?]]]]; try discriminate Ly.
    pose proof (Forall_inv Fy) as Y1. cbv beta in Y1.
    pose proof (Forall_inv (Forall_inv_tail Fy)) as Y2. cbv beta in Y2.
    pose proof (Forall_inv (Forall_inv_tail (Forall_inv_tail Fy))) as Y3.
    cbv beta in Y3.
    cbn [fold_left] in H.
    destruct (Z.ltb_spec (((a * 64 + y1) * 64 + y2) * 64 + y3) 0x10000);
      [discriminate H |].
    injection H as <- <-. split; [lia |].
    change (Z.to_nat 4) with 4%nat. cbn [firstn]. cbn [firstn map] in Py.
    rewrite Py. unfold utf8_bytes.
    destruct (Z.ltb_spec (((a * 64 + y1) * 64 + y2) * 64 + y3) 0x80); [lia |].
    destruct (Z.ltb_spec (((a * 64 + y1) * 64 + y2) * 64 + y3) 0x800); [lia |].
    destruct (Z.ltb_spec (((a * 64 + y1) * 64 + y2) * 64 + y3) 0x10000);
      [lia |].
    repeat f_equal; Z.div_mod_to_equations; lia.
  - rewrite utf8_to_uv_lead5 in H by assumption.
    destruct (5 >? lenp); [discriminate H |].
    destruct (utf8_tail 4 p a) as [uv | | |]; cbn [bind] in H;
      try discriminate H.
    destruct (uv <? 0x200000); [discriminate H |]. injection H as _ <-. lia.
  - rewrite utf8_to_uv_lead6 in H by assumption.
    destruct (6 >? lenp); [discriminate H |].
    destruct (utf8_tail 5 p a) as [uv | | |]; cbn [bind] in H;
      try discriminate H.
    destruct (uv <? 0x4000000); [discriminate H |]. injection H as _ <-. lia.
  - rewrite utf8_to_uv_no_lead in H by auto. discriminate H.
Qed.

Lemma utf8_decoding_is_canonical_witness :
  0 <= 8364 < 0x200000 /\
  firstn (Z.to_nat 3) [0xE2; 0x82; 0xAC; 0x41] = utf8_bytes 8364.
Proof.
  apply (utf8_decoding_is_canonical [0xE2; 0x82; 0xAC; 0x41] 4 8364 3).
  - repeat constructor; unfold is_byte; lia.
  - vm_compute. split; discriminate.
  - reflexivity.
  - lia.
Defined.

(** ** The loops of pack come to an end where [_int] is wider than [int] *)

Lemma poke_length (str : bstr) :
  forall i b str', poke str i b = Ok str' -> List.length str' = List.length str.
Proof.
  induction str as [| hd tl IH]; intros i b str'; cbn [poke];
    [discriminate |].
  destruct i as [| i]; [intros [= <-]; reflexivity |].
  destruct (poke tl i b) as [tl' | | |] eqn:E; cbn [bind]; try discriminate.
  intros [= <-]. cbn [List.length]. f_equal. eapply IH. exact E.
Qed.

Lemma poke_returns (str : bstr) :
  forall i b, poke str i b <> OutOfFuel.
Proof.
  induction str as [| hd tl IH]; intros i b; cbn [poke]; [discriminate |].
  destruct i as [| i]; [discriminate |].
  specialize (IH i b).
  destruct (poke tl i b); cbn [bind]; congruence.
Qed.

Lemma poke_all_returns (bs : list Z) :
  forall str idx,
    poke_all str idx bs <> OutOfFuel /\
    forall str', poke_all str idx bs = Ok str' ->
                 List.length str' = List.length str.
Proof.
  induction bs as [| b bs IH]; intros str idx; cbn [poke_all].
  - split; [discriminate | intros str' [= <-]; reflexivity].
  - destruct (idx <? 0); [split; discriminate |].
    pose proof (poke_returns str (Z.to_nat idx) b) as Hp.
    destruct (poke str (Z.to_nat idx) b) as [str1 | | |] eqn:E; cbn [bind];
      try (split; [congruence | discriminate]).
    apply poke_length in E. destruct (IH str1 (idx + 1)) as [H1 H2].
    split; [exact H1 |]. intros str' H. rewrite (H2 str' H). exact E.
Qed.

(** A request between the least [int] and the capacity is an [_int]. *)
Lemma mrb_int_cast_request cfg (x : Z) :
  supported cfg -> - 2 ^ 31 <= x <= capacity cfg -> mrb_int_cast cfg x = x.
Proof.
  intros Hc Hx. destruct (capacity_bounds cfg Hc) as [B E].
  destruct Hc as (_ & Hi & _). unfold mrb_int_cast.
  apply sint_small; [destruct Hi as [-> | ->]; lia | lia].
Qed.

Lemma str_len_ensure_returns cfg (str : bstr) (len : Z) :
  supported cfg -> str <> [] -> len <= capacity cfg ->
  str_len_ensure cfg str len <> OutOfFuel /\
  forall str', str_len_ensure cfg str len = Ok str' -> str' <> [].
Proof.
  intros Hc Hs Hl. destruct (Z.lt_ge_cases len 0) as [L | G].
  - unfold str_len_ensure. apply Z.ltb_lt in L. rewrite L.
    split; discriminate.
  - destruct (str_len_ensure_ok cfg str len Hc Hs ltac:(lia))
      as (zeros & -> & _).
    split; [discriminate |]. intros str' [= <-].
    destruct str; [congruence | discriminate].
Qed.

Lemma emit_returns cfg (str : bstr) (sidx need : Z) (bs : list Z) :
  supported cfg -> str <> [] -> - 2 ^ 31 <= sidx + need <= capacity cfg ->
  emit cfg str sidx need bs <> OutOfFuel /\
  forall str' n, emit cfg str sidx need bs = Ok (str', n) -> str' <> [].
Proof.
  intros Hc Hs Hq. unfold emit. rewrite mrb_int_cast_request by assumption.
  destruct (str_len_ensure_returns cfg str (sidx + need) Hc Hs ltac:(lia))
    as [H1 H2].
  destruct (str_len_ensure cfg str _) as [str1 | | |]; cbn [bind];
    try (split; [congruence | discriminate]).
  specialize (H2 str1 eq_refl).
  destruct (poke_all_returns bs str1 sidx) as [H3 H4].
  destruct (poke_all str1 sidx bs) as [str2 | | |]; cbn [bind];
    try (split; [congruence | discriminate]).
  split; [discriminate |]. intros str' n [= <- _].
  specialize (H4 str2 eq_refl).
  destruct str2; [destruct str1; [congruence | discriminate] | discriminate].
Qed.

Lemma int_cast_range cfg (x : Z) :
  sizeof_int cfg = 4 -> - 2 ^ 31 <= int_cast cfg x < 2 ^ 31.
Proof.
  intros E. unfold int_cast, sint. rewrite E.
  change (8 * 4) with 32. change (32 - 1) with 31.
  pose proof (Z.mod_pos_bound (x + 2 ^ 31) (2 ^ 32) ltac:(lia)). lia.
Qed.

(** The room that [pack_m] asks for. *)
Lemma pack_m_request (srclen count : Z) :
  0 <= srclen < 2 ^ 31 ->
  let dstlen := Z.quot (srclen + 2) 3 * 4 in
  0 <= (if count >? 0
        then dstlen + Z.quot srclen count
             + (if Z.rem srclen count =? 0 then 0 else 1)
        else dstlen) < 2 ^ 34.
Proof.
  intros Hs dstlen. subst dstlen.
  rewrite Z.quot_div_nonneg by lia.
  pose proof (Z.div_pos (srclen + 2) 3 ltac:(lia) ltac:(lia)).
  assert (U : (srclen + 2) / 3 <= srclen + 2).
  { apply Z.div_le_upper_bound; lia. }
  destruct (Z.gtb_spec count 0) as [G | L]; [| lia].
  rewrite Z.quot_div_nonneg by lia.
  pose proof (Z.div_pos srclen count ltac:(lia) ltac:(lia)).
  assert (V : srclen / count <= srclen).
  { apply Z.div_le_upper_bound; nia. }
  destruct (_ =? 0); lia.
Qed.

(** On a build whose [_int] has 64 bits, a write position that is an [int]
    of 32 bits, a count that [read_tmpl] returns and a string shorter than
    2^31 bytes keep every request within the capacity. *)
Lemma pack_one_returns cfg (d : pack_dir) (o : value) (result : bstr)
  (ridx count fl : Z) :
  supported cfg -> MRB_INT_BIT cfg = 64 ->
  result <> [] -> - 2 ^ 31 <= ridx < 2 ^ 31 -> -1 <= count < 2 ^ 31 ->
  RSTRING_LEN (RSTRING o) < 2 ^ 31 ->
  pack_one cfg d o result ridx count fl <> OutOfFuel /\
  forall result' n,
    pack_one cfg d o result ridx count fl = Ok (result', n) -> result' <> [].
Proof.
  intros Hc Hb Hr Hi Hn Hs.
  assert (Q : capacity cfg = 2 ^ 62) by (unfold capacity; now rewrite Hb).
  assert (H0 : 0 <= RSTRING_LEN (RSTRING o)) by (unfold RSTRING_LEN; lia).
  assert (T : forall n : Z,
            @Ok (bstr * Z) (result, n) <> OutOfFuel /\
            forall result' n', Ok (result, n) = Ok (result', n') ->
                               result' <> []).
  { intros n. split; [discriminate | intros ? ? [= <- _]; exact Hr]. }
  assert (E : forall need bs,
            0 <= need < 2 ^ 34 ->
            emit cfg result ridx need bs <> OutOfFuel /\
            forall result' n, emit cfg result ridx need bs = Ok (result', n) ->
                              result' <> []).
  { intros need bs Hq. apply emit_returns; auto. lia. }
  destruct d; cbn [pack_one]; try apply T;
    unfold pack_c, pack_s, pack_l, pack_q, pack_double, pack_float;
    try (apply E; lia);
    try (destruct (has_flag _ _); apply E; lia).
  - unfold pack_utf8. destruct (_float_p o); [split; discriminate |].
    repeat (destruct (_ <? _); [apply E; lia |]).
    split; discriminate.
  - unfold pack_a. destruct (Z.eqb_spec count 0); [apply T |].
    destruct (Z.eqb_spec count (-1)).
    + destruct (has_flag fl PACK_FLAG_Z); apply E; lia.
    + destruct (Z.ltb_spec count (RSTRING_LEN (RSTRING o))); apply E; lia.
  - unfold pack_h. destruct (nibble_shifts fl) as [ashift bshift].
    destruct (Z.eqb_spec count (-1)).
    + apply E; lia.
    + destruct (Z.gtb_spec (RSTRING_LEN (RSTRING o)) count); apply E; lia.
  - unfold pack_m. destruct (_ =? 0); [apply T |].
    apply E. apply pack_m_request. lia.
Qed.

Lemma coerce_returns cfg (ty : pack_type) (o : value) :
  coerce cfg ty o <> OutOfFuel.
Proof.
  destruct ty; cbn [coerce].
  - unfold _to_int. destruct o; try discriminate.
    destruct (float_trunc d); [destruct (FIXABLE cfg z) |]; discriminate.
  - destruct (negb (_float_p o)); [| discriminate].
    unfold _to_flo. destruct o; discriminate.
  - destruct (negb (_string_p o)); discriminate.
  - discriminate.
Qed.

(** The conversion of an element hands on no longer string than it was
    given. *)
Lemma coerce_string_length cfg (ty : pack_type) (o o' : value) :
  coerce cfg ty o = Ok o' ->
  RSTRING_LEN (RSTRING o') <= RSTRING_LEN (RSTRING o).
Proof.
  assert (Z0 : forall s : bstr, 0 <= RSTRING_LEN s)
    by (intros s; unfold RSTRING_LEN; lia).
  destruct ty; cbn [coerce].
  - unfold _to_int. destruct o; try discriminate.
    + intros [= <-]. lia.
    + destruct (float_trunc d); [destruct (FIXABLE cfg z) |]; try discriminate.
      intros [= <-]. apply Z0.
  - destruct (negb (_float_p o)); [| intros [= <-]; lia].
    unfold _to_flo. destruct o; cbn [bind]; try discriminate;
      intros [= <-]; apply Z0.
  - destruct (negb (_string_p o)); [discriminate | intros [= <-]; lia].
  - intros [= <-]. lia.
Qed.

Lemma pack_values_returns cfg (d : pack_dir) (ty : pack_type) (fl : Z) :
  supported cfg -> MRB_INT_BIT cfg = 64 -> sizeof_int cfg = 4 ->
  forall rest count aidx ridx result,
    Forall (fun o => RSTRING_LEN (RSTRING o) < 2 ^ 31) rest ->
    result <> [] -> - 2 ^ 31 <= ridx < 2 ^ 31 -> -1 <= count < 2 ^ 31 ->
    pack_values cfg d ty fl rest count aidx ridx result <> OutOfFuel /\
    forall a r result',
      pack_values cfg d ty fl rest count aidx ridx result = Ok (a, r, result')
      -> result' <> [] /\ - 2 ^ 31 <= r < 2 ^ 31.
Proof.
  intros Hc Hb Hz.
  induction rest as [| o rest IH]; intros count aidx ridx result Ho Hr Hi Hn;
    cbn [pack_values].
  - split; [discriminate | intros ? ? ? [= _ <- <-]; auto].
  - destruct (_ && _);
      [split; [discriminate | intros ? ? ? [= _ <- <-]; auto] |].
    pose proof (Forall_inv Ho) as Hs. pose proof (Forall_inv_tail Ho) as Ho'.
    cbv beta in Hs.
    pose proof (coerce_returns cfg ty o) as Hco.
    destruct (coerce cfg ty o) as [o' | | |] eqn:Eo; cbn [bind];
      try (split; [congruence | discriminate]).
    apply coerce_string_length in Eo.
    destruct (pack_one_returns cfg d o' result ridx count fl Hc Hb Hr Hi Hn
                ltac:(lia)) as [H1 H2].
    destruct (pack_one cfg d o' result ridx count fl) as [[result1 n] | | |];
      cbn [bind]; try (split; [congruence | discriminate]).
    specialize (H2 result1 n eq_refl).
    pose proof (int_cast_range cfg (ridx + n) Hz) as Hi'.
    assert (Hn' : -1 <= (if count >? 0 then count - 1 else count) < 2 ^ 31).
    { destruct (Z.gtb_spec count 0); lia. }
    destruct d; try (apply IH; assumption).
    split; [discriminate | intros ? ? ? [= _ <- <-]; auto].
Qed.

Lemma read_suffix_returns cfg t :
  forall s indigits n count flags,
    read_suffix cfg t s indigits n count flags <> OutOfFuel.
Proof.
  induction s as [| ch s IH]; intros indigits n count flags;
    cbn [read_suffix]; [discriminate |].
  destruct (isdigit ch).
  - destruct indigits; [destruct (_ <? 0); [discriminate |] |]; apply IH.
  - destruct (Ascii.eqb ch "*"); [apply IH |].
    destruct (is_modifier ch); [| discriminate].
    destruct (negb _); [discriminate |].
    destruct (_ || _); [apply IH |].
    destruct (Ascii.eqb ch "<"); apply IH.
Qed.

Lemma resolve_alias_returns cfg (t : ascii) : resolve_alias cfg t <> OutOfFuel.
Proof.
  unfold resolve_alias.
  repeat match goal with
         | |- context [if ?b then _ else _] => destruct b
         | |- context [match ?x with _ => _ end] => destruct x
         end; discriminate.
Qed.

Lemma read_tmpl_returns cfg (tm : tmpl) : read_tmpl cfg tm <> OutOfFuel.
Proof.
  unfold read_tmpl.
  pose proof (resolve_alias_returns cfg (nth (Z.to_nat (idx tm)) (tptr tm) zero))
    as Ha.
  destruct (resolve_alias cfg _) as [c | | |]; cbn [bind]; try congruence.
  destruct (directive_of c) as [[[d ty] sz] fl].
  pose proof (read_suffix_returns cfg c
                (skipn (Z.to_nat (idx tm + 1)) (tptr tm)) false (idx tm + 1) 1
                fl) as Hs.
  destruct (read_suffix cfg c _ false _ 1 fl) as [[[n cnt] f] | | |];
    cbn [bind]; congruence.
Qed.

(** The count that the suffix loop returns is the consume-all sentinel or an
    [int] that is not negative. *)
Lemma read_suffix_count_range cfg t :
  sizeof_int cfg = 4 ->
  forall s indigits n count flags n' count' flags',
    read_suffix cfg t s indigits n count flags = Ok (n', count', flags') ->
    -1 <= count < 2 ^ 31 -> -1 <= count' < 2 ^ 31.
Proof.
  intros Hz.
  induction s as [| ch s IH]; intros indigits n count flags n' count' flags';
    cbn [read_suffix].
  - intros [= _ <- _]. auto.
  - destruct (isdigit ch) eqn:Hd.
    + destruct indigits.
      * pose proof (int_cast_range cfg (count * 10 + (chr ch - chr "0")) Hz)
          as R.
        destruct (Z.ltb_spec (int_cast cfg (count * 10 + (chr ch - chr "0"))) 0)
          as [L | G]; [discriminate |].
        intros H _. apply IH in H; [exact H | lia].
      * pose proof (isdigit_value ch Hd) as R.
        intros H _. apply IH in H; [exact H | lia].
    + destruct (Ascii.eqb ch "*").
      * intros H _. apply IH in H; [exact H | lia].
      * destruct (is_modifier ch); [| intros [= _ <- _]; auto].
        destruct (negb _); [discriminate |].
        destruct (_ || _); [| destruct (Ascii.eqb ch "<")]; apply IH.
Qed.

Lemma read_tmpl_count_range cfg (tm tm' : tmpl) (d : directive) :
  sizeof_int cfg = 4 -> read_tmpl cfg tm = Ok (tm', d) ->
  -1 <= count d < 2 ^ 31.
Proof.
  intros Hz. unfold read_tmpl.
  destruct (resolve_alias cfg _) as [c | | |]; cbn [bind]; try discriminate.
  destruct (directive_of c) as [[[d0 ty] sz] fl].
  destruct (read_suffix cfg c _ false _ 1 fl) as [[[n cnt] f] | | |] eqn:E;
    cbn [bind]; try discriminate.
  intros [= _ <-]. cbn [count].
  apply (read_suffix_count_range cfg c Hz _ _ _ _ _ _ _ _ E). lia.
Qed.

Lemma pack_x_returns cfg (result : bstr) (ridx count fl : Z) :
  supported cfg -> MRB_INT_BIT cfg = 64 ->
  result <> [] -> - 2 ^ 31 <= ridx < 2 ^ 31 -> -1 <= count < 2 ^ 31 ->
  pack_x cfg nil_value result ridx count fl <> OutOfFuel /\
  forall result' n,
    pack_x cfg nil_value result ridx count fl = Ok (result', n) ->
    result' <> [].
Proof.
  intros Hc Hb Hr Hi Hn. unfold pack_x. destruct (Z.ltb_spec count 0);
    [split; [discriminate | intros ? ? [= <- _]; exact Hr] |].
  apply emit_returns; auto. unfold capacity. rewrite Hb. lia.
Qed.

Lemma Forall_skipn {A : Type} (P : A -> Prop) (l : list A) :
  Forall P l -> forall n, Forall P (skipn n l).
Proof.
  intros H n. revert l H.
  induction n as [| n IH]; intros l H; [exact H |].
  destruct l as [| x l]; [exact H |].
  cbn [skipn]. apply IH. now inversion H.
Qed.

Lemma pack_loop_returns cfg (ary : list value) :
  supported cfg -> MRB_INT_BIT cfg = 64 -> sizeof_int cfg = 4 ->
  Forall (fun o => RSTRING_LEN (RSTRING o) < 2 ^ 31) ary ->
  forall fuel tm aidx ridx result,
    0 <= idx tm -> Z.max 0 (tlen tm - idx tm) < Z.of_nat fuel ->
    result <> [] -> - 2 ^ 31 <= ridx < 2 ^ 31 ->
    pack_loop cfg fuel ary tm aidx ridx result <> OutOfFuel.
Proof.
  intros Hc Hb Hz Ho.
  induction fuel as [| fuel IH]; intros tm aidx ridx result Hi Hf Hr Hx;
    [lia |].
  cbn [pack_loop]. unfold has_tmpl.
  destruct (Z.ltb_spec (idx tm) (tlen tm)) as [L | G]; [| discriminate].
  pose proof (read_tmpl_returns cfg tm) as Ht.
  destruct (read_tmpl cfg tm) as [[tm1 d] | | |] eqn:E; cbn [bind];
    try congruence.
  pose proof (read_tmpl_count_range cfg tm tm1 d Hz E) as Hn.
  apply read_tmpl_advances in E. destruct E as [Es Ei].
  assert (Hl : tlen tm1 = tlen tm) by (unfold tlen; now rewrite Es).
  assert (V :
    ('(aidx0, ridx0, result0) <-
       pack_values cfg (dir d) (type d) (flags d) (skipn (Z.to_nat aidx) ary)
         (count d) aidx ridx result ;;
     (if ridx0 <? 0
      then Raise E_RANGE_ERROR "negative (or overflowed) template size"
      else pack_loop cfg fuel ary tm1 aidx0 ridx0 result0)) <> OutOfFuel).
  { destruct (pack_values_returns cfg (dir d) (type d) (flags d) Hc Hb Hz
                (skipn (Z.to_nat aidx) ary) (count d) aidx ridx result
                (Forall_skipn _ _ Ho _) Hr Hx Hn)
      as [H1 H2].
    destruct (pack_values cfg _ _ _ _ _ _ _ _) as [[[a r] res] | | |];
      cbn [bind]; try congruence.
    destruct (H2 a r res eq_refl) as [H3 H4].
    destruct (r <? 0); [discriminate |].
    apply IH; [lia | lia | exact H3 | exact H4]. }
  destruct (dir d); try exact V.
  - destruct (pack_x_returns cfg result ridx (count d) (flags d) Hc Hb Hr Hx Hn)
      as [H1 H2].
    destruct (pack_x cfg _ _ _ _ _) as [[res n] | | |]; cbn [bind];
      try congruence.
    apply IH; [lia | lia | eapply H2; reflexivity
               | apply int_cast_range; exact Hz].
  - apply IH; [lia | lia | exact Hr | exact Hx].
Qed.

(** X18. [pack] comes to an end on a build whose [int] has 32 bits and whose
    [_int] has 64, for every template and every array whose strings are
    shorter than 2^31 bytes.  The template loop reads at least one character
    of the template at each round and the loop over the values ends with the
    array.  The doubling loop of [str_len_ensure] ends because the output
    string, 128 bytes at the start, is never empty and because no request
    comes near [MRB_INT_MAX]: the write position is an [int], a count is
    below 2^31, and what one directive stores for one value stays below
    2^34 bytes.  So the call returns a string, raises, or makes a store
    outside the string. *)
Theorem pack_always_returns :
  forall cfg ary template,
    supported cfg -> sizeof_int cfg = 4 -> MRB_INT_BIT cfg = 64 ->
    Forall (fun o => RSTRING_LEN (RSTRING o) < 2 ^ 31) ary ->
    _pack_pack cfg ary template <> OutOfFuel.
Proof.
  intros cfg ary template Hc Hz Hb Ho. unfold _pack_pack, pack_run.
  pose proof (pack_loop_returns cfg ary Hc Hb Hz Ho (tmpl_fuel template)
                (prepare_tmpl template) 0 0 (repeat 0 128)) as H.
  destruct (pack_loop cfg _ ary _ 0 0 _) as [[[a r] res] | | |];
    cbn [bind]; try discriminate.
  intros _. apply H; unfold prepare_tmpl, tlen, tmpl_fuel; cbn [str idx];
    [lia | lia | discriminate | lia | reflexivity].
Qed.

Lemma pack_always_returns_witness :
  _pack_pack cfg64
    [fixnum_value 65; str_value (bytes_of_string "abc"); nil_value]
    "Cx300m*U"
  <> OutOfFuel.
Proof.
  apply (pack_always_returns cfg64
           [fixnum_value 65; str_value (bytes_of_string "abc"); nil_value]
           "Cx300m*U" supported_cfg64 eq_refl eq_refl).
  repeat constructor.
Defined.

(** ** The loops of unpack come to an end, but for base64 *)

Lemma unpack_one_returns cfg (d : pack_dir) (sptr : bstr) (slen fl : Z)
  (result : list value) :
  unpack_one cfg d sptr slen result fl <> OutOfFuel.
Proof.
  destruct d; cbn [unpack_one]; try discriminate.
  - unfold unpack_c. destruct (has_flag _ _); discriminate.
  - unfold unpack_l. destruct (has_flag _ _); destruct (_ && _); discriminate.
  - unfold unpack_q. destruct (if has_flag _ _ then _ else _) as [pos step].
    destruct (has_flag _ _); destruct (negb _); discriminate.
  - unfold unpack_utf8. destruct (slen =? 0); [discriminate |].
    unfold utf8_to_uv.
    destruct (_ =? 0); [discriminate |].
    destruct (_ =? 0); [discriminate |].
    destruct (if _ =? 0 then _ else _) as [[n uv] |]; [| discriminate].
    destruct (n >? slen); [discriminate |].
    assert (T : forall k p u, utf8_tail k p u <> OutOfFuel).
    { induction k as [| k IH]; intros p u; cbn [utf8_tail]; [discriminate |].
      destruct (negb _); [discriminate | apply IH]. }
    specialize (T (Z.to_nat (n - 1)) (tl sptr) uv).
    destruct (utf8_tail _ _ _) as [uv' | | |]; cbn [bind]; try congruence.
    destruct (uv' <? _); discriminate.
  - unfold unpack_m. destruct (_str_new_size _) eqn:E; cbn [bind];
      try discriminate.
    + destruct (unpack_m_loop _ _ _ _ _ _) as [dst n]. discriminate.
    + unfold _str_new_size in E. destruct (_ <? 0); discriminate.
Qed.

Lemma unpack_one_progress cfg (d : pack_dir) (sptr : bstr) (slen fl : Z)
  (result result' : list value) (n : Z) :
  supported cfg -> d <> PACK_DIR_BASE64 -> 0 <= slen < 2 ^ 31 ->
  unpack_one cfg d sptr slen result fl = Ok (result', n) -> 1 <= n.
Proof.
  intros Hc Hd Hs. destruct d; cbn [unpack_one]; try discriminate;
    try congruence.
  - unfold unpack_c. destruct (has_flag _ _); intros H; apply ok_snd in H; lia.
  - unfold unpack_s. intros H; apply ok_snd in H; lia.
  - unfold unpack_l. destruct (has_flag _ _); destruct (_ && _);
      try discriminate; intros H; apply ok_snd in H; lia.
  - unfold unpack_q. destruct (if has_flag _ _ then _ else _) as [pos step].
    destruct (has_flag _ _); destruct (negb _);
      try discriminate; intros H; apply ok_snd in H; lia.
  - unfold unpack_utf8. destruct (Z.eqb_spec slen 0);
      [intros H; apply ok_snd in H; lia |].
    destruct (utf8_to_uv sptr slen) as [[uv lenp] | | |] eqn:E; cbn [bind];
      try discriminate.
    apply utf8_to_uv_length in E; [| lia].
    intros H; apply ok_snd in H. subst n.
    rewrite int_cast_small by (auto; lia). lia.
  - unfold unpack_double. intros H; apply ok_snd in H; lia.
  - unfold unpack_float. intros H; apply ok_snd in H; lia.
Qed.

Lemma unpack_count_returns cfg (s : bstr) (srclen : Z) (d : pack_dir)
  (fl : Z) :
  supported cfg -> srclen + 1 < 2 ^ 31 -> d <> PACK_DIR_BASE64 ->
  forall fuel count srcidx result,
    -1 <= count -> cursor_ok srclen srcidx ->
    (if count <? 0 then srclen - srcidx + 2 else count) <= Z.of_nat fuel ->
    unpack_count cfg fuel s srclen d (dir_size d) fl count srcidx result
    <> OutOfFuel.
Proof.
  intros Hc Hb Hd. unfold cursor_ok.
  assert (Hsz : 0 <= dir_size d) by (destruct d; cbn; lia).
  induction fuel as [| fuel IH]; intros count srcidx result Hn Hi Hf;
    cbn [unpack_count].
  - destruct (Z.eqb_spec count 0) as [Z0 | N0]; [discriminate |].
    destruct (Z.ltb_spec count 0); lia.
  - destruct (Z.eqb_spec count 0) as [Z0 | N0]; [discriminate |].
    destruct (Z.ltb_spec (srclen - srcidx) (dir_size d)) as [L | G];
      [discriminate |].
    pose proof (unpack_one_returns cfg d (skipn (Z.to_nat srcidx) s)
                  (srclen - srcidx) fl result) as Hr.
    destruct (unpack_one cfg d _ _ result fl) as [[r n] | | |] eqn:E;
      cbn [bind]; try congruence.
    assert (Hp : 1 <= n).
    { apply (unpack_one_progress cfg d _ _ _ _ _ _ Hc Hd) in E; [exact E |].
      lia. }
    apply unpack_one_consumed in E; [| assumption | lia | lia].
    destruct E as [_ Hu].
    rewrite int_cast_small by (auto; lia).
    apply IH.
    + destruct (Z.gtb_spec count 0); lia.
    + lia.
    + destruct (Z.gtb_spec count 0); destruct (Z.ltb_spec count 0);
        destruct (Z.ltb_spec (count - 1) 0); lia.
Qed.

Lemma unpack_count2_returns cfg (d : pack_dir) (sptr : bstr)
  (slen count fl : Z) (result : list value) :
  unpack_count2 cfg d sptr slen result count fl <> OutOfFuel.
Proof.
  destruct d; cbn [unpack_count2]; try discriminate.
  - unfold unpack_a.
    destruct (if (_ >=? 0) && _ then _ else _) as [copylen slen'].
    discriminate.
  - unfold unpack_h. destruct (nibble_shifts fl) as [ashift bshift].
    destruct (_str_new_size _) eqn:E; cbn [bind]; try discriminate.
    + destruct (unpack_h_loop _ _ _ _ _) as [ds n]. discriminate.
    + unfold _str_new_size in E. destruct (_ <? 0); discriminate.
Qed.

(** The character that [read_tmpl] has read as a base64 directive. *)
Lemma read_tmpl_base64 cfg (tm tm' : tmpl) (d : directive) :
  read_tmpl cfg tm = Ok (tm', d) -> dir d = PACK_DIR_BASE64 ->
  nth (Z.to_nat (idx tm)) (tptr tm) zero = "m"%char.
Proof.
  unfold read_tmpl.
  set (t := nth (Z.to_nat (idx tm)) (tptr tm) zero).
  destruct (resolve_alias cfg t) as [c | | |] eqn:Ea; cbn [bind];
    try discriminate.
  destruct (directive_of c) as [[[d0 ty] sz] fl] eqn:Ed.
  destruct (read_suffix cfg c _ false _ 1 fl) as [[[n cnt] f] | | |];
    cbn [bind]; try discriminate.
  intros [= _ <-]. cbn [dir]. intros ->.
  assert (Hm : c = "m"%char).
  { revert Ed. clear.
    destruct c as [[] [] [] [] [] [] [] []]; cbn; intros H;
      first [discriminate H | reflexivity]. }
  subst c. revert Ea. clear. unfold resolve_alias.
  destruct t as [[] [] [] [] [] [] [] []];
    repeat match goal with
           | |- context [if ?b then _ else _] => destruct b
           end; intros H; first [discriminate H | reflexivity].
Qed.

Lemma unpack_loop_returns cfg (s : bstr) (srclen : Z) (single : bool)
  (template : string) :
  supported cfg -> 0 <= srclen -> srclen + 1 < 2 ^ 31 ->
  ~ In "m"%char (list_ascii_of_string template) ->
  forall fuel i srcidx result,
    0 <= i -> Z.max 0 (Z.of_nat (String.length template) - i) < Z.of_nat fuel ->
    cursor_ok srclen srcidx ->
    unpack_loop cfg fuel s srclen single {| str := template; idx := i |}
      srcidx result <> OutOfFuel.
Proof.
  intros Hc H0 Hb Hm. unfold cursor_ok.
  induction fuel as [| fuel IH]; intros i srcidx result Hi Hf Hx; [lia |].
  cbn [unpack_loop]. unfold has_tmpl, tlen. cbn [str idx].
  destruct (Z.ltb_spec i (Z.of_nat (String.length template))) as [L | G];
    [| discriminate].
  pose proof (read_tmpl_returns cfg {| str := template; idx := i |}) as Ht.
  destruct (read_tmpl cfg _) as [[tm1 d] | | |] eqn:E; cbn [bind];
    try congruence.
  destruct (read_tmpl_shape cfg _ _ _ E) as [Hs Hn].
  assert (Hd : dir d <> PACK_DIR_BASE64).
  { intros D. apply (read_tmpl_base64 cfg _ _ _ E) in D.
    apply Hm. rewrite <- D. unfold tptr. cbn [str idx].
    apply nth_In. rewrite list_ascii_length. lia. }
  apply read_tmpl_advances in E. cbn [str idx] in E. destruct E as [Es Ei].
  destruct tm1 as [st j]. cbn [str idx] in *. subst st.
  assert (C2 :
    ('(result0, n) <-
       unpack_count2 cfg (dir d) (skipn (Z.to_nat srcidx) s) (srclen - srcidx)
         result (count d) (flags d) ;;
     unpack_loop cfg fuel s srclen single {| str := template; idx := j |}
       (int_cast cfg (srcidx + n)) result0) <> OutOfFuel).
  { pose proof (unpack_count2_returns cfg (dir d) (skipn (Z.to_nat srcidx) s)
                  (srclen - srcidx) (count d) (flags d) result) as Hr.
    destruct (unpack_count2 cfg _ _ _ _ _ _) as [[r n] | | |] eqn:E2;
      cbn [bind]; try congruence.
    apply unpack_count2_consumed in E2; [| assumption].
    rewrite int_cast_small by (auto; lia). apply IH; lia. }
  assert (C1 :
    ('(srcidx0, result0) <-
       unpack_count cfg (count_fuel srclen srcidx (count d)) s srclen (dir d)
         (size d) (flags d) (count d) srcidx result ;;
     (if single then Ok (srcidx0, result0)
      else unpack_loop cfg fuel s srclen single
             {| str := template; idx := j |} srcidx0 result0)) <> OutOfFuel).
  { rewrite Hs.
    pose proof (unpack_count_returns cfg s srclen (dir d) (flags d) Hc Hb Hd
                  (count_fuel srclen srcidx (count d)) (count d) srcidx result
                  Hn Hx) as Hr.
    destruct (unpack_count cfg _ _ _ _ _ _ _ _ _) as [[i1 r] | | |] eqn:E1;
      cbn [bind]; try discriminate.
    - destruct single; [discriminate |].
      apply unpack_count_cursor in E1; auto. unfold cursor_ok in E1.
      apply IH; lia.
    - intros _. apply Hr; [| reflexivity].
      unfold count_fuel. destruct (Z.ltb_spec (count d) 0); lia. }
  destruct (dir d);
    try (destruct (has_flag (flags d) PACK_FLAG_COUNT2); [exact C2 | exact C1]).
  - destruct (unpack_x [] _ result _ _) as [n | | |] eqn:Ex; cbn [bind];
      try discriminate.
    + apply unpack_x_consumed in Ex; [| assumption].
      rewrite int_cast_small by (auto; lia). apply IH; lia.
    + unfold unpack_x in Ex. destruct (_ <? 0); [discriminate |].
      destruct (_ <? _); discriminate.
  - apply IH; lia.
Qed.

(** X19. [unpack] and [unpack1] come to an end when the template holds no
    [m], on every string shorter than 2^31 - 1 bytes: a round of the count
    loop under a star moves the cursor by at least one byte for every
    directive but base64, so the loop is left after at most as many rounds
    as bytes remain, and one more. *)
Theorem unpack_returns_without_base64 :
  forall cfg s template,
    supported cfg -> RSTRING_LEN s + 1 < 2 ^ 31 ->
    ~ In "m"%char (list_ascii_of_string template) ->
    _pack_unpack cfg s template <> OutOfFuel /\
    _pack_unpack1 cfg s template <> OutOfFuel.
Proof.
  intros cfg s template Hc Hb Hm.
  assert (H0 : 0 <= RSTRING_LEN s) by (unfold RSTRING_LEN; lia).
  assert (R : forall single, unpack_run cfg s template single <> OutOfFuel).
  { intros single. unfold unpack_run, prepare_tmpl.
    rewrite int_cast_small by (auto; lia).
    apply unpack_loop_returns; auto; unfold tmpl_fuel, cursor_ok; lia. }
  unfold _pack_unpack, _pack_unpack1, pack_unpack. split.
  - specialize (R false).
    destruct (unpack_run cfg s template false) as [[i r] | | |]; cbn [bind];
      congruence.
  - specialize (R true).
    destruct (unpack_run cfg s template true) as [[i r] | | |]; cbn [bind];
      try congruence.
    destruct r; cbn [bind]; discriminate.
Qed.

Lemma unpack_returns_without_base64_witness :
  _pack_unpack cfg64 [0xe2; 0x82; 0xac; 1; 2] "U*Z*a2x" <> OutOfFuel /\
  _pack_unpack1 cfg64 [0xe2; 0x82; 0xac; 1; 2] "U*Z*a2x" <> OutOfFuel.
Proof.
  apply (unpack_returns_without_base64 cfg64 [0xe2; 0x82; 0xac; 1; 2]
           "U*Z*a2x" supported_cfg64).
  - vm_compute. reflexivity.
  - vm_compute. intuition discriminate.
Defined.

(** ** Integer directives with a count *)

Lemma pack_values_count cfg (d : pack_dir) (w : nat) (ty : pack_type)
  (fl : Z) :
  int_width d = Some w -> has_flag fl PACK_FLAG_WIDTH = false ->
  forall os c aidx ridx result,
    0 <= c ->
    pack_values cfg d ty fl os c aidx ridx result
    = pack_values cfg d ty fl (firstn (Z.to_nat c) os) (-1) aidx ridx result.
Proof.
  intros Hw Hf. destruct (int_width_bounds d w Hw) as [_ Ds].
  induction os as [| o os IH]; intros c aidx ridx result Hc.
  - rewrite firstn_nil. reflexivity.
  - cbn [pack_values]. rewrite Hf. cbn [negb]. rewrite andb_true_r.
    destruct (Z.eqb_spec c 0) as [-> | N]; [reflexivity |].
    replace (Z.to_nat c) with (S (Z.to_nat (c - 1))) by lia.
    cbn [firstn pack_values]. change (-1 =? 0) with false. cbn [andb].
    destruct (coerce cfg ty o) as [o' | | |]; cbn [bind]; try reflexivity.
    rewrite (pack_one_integer_count cfg d w o' result ridx c fl Hw).
    rewrite (pack_one_integer_count cfg d w o' result ridx (-1) fl Hw).
    destruct (pack_one cfg d o' result ridx 1 fl) as [[r n] | | |];
      cbn [bind]; try reflexivity.
    destruct (Z.gtb_spec c 0); [| lia]. change (-1 >? 0) with false.
    destruct d; try congruence; apply IH; lia.
Qed.

Lemma integer_directive_no_width cfg (t : ascii) :
  In t integer_directives ->
  has_flag (flags (single_directive cfg t)) PACK_FLAG_WIDTH = false.
Proof.
  intros Ht. cbn in Ht. unfold single_directive.
  repeat (destruct Ht as [<- | Ht];
          [cbn [directive_of flags]; rewrite resolve_endian_width;
           reflexivity |]).
  destruct Ht.
Qed.

(** X20. An integer directive with a count packs the values that are there.
    With the count [n], [pack] stores the first [n] values of the array,
    each cut to the width of the directive; values after them are left
    alone, and an array of fewer than [n] values is packed to its end
    without an error.  With the count 0 nothing is stored.  The bytes of the
    whole array have to stay below 2^31 and within the capacity of the
    doubling of [str_len_ensure]. *)
Theorem integer_count_takes_what_is_there :
  forall cfg t ds vs,
    supported cfg -> In t integer_directives ->
    ds <> [] -> Forall (fun ch => isdigit ch = true) ds ->
    decimal ds < 2 ^ 31 ->
    size (single_directive cfg t) * Z.of_nat (List.length vs) + 8 < 2 ^ 31 ->
    size (single_directive cfg t) * Z.of_nat (List.length vs) + 8
      <= capacity cfg ->
    _pack_pack cfg (map fixnum_value vs) (String t (string_of_list_ascii ds))
    = Ok (List.concat
            (map (truncated (Z.to_nat (size (single_directive cfg t)))
                    (flags (single_directive cfg t)))
                 (firstn (Z.to_nat (decimal ds)) vs))).
Proof.
  intros cfg t ds vs Hc Ht Hn Hd Hb Hl Hq.
  destruct (integer_directive_width cfg t Ht) as (Ha & Hty & Hw).
  destruct (int_width_bounds _ _ Hw) as [W _].
  pose proof (one_directive_counted cfg t ds Hc Ha Hn Hd Hb) as Ho.
  assert (H0 : 0 <= decimal ds).
  { pose proof (decimal_acc_le ds Hd 0 ltac:(lia)) as H. exact H. }
  rewrite (pack_directive cfg _ _ _ Ho);
    [| cbn [with_count dir]; intros E; rewrite E in Hw; discriminate Hw
     | cbn [with_count dir]; intros E; rewrite E in Hw; discriminate Hw ].
  cbn [with_count dir type flags count]. rewrite Hty.
  set (d := single_directive cfg t) in *. set (w := Z.to_nat (size d)) in *.
  rewrite (pack_values_count cfg (dir d) w _ _ Hw
             (integer_directive_no_width cfg t Ht)) by assumption.
  rewrite firstn_map.
  set (vs' := firstn (Z.to_nat (decimal ds)) vs).
  assert (Hl' : (List.length vs' <= List.length vs)%nat)
    by (subst vs'; rewrite length_firstn; lia).
  fold d.
  destruct (pack_values_integers cfg (dir d) w (flags d) Hc Hw vs' 0 0
              (repeat 0 128)) as (s' & -> & F & L);
    [discriminate | cbn; lia | nia | nia |].
  cbn [bind].
  destruct (Z.ltb_spec (0 + Z.of_nat w * Z.of_nat (List.length vs')) 0);
    [lia |].
  f_equal. apply str_resize_prefix; [lia | exact F |].
  rewrite concat_truncated_length. lia.
Qed.

Lemma integer_count_takes_what_is_there_witness :
  _pack_pack cfg64 (map fixnum_value [1; 2]) "n3" = Ok [0; 1; 0; 2].
Proof.
  apply (integer_count_takes_what_is_there cfg64 "n"%char ["3"%char] [1; 2]
           supported_cfg64).
  - cbn. tauto.
  - discriminate.
  - repeat constructor.
  - vm_compute. reflexivity.
  - vm_compute. reflexivity.
  - vm_compute. discriminate.
Defined.

(** ** The room that [str_len_ensure] makes *)

Lemma double_until_doubles cfg (fuel : nat) :
  supported cfg ->
  forall n len,
    0 < n < len -> len <= capacity cfg -> len <= n * 2 ^ Z.of_nat (S fuel) ->
    exists k : nat,
      (0 < k)%nat /\
      double_until cfg (S fuel) n len = Some (n * 2 ^ Z.of_nat k) /\
      n * 2 ^ Z.of_nat (k - 1) < len <= n * 2 ^ Z.of_nat k.
Proof.
  intros Hc. induction fuel as [| fuel IH]; intros n len Hn Hl Hf.
  - exists 1%nat. cbn [double_until].
    rewrite mrb_int_cast_double by (auto; lia).
    change (2 ^ Z.of_nat 1) with 2 in *.
    destruct (Z.gtb_spec len (n * 2)) as [G | L]; [lia |].
    change (2 ^ Z.of_nat (1 - 1)) with 1.
    repeat split; [lia | lia | lia].
  - remember (S fuel) as f. cbn [double_until].
    rewrite mrb_int_cast_double by (auto; lia).
    destruct (Z.gtb_spec len (n * 2)) as [G | L].
    + subst f. destruct (IH (n * 2) len) as (k & Hk & E & B); try lia.
      { rewrite Nat2Z.inj_succ, Z.pow_succ_r in Hf by lia. lia. }
      exists (S k). split; [lia |]. rewrite E.
      replace (Z.of_nat (S k)) with (Z.succ (Z.of_nat k)) by lia.
      rewrite Z.pow_succ_r by lia.
      replace (Z.of_nat (S k - 1)) with (Z.succ (Z.of_nat (k - 1))) by lia.
      rewrite Z.pow_succ_r by lia.
      split; [f_equal; lia | lia].
    + exists 1%nat.
      change (2 ^ Z.of_nat 1) with 2. change (2 ^ Z.of_nat (1 - 1)) with 1.
      repeat split; [lia | lia | lia].
Qed.

(** The conversion to a signed type of [w] bits changes its argument by a
    multiple of [2 ^ w]. *)
Lemma sint_congruent (w x : Z) :
  0 < w -> exists q, sint w x = x + q * 2 ^ w.
Proof.
  intros Hw. unfold sint.
  exists (- ((x + 2 ^ (w - 1)) / 2 ^ w)).
  assert (P : 2 ^ w <> 0) by (apply Z.pow_nonzero; lia).
  rewrite Z.mod_eq by exact P. lia.
Qed.

Lemma sint_mul_idem (w x y : Z) :
  0 < w -> sint w (sint w x * y) = sint w (x * y).
Proof.
  intros Hw. destruct (sint_congruent w x Hw) as [q ->]. unfold sint.
  replace ((x + q * 2 ^ w) * y + 2 ^ (w - 1))
    with (x * y + 2 ^ (w - 1) + (q * y) * 2 ^ w) by ring.
  rewrite Z.mod_add by (apply Z.pow_nonzero; lia). reflexivity.
Qed.

Lemma sint_multiple (w q : Z) : 0 < w -> sint w (q * 2 ^ w) = 0.
Proof.
  intros Hw. unfold sint.
  assert (E : 2 ^ w = 2 * 2 ^ (w - 1)).
  { replace w with (Z.succ (w - 1)) at 1 by lia. apply Z.pow_succ_r. lia. }
  assert (P : 0 < 2 ^ (w - 1)) by (apply Z.pow_pos_nonneg; lia).
  rewrite Z.add_comm, Z.mod_add by lia.
  rewrite Z.mod_small by lia. lia.
Qed.

Lemma supported_bits cfg : supported cfg -> 0 < MRB_INT_BIT cfg.
Proof. intros (_ & [E | E] & _); rewrite E; lia. Qed.

(** The value of [n] after [k] doublings. *)
Lemma mrb_int_cast_doubled cfg (n : Z) (k : nat) :
  supported cfg ->
  mrb_int_cast cfg (mrb_int_cast cfg (n * 2) * 2 ^ Z.of_nat k)
  = mrb_int_cast cfg (n * 2 ^ Z.of_nat (S k)).
Proof.
  intros Hc. unfold mrb_int_cast.
  rewrite sint_mul_idem by (now apply supported_bits).
  f_equal. rewrite Nat2Z.inj_succ, Z.pow_succ_r by lia. ring.
Qed.

(** A doubling that never reaches the request runs out of every fuel. *)
Lemma double_until_never cfg :
  supported cfg ->
  forall fuel n len,
    (forall k : nat, (0 < k)%nat ->
       mrb_int_cast cfg (n * 2 ^ Z.of_nat k) < len) ->
    double_until cfg fuel n len = None.
Proof.
  intros Hc. induction fuel as [| fuel IH]; intros n len H;
    cbn [double_until]; [reflexivity |].
  pose proof (H 1%nat ltac:(lia)) as H1.
  change (2 ^ Z.of_nat 1) with 2 in H1.
  destruct (Z.gtb_spec len (mrb_int_cast cfg (n * 2))) as [_ | L]; [| lia].
  apply IH. intros k Hk. rewrite mrb_int_cast_doubled by assumption.
  apply H. lia.
Qed.

Lemma double_until_none cfg :
  supported cfg ->
  forall fuel n len,
    double_until cfg fuel n len = None ->
    forall k : nat, (0 < k <= fuel)%nat ->
      mrb_int_cast cfg (n * 2 ^ Z.of_nat k) < len.
Proof.
  intros Hc. induction fuel as [| fuel IH]; intros n len H k Hk; [lia |].
  cbn [double_until] in H.
  destruct (Z.gtb_spec len (mrb_int_cast cfg (n * 2))) as [G | _];
    [| discriminate].
  destruct k as [| [| k']]; [lia | exact G |].
  rewrite <- mrb_int_cast_doubled by assumption.
  apply (IH _ _ H). lia.
Qed.

(** After as many doublings as [_int] has bits, [n] is zero. *)
Lemma mrb_int_cast_shifted_out cfg (n : Z) (k : nat) :
  supported cfg -> MRB_INT_BIT cfg <= Z.of_nat k ->
  mrb_int_cast cfg (n * 2 ^ Z.of_nat k) = 0.
Proof.
  intros Hc Hk. pose proof (supported_bits cfg Hc) as Hb. unfold mrb_int_cast.
  replace (Z.of_nat k) with ((Z.of_nat k - MRB_INT_BIT cfg) + MRB_INT_BIT cfg)
    by lia.
  rewrite Z.pow_add_r by lia. rewrite Z.mul_assoc.
  now apply sint_multiple.
Qed.

(** The fuel of [str_len_ensure] cuts no loop that would end. *)
Lemma doubling_fuel_exact cfg (n len : Z) :
  supported cfg ->
  double_until cfg (doubling_fuel cfg) n len = None ->
  forall fuel, double_until cfg fuel n len = None.
Proof.
  intros Hc H fuel. pose proof (supported_bits cfg Hc) as Hb.
  pose proof (double_until_none cfg Hc _ _ _ H) as B.
  unfold doubling_fuel in B.
  apply double_until_never; [assumption |]. intros k Hk.
  destruct (Nat.le_gt_cases k (S (Z.to_nat (MRB_INT_BIT cfg)))) as [L | G].
  - apply B. lia.
  - rewrite mrb_int_cast_shifted_out by (auto; lia).
    rewrite <- (mrb_int_cast_shifted_out cfg n (Z.to_nat (MRB_INT_BIT cfg)))
      by (auto; lia).
    apply B. lia.
Qed.

(** A power of two, doubled, stays within the capacity, passes to the least
    [_int], or is shifted out. *)
Lemma mrb_int_cast_pow2 cfg (i : nat) :
  supported cfg -> mrb_int_cast cfg (2 ^ Z.of_nat i) <= capacity cfg.
Proof.
  intros Hc. pose proof (supported_bits cfg Hc) as Hb.
  destruct (capacity_bounds cfg Hc) as [B E].
  destruct (Z.le_gt_cases (Z.of_nat i) (MRB_INT_BIT cfg - 2)) as [L | G].
  - assert (P : 2 ^ Z.of_nat i <= capacity cfg).
    { unfold capacity. apply Z.pow_le_mono_r; lia. }
    assert (P0 : 0 < 2 ^ Z.of_nat i) by (apply Z.pow_pos_nonneg; lia).
    unfold mrb_int_cast. rewrite sint_small; lia.
  - destruct (Z.eq_dec (Z.of_nat i) (MRB_INT_BIT cfg - 1)) as [Ei | Ni].
    + rewrite Ei. unfold mrb_int_cast, sint.
      replace (2 ^ (MRB_INT_BIT cfg - 1) + 2 ^ (MRB_INT_BIT cfg - 1))
        with (1 * 2 ^ MRB_INT_BIT cfg).
      2:{ replace (MRB_INT_BIT cfg) with (Z.succ (MRB_INT_BIT cfg - 1)) at 1
            by lia.
          rewrite Z.pow_succ_r by lia. lia. }
      rewrite Z.mod_mul by (apply Z.pow_nonzero; lia). lia.
    + replace (2 ^ Z.of_nat i) with (1 * 2 ^ Z.of_nat i) by lia.
      rewrite mrb_int_cast_shifted_out by (auto; lia). lia.
Qed.

(** From a length that is a power of two, as the output string of [pack]
    has, a request beyond the capacity is never reached. *)
Lemma double_until_overflows cfg (j : nat) (len : Z) :
  supported cfg -> capacity cfg < len ->
  forall fuel, double_until cfg fuel (2 ^ Z.of_nat j) len = None.
Proof.
  intros Hc Hl fuel. apply double_until_never; [assumption |].
  intros k Hk. rewrite <- Z.pow_add_r, <- Nat2Z.inj_add by lia.
  pose proof (mrb_int_cast_pow2 cfg (j + k) Hc). lia.
Qed.

Lemma double_until_zero cfg (fuel : nat) :
  supported cfg ->
  forall len, 0 < len -> double_until cfg fuel 0 len = None.
Proof.
  intros Hc len Hl. apply double_until_never; [assumption |].
  intros k Hk. rewrite Z.mul_0_l.
  replace 0 with (0 * 2 ^ Z.of_nat (Z.to_nat (MRB_INT_BIT cfg))) by lia.
  rewrite mrb_int_cast_shifted_out by (auto; pose proof (supported_bits cfg Hc); lia).
  exact Hl.
Qed.

Lemma str_len_ensure_overflows cfg (str : bstr) (len : Z) (j : nat) :
  supported cfg ->
  RSTRING_LEN str = 2 ^ Z.of_nat j -> capacity cfg < len ->
  RSTRING_LEN str < len ->
  str_len_ensure cfg str len = OutOfFuel.
Proof.
  intros Hc Ej Hq Hl. unfold str_len_ensure.
  destruct (capacity_bounds cfg Hc) as [B _].
  destruct (Z.ltb_spec len 0); [lia |].
  destruct (Z.gtb_spec len (RSTRING_LEN str)); [| lia].
  rewrite Ej. now rewrite double_until_overflows.
Qed.

(** X22. [str_len_ensure] doubles the length until the request fits.  A
    negative length is a range error; a length that the string has is
    answered with the string itself; otherwise a string that is not empty
    grows, its bytes kept, to its length times the least power of two that
    reaches the requested length, as long as the request lies within the
    capacity, a quarter of the range of [_int].  The loop is not left on
    the empty string with a positive request, where the doubling of 0 stays
    0, nor on a string whose length is a power of two with a request beyond
    the capacity, where the doubling passes [MRB_INT_MAX] and wraps around
    to a negative number and then to 0.  Whenever the embedding reports that
    the loop is not left, no number of rounds ends it. *)
Theorem str_len_ensure_doubles :
  forall cfg str len,
    supported cfg ->
    (len < 0 ->
     str_len_ensure cfg str len
     = Raise E_RANGE_ERROR "negative (or overflowed) integer") /\
    (0 <= len <= RSTRING_LEN str -> str_len_ensure cfg str len = Ok str) /\
    (str <> [] -> RSTRING_LEN str < len <= capacity cfg ->
     exists (k : nat) (zeros : list Z),
       (0 < k)%nat /\
       str_len_ensure cfg str len = Ok (str ++ zeros) /\
       RSTRING_LEN (str ++ zeros) = RSTRING_LEN str * 2 ^ Z.of_nat k /\
       RSTRING_LEN str * 2 ^ Z.of_nat (k - 1) < len
         <= RSTRING_LEN str * 2 ^ Z.of_nat k) /\
    (str = [] -> 0 < len -> str_len_ensure cfg str len = OutOfFuel) /\
    (forall j : nat,
       RSTRING_LEN str = 2 ^ Z.of_nat j -> capacity cfg < len ->
       RSTRING_LEN str < len -> str_len_ensure cfg str len = OutOfFuel) /\
    (str_len_ensure cfg str len = OutOfFuel ->
     forall fuel, double_until cfg fuel (RSTRING_LEN str) len = None).
Proof.
  intros cfg str len Hc. unfold str_len_ensure.
  split; [| split; [| split; [| split; [| split]]]].
  - intros L. apply Z.ltb_lt in L. now rewrite L.
  - intros [L1 L2]. destruct (Z.ltb_spec len 0); [lia |].
    destruct (Z.gtb_spec len (RSTRING_LEN str)); [lia | reflexivity].
  - intros Hs [Hl Hq].
    assert (Hn : 0 < RSTRING_LEN str).
    { unfold RSTRING_LEN. destruct str; [congruence | cbn [List.length]; lia]. }
    destruct (Z.ltb_spec len 0); [lia |].
    destruct (Z.gtb_spec len (RSTRING_LEN str)); [| lia].
    unfold doubling_fuel.
    destruct (double_until_doubles cfg (Z.to_nat (MRB_INT_BIT cfg)) Hc
                (RSTRING_LEN str) len)
      as (k & Hk & E & B); try lia.
    { apply (doubling_fuel_suffices cfg); auto; lia. }
    rewrite E.
    assert (P : 0 < 2 ^ Z.of_nat k) by (apply Z.pow_pos_nonneg; lia).
    exists k, (repeat 0 (Z.to_nat (RSTRING_LEN str * 2 ^ Z.of_nat k)
                         - List.length str)).
    split; [exact Hk |]. unfold _str_resize, RSTRING_LEN in *.
    rewrite firstn_all2 by nia.
    split; [reflexivity |]. split; [| exact B].
    rewrite length_app, repeat_length. nia.
  - intros -> Hl. change (RSTRING_LEN []) with 0.
    destruct (Z.ltb_spec len 0); [lia |].
    destruct (Z.gtb_spec len 0); [| lia].
    now rewrite double_until_zero.
  - intros j Ej Hq Hl.
    now apply (str_len_ensure_overflows cfg str len j).
  - destruct (len <? 0); [discriminate |].
    destruct (len >? RSTRING_LEN str); [| discriminate].
    destruct (double_until cfg (doubling_fuel cfg) (RSTRING_LEN str) len)
      as [n' |] eqn:E; [discriminate |].
    intros _. now apply doubling_fuel_exact.
Qed.

Lemma str_len_ensure_doubles_witness :
  (exists (k : nat) (zeros : list Z),
     (0 < k)%nat /\
     str_len_ensure cfg32 [1; 2; 3] 10 = Ok ([1; 2; 3] ++ zeros) /\
     RSTRING_LEN ([1; 2; 3] ++ zeros)
       = RSTRING_LEN [1; 2; 3] * 2 ^ Z.of_nat k /\
     RSTRING_LEN [1; 2; 3] * 2 ^ Z.of_nat (k - 1) < 10
       <= RSTRING_LEN [1; 2; 3] * 2 ^ Z.of_nat k) /\
  str_len_ensure cfg32 (repeat 0 128) 2000000000 = OutOfFuel.
Proof.
  split.
  - destruct (str_len_ensure_doubles cfg32 [1; 2; 3] 10 supported_cfg32)
      as (_ & _ & H & _).
    apply H; [discriminate | vm_compute; split; [reflexivity | discriminate]].
  - destruct (str_len_ensure_doubles cfg32 (repeat 0 128) 2000000000
                supported_cfg32) as (_ & _ & _ & _ & H & _).
    apply (H 7%nat); vm_compute; reflexivity.
Defined.

(** ** Null bytes with a count *)

Lemma single_directive_x cfg :
  single_directive cfg "x" =
  {| dir := PACK_DIR_NUL; type := PACK_TYPE_NONE; size := 0; count := 1;
     flags := resolve_endian cfg 0 |}.
Proof. reflexivity. Qed.

(** X21. [x] with a count [n].  [pack] takes no value from the array: it
    returns [n] NUL bytes when [n] lies within the capacity of the doubling
    of [str_len_ensure], and does not return when [n] lies beyond it, as a
    count from 2^30 + 1 on does where [_int] has 32 bits.  [unpack] passes
    over [n] bytes and returns no value; when fewer than [n] bytes are there
    it raises the argument error "x outside of string". *)
Theorem null_bytes_with_count :
  forall cfg ds,
    supported cfg -> ds <> [] -> Forall (fun ch => isdigit ch = true) ds ->
    decimal ds < 2 ^ 31 ->
    (decimal ds <= capacity cfg ->
     forall ary,
       _pack_pack cfg ary (String "x" (string_of_list_ascii ds))
       = Ok (repeat 0 (Z.to_nat (decimal ds)))) /\
    (capacity cfg < decimal ds ->
     forall ary,
       _pack_pack cfg ary (String "x" (string_of_list_ascii ds)) = OutOfFuel) /\
    (forall s,
       RSTRING_LEN s < 2 ^ 31 ->
       _pack_unpack cfg s (String "x" (string_of_list_ascii ds))
       = if RSTRING_LEN s <? decimal ds
         then Raise E_ARGUMENT_ERROR "x outside of string"
         else Ok []).
Proof.
  intros cfg ds Hc Hn Hd Hb.
  pose proof (one_directive_counted cfg "x" ds Hc eq_refl Hn Hd Hb) as Ho.
  assert (H0 : 0 <= decimal ds).
  { pose proof (decimal_acc_le ds Hd 0 ltac:(lia)) as H. exact H. }
  destruct Ho as [Ht Hr].
  destruct (one_directive_loop _ Ht) as (H1 & H2 & fuel & Hf).
  rewrite single_directive_x in Hr. unfold with_count in Hr.
  cbn [dir type size flags] in Hr.
  split; [| split].
  - intros Hq ary. unfold _pack_pack, pack_run. rewrite Hf.
    rewrite (pack_loop_nul cfg _ _ _ _ _ _ _ _ H1 Hr eq_refl).
    cbn [count flags]. unfold pack_x.
    destruct (Z.ltb_spec (decimal ds) 0) as [L | _]; [lia |].
    destruct (emit_ok cfg (repeat 0 128) 0 (decimal ds)
                (repeat 0 (Z.to_nat (decimal ds))) Hc)
      as (s' & -> & F & L);
      [discriminate | cbn; lia | rewrite repeat_length; lia | lia | lia |].
    cbn [bind]. rewrite repeat_length in *.
    rewrite int_cast_small by (auto; lia).
    rewrite pack_loop_done by exact H2. cbn [bind].
    f_equal. apply str_resize_prefix.
    + lia.
    + replace (Z.to_nat (0 + Z.of_nat (Z.to_nat (decimal ds))))
        with (Z.to_nat 0 + Z.to_nat (decimal ds))%nat by lia.
      rewrite F. reflexivity.
    + unfold RSTRING_LEN. rewrite repeat_length. lia.
  - intros Hq ary. unfold _pack_pack, pack_run. rewrite Hf.
    rewrite (pack_loop_nul cfg _ _ _ _ _ _ _ _ H1 Hr eq_refl).
    cbn [count flags]. unfold pack_x.
    destruct (Z.ltb_spec (decimal ds) 0) as [L | _]; [lia |].
    unfold emit. rewrite mrb_int_cast_small by (auto; lia).
    destruct (capacity_bounds cfg Hc) as [B _].
    rewrite (str_len_ensure_overflows cfg (repeat 0 128) (0 + decimal ds) 7)
      by (auto; cbn; lia).
    reflexivity.
  - intros s Hs.
    assert (Hl : 0 <= RSTRING_LEN s) by (unfold RSTRING_LEN; lia).
    unfold _pack_unpack, pack_unpack, unpack_run. rewrite Hf.
    rewrite int_cast_small by (auto; lia).
    rewrite (unpack_loop_nul cfg _ _ _ _ _ _ _ _ _ H1 Hr eq_refl).
    cbn [count flags]. unfold unpack_x.
    destruct (Z.ltb_spec (decimal ds) 0) as [L | _]; [lia |].
    rewrite Z.sub_0_r.
    destruct (Z.ltb_spec (RSTRING_LEN s) (decimal ds)); [reflexivity |].
    cbn [bind]. rewrite int_cast_small by (auto; lia).
    destruct fuel; cbn [unpack_loop]; rewrite ?H2; reflexivity.
Qed.

Lemma null_bytes_with_count_witness :
  _pack_pack cfg64 [fixnum_value 1] "x3" = Ok [0; 0; 0] /\
  _pack_pack cfg32 [] "x2000000000" = OutOfFuel /\
  _pack_unpack cfg64 [1; 2] "x3"
  = Raise E_ARGUMENT_ERROR "x outside of string".
Proof.
  destruct (null_bytes_with_count cfg64 ["3"%char] supported_cfg64
              ltac:(discriminate) ltac:(repeat constructor)
              ltac:(vm_compute; reflexivity)) as (H1 & _ & H3).
  destruct (null_bytes_with_count cfg32
              (list_ascii_of_string "2000000000") supported_cfg32
              ltac:(discriminate) ltac:(repeat constructor)
              ltac:(vm_compute; reflexivity)) as (_ & H2 & _).
  split; [| split].
  - apply (H1 ltac:(vm_compute; discriminate) [fixnum_value 1]).
  - apply (H2 ltac:(vm_compute; reflexivity) []).
  - apply (H3 [1; 2]). vm_compute. reflexivity.
Defined.

(** ** The range of [U] on pack *)

Lemma pack_utf8_wraps cfg (v : Z) (str : bstr) (sidx count fl : Z) :
  pack_utf8 cfg (fixnum_value v) str sidx count fl
  = pack_utf8 cfg (fixnum_value (v mod 2 ^ 32)) str sidx count fl.
Proof.
  unfold pack_utf8. cbn [_float_p _fixnum]. unfold uint.
  now rewrite Z.mod_mod by lia.
Qed.

Lemma pack_utf8_out_of_range cfg (c : Z) (str : bstr) (sidx count fl : Z) :
  0x200000 <= c < 2 ^ 32 ->
  pack_utf8 cfg (fixnum_value c) str sidx count fl
  = Raise E_RANGE_ERROR "pack(U): value out of range".
Proof.
  intros Hc. unfold pack_utf8. cbn [_float_p _fixnum]. unfold uint.
  rewrite Z.mod_small by lia.
  destruct (Z.ltb_spec c 0x80); [lia |].
  destruct (Z.ltb_spec c 0x800); [lia |].
  destruct (Z.ltb_spec c 0x10000); [lia |].
  destruct (Z.ltb_spec c 0x200000); [lia | reflexivity].
Qed.

(** X23. The values that [U] packs.  [pack] under [U] takes the value modulo
    2^32: when that lies below 0x200000 it returns its UTF-8 bytes, so a
    negative value or one above 2^32 is packed as another code point;
    otherwise it raises the range error "pack(U): value out of range". *)
Theorem utf8_pack_wraps_and_bounds :
  forall cfg v,
    supported cfg ->
    _pack_pack cfg [fixnum_value v] "U"
    = if v mod 2 ^ 32 <? 0x200000 then Ok (utf8_bytes (v mod 2 ^ 32))
      else Raise E_RANGE_ERROR "pack(U): value out of range".
Proof.
  intros cfg v Hc.
  pose proof (one_directive_single cfg "U" eq_refl) as Ho.
  pose proof (Z.mod_pos_bound v (2 ^ 32) ltac:(lia)) as Hm.
  destruct (Z.ltb_spec (v mod 2 ^ 32) 0x200000) as [L | G].
  - apply (pack_one_value_ok cfg "U" _ (fixnum_value v) (fixnum_value v)
             (RSTRING_LEN (utf8_bytes (v mod 2 ^ 32))) _ Hc Ho);
      try discriminate; try reflexivity.
    + cbn [single_directive directive_of dir count flags pack_one].
      rewrite pack_utf8_wraps. apply pack_utf8_bytes. lia.
    + pose proof (utf8_bytes_length (v mod 2 ^ 32)). lia.
    + pose proof (utf8_bytes_length (v mod 2 ^ 32)).
      apply capacity_small; [assumption | lia].
  - rewrite (pack_one_value cfg "U" _ (fixnum_value v) Ho);
      try discriminate; try reflexivity.
    cbn [single_directive directive_of dir type count flags coerce _to_int
         bind pack_one].
    rewrite pack_utf8_wraps, pack_utf8_out_of_range by lia. reflexivity.
Qed.

Lemma utf8_pack_wraps_and_bounds_witness :
  _pack_pack cfg64 [fixnum_value (2 ^ 32 + 65)] "U"
  = if (2 ^ 32 + 65) mod 2 ^ 32 <? 0x200000
    then Ok (utf8_bytes ((2 ^ 32 + 65) mod 2 ^ 32))
    else Raise E_RANGE_ERROR "pack(U): value out of range".
Proof.
  apply (utf8_pack_wraps_and_bounds cfg64 (2 ^ 32 + 65) supported_cfg64).
Defined.

(** ** The number of values of a directive of a fixed width *)

Lemma unpack_one_appends cfg (d : pack_dir) (sptr : bstr) (slen fl : Z)
  (result r : list value) (n : Z) :
  0 < dir_size d ->
  unpack_one cfg d sptr slen result fl = Ok (r, n) ->
  List.length r = S (List.length result).
Proof.
  assert (A : forall (v : value) (k : Z),
            @Ok (list value * Z) (result ++ [v], k) = Ok (r, n) ->
            List.length r = S (List.length result)).
  { intros v k [= <- _]. rewrite length_app. cbn [List.length]. lia. }
  destruct d; cbn [dir_size unpack_one]; try lia; intros _.
  - unfold unpack_c. destruct (has_flag _ _); apply A.
  - apply A.
  - unfold unpack_l. destruct (has_flag _ _); destruct (_ && _);
      try discriminate; apply A.
  - unfold unpack_q. destruct (if has_flag _ _ then _ else _) as [pos step].
    destruct (has_flag _ _); destruct (negb _); try discriminate; apply A.
  - apply A.
  - apply A.
Qed.

Lemma unpack_count_length cfg (s : bstr) (srclen : Z) (d : pack_dir)
  (fl : Z) :
  0 < dir_size d ->
  forall fuel count srcidx result i r,
    0 <= count ->
    unpack_count cfg fuel s srclen d (dir_size d) fl count srcidx result
      = Ok (i, r) ->
    Z.of_nat (List.length r) = Z.of_nat (List.length result) + count.
Proof.
  intros Hd.
  induction fuel as [| fuel IH]; intros count srcidx result i r Hn;
    cbn [unpack_count].
  - destruct (Z.eqb_spec count 0) as [-> | N]; [| discriminate].
    intros [= _ <-]. lia.
  - destruct (Z.eqb_spec count 0) as [-> | N]; [intros [= _ <-]; lia |].
    destruct (_ <? dir_size d).
    + intros [= _ <-]. rewrite length_app, repeat_length. lia.
    + destruct (unpack_one cfg d _ _ result fl) as [[r1 n] | | |] eqn:E;
        cbn [bind]; try discriminate.
      apply unpack_one_appends in E; [| assumption].
      destruct (Z.gtb_spec count 0); [| lia].
      intros K. apply IH in K; lia.
Qed.

(** X24. A directive of a fixed width with a count yields that many values.
    When [unpack] under a template of one integer or float directive with
    the count [n], or without a count, returns, the array has exactly [n]
    elements, values or nil markers, whatever the length of the string. *)
Theorem fixed_width_count_yields_count_values :
  forall cfg template d s l,
    supported cfg -> RSTRING_LEN s < 2 ^ 31 ->
    one_directive cfg template d -> 0 < size d -> 0 <= count d ->
    _pack_unpack cfg s template = Ok l ->
    Z.of_nat (List.length l) = count d.
Proof.
  intros cfg template d s l Hc Hb Ho Hs Hn.
  destruct (read_tmpl_fixed cfg _ _ d (proj2 Ho) Hs) as (D1 & D2 & F).
  destruct (read_tmpl_shape cfg _ _ d (proj2 Ho)) as [Hz _].
  rewrite (unpack_one_directive cfg template d s Hc Ho D1 D2 Hb), F.
  rewrite Hz in *.
  destruct (unpack_count cfg _ s _ _ _ _ _ 0 []) as [[i r] | | |] eqn:E;
    cbn [bind]; try discriminate.
  intros [= <-].
  apply unpack_count_length in E; [| assumption | assumption].
  cbn [List.length] in E. lia.
Qed.

Lemma fixed_width_count_yields_count_values_witness :
  Z.of_nat (List.length [fixnum_value 1; fixnum_value 2; nil_value]) = 3.
Proof.
  apply (fixed_width_count_yields_count_values cfg64 "n3"
           {| dir := PACK_DIR_SHORT; type := PACK_TYPE_INTEGER; size := 2;
              count := 3; flags := PACK_FLAG_GT |} [0; 1; 0; 2; 9]
           [fixnum_value 1; fixnum_value 2; nil_value] supported_cfg64).
  - vm_compute. reflexivity.
  - split; [discriminate | reflexivity].
  - reflexivity.
  - cbn. lia.
  - vm_compute. reflexivity.
Defined.

(** ** The flag of the native size is never read *)

Lemma has_flag_native (fl b : Z) :
  has_flag PACK_FLAG_s b = false ->
  has_flag (Z.lor fl PACK_FLAG_s) b = has_flag fl b.
Proof. intros H. now rewrite has_flag_lor_eq, H, orb_false_r. Qed.

Ltac drop_native :=
  rewrite ?(has_flag_native _ PACK_FLAG_SIGNED eq_refl),
          ?(has_flag_native _ PACK_FLAG_LITTLEENDIAN eq_refl),
          ?(has_flag_native _ PACK_FLAG_a eq_refl),
          ?(has_flag_native _ PACK_FLAG_Z eq_refl),
          ?(has_flag_native _ PACK_FLAG_LSB eq_refl),
          ?(has_flag_native _ PACK_FLAG_WIDTH eq_refl),
          ?(has_flag_native _ PACK_FLAG_COUNT2 eq_refl),
          ?(has_flag_native _ PACK_FLAG_LT eq_refl),
          ?(has_flag_native _ PACK_FLAG_GT eq_refl).

Lemma pack_one_native cfg (d : pack_dir) (o : value) (result : bstr)
  (ridx count fl : Z) :
  pack_one cfg d o result ridx count (Z.lor fl PACK_FLAG_s)
  = pack_one cfg d o result ridx count fl.
Proof.
  destruct d; cbn [pack_one]; try reflexivity;
    unfold pack_s, pack_l, pack_q, pack_double, pack_float, float_order,
           pack_a, pack_h, nibble_shifts;
    drop_native; reflexivity.
Qed.

Lemma unpack_one_native cfg (d : pack_dir) (sptr : bstr) (slen fl : Z)
  (result : list value) :
  unpack_one cfg d sptr slen result (Z.lor fl PACK_FLAG_s)
  = unpack_one cfg d sptr slen result fl.
Proof.
  destruct d; cbn [unpack_one]; try reflexivity;
    unfold unpack_c, unpack_s, unpack_l, unpack_q, unpack_double,
           unpack_float, float_order;
    drop_native; reflexivity.
Qed.

Lemma unpack_count2_native cfg (d : pack_dir) (sptr : bstr)
  (slen count fl : Z) (result : list value) :
  unpack_count2 cfg d sptr slen result count (Z.lor fl PACK_FLAG_s)
  = unpack_count2 cfg d sptr slen result count fl.
Proof.
  destruct d; cbn [unpack_count2]; try reflexivity;
    unfold unpack_a, unpack_h, nibble_shifts; drop_native; reflexivity.
Qed.

Lemma pack_values_native cfg (d : pack_dir) (ty : pack_type) (fl : Z) :
  forall rest count aidx ridx result,
    pack_values cfg d ty (Z.lor fl PACK_FLAG_s) rest count aidx ridx result
    = pack_values cfg d ty fl rest count aidx ridx result.
Proof.
  induction rest as [| o rest IH]; intros count aidx ridx result;
    cbn [pack_values]; [reflexivity |].
  drop_native. destruct (_ && _); [reflexivity |].
  destruct (coerce cfg ty o) as [o' | | |]; cbn [bind]; try reflexivity.
  rewrite pack_one_native.
  destruct (pack_one cfg d o' result ridx count fl) as [[r n] | | |];
    cbn [bind]; try reflexivity.
  destruct d; try reflexivity; apply IH.
Qed.

Lemma unpack_count_native cfg (s : bstr) (srclen : Z) (d : pack_dir)
  (size fl : Z) :
  forall fuel count srcidx result,
    unpack_count cfg fuel s srclen d size (Z.lor fl PACK_FLAG_s) count srcidx
      result
    = unpack_count cfg fuel s srclen d size fl count srcidx result.
Proof.
  induction fuel as [| fuel IH]; intros count srcidx result;
    cbn [unpack_count]; [reflexivity |].
  destruct (count =? 0); [reflexivity |].
  destruct (_ <? size); [reflexivity |].
  rewrite unpack_one_native.
  destruct (unpack_one cfg d _ _ result fl) as [[r n] | | |]; cbn [bind];
    try reflexivity.
  apply IH.
Qed.

(** ** Spellings that are read alike *)

Lemma ends_suffix_app (a rest : string) :
  a <> ""%string -> ends_suffix (list_ascii_of_string a) ->
  ends_suffix (list_ascii_of_string (a ++ rest)).
Proof. destruct a as [| c a]; [congruence | intros _ H; exact H]. Qed.

(** One round of the template loops on a directive and on the directive
    with the flag of the native size. *)
Lemma pack_round_alike cfg (g : directive -> directive) (d : directive)
  (ary : list value) (aidx ridx : Z) (result : bstr)
  (k k' : Z -> Z -> bstr -> res (Z * Z * bstr)) :
  g d = d \/ g d = with_native d ->
  (forall x y z, k x y z = k' x y z) ->
  match dir (g d) with
  | PACK_DIR_INVALID => k aidx ridx result
  | PACK_DIR_NUL =>
      '(result, n) <-
        pack_x cfg nil_value result ridx (count (g d)) (flags (g d)) ;;
      k aidx (int_cast cfg (ridx + n)) result
  | _ =>
      '(aidx, ridx, result) <-
        pack_values cfg (dir (g d)) (type (g d)) (flags (g d))
          (skipn (Z.to_nat aidx) ary) (count (g d)) aidx ridx result ;;
      if ridx <? 0
      then Raise E_RANGE_ERROR "negative (or overflowed) template size"
      else k aidx ridx result
  end =
  match dir d with
  | PACK_DIR_INVALID => k' aidx ridx result
  | PACK_DIR_NUL =>
      '(result, n) <- pack_x cfg nil_value result ridx (count d) (flags d) ;;
      k' aidx (int_cast cfg (ridx + n)) result
  | _ =>
      '(aidx, ridx, result) <-
        pack_values cfg (dir d) (type d) (flags d)
          (skipn (Z.to_nat aidx) ary) (count d) aidx ridx result ;;
      if ridx <? 0
      then Raise E_RANGE_ERROR "negative (or overflowed) template size"
      else k' aidx ridx result
  end.
Proof.
  intros [-> | ->] F; unfold with_native; cbn [dir type size count flags];
    rewrite ?pack_values_native.
  all: destruct (dir d); try apply F.
  all: try (destruct (pack_values cfg _ _ _ _ _ _ _ _)
              as [[[x y] z] | | |]; cbn [bind]; try reflexivity;
            now rewrite F).
  all: unfold pack_x; destruct (count d <? 0); cbn [bind]; try apply F;
    destruct (emit cfg _ _ _ _) as [[z n] | | |]; cbn [bind];
    try reflexivity; apply F.
Qed.

Lemma unpack_round_alike cfg (g : directive -> directive) (d : directive)
  (s : bstr) (srclen : Z) (single : bool) (srcidx : Z) (result : list value)
  (k k' : Z -> list value -> res (Z * list value)) :
  g d = d \/ g d = with_native d ->
  (forall x y, k x y = k' x y) ->
  match dir (g d) with
  | PACK_DIR_INVALID => k srcidx result
  | PACK_DIR_NUL =>
      n <- unpack_x [] (srclen - srcidx) result (count (g d)) (flags (g d)) ;;
      k (int_cast cfg (srcidx + n)) result
  | _ =>
      if has_flag (flags (g d)) PACK_FLAG_COUNT2 then
        '(result, n) <-
          unpack_count2 cfg (dir (g d)) (skipn (Z.to_nat srcidx) s)
            (srclen - srcidx) result (count (g d)) (flags (g d)) ;;
        k (int_cast cfg (srcidx + n)) result
      else
        '(srcidx, result) <-
          unpack_count cfg (count_fuel srclen srcidx (count (g d))) s srclen
            (dir (g d)) (size (g d)) (flags (g d)) (count (g d)) srcidx
            result ;;
        if single then Ok (srcidx, result) else k srcidx result
  end =
  match dir d with
  | PACK_DIR_INVALID => k' srcidx result
  | PACK_DIR_NUL =>
      n <- unpack_x [] (srclen - srcidx) result (count d) (flags d) ;;
      k' (int_cast cfg (srcidx + n)) result
  | _ =>
      if has_flag (flags d) PACK_FLAG_COUNT2 then
        '(result, n) <-
          unpack_count2 cfg (dir d) (skipn (Z.to_nat srcidx) s)
            (srclen - srcidx) result (count d) (flags d) ;;
        k' (int_cast cfg (srcidx + n)) result
      else
        '(srcidx, result) <-
          unpack_count cfg (count_fuel srclen srcidx (count d)) s srclen
            (dir d) (size d) (flags d) (count d) srcidx result ;;
        if single then Ok (srcidx, result) else k' srcidx result
  end.
Proof.
  intros [-> | ->] F; unfold with_native; cbn [dir type size count flags];
    rewrite ?unpack_count2_native, ?unpack_count_native; drop_native.
  all: destruct (dir d); try apply F.
  all: try (destruct (has_flag (flags d) PACK_FLAG_COUNT2);
            [destruct (unpack_count2 cfg _ _ _ _ _ _) as [[x y] | | |];
             cbn [bind]; try reflexivity; apply F
            | destruct (unpack_count cfg _ _ _ _ _ _ _ _ _)
                as [[x y] | | |];
              cbn [bind]; try reflexivity;
              destruct single; [reflexivity | apply F]]).
  all: unfold unpack_x; destruct (count d <? 0); cbn [bind]; try apply F;
    destruct (_ <? count d); cbn [bind]; try reflexivity; apply F.
Qed.

Lemma pack_loop_alike cfg (g : directive -> directive) (a b t1 t2 : string)
  (ary : list value) :
  (forall d, g d = d \/ g d = with_native d) ->
  read_alike cfg g a b ->
  ends_suffix (list_ascii_of_string t2) ->
  forall fuel fuel' i aidx ridx result,
    0 <= i <= Z.of_nat (String.length t1) ->
    Z.of_nat (String.length t1) + Z.of_nat (String.length a)
      + Z.of_nat (String.length t2) - i < Z.of_nat fuel ->
    Z.of_nat (String.length t1) + Z.of_nat (String.length b)
      + Z.of_nat (String.length t2) - i < Z.of_nat fuel' ->
    pack_loop cfg fuel ary {| str := t1 ++ a ++ t2; idx := i |}
      aidx ridx result
    = pack_loop cfg fuel' ary {| str := t1 ++ b ++ t2; idx := i |}
        aidx ridx result.
Proof.
  intros Hg (Ha & Hb & Sa & Sb & Hr) Ht2.
  assert (La : 1 <= Z.of_nat (String.length a))
    by (destruct a; [congruence | cbn [String.length]; lia]).
  assert (Lb : 1 <= Z.of_nat (String.length b))
    by (destruct b; [congruence | cbn [String.length]; lia]).
  induction fuel as [| fuel IH]; intros fuel' i aidx ridx result Hi Hf Hf';
    [lia |].
  destruct fuel' as [| fuel']; [lia |].
  destruct (Z.eq_dec i (Z.of_nat (String.length t1))) as [-> | Ne].
  - replace (Z.of_nat (String.length t1))
      with (Z.of_nat (String.length t1) + 0) by lia.
    rewrite !pack_loop_shift by lia.
    destruct (Hr t2 Ht2) as (r & Ea & Eb). unfold prepare_tmpl in Ea, Eb.
    cbn [pack_loop].
    assert (Hha : has_tmpl {| str := a ++ t2; idx := 0 |} = true).
    { apply has_tmpl_app_inside. destruct a; [congruence | cbn; lia]. }
    assert (Hhb : has_tmpl {| str := b ++ t2; idx := 0 |} = true).
    { apply has_tmpl_app_inside. destruct b; [congruence | cbn; lia]. }
    rewrite Hha, Hhb, Ea, Eb.
    destruct r as [d | | |]; cbn [bind]; try reflexivity.
    apply (pack_round_alike cfg g d ary aidx ridx result
             (pack_loop cfg fuel ary
                {| str := a ++ t2; idx := Z.of_nat (String.length a) |})
             (pack_loop cfg fuel' ary
                {| str := b ++ t2; idx := Z.of_nat (String.length b) |})
             (Hg d)).
    intros.
    replace (Z.of_nat (String.length a))
      with (Z.of_nat (String.length a) + 0) by lia.
    replace (Z.of_nat (String.length b))
      with (Z.of_nat (String.length b) + 0) by lia.
    rewrite !pack_loop_shift by lia.
    apply pack_loop_fuel; unfold tlen; cbn [str idx]; lia.
  - cbn [pack_loop].
    rewrite !has_tmpl_app_inside by lia.
    rewrite !read_tmpl_app by first [now apply ends_suffix_app | lia].
    destruct (read_tmpl cfg {| str := t1; idx := i |}) as [[tm d] | | |] eqn:E;
      cbn [bind]; try reflexivity.
    pose proof (read_tmpl_within cfg {| str := t1; idx := i |} tm d
                  ltac:(unfold tlen; cbn [str idx]; lia) E) as Hw.
    apply read_tmpl_advances in E. cbn [str idx] in E. destruct E as [_ Ei].
    unfold tlen in Hw. cbn [str idx] in Hw.
    apply (pack_round_alike cfg (fun d => d) d ary aidx ridx result
             (pack_loop cfg fuel ary
                {| str := t1 ++ a ++ t2; idx := idx tm |})
             (pack_loop cfg fuel' ary
                {| str := t1 ++ b ++ t2; idx := idx tm |})
             (or_introl eq_refl)).
    intros. apply IH; lia.
Qed.

Lemma unpack_loop_alike cfg (g : directive -> directive) (a b t1 t2 : string)
  (s : bstr) (srclen : Z) (single : bool) :
  (forall d, g d = d \/ g d = with_native d) ->
  read_alike cfg g a b ->
  ends_suffix (list_ascii_of_string t2) ->
  forall fuel fuel' i srcidx result,
    0 <= i <= Z.of_nat (String.length t1) ->
    Z.of_nat (String.length t1) + Z.of_nat (String.length a)
      + Z.of_nat (String.length t2) - i < Z.of_nat fuel ->
    Z.of_nat (String.length t1) + Z.of_nat (String.length b)
      + Z.of_nat (String.length t2) - i < Z.of_nat fuel' ->
    unpack_loop cfg fuel s srclen single {| str := t1 ++ a ++ t2; idx := i |}
      srcidx result
    = unpack_loop cfg fuel' s srclen single
        {| str := t1 ++ b ++ t2; idx := i |} srcidx result.
Proof.
  intros Hg (Ha & Hb & Sa & Sb & Hr) Ht2.
  assert (La : 1 <= Z.of_nat (String.length a))
    by (destruct a; [congruence | cbn [String.length]; lia]).
  assert (Lb : 1 <= Z.of_nat (String.length b))
    by (destruct b; [congruence | cbn [String.length]; lia]).
  induction fuel as [| fuel IH]; intros fuel' i srcidx result Hi Hf Hf';
    [lia |].
  destruct fuel' as [| fuel']; [lia |].
  destruct (Z.eq_dec i (Z.of_nat (String.length t1))) as [-> | Ne].
  - replace (Z.of_nat (String.length t1))
      with (Z.of_nat (String.length t1) + 0) by lia.
    rewrite !unpack_loop_shift by lia.
    destruct (Hr t2 Ht2) as (r & Ea & Eb). unfold prepare_tmpl in Ea, Eb.
    cbn [unpack_loop].
    assert (Hha : has_tmpl {| str := a ++ t2; idx := 0 |} = true).
    { apply has_tmpl_app_inside. destruct a; [congruence | cbn; lia]. }
    assert (Hhb : has_tmpl {| str := b ++ t2; idx := 0 |} = true).
    { apply has_tmpl_app_inside. destruct b; [congruence | cbn; lia]. }
    rewrite Hha, Hhb, Ea, Eb.
    destruct r as [d | | |]; cbn [bind]; try reflexivity.
    apply (unpack_round_alike cfg g d s srclen single srcidx result
             (unpack_loop cfg fuel s srclen single
                {| str := a ++ t2; idx := Z.of_nat (String.length a) |})
             (unpack_loop cfg fuel' s srclen single
                {| str := b ++ t2; idx := Z.of_nat (String.length b) |})
             (Hg d)).
    intros.
    replace (Z.of_nat (String.length a))
      with (Z.of_nat (String.length a) + 0) by lia.
    replace (Z.of_nat (String.length b))
      with (Z.of_nat (String.length b) + 0) by lia.
    rewrite !unpack_loop_shift by lia.
    apply unpack_loop_fuel; unfold tlen; cbn [str idx]; lia.
  - cbn [unpack_loop].
    rewrite !has_tmpl_app_inside by lia.
    rewrite !read_tmpl_app by first [now apply ends_suffix_app | lia].
    destruct (read_tmpl cfg {| str := t1; idx := i |}) as [[tm d] | | |] eqn:E;
      cbn [bind]; try reflexivity.
    pose proof (read_tmpl_within cfg {| str := t1; idx := i |} tm d
                  ltac:(unfold tlen; cbn [str idx]; lia) E) as Hw.
    apply read_tmpl_advances in E. cbn [str idx] in E. destruct E as [_ Ei].
    unfold tlen in Hw. cbn [str idx] in Hw.
    apply (unpack_round_alike cfg (fun d => d) d s srclen single srcidx result
             (unpack_loop cfg fuel s srclen single
                {| str := t1 ++ a ++ t2; idx := idx tm |})
             (unpack_loop cfg fuel' s srclen single
                {| str := t1 ++ b ++ t2; idx := idx tm |})
             (or_introl eq_refl)).
    intros. apply IH; lia.
Qed.

(** The three entry points on two spellings that are read alike. *)
Lemma spellings_agree cfg (g : directive -> directive) (a b t1 t2 : string) :
  (forall d, g d = d \/ g d = with_native d) ->
  read_alike cfg g a b ->
  ends_suffix (list_ascii_of_string t2) ->
  (forall ary,
     _pack_pack cfg ary (t1 ++ a ++ t2) = _pack_pack cfg ary (t1 ++ b ++ t2)) /\
  (forall s,
     _pack_unpack cfg s (t1 ++ a ++ t2) = _pack_unpack cfg s (t1 ++ b ++ t2)) /\
  (forall s,
     _pack_unpack1 cfg s (t1 ++ a ++ t2)
     = _pack_unpack1 cfg s (t1 ++ b ++ t2)).
Proof.
  intros Hg Hs Ht2.
  assert (P : forall ary,
            pack_run cfg ary (t1 ++ a ++ t2) = pack_run cfg ary (t1 ++ b ++ t2)).
  { intros ary. unfold pack_run, prepare_tmpl, tmpl_fuel.
    apply (pack_loop_alike cfg g); auto; rewrite ?string_length_app; lia. }
  assert (U : forall s single,
            unpack_run cfg s (t1 ++ a ++ t2) single
            = unpack_run cfg s (t1 ++ b ++ t2) single).
  { intros s single. unfold unpack_run, prepare_tmpl, tmpl_fuel.
    apply (unpack_loop_alike cfg g); auto; rewrite ?string_length_app; lia. }
  repeat split.
  - intros ary. unfold _pack_pack. now rewrite P.
  - intros s. unfold _pack_unpack, pack_unpack. now rewrite U.
  - intros s. unfold _pack_unpack1, pack_unpack. now rewrite U.
Qed.

Lemma read_suffix_count_only cfg (t t' : ascii) :
  forall s indigits n count flags,
    Forall count_character s ->
    read_suffix cfg t s indigits n count flags
    = read_suffix cfg t' s indigits n count flags.
Proof.
  induction s as [| ch s IH]; intros indigits n count flags Hs;
    [reflexivity |].
  pose proof (Forall_inv Hs) as Hch. pose proof (Forall_inv_tail Hs) as Hs'.
  cbn [read_suffix]. destruct Hch as [Hd | ->].
  - rewrite Hd. destruct indigits; [destruct (_ <? 0); [reflexivity |] |];
      now apply IH.
  - cbn [isdigit]. change (isdigit "*") with false.
    change (Ascii.eqb "*" "*") with true. cbv iota. now apply IH.
Qed.

Lemma read_suffix_count_consumed cfg (t : ascii) :
  forall s indigits n count flags n' count' flags',
    Forall count_character s ->
    read_suffix cfg t s indigits n count flags = Ok (n', count', flags') ->
    n' = n + Z.of_nat (List.length s) /\ flags' = flags.
Proof.
  induction s as [| ch s IH]; intros indigits n count flags n' count' flags' Hs.
  - cbn [read_suffix List.length]. intros [= <- _ <-]. split; [lia | auto].
  - pose proof (Forall_inv Hs) as Hch. pose proof (Forall_inv_tail Hs) as Hs'.
    cbn [read_suffix List.length]. destruct Hch as [Hd | ->].
    + rewrite Hd.
      destruct indigits; [destruct (_ <? 0); [discriminate |] |];
        intros H; apply IH in H; auto; destruct H as [-> ->]; split; lia || auto.
    + change (isdigit "*") with false. change (Ascii.eqb "*" "*") with true.
      cbv iota. intros H; apply IH in H; auto.
      destruct H as [-> ->]; split; lia || auto.
Qed.

(** A directive letter and a modifier that mean the letter [u]. *)
Lemma same_directive_modifier cfg (t m u : ascii) (cnt : string)
  (d : pack_dir) (ty : pack_type) (sz : Z) :
  strchr "sSiIlLqQ" t = true -> strchr "Ii" t = false ->
  strchr "Ii" u = false ->
  isdigit t = false -> t <> "*"%char -> is_modifier t = false ->
  isdigit u = false -> u <> "*"%char -> is_modifier u = false ->
  (m = "<"%char \/ m = ">"%char) ->
  directive_of t = (d, ty, sz, 0) ->
  directive_of u
  = (d, ty, sz, if Ascii.eqb m "<" then PACK_FLAG_LT else PACK_FLAG_GT) ->
  Forall count_character (list_ascii_of_string cnt) ->
  same_directive cfg (String t (String m cnt)) (String u cnt).
Proof.
  intros Ht Hti Hui T1 T2 T3 U1 U2 U3 Hm Dt Du Hc.
  split; [discriminate |]. split; [discriminate |].
  split; [cbn; auto |]. split; [cbn; auto |].
  intros rest Hr.
  set (f := if Ascii.eqb m "<" then PACK_FLAG_LT else PACK_FLAG_GT) in *.
  exists ('(n, c, f') <-
            read_suffix cfg u (list_ascii_of_string cnt) false 1 1 f ;;
          Ok {| dir := d; type := ty; size := sz; count := c;
                flags := resolve_endian cfg f' |}).
  assert (At : resolve_alias cfg t = Ok t).
  { revert Hti. clear. destruct t as [[] [] [] [] [] [] [] []]; intros H;
      first [discriminate H | reflexivity]. }
  assert (Au : resolve_alias cfg u = Ok u).
  { revert Hui. clear. destruct u as [[] [] [] [] [] [] [] []]; intros H;
      first [discriminate H | reflexivity]. }
  split.
  - unfold read_tmpl, prepare_tmpl, tptr.
    cbn [append str idx list_ascii_of_string].
    change (Z.to_nat 0) with 0%nat. cbn [nth]. rewrite At. cbn [bind].
    rewrite Dt. change (Z.to_nat (0 + 1)) with 1%nat. cbn [skipn].
    cbn [read_suffix].
    assert (M : isdigit m = false /\ Ascii.eqb m "*" = false
                /\ is_modifier m = true
                /\ Ascii.eqb m "_" || Ascii.eqb m "!" = false)
      by (destruct Hm as [-> | ->]; repeat split; reflexivity).
    destruct M as (M1 & M2 & M3 & M4). rewrite M1, M2, M3, M4, Ht.
    cbn [negb].
    replace (if Ascii.eqb m "<"
             then read_suffix cfg t (list_ascii_of_string (cnt ++ rest)) false
                    (0 + 1 + 1) 1 (Z.lor 0 PACK_FLAG_LT)
             else read_suffix cfg t (list_ascii_of_string (cnt ++ rest)) false
                    (0 + 1 + 1) 1 (Z.lor 0 PACK_FLAG_GT))
      with (read_suffix cfg t (list_ascii_of_string (cnt ++ rest)) false
              (1 + 1) 1 f)
      by (subst f; destruct (Ascii.eqb m "<"); reflexivity).
    rewrite list_ascii_app, read_suffix_app by assumption.
    rewrite (read_suffix_count_only cfg t u) by assumption.
    rewrite read_suffix_shift.
    destruct (read_suffix cfg u (list_ascii_of_string cnt) false 1 1 f)
      as [[[n c] f'] | | |] eqn:E; cbn [bind]; try reflexivity.
    apply read_suffix_count_consumed in E; [| assumption].
    destruct E as [-> _]. rewrite list_ascii_length.
    cbn [String.length]. repeat f_equal. lia.
  - unfold read_tmpl, prepare_tmpl, tptr.
    cbn [append str idx list_ascii_of_string].
    change (Z.to_nat 0) with 0%nat. cbn [nth]. rewrite Au. cbn [bind].
    rewrite Du. change (Z.to_nat (0 + 1)) with 1%nat. cbn [skipn].
    fold f. change (0 + 1) with 1.
    rewrite list_ascii_app, read_suffix_app by assumption.
    destruct (read_suffix cfg u (list_ascii_of_string cnt) false 1 1 f)
      as [[[n c] f'] | | |] eqn:E; cbn [bind]; try reflexivity.
    apply read_suffix_count_consumed in E; [| assumption].
    destruct E as [-> _]. rewrite list_ascii_length.
    cbn [String.length]. repeat f_equal. lia.
Qed.

Lemma endian_aliases_same cfg (a b cnt : string) :
  In (a, b) endian_aliases ->
  Forall count_character (list_ascii_of_string cnt) ->
  same_directive cfg (a ++ cnt) (b ++ cnt).
Proof.
  intros Hab Hc. cbn in Hab.
  destruct Hab as [E | [E | [E | [E | []]]]]; injection E as <- <-;
    cbn [append];
    eapply (same_directive_modifier cfg);
    first [ reflexivity | discriminate | left; reflexivity
          | right; reflexivity | assumption ].
Qed.

(** X25. The byte-order modifiers and the letters that stand for them.
    After any beginning of a template, [S>], [S<], [L>] and [L<], followed
    by a count or not and then by the end of the template or by a character
    that is no digit, star or modifier, are read as [n], [v], [N] and [V]
    with that count: [pack], [unpack] and [unpack1] return the same value
    or raise the same error for the two spellings. *)
Theorem endian_modifier_spellings_agree :
  forall cfg a b cnt t1 t2,
    In (a, b) endian_aliases ->
    Forall count_character (list_ascii_of_string cnt) ->
    ends_suffix (list_ascii_of_string t2) ->
    (forall ary,
       _pack_pack cfg ary (t1 ++ (a ++ cnt) ++ t2)
       = _pack_pack cfg ary (t1 ++ (b ++ cnt) ++ t2)) /\
    (forall s,
       _pack_unpack cfg s (t1 ++ (a ++ cnt) ++ t2)
       = _pack_unpack cfg s (t1 ++ (b ++ cnt) ++ t2)) /\
    (forall s,
       _pack_unpack1 cfg s (t1 ++ (a ++ cnt) ++ t2)
       = _pack_unpack1 cfg s (t1 ++ (b ++ cnt) ++ t2)).
Proof.
  intros cfg a b cnt t1 t2 Hab Hc Ht2.
  apply (spellings_agree cfg (fun d => d)); auto.
  now apply endian_aliases_same.
Qed.

Lemma endian_modifier_spellings_agree_witness :
  _pack_pack cfg64 [fixnum_value 1; fixnum_value 2; fixnum_value 3]
    ("C" ++ ("L>" ++ "2") ++ "")
  = _pack_pack cfg64 [fixnum_value 1; fixnum_value 2; fixnum_value 3]
      ("C" ++ ("N" ++ "2") ++ "").
Proof.
  destruct (endian_modifier_spellings_agree cfg64 "L>" "N" "2" "C" "")
    as (H & _).
  - cbn. tauto.
  - repeat constructor.
  - exact I.
  - apply H.
Defined.

Lemma read_suffix_all_consumed cfg (t : ascii) :
  forall s indigits n count flags n' count' flags',
    Forall suffix_character s ->
    read_suffix cfg t s indigits n count flags = Ok (n', count', flags') ->
    n' = n + Z.of_nat (List.length s).
Proof.
  induction s as [| ch s IH]; intros indigits n count flags n' count' flags' Hs.
  - cbn [read_suffix List.length]. intros [= <- _ _]. lia.
  - pose proof (Forall_inv Hs) as Hch. pose proof (Forall_inv_tail Hs) as Hs'.
    cbn [read_suffix List.length].
    destruct (isdigit ch) eqn:Hd.
    + destruct indigits; [destruct (_ <? 0); [discriminate |] |];
        intros H; apply IH in H; auto; lia.
    + destruct (Ascii.eqb_spec ch "*") as [-> | Ns].
      * intros H; apply IH in H; auto; lia.
      * destruct Hch as [Hx | [Hx | Hx]]; [congruence | congruence |].
        rewrite Hx. destruct (negb _); [discriminate |].
        destruct (_ || _); [intros H; apply IH in H; auto; lia |].
        destruct (Ascii.eqb ch "<"); intros H; apply IH in H; auto; lia.
Qed.

(** The letters [I] and [i] and the letter that [resolve_alias] puts in their
    place. *)
Lemma same_directive_alias cfg (t u : ascii) (sfx : string) :
  resolve_alias cfg t = Ok u -> resolve_alias cfg u = Ok u ->
  isdigit t = false -> t <> "*"%char -> is_modifier t = false ->
  isdigit u = false -> u <> "*"%char -> is_modifier u = false ->
  Forall suffix_character (list_ascii_of_string sfx) ->
  same_directive cfg (String t sfx) (String u sfx).
Proof.
  intros At Au T1 T2 T3 U1 U2 U3 Hs.
  split; [discriminate |]. split; [discriminate |].
  split; [cbn; auto |]. split; [cbn; auto |].
  intros rest Hr.
  destruct (directive_of u) as [[[d ty] sz] fl] eqn:Du.
  exists ('(n, c, f') <-
            read_suffix cfg u (list_ascii_of_string sfx) false 1 1 fl ;;
          Ok {| dir := d; type := ty; size := sz; count := c;
                flags := resolve_endian cfg f' |}).
  assert (R : forall x : ascii,
            resolve_alias cfg x = Ok u ->
            read_tmpl cfg (prepare_tmpl (String x sfx ++ rest))
            = (d0 <-
                 ('(n, c, f') <-
                    read_suffix cfg u (list_ascii_of_string sfx) false 1 1 fl ;;
                  Ok {| dir := d; type := ty; size := sz; count := c;
                        flags := resolve_endian cfg f' |}) ;;
               Ok ({| str := String x sfx ++ rest;
                      idx := Z.of_nat (String.length (String x sfx)) |}, d0))).
  { intros x Ax. unfold read_tmpl, prepare_tmpl, tptr.
    cbn [append str idx list_ascii_of_string].
    change (Z.to_nat 0) with 0%nat. cbn [nth]. rewrite Ax. cbn [bind].
    rewrite Du. change (Z.to_nat (0 + 1)) with 1%nat. cbn [skipn].
    change (0 + 1) with 1.
    rewrite list_ascii_app, read_suffix_app by assumption.
    destruct (read_suffix cfg u (list_ascii_of_string sfx) false 1 1 fl)
      as [[[n c] f'] | | |] eqn:E; cbn [bind]; try reflexivity.
    apply read_suffix_all_consumed in E; [| assumption].
    subst n. rewrite list_ascii_length.
    cbn [String.length]. repeat f_equal. lia. }
  split; [apply (R t At) | apply (R u Au)].
Qed.

Lemma native_aliases_same cfg (a b sfx : string) :
  In (a, b) (native_aliases cfg) ->
  Forall suffix_character (list_ascii_of_string sfx) ->
  same_directive cfg (a ++ sfx) (b ++ sfx).
Proof.
  unfold native_aliases. intros Hab Hs.
  destruct (Z.eqb_spec (sizeof_int cfg) 2) as [E2 | N2];
    [| destruct (Z.eqb_spec (sizeof_int cfg) 4) as [E4 | N4];
       [| destruct (Z.eqb_spec (sizeof_int cfg) 8) as [E8 | N8];
          [| destruct Hab]]];
    destruct Hab as [E | [E | []]]; injection E as <- <-; cbn [append];
    apply same_directive_alias;
    first [ assumption | discriminate
          | unfold resolve_alias;
            rewrite ?E2, ?E4, ?E8; reflexivity
          | reflexivity ].
Qed.

(** X26. [I] and [i] stand for the letters of the size of [int].  After any
    beginning of a template, [I] and [i] with their counts and modifiers,
    followed by the end of the template or by a character that is no digit,
    star or modifier, are read as [L] and [l] where [int] has four bytes, as
    [Q] and [q] where it has eight and as [S] and [s] where it has two:
    [pack], [unpack] and [unpack1] return the same value or raise the same
    error for the two spellings. *)
Theorem native_int_spellings_agree :
  forall cfg a b sfx t1 t2,
    In (a, b) (native_aliases cfg) ->
    Forall suffix_character (list_ascii_of_string sfx) ->
    ends_suffix (list_ascii_of_string t2) ->
    (forall ary,
       _pack_pack cfg ary (t1 ++ (a ++ sfx) ++ t2)
       = _pack_pack cfg ary (t1 ++ (b ++ sfx) ++ t2)) /\
    (forall s,
       _pack_unpack cfg s (t1 ++ (a ++ sfx) ++ t2)
       = _pack_unpack cfg s (t1 ++ (b ++ sfx) ++ t2)) /\
    (forall s,
       _pack_unpack1 cfg s (t1 ++ (a ++ sfx) ++ t2)
       = _pack_unpack1 cfg s (t1 ++ (b ++ sfx) ++ t2)).
Proof.
  intros cfg a b sfx t1 t2 Hab Hc Ht2.
  apply (spellings_agree cfg (fun d => d)); auto.
  now apply native_aliases_same.
Qed.

Lemma native_int_spellings_agree_witness :
  _pack_unpack cfg64 [1; 2; 3; 4; 5; 6; 7; 8; 9] ("C" ++ ("i" ++ "_>2") ++ "")
  = _pack_unpack cfg64 [1; 2; 3; 4; 5; 6; 7; 8; 9]
      ("C" ++ ("l" ++ "_>2") ++ "").
Proof.
  destruct (native_int_spellings_agree cfg64 "i" "l" "_>2" "C" "")
    as (_ & H & _).
  - cbn. tauto.
  - constructor; [right; right; reflexivity |].
    constructor; [right; right; reflexivity |].
    constructor; [left; reflexivity | constructor].
  - exact I.
  - apply H.
Defined.

(** ** The modifiers of the native size *)

Lemma lor_swap (a b c : Z) : Z.lor (Z.lor a b) c = Z.lor (Z.lor a c) b.
Proof.
  rewrite <- (Z.lor_assoc a b c), <- (Z.lor_assoc a c b).
  f_equal. apply Z.lor_comm.
Qed.

Lemma read_suffix_native cfg (t : ascii) :
  forall s indigits n count fl,
    read_suffix cfg t s indigits n count (Z.lor fl PACK_FLAG_s) =
    '(n', count', fl') <- read_suffix cfg t s indigits n count fl ;;
    Ok (n', count', Z.lor fl' PACK_FLAG_s).
Proof.
  induction s as [| ch s IH]; intros indigits n count fl;
    cbn [read_suffix]; [reflexivity |].
  destruct (isdigit ch).
  - destruct indigits; [destruct (_ <? 0); [reflexivity |] |]; apply IH.
  - destruct (Ascii.eqb ch "*"); [apply IH |].
    destruct (is_modifier ch); [| reflexivity].
    destruct (negb _); [reflexivity |].
    destruct (_ || _); [apply IH |].
    destruct (Ascii.eqb ch "<"); rewrite lor_swap; apply IH.
Qed.

Lemma resolve_endian_native cfg (fl : Z) :
  resolve_endian cfg (Z.lor fl PACK_FLAG_s)
  = Z.lor (resolve_endian cfg fl) PACK_FLAG_s.
Proof.
  unfold resolve_endian. drop_native.
  destruct (_ || _); [apply lor_swap | reflexivity].
Qed.

Lemma integer_letter_no_suffix (t : ascii) :
  In t (list_ascii_of_string "sSiIlLqQ") ->
  strchr "sSiIlLqQ" t = true /\
  isdigit t = false /\ t <> "*"%char /\ is_modifier t = false.
Proof.
  intros H. cbn in H.
  repeat (destruct H as [<- | H];
          [repeat split; (reflexivity || discriminate) |]).
  destruct H.
Qed.

Lemma read_alike_native cfg (t m : ascii) (sfx : string) :
  In t (list_ascii_of_string "sSiIlLqQ") ->
  m = "_"%char \/ m = "!"%char ->
  Forall suffix_character (list_ascii_of_string sfx) ->
  read_alike cfg with_native (String t (String m sfx)) (String t sfx).
Proof.
  intros Ht Hm Hs.
  destruct (integer_letter_no_suffix t Ht) as (_ & T1 & T2 & T3).
  split; [discriminate |]. split; [discriminate |].
  split; [cbn; auto |]. split; [cbn; auto |].
  intros rest Hr.
  exists (u <- resolve_alias cfg t ;;
          let '(d, ty, sz, fl) := directive_of u in
          '(n, c, f') <-
            read_suffix cfg u (list_ascii_of_string sfx) false 1 1 fl ;;
          Ok {| dir := d; type := ty; size := sz; count := c;
                flags := resolve_endian cfg f' |}).
  split.
  - unfold read_tmpl, prepare_tmpl, tptr.
    cbn [append str idx list_ascii_of_string].
    change (Z.to_nat 0) with 0%nat. cbn [nth].
    destruct (resolve_alias cfg t) as [u | | |] eqn:Ea; cbn [bind];
      try reflexivity.
    pose proof (resolve_alias_stays_integer cfg t u Ht Ea) as Hu.
    destruct (directive_of u) as [[[d ty] sz] fl].
    change (Z.to_nat (0 + 1)) with 1%nat. cbn [skipn read_suffix].
    assert (M : isdigit m = false /\ Ascii.eqb m "*" = false
                /\ is_modifier m = true
                /\ Ascii.eqb m "_" || Ascii.eqb m "!" = true)
      by (destruct Hm as [-> | ->]; repeat split; reflexivity).
    destruct M as (M1 & M2 & M3 & M4). rewrite M1, M2, M3, M4, Hu.
    cbn [negb]. change (0 + 1 + 1) with (1 + 1).
    rewrite list_ascii_app, read_suffix_app by assumption.
    rewrite read_suffix_native, read_suffix_shift.
    destruct (read_suffix cfg u (list_ascii_of_string sfx) false 1 1 fl)
      as [[[n c] f'] | | |] eqn:E; cbn [bind]; try reflexivity.
    apply read_suffix_all_consumed in E; [| assumption].
    subst n. rewrite list_ascii_length, resolve_endian_native.
    unfold with_native. cbn [dir type size count flags String.length].
    repeat f_equal. lia.
  - unfold read_tmpl, prepare_tmpl, tptr.
    cbn [append str idx list_ascii_of_string].
    change (Z.to_nat 0) with 0%nat. cbn [nth].
    destruct (resolve_alias cfg t) as [u | | |] eqn:Ea; cbn [bind];
      try reflexivity.
    destruct (directive_of u) as [[[d ty] sz] fl].
    change (Z.to_nat (0 + 1)) with 1%nat. cbn [skipn].
    change (0 + 1) with 1.
    rewrite list_ascii_app, read_suffix_app by assumption.
    destruct (read_suffix cfg u (list_ascii_of_string sfx) false 1 1 fl)
      as [[[n c] f'] | | |] eqn:E; cbn [bind]; try reflexivity.
    apply read_suffix_all_consumed in E; [| assumption].
    subst n. rewrite list_ascii_length.
    cbn [String.length]. repeat f_equal. lia.
Qed.

(** X27. The modifiers [_] and [!] change nothing.  After any beginning of a
    template, a letter of [sSiIlLqQ] followed by [_] or [!], by the rest of
    its count and modifiers, and then by the end of the template or by a
    character that is no digit, star or modifier, is read as without the
    [_] or [!]: the flag of the native size that they set is read nowhere,
    so [pack], [unpack] and [unpack1] return the same value or raise the
    same error, and [s_] is as wide as [s]. *)
Theorem native_size_modifiers_change_nothing :
  forall cfg t m sfx t1 t2,
    In t (list_ascii_of_string "sSiIlLqQ") ->
    m = "_"%char \/ m = "!"%char ->
    Forall suffix_character (list_ascii_of_string sfx) ->
    ends_suffix (list_ascii_of_string t2) ->
    (forall ary,
       _pack_pack cfg ary (t1 ++ String t (String m sfx) ++ t2)
       = _pack_pack cfg ary (t1 ++ String t sfx ++ t2)) /\
    (forall s,
       _pack_unpack cfg s (t1 ++ String t (String m sfx) ++ t2)
       = _pack_unpack cfg s (t1 ++ String t sfx ++ t2)) /\
    (forall s,
       _pack_unpack1 cfg s (t1 ++ String t (String m sfx) ++ t2)
       = _pack_unpack1 cfg s (t1 ++ String t sfx ++ t2)).
Proof.
  intros cfg t m sfx t1 t2 Ht Hm Hs Ht2.
  apply (spellings_agree cfg with_native); auto.
  now apply read_alike_native.
Qed.

Lemma native_size_modifiers_change_nothing_witness :
  _pack_pack cfg64 [fixnum_value 1; fixnum_value 258] ("C" ++ "l_<" ++ "")
  = _pack_pack cfg64 [fixnum_value 1; fixnum_value 258] ("C" ++ "l<" ++ "").
Proof.
  destruct (native_size_modifiers_change_nothing cfg64 "l" "_" "<" "C" "")
    as (H & _).
  - cbn. tauto.
  - left. reflexivity.
  - constructor; [right; right; reflexivity | constructor].
  - exact I.
  - apply H.
Defined.
